(* ===== verification/_CoqProject ===== *)
-Q . S2P
Prelude.v
NetAddr.v
GoStrings.v
RuleContext.v
RuleItems.v
RuleEngine.v
RuleSpec.v
RulePreMatch.v
RuleExamples.v
RuleTheorems.v
FakeIP.v
FakeIPProofs.v
Binary.v
RuleSetOptions.v
Srs.v
SrsProofs.v
SrsTheorems.v
RuleBuild.v
RuleBuildProofs.v
RuleSetTheorems.v
RuleSetStore.v
RuleSetStoreProofs.v
Managers.v
ManagersProofs.v
Groups.v
GroupsProofs.v
LoadBalance.v
LoadBalanceProofs.v
RuleAction.v
Ja3.v
Ja3Proofs.v
Sniffers.v
Quic.v
SniffersProofs.v
SniffExamples.v
QuicProofs.v
ExpiringMap.v
NATConn.v
Router.v
RouterProofs.v
SniffTheorems.v
Bolt.v
CacheFile.v
CacheFileProofs.v
FakeIPFile.v
DNSCacheProofs.v
StorageProofs.v
DNSRouter.v
DNSRouterProofs.v
DNSMessage.v
DNSClient.v
DNSMessageProofs.v
DNSKeyProofs.v
DNSClientProofs.v
DNSAnswerProofs.v
DNSLockProofs.v
DNSStore.v
DNSClientTheorems.v
NetConn.v
TLSFragment.v
TLSFragmentProofs.v
FragmentTheorems.v
Trojan.v
TrojanProofs.v
Geosite.v
GeositeProofs.v
AdGuard.v
AdGuardProofs.v
