(* ===== verification/Prelude.v ===== *)
(** A verification of the core of sing-box: how rules match, how rule sets are
    stored and shared, how connections and DNS queries are routed, how DNS answers
    are cached, how fake addresses are handed out, how outbounds are managed and
    chosen, how client hellos are fragmented, the Trojan protocol, and lists of rules
    in other formats.

    * The program

    A connection arrives at an inbound and becomes metadata.  The router
    (src/route) goes through its rules: an action of a rule that matches may sniff
    the connection, resolve its destination, change options, or end the search by
    naming an outbound, rejecting or hijacking it.  Sniffers (src/common/sniff) tell
    the protocol and the host from the first data.  Rules (src/route/rule) are made
    of items grouped by what they look at, and may refer to rule sets, which are
    read from a binary format (src/common/srs) and shared with counted references.
    The DNS router (src/dns) matches rules of its own on queries, before a lookup
    when the addresses are not known yet, or on the responses of evaluated servers;
    one of its servers hands out fake addresses (src/dns/transport/fakeip).  The DNS
    client (src/dns/client.go) sends a query to a server or answers it from its
    cache, in memory or in the cache file.
    Outbounds are started and removed by managers (src/adapter) and combined by
    groups (src/protocol/group).  What is to outlive a restart (selections, rule
    sets, DNS answers, fake addresses) is kept in a cache file
    (src/experimental/cachefile).  An outbound may cut the client hello it sends at
    the server name (src/common/tlsfragment), or speak the Trojan protocol
    (src/transport/trojan), whose service admits users by the key a connection starts
    with.  AdGuard lists (src/common/convertor/adguard) and the older geosite files
    (src/common/geosite) are converted to rules.

    * The files

    - This file: the result type of fallible code ([res], with Go's panics as
      values), machine integers with their wrap-around, slices and indexing, the
      tactics and hints of the development.
    - [NetAddr], [GoStrings], [Binary]: the parts of net/netip, strings, strconv
      and encoding/binary the code uses.
    - [RuleContext], [RuleItems], [RuleEngine]: the metadata, every rule item with
      its constructor, [Match] and [String], and the engine of
      src/route/rule/rule_abstract.go, match_state.go, rule_item_rule_set.go and
      rule_dns.go, with the metadata a [Match] writes to passed along.
    - [RuleSpec], [RulePreMatch], [RuleTheorems]: the meaning of a rule as a
      boolean, and as three values while addresses are unknown; the engine computes
      it.  [RuleExamples] has concrete rules and an instance of the packages.
    - [RuleSetOptions], [Srs], [SrsProofs], [SrsTheorems]: the options of rule sets
      and their binary format.  [RuleBuild], [RuleBuildProofs], [RuleSetTheorems]:
      building rules from options (src/route/rule/rule_headless.go) and the way
      from a source rule set through its compiled form back to rules.
    - [RuleSetStore], [RuleSetStoreProofs]: rule sets as shared objects.
    - [Ja3], [Ja3Proofs], [Sniffers], [SniffersProofs], [Quic], [QuicProofs]: the
      sniffers of src/common/sniff and the parser of client hellos of
      src/common/ja3, which a reference encoder of this development is read by;
      [SniffExamples] instantiates the ciphers.  [SniffTheorems]: sniffers run by
      the router on a stream that arrives in pieces.
    - [RuleAction], [ExpiringMap], [Router], [RouterProofs]: src/route/route.go
      with actions, sniffing loops, the cache of QUIC names, [matchRule],
      [PreMatch], [routeConnection] and [routePacketConnection].  What is read from
      a connection is a list of events.  [NATConn]: the addresses of packets whose
      destination was replaced (src/route/fakeip_conn.go).
    - [DNSRouter], [DNSRouterProofs]: src/dns/router.go, [exchangeLegacy] and
      [exchangeWithRules] with futures, races and speculation.  Each test whether a
      future is done takes place at a later moment; [done_at] says when it is.
    - [DNSMessage], [DNSClient]: src/dns/client.go and extension_edns0_subnet.go:
      fixed responses, subnets, lifetimes, rotation and keys; then the client, whose
      cached messages are objects of a heap and whose queries, refreshes and waits on
      channels are calls of a [client_world] that go on in any order, each step being
      what one call does between two points where others can run.  The client uses
      the cache file through the class [AnswerStore].  [DNSMessageProofs],
      [DNSKeyProofs], [DNSClientProofs]: messages, the names of keys in the file,
      lifetimes.  [DNSAnswerProofs], [DNSLockProofs]: the invariants of a
      [client_world] on where answers come from and who holds a lock.  [DNSStore]:
      the cache file with its writers is an [AnswerStore].  [DNSClientTheorems]: the
      client as a whole, and a run of it over the cache file.
    - [FakeIP], [FakeIPProofs]: the store of fake addresses, against an interface
      of its storage, with the steps of concurrent callers.  The laws of the interface
      allow every operation to fail, and the contents to be lost; memory and, in
      [FakeIPFile], the cache file keep them.
    - [Bolt], [CacheFile]: the database go.etcd.io/bbolt as an interface with an
      instance in memory, and the operations of src/experimental/cachefile on it,
      one transaction each; a goroutine that writes a pending DNS answer is a
      [flusher], stepped between other operations.  [CacheFileProofs]: saved rule
      sets, and fake addresses over a restart.  [DNSCacheProofs]:
      interleavings of saves, writers, deletions and cleanups.  [StorageProofs]:
      the bounded storage.
    - [Managers], [ManagersProofs]: src/adapter/{inbound,outbound,endpoint,service}.
    - [Groups], [GroupsProofs], [LoadBalance], [LoadBalanceProofs]: selector, URL
      test and load balance groups; double arithmetic is rounded explicitly.
    - [NetConn]: a connection that is written to, whose operations may fail.
      [TLSFragment]: the search for the server name (index.go of
      src/common/tlsfragment), the cuts, which random numbers decide, and the writes
      (conn.go).  [TLSFragmentProofs], [FragmentTheorems]: the search, and what a peer
      receives.
    - [Trojan], [TrojanProofs]: protocol.go and service.go of src/transport/trojan;
      concurrent calls of [ClientPacketConn.WritePacket] are [writer]s that step in
      any order.
    - [Geosite], [GeositeProofs]: the writer, the reader and the rules of
      src/common/geosite.
    - [AdGuard], [AdGuardProofs]: the lines of an AdGuard list, the options they are
      converted to and back; the rules built of them by [RuleBuild] are evaluated.

    Definitions keep the names of the source; a method [m] of [T] is [T_m] where
    [m] alone would be ambiguous.  A loop of the source is a definition of its own,
    named after the function.

    * What is shown

    - Rules: [Match] returns the boolean meaning of any rule and leaves the metadata
      alone; for rules that do not mix domain and address items in a group, the match
      before a DNS lookup neither rejects a rule some response
      satisfies nor accepts finally one that a response does not; what default rules
      and references to rule sets mean in terms of items.
    - Rule sets: reading terminates on every input and panics only if one of the
      packages it calls does; what is written is
      read back; a version is refused exactly when an item needs a later one; from
      version 2 on, a compiled rule set without domain match strategies matches like its
      source; reference counts are exact.
    - Router: the first enabled rule that matches decides, if no action changes what
      is matched; a connection only goes to
      an outbound an enabled rule names and that carries its network; routing does
      not panic but for the QUIC sniffer; with one sniff rule the stream handed on is
      the stream received, and the datagrams are those received, the ones read ahead
      latest first, with addresses translated there and back; matching before a connection exists agrees with matching the connection;
      rejections become drops exactly under a flood.
    - Fragments: the server name is found at its index in every client hello; whatever
      is cut and whichever operation fails, what is sent is a part of the hello, or of
      records that carry its data, and all of it without an error.
    - Trojan: a connection goes to the user of its key and to none else, or with all
      its bytes to the fallback; a stream and the datagrams of concurrent writers
      arrive as they were sent.
    - Other formats: a geosite file is read back as it was written; a converted AdGuard
      list matches by the precedence of exceptions and important rules.
    - Sniffers: a client hello cut into crypto frames over several QUIC packets is
      put together and its server name found; a QUIC packet that is not is refused
      or asks for more; how a stream is cut into reads does not change what the DNS,
      BitTorrent, SSH and RDP sniffers find, but for the name of an SSH client.
    - DNS: the answer is that of evaluating the rules in order, whenever concurrent
      evaluations finish; matching before the lookup takes one pass.
    - DNS client: however queries interleave, a result is a fixed response, an error,
      the response of the query's own transport, or what the same transport answered
      earlier to the same question, within its lifetime or the time stale answers are
      allowed; an accepted answer is served again as long as its entry is kept; queries for one key neither run
      twice nor wait forever, and none panics; keys of the file are distinct,
      lifetimes within the limits, rotation fair.
    - Fake addresses, in ranges with room for one: domains and addresses stay in
      bijection even when the storage fails, within the ranges if a reset at the start
      succeeds; concurrent callers agree when stores succeed; in both families no
      address is reused before the range is used up.
    - Cache file: the DNS answer loaded is the one saved last, however its writers
      interleave; saved rule sets are loaded again; a restart keeps fake addresses;
      the storage stays within its limits and drops the oldest values first.
    - Managers and groups: start order, registration, the choice by delay, fallback,
      membership, remembered selections, scheduled checks, consistent hashing,
      fairness and avoidance of dead members.

    Each property has an evaluation at a concrete input.  Examples at the end of
    a file's groups show inputs on which the code does not do what it means to.

    * Bounds

    [OutOfFuel] marks a loop that ran out of rounds, and theorems show that it does
    not come up: the fuel of the rule set reader, the length of its input, is enough
    for every input; the number of buckets bounds the rounds of jump hashing; one
    round per rule is enough for the legacy DNS exchange, three per rule and two
    more for the walk with futures; the length of the extensions is enough for the search
    for a server name in less than 64 KiB, and the length of a geosite file to read it.  The loops that sniff end with the list of
    events, as every read has a deadline.

    * Not modelled

    Network and file access with the opening and repair of the cache file at the
    start, wire protocols other than Trojan and its multiplexing, TLS other than
    fragmentation, the geoip database, DNS transports, providers, control interfaces, the daemon,
    JSON decoding and logging: they are input and output around the
    modelled decisions, or adapters over libraries.  A deadline of a DNS query is an
    error of its transport, or the end of waiting for another query; truncated
    responses and alias chains of the DNS client are left out.  Of the DNS router, the lookup
    of addresses, the detection of the legacy mode, the following of predefined
    aliases and cancellation are left out; of the router, trackers.  Third-party packages (domain tries, regular expressions,
    IP sets, compression, hashing, ciphers, message parsers) are fields of type classes, with what is relied
    on stated as laws of the class and an instance that satisfies them. *)

From stdpp Require Export base strings list gmap.
From coqutil Require Export Datatypes.RecordSetters.
Export TriangleBracketNotations.
From Stdlib Require Export ZArith Lia Ascii.

#[export] Set Default Goal Selector "!".
#[global] Open Scope Z_scope.

(** * Errors and outcomes

    A Go function that returns [(T, error)] is modelled by [res T].  [Panic]
    is a run-time panic (explicit [panic], nil dereference, index or slice
    bound); [OutOfFuel] is not a behaviour of the program but the marker of a
    bounded model of a loop, and theorems exclude it explicitly. *)

Inductive error :=
| EOF
| ErrUnexpectedEOF
| ErrInvalid
| ErrOverflow
| ENew (message : string)
| ECause (cause : error) (message : string)
| ECause1 (e cause : error).

Inductive res (A : Type) :=
| Ok (a : A)
| Err (e : error)
| Panic (message : string)
| OutOfFuel.
Arguments Ok {A} a.
Arguments Err {A} e.
Arguments Panic {A} message.
Arguments OutOfFuel {A}.

#[export] Instance error_eq_dec : EqDecision error.
Proof. solve_decision. Defined.

Definition res_bind {A B} (m : res A) (k : A -> res B) : res B :=
  match m with
  | Ok a => k a
  | Err e => Err e
  | Panic s => Panic s
  | OutOfFuel => OutOfFuel
  end.

(** [E.Cause(err, message)] on the error branch of a call. *)
Definition res_cause {A} (message : string) (m : res A) : res A :=
  match m with
  | Err e => Err (ECause e message)
  | _ => m
  end.

Definition res_of_option {A} (e : error) (o : option A) : res A :=
  match o with Some a => Ok a | None => Err e end.

Declare Scope go_scope.
Delimit Scope go_scope with go.
#[global] Open Scope go_scope.

Notation "'let!' x ':=' c 'in' k" := (res_bind c (fun x => k))
  (at level 200, x name, c at level 100, k at level 200, right associativity) : go_scope.
Notation "'let!' ' p ':=' c 'in' k" := (res_bind c (fun x => match x with p => k end))
  (at level 200, p strict pattern, c at level 100, k at level 200, right associativity) : go_scope.

Definition is_ok {A} (m : res A) : bool :=
  match m with Ok _ => true | _ => false end.

(** A loop [for i, x := range l { y, err := f(x); if err != nil { return err } }]
    collecting the results. *)
Fixpoint res_map {A B} (f : A -> res B) (l : list A) : res (list B) :=
  match l with
  | [] => Ok []
  | x :: l' => let! y := f x in let! ys := res_map f l' in Ok (y :: ys)
  end.

Lemma res_bind_ok {A B} (m : res A) (k : A -> res B) b :
  res_bind m k = Ok b <-> exists a, m = Ok a /\ k a = Ok b.
Proof.
  destruct m; cbn; split.
  - intros H; exists a; auto.
  - intros [a' [H1 H2]]. congruence.
  - discriminate.
  - intros [a' [H1 _]]. discriminate.
  - discriminate.
  - intros [a' [H1 _]]. discriminate.
  - discriminate.
  - intros [a' [H1 _]]. discriminate.
Qed.

Lemma res_bind_fuel {A B} (m : res A) (k : A -> res B) :
  m <> OutOfFuel -> (forall a, m = Ok a -> k a <> OutOfFuel) -> res_bind m k <> OutOfFuel.
Proof. destruct m; cbn; auto; congruence. Qed.

Lemma res_map_length {A B} (f : A -> res B) l ys :
  res_map f l = Ok ys -> length ys = length l.
Proof.
  revert ys; induction l as [|x l IH]; intros ys; cbn.
  - intros [= <-]; reflexivity.
  - rewrite res_bind_ok; intros (y & _ & H).
    apply res_bind_ok in H as (ys' & H1 & [= <-]). cbn. f_equal. auto.
Qed.

(** * Machine integers

    A [w]-bit unsigned integer is a [Z] in [0, 2^w); arithmetic that can leave
    the range is wrapped explicitly. *)

Definition wrap (w x : Z) : Z := x mod 2 ^ w.
Notation u8 := (wrap 8).
Notation u16 := (wrap 16).
Notation u32 := (wrap 32).
Notation u64 := (wrap 64).

Definition is_u (w x : Z) : Prop := 0 <= x < 2 ^ w.
Notation is_byte := (is_u 8).

(** [x &^ y] on [w]-bit operands. *)
Definition andnot (x y : Z) : Z := Z.ldiff x y.

Lemma wrap_small w x : is_u w x -> wrap w x = x.
Proof. intros H. unfold wrap. apply Z.mod_small, H. Qed.

Lemma wrap_range w x : 0 <= w -> is_u w (wrap w x).
Proof. intros H. unfold is_u, wrap. apply Z.mod_pos_bound. lia. Qed.

(** A 32-bit two's complement integer: [int32(x)] and [atomic.Int32]. *)
Definition int32 (x : Z) : Z := (x + 2 ^ 31) mod 2 ^ 32 - 2 ^ 31.

Lemma int32_small x : - 2 ^ 31 <= x < 2 ^ 31 -> int32 x = x.
Proof. intros Hx. unfold int32. rewrite Z.mod_small by lia. lia. Qed.

(** [int64(x)] *)
Definition int64 (x : Z) : Z := (x + 2 ^ 63) mod 2 ^ 64 - 2 ^ 63.

Lemma int64_u64 x : - 2 ^ 63 <= x < 2 ^ 63 -> int64 (wrap 64 x) = x.
Proof. intros Hx. unfold int64, wrap. rewrite Zplus_mod_idemp_l, Z.mod_small by lia. lia. Qed.

(** * Bytes and strings *)

Definition ascii_byte (c : Ascii.ascii) : Z := Z.of_N (Ascii.N_of_ascii c).
Definition byte_ascii (b : Z) : Ascii.ascii := Ascii.ascii_of_N (Z.to_N b).

(** [[]byte(s)] and [string(b)]. *)
Fixpoint bytes_of_string (s : string) : list Z :=
  match s with
  | EmptyString => []
  | String c s' => ascii_byte c :: bytes_of_string s'
  end.

Fixpoint string_of_bytes (l : list Z) : string :=
  match l with
  | [] => EmptyString
  | b :: l' => String (byte_ascii b) (string_of_bytes l')
  end.

Lemma byte_ascii_ascii_byte c : byte_ascii (ascii_byte c) = c.
Proof.
  unfold byte_ascii, ascii_byte. rewrite N2Z.id. apply Ascii.ascii_N_embedding.
Qed.

Lemma string_of_bytes_of_string s : string_of_bytes (bytes_of_string s) = s.
Proof. induction s as [|c s IH]; cbn; [done|]. by rewrite byte_ascii_ascii_byte, IH. Qed.

Lemma bytes_of_string_length s : length (bytes_of_string s) = String.length s.
Proof. induction s; cbn; auto. Qed.

Lemma ascii_byte_range c : is_byte (ascii_byte c).
Proof.
  unfold is_u, ascii_byte. pose proof (Ascii.N_ascii_bounded c). lia.
Qed.

Lemma bytes_of_string_range s : Forall is_byte (bytes_of_string s).
Proof. induction s; cbn; constructor; auto using ascii_byte_range. Qed.

Lemma bytes_of_string_of_bytes l :
  Forall is_byte l -> bytes_of_string (string_of_bytes l) = l.
Proof.
  induction 1 as [|b l Hb Hl IH]; cbn; [done|]. rewrite IH. f_equal.
  unfold ascii_byte, byte_ascii. unfold is_u in Hb. change (2 ^ 8) with 256 in Hb.
  rewrite Ascii.N_ascii_embedding; lia.
Qed.

(** [binary.BigEndian.Uint16] and the big-endian encodings used by
    [binary.Read] and [binary.Write]. *)
Fixpoint be_combine (l : list Z) : Z :=
  match l with
  | [] => 0
  | b :: l' => b * 256 ^ Z.of_nat (length l') + be_combine l'
  end.

Fixpoint be_split (n : nat) (x : Z) : list Z :=
  match n with
  | O => []
  | S n' => (x / 256 ^ Z.of_nat n') mod 256 :: be_split n' x
  end.

Lemma be_split_length n x : length (be_split n x) = n.
Proof. induction n; cbn; auto. Qed.

Lemma be_combine_split n x : be_combine (be_split n x) = x mod 256 ^ Z.of_nat n.
Proof.
  induction n as [|n IH]; cbn [be_split be_combine].
  - by rewrite Z.mod_1_r.
  - rewrite be_split_length, IH, Nat2Z.inj_succ, Z.pow_succ_r by lia.
    rewrite (Z.mul_comm 256), Z.rem_mul_r by lia. lia.
Qed.

Lemma be_split_range n x : Forall is_byte (be_split n x).
Proof.
  induction n; cbn [be_split]; constructor; auto.
  unfold is_u. change (2 ^ 8) with 256. apply Z.mod_pos_bound; lia.
Qed.

Lemma be_combine_range l :
  Forall is_byte l -> 0 <= be_combine l < 256 ^ Z.of_nat (length l).
Proof.
  induction 1 as [|b l Hb Hl IH]; [done|]. cbn [be_combine length].
  unfold is_u in Hb. change (2 ^ 8) with 256 in Hb.
  rewrite Nat2Z.inj_succ, Z.pow_succ_r by lia. nia.
Qed.

(** * Generic helpers of github.com/sagernet/sing/common

    [common.Any], [common.All], [common.Contains], [common.Filter],
    [common.Map] and [common.Find] are [existsb], [forallb], [inb],
    [List.filter], [map] and [List.find]. *)

Definition inb {A} `{EqDecision A} (x : A) (l : list A) : bool := bool_decide (x ∈ l).

Lemma inb_true {A} `{EqDecision A} (x : A) l : inb x l = true <-> x ∈ l.
Proof. apply bool_decide_eq_true. Qed.

(** [map[K]bool] built from a list, read with a missing key giving [false]. *)
Definition set_of {A} `{Countable A} (l : list A) : gset A := list_to_set l.
Definition set_has {A} `{Countable A} (x : A) (s : gset A) : bool := bool_decide (x ∈ s).

Lemma set_has_set_of {A} `{Countable A} (x : A) l : set_has x (set_of l) = inb x l.
Proof.
  unfold set_has, inb, set_of. apply bool_decide_ext, elem_of_list_to_set.
Qed.

Lemma existsb_ext_in {A} (f g : A -> bool) l :
  (forall x, x ∈ l -> f x = g x) -> existsb f l = existsb g l.
Proof.
  induction l as [|x l IH]; intros H; cbn; [done|].
  rewrite H by left. rewrite IH; [done|]. intros y Hy. apply H. by right.
Qed.

Lemma forallb_ext_in {A} (f g : A -> bool) l :
  (forall x, x ∈ l -> f x = g x) -> forallb f l = forallb g l.
Proof.
  induction l as [|x l IH]; intros H; cbn; [done|].
  rewrite H by left. rewrite IH; [done|]. intros y Hy. apply H. by right.
Qed.

Lemma concat_singletons {A} (l : list A) : concat (map (fun x => [x]) l) = l.
Proof. induction l; cbn; congruence. Qed.

Lemma filter_perm {A} (f : A -> bool) l l' : Permutation l l' -> Permutation (List.filter f l) (List.filter f l').
Proof. induction 1; cbn; repeat case_match; try done; try (by constructor); by etrans. Qed.

Definition nonempty {A} (l : list A) : bool := match l with [] => false | _ => true end.

Lemma nonempty_length {A} (l : list A) : nonempty l = (0 <? length l)%nat.
Proof. by destruct l. Qed.

(** * Slices

    [b[i:j]] with Go's bounds check. *)
Definition slice {A} (l : list A) (i j : Z) : res (list A) :=
  if (0 <=? i) && (i <=? j) && (j <=? Z.of_nat (length l))
  then Ok (take (Z.to_nat (j - i)) (drop (Z.to_nat i) l))
  else Panic "slice bounds out of range".

Definition slice_from {A} (l : list A) (i : Z) : res (list A) :=
  slice l i (Z.of_nat (length l)).

(** [b[i]] *)
Definition index {A} (l : list A) (i : Z) : res A :=
  if 0 <=? i
  then match l !! Z.to_nat i with Some x => Ok x | None => Panic "index out of range" end
  else Panic "index out of range".

Definition zlen {A} (l : list A) : Z := Z.of_nat (length l).

Lemma slice_ok {A} (l : list A) i j :
  0 <= i <= j -> j <= zlen l ->
  slice l i j = Ok (take (Z.to_nat (j - i)) (drop (Z.to_nat i) l)).
Proof.
  unfold slice, zlen. intros H1 H2.
  rewrite !(proj2 (Z.leb_le _ _)) by lia. done.
Qed.

Lemma slice_from_ok {A} (l : list A) i :
  0 <= i <= zlen l -> slice_from l i = Ok (drop (Z.to_nat i) l).
Proof.
  unfold zlen. intros H. unfold slice_from. rewrite slice_ok by (unfold zlen; lia).
  rewrite take_ge; [done|]. rewrite length_drop. lia.
Qed.

Lemma zlen_app {A} (a b : list A) : zlen (a ++ b) = zlen a + zlen b.
Proof. unfold zlen. rewrite length_app. lia. Qed.
Lemma zlen_cons {A} (x : A) l : zlen (x :: l) = 1 + zlen l.
Proof. unfold zlen. cbn [length]. lia. Qed.
Lemma zlen_nil {A} : zlen (@nil A) = 0.
Proof. done. Qed.
Lemma zlen_be_split n x : zlen (be_split n x) = Z.of_nat n.
Proof. unfold zlen. by rewrite be_split_length. Qed.
Lemma zlen_nonneg {A} (l : list A) : 0 <= zlen l.
Proof. unfold zlen. lia. Qed.

(** ** Positions *)

Lemma index_at {A} (l a : list A) x b i : l = a ++ x :: b -> i = zlen a -> index l i = Ok x.
Proof.
  intros -> ->. unfold index, zlen. rewrite (proj2 (Z.leb_le _ _)) by lia.
  rewrite Nat2Z.id, list_lookup_middle; done.
Qed.

Lemma slice_from_at {A} (l a b : list A) i : l = a ++ b -> i = zlen a -> slice_from l i = Ok b.
Proof.
  intros -> ->. rewrite slice_from_ok by (unfold zlen; rewrite length_app; lia).
  unfold zlen. by rewrite Nat2Z.id, drop_app_length.
Qed.

Lemma slice_at {A} (l a b c : list A) i j : l = a ++ b ++ c -> i = zlen a -> j = i + zlen b -> slice l i j = Ok b.
Proof.
  intros -> -> ->. rewrite slice_ok by (unfold zlen; rewrite ?length_app; lia).
  unfold zlen. replace (Z.of_nat (length a) + Z.of_nat (length b) - Z.of_nat (length a)) with (Z.of_nat (length b)) by lia.
  by rewrite !Nat2Z.id, drop_app_length, take_app_length.
Qed.

Lemma index_safe {A} (l : list A) i : 0 <= i < zlen l -> exists x, index l i = Ok x /\ x ∈ l.
Proof.
  unfold index, zlen. intros H. rewrite (proj2 (Z.leb_le _ _)) by lia.
  destruct (lookup_lt_is_Some_2 l (Z.to_nat i)) as [x Hx]; [lia|]. rewrite Hx. eauto using list_elem_of_lookup_2.
Qed.

Lemma slice_from_safe {A} (l : list A) i : 0 <= i <= zlen l ->
  exists a b, l = a ++ b /\ zlen a = i /\ slice_from l i = Ok b.
Proof.
  intros H. exists (take (Z.to_nat i) l), (drop (Z.to_nat i) l). unfold zlen in *. split_and!.
  - by rewrite take_drop.
  - rewrite length_take. lia.
  - apply slice_from_ok. unfold zlen. lia.
Qed.

(** Neither a panic nor a loop that does not end. *)
Definition safe {A} (m : res A) : Prop := match m with Ok _ | Err _ => True | _ => False end.

Lemma safe_bind {A B} (m : res A) (k : A -> res B) : safe m -> (forall a, m = Ok a -> safe (k a)) -> safe (res_bind m k).
Proof. destruct m; cbn; auto. Qed.

(** What holds of a result, and of the message of a panic. *)
Definition wp {A} (P : string -> Prop) (m : res A) (Q : A -> Prop) : Prop :=
  match m with Ok a => Q a | Panic p => P p | Err _ | OutOfFuel => True end.

Lemma wp_bind {A B} P (m : res A) (k : A -> res B) Q : wp P m (fun a => wp P (k a) Q) -> wp P (res_bind m k) Q.
Proof. by destruct m. Qed.

Lemma wp_mono {A} P (m : res A) (Q R : A -> Prop) : wp P m Q -> (forall a, Q a -> R a) -> wp P m R.
Proof. destruct m; cbn; auto. Qed.

Lemma wp_of_safe {A} P (m : res A) : safe m -> wp P m (fun a => m = Ok a).
Proof. by destruct m. Qed.

(** * Automation *)

(** Case analysis on the [if], [match] and boolean connectives a translated
    body is made of. *)
Ltac go_case :=
  match goal with
  | |- context [match ?x with _ => _ end] =>
      lazymatch x with context [match _ with _ => _ end] => fail | _ => destruct x eqn:? end
  | H : context [match ?x with _ => _ end] |- _ =>
      lazymatch x with context [match _ with _ => _ end] => fail | _ => destruct x eqn:? end
  end.

Ltac bsimpl :=
  repeat match goal with
  | H : _ && _ = true |- _ => apply andb_true_iff in H as [? ?]
  | H : _ || _ = false |- _ => apply orb_false_iff in H as [? ?]
  | H : negb _ = true |- _ => apply negb_true_iff in H
  | H : negb _ = false |- _ => apply negb_false_iff in H
  | H : (_ <=? _)%Z = true |- _ => apply Z.leb_le in H
  | H : (_ <=? _)%Z = false |- _ => apply Z.leb_gt in H
  | H : (_ <? _)%Z = true |- _ => apply Z.ltb_lt in H
  | H : (_ <? _)%Z = false |- _ => apply Z.ltb_ge in H
  | H : (_ =? _)%Z = true |- _ => apply Z.eqb_eq in H
  | H : (_ =? _)%Z = false |- _ => apply Z.eqb_neq in H
  | H : bool_decide _ = true |- _ => apply bool_decide_eq_true in H
  | H : bool_decide _ = false |- _ => apply bool_decide_eq_false in H
  end.

Ltac res_inv :=
  repeat match goal with
  | H : res_bind _ _ = Ok _ |- _ =>
      let a := fresh "v" in let E := fresh "E" in apply res_bind_ok in H as (a & E & H)
  | H : Ok _ = Ok _ |- _ => injection H as H; subst
  | H : Err _ = Ok _ |- _ => discriminate H
  | H : Panic _ = Ok _ |- _ => discriminate H
  | H : OutOfFuel = Ok _ |- _ => discriminate H
  end.

Create HintDb go.
#[export] Hint Resolve wrap_range ascii_byte_range bytes_of_string_range be_split_range : go.
#[export] Hint Rewrite string_of_bytes_of_string bytes_of_string_length be_split_length
  @set_has_set_of : go.
#[export] Hint Rewrite @zlen_app @zlen_cons @zlen_nil zlen_be_split : zlen.

(** Lengths of concatenations. *)
Ltac zlen_solve :=
  autorewrite with zlen in *;
  repeat match goal with
  | |- context [zlen ?l] => lazymatch goal with _ : 0 <= zlen l |- _ => fail | _ => pose proof (zlen_nonneg l) end
  | H : context [zlen ?l] |- _ => lazymatch goal with _ : 0 <= zlen l |- _ => fail | _ => pose proof (zlen_nonneg l) end
  end; unfold is_u in *; lia.
