(* ===== verification/NetAddr.v ===== *)
(** Go's [net/netip] addresses and prefixes, and the socket address of
    [github.com/sagernet/sing/common/metadata].

    [Addr] keeps the representation of the standard library: a 128-bit value
    (an IPv4 address [a] is stored as [0xffff_0000_0000 + a]) and a tag that
    says whether the address is the zero value, IPv4, or IPv6 with a zone.
    The text parsers are not modelled; the components that call them take them
    as arguments. *)

From S2P Require Import Prelude.

Inductive zone := z0 | z4 | z6 (name : string).

#[export] Instance zone_eq_dec : EqDecision zone.
Proof. solve_decision. Defined.
#[export] Instance zone_countable : Countable zone.
Proof.
  refine (inj_countable'
    (fun z => match z with z0 => None | z4 => Some None | z6 s => Some (Some s) end)
    (fun o => match o with None => z0 | Some None => z4 | Some (Some s) => z6 s end) _).
  by intros [].
Defined.

Record Addr := mkAddr { addr : Z; z : zone }.

#[export] Instance Addr_eq_dec : EqDecision Addr.
Proof. solve_decision. Defined.
#[export] Instance Addr_countable : Countable Addr.
Proof.
  refine (inj_countable' (fun a => (addr a, z a)) (fun p => mkAddr p.1 p.2) _).
  by intros [].
Defined.

Definition v4InV6 : Z := 0xffff00000000.

Definition zeroAddr : Addr := mkAddr 0 z0.
Definition AddrFrom4 (v : Z) : Addr := mkAddr (v4InV6 + v) z4.
Definition AddrFrom16 (v : Z) : Addr := mkAddr v (z6 "").

Definition IsValid (a : Addr) : bool := negb (bool_decide (z a = z0)).
Definition Is4 (a : Addr) : bool := bool_decide (z a = z4).
Definition Is6 (a : Addr) : bool := match z a with z6 _ => true | _ => false end.
Definition hasZone (a : Addr) : bool := match z a with z6 s => negb (bool_decide (s = "")) | _ => false end.

Definition BitLen (a : Addr) : Z :=
  match z a with z0 => 0 | z4 => 32 | z6 _ => 128 end.

(** [Addr.Next]: the address plus one; the zero [Addr] past the last one. *)
Definition Next (a : Addr) : Addr :=
  let v := wrap 128 (addr a + 1) in
  if Is4 a
  then if u32 v =? 0 then zeroAddr else mkAddr v (z a)
  else if v =? 0 then zeroAddr else mkAddr v (z a).

(** [Addr.AsSlice]: the big-endian bytes of the address. *)
Definition AsSlice (a : Addr) : list Z :=
  match z a with
  | z0 => []
  | z4 => be_split 4 (u32 (addr a))
  | z6 _ => be_split 16 (addr a)
  end.

(** [netip.AddrFromSlice] on a 4-byte or 16-byte slice. *)
Definition AddrFromSlice (b : list Z) : option Addr :=
  if (length b =? 4)%nat then Some (AddrFrom4 (be_combine b))
  else if (length b =? 16)%nat then Some (AddrFrom16 (be_combine b))
  else None.

(** [Addr.Unmap]: an IPv4-mapped IPv6 address as an IPv4 address. *)
Definition Is4In6 (a : Addr) : bool := Is6 a && (Z.shiftr (addr a) 32 =? 0xffff).
Definition Unmap (a : Addr) : Addr := if Is4In6 a then mkAddr (addr a) z4 else a.

Record Prefix := mkPrefix { ip : Addr; bitsPlusOne : Z }.

#[export] Instance Prefix_eq_dec : EqDecision Prefix.
Proof. solve_decision. Defined.

Definition zeroPrefix : Prefix := mkPrefix zeroAddr 0.

Definition withoutZone (a : Addr) : Addr :=
  match z a with z6 _ => mkAddr (addr a) (z6 "") | _ => a end.

(** [netip.PrefixFrom] *)
Definition PrefixFrom (a : Addr) (bits : Z) : Prefix :=
  mkPrefix (withoutZone a)
    (if IsValid a && (0 <=? bits) && (bits <=? BitLen a) then bits + 1 else 0).

Definition Bits (p : Prefix) : Z := bitsPlusOne p - 1.
Definition Prefix_IsValid (p : Prefix) : bool := 0 <? bitsPlusOne p.

(** [Prefix.Contains] *)
Definition Contains (p : Prefix) (a : Addr) : bool :=
  if negb (Prefix_IsValid p) || hasZone a then false
  else if (BitLen (ip p) =? 0) || (BitLen a =? 0) || negb (BitLen (ip p) =? BitLen a) then false
  else if Is4 a
  then u32 (Z.shiftr (Z.lxor (addr a) (addr (ip p))) (32 - Bits p)) =? 0
  else Z.shiftr (Z.lxor (addr a) (addr (ip p))) (128 - Bits p) =? 0.

(** [Prefix.Masked] on a valid prefix: the host bits cleared. *)
Definition Masked (p : Prefix) : Prefix :=
  let host := BitLen (ip p) - Bits p in
  mkPrefix (mkAddr (Z.shiftl (Z.shiftr (addr (ip p)) host) host) (z (ip p))) (bitsPlusOne p).

(** [Prefix.Overlaps]: of two prefixes of one family, the shorter contains the
    other's address. *)
Definition Overlaps (p o : Prefix) : bool :=
  if negb (Prefix_IsValid p) || negb (Prefix_IsValid o) then false
  else if bool_decide (p = o) then true
  else if negb (Bool.eqb (Is4 (ip p)) (Is4 (ip o))) then false
  else
    let minBits := Z.min (Bits p) (Bits o) in
    if minBits =? 0 then true
    else
      let host := BitLen (ip p) - minBits in
      Z.shiftr (addr (ip p)) host =? Z.shiftr (addr (ip o)) host.

(** The fields of [M.Socksaddr]. *)
Record Socksaddr := mkSocksaddr { Socksaddr_Addr : Addr; Port : Z; Fqdn : string }.

(** What the program calls of the metadata package: the methods of
    [M.Socksaddr] and [M.AddrFromIP], the conversion of a [net.IP]. *)
Class MetadataPkg := {
  IsIP : Socksaddr -> bool;
  IsIPv4 : Socksaddr -> bool;
  IsIPv6 : Socksaddr -> bool;
  IsDomain : Socksaddr -> bool;
  Socksaddr_IsValid : Socksaddr -> bool;
  AddrFromIP : list Z -> Addr;
}.

(** A concrete reading of the methods, used by the witnesses: an address is an
    IP when its [Addr] is valid, and a domain otherwise when a name is set. *)
Definition metadata_pkg : MetadataPkg := {|
  IsIP a := IsValid (Socksaddr_Addr a);
  IsIPv4 a := Is4 (Socksaddr_Addr a);
  IsIPv6 a := Is6 (Socksaddr_Addr a);
  IsDomain a := negb (IsValid (Socksaddr_Addr a)) && negb (bool_decide (Fqdn a = ""));
  Socksaddr_IsValid a := IsValid (Socksaddr_Addr a) || negb (bool_decide (Fqdn a = ""));
  AddrFromIP b := default zeroAddr (AddrFromSlice b);
|}.

(** ** Well-formed addresses *)

Definition wf_addr (a : Addr) : Prop :=
  match z a with
  | z0 => True
  | z4 => v4InV6 <= addr a < v4InV6 + 2 ^ 32
  | z6 s => 0 <= addr a < 2 ^ 128 /\ s = ""
  end.

Lemma AddrFromSlice_AsSlice a :
  wf_addr a -> IsValid a = true -> AddrFromSlice (AsSlice a) = Some a.
Proof.
  destruct a as [v [| |s]]; unfold wf_addr, AsSlice, AddrFromSlice; cbn [z addr]; intros Hwf Hv.
  - done.
  - rewrite be_split_length. cbn [Nat.eqb].
    unfold AddrFrom4. rewrite be_combine_split. do 3 f_equal.
    unfold wrap, v4InV6 in *. change (256 ^ Z.of_nat 4) with (2 ^ 32).
    rewrite Z.mod_mod by lia.
    replace v with (v - 0xffff00000000 + 65535 * 2 ^ 32) at 1 by lia.
    rewrite Z.mod_add, Z.mod_small by lia. lia.
  - rewrite be_split_length. cbn [Nat.eqb].
    unfold AddrFrom16. rewrite be_combine_split. destruct Hwf as [Hwf ->]. do 2 f_equal.
    change (256 ^ Z.of_nat 16) with (2 ^ 128). by apply Z.mod_small.
Qed.

Lemma AsSlice_length a :
  length (AsSlice a) = match z a with z0 => 0%nat | z4 => 4%nat | z6 _ => 16%nat end.
Proof. unfold AsSlice. destruct (z a); [done| |]; apply be_split_length. Qed.

Lemma AsSlice_range a : Forall is_byte (AsSlice a).
Proof. unfold AsSlice. destruct (z a); auto with go. Qed.

(** ** Addresses as integers *)

Lemma Next_addr a :
  wf_addr a -> IsValid a = true -> addr a + 1 < (if Is4 a then v4InV6 + 2 ^ 32 else 2 ^ 128) ->
  Next a = mkAddr (addr a + 1) (z a).
Proof.
  destruct a as [v [| |s]]; unfold wf_addr, Next; cbn [addr z]; intros Hwf Hv Hlt; [done| |].
  - change (Is4 (mkAddr v z4)) with true in *. cbv iota in *. unfold wrap, v4InV6 in *.
    rewrite (Z.mod_small (v + 1)) by lia.
    replace ((v + 1) mod 2 ^ 32 =? 0) with false; [done|]. symmetry. apply Z.eqb_neq.
    replace (v + 1) with (v + 1 - 0xffff00000000 + 65535 * 2 ^ 32) by lia.
    rewrite Z.mod_add, Z.mod_small by lia. lia.
  - change (Is4 (mkAddr v (z6 s))) with false in *. cbv iota in *.
    rewrite wrap_small by (unfold is_u; lia). by replace (v + 1 =? 0) with false by lia.
Qed.

(** The number of host bits of a prefix. *)
Definition host_bits (p : Prefix) : Z := BitLen (ip p) - Bits p.

Definition wf_prefix (p : Prefix) : Prop :=
  wf_addr (ip p) /\ IsValid (ip p) = true /\ 0 <= Bits p <= BitLen (ip p).

Lemma lxor_same_block x y k :
  0 <= k -> 0 <= x -> 0 <= y -> x / 2 ^ k = y / 2 ^ k -> 0 <= Z.lxor x y < 2 ^ k.
Proof.
  intros Hk Hx Hy He.
  assert (Hs : Z.shiftr (Z.lxor x y) k = 0).
  { by rewrite Z.shiftr_lxor, !Z.shiftr_div_pow2, He, Z.lxor_nilpotent by lia. }
  rewrite Z.shiftr_div_pow2 in Hs by lia.
  assert (H0 : 0 <= Z.lxor x y) by (apply Z.lxor_nonneg; lia).
  apply Z.div_small_iff in Hs; [|lia]. lia.
Qed.

Lemma shiftr_lxor_eqb x y k :
  0 <= k -> (Z.shiftr (Z.lxor x y) k =? 0) = (x / 2 ^ k =? y / 2 ^ k).
Proof.
  intros Hk. rewrite Z.shiftr_lxor, !Z.shiftr_div_pow2 by lia.
  destruct (Z.eqb_spec (x / 2 ^ k) (y / 2 ^ k)) as [->|Hn].
  - by rewrite Z.lxor_nilpotent.
  - apply Z.eqb_neq. by rewrite Z.lxor_eq_0_iff.
Qed.

(** A prefix contains the addresses of its family with the same network part. *)
Lemma Contains_spec p a :
  wf_prefix p -> wf_addr a -> z a = z (ip p) ->
  Contains p a = (addr a / 2 ^ host_bits p =? addr (ip p) / 2 ^ host_bits p).
Proof.
  intros (Hp & Hv & Hb) Ha Hz. unfold Contains, host_bits, Prefix_IsValid.
  replace (0 <? bitsPlusOne p) with true by (unfold Bits in Hb; lia). cbn [negb orb].
  assert (Hzone : hasZone a = false).
  { unfold hasZone, wf_addr in *. destruct (z a); try done. destruct Ha as [_ ->]. done. }
  rewrite Hzone. assert (Hbl : BitLen a = BitLen (ip p)) by (unfold BitLen; by rewrite Hz).
  rewrite Hbl, Z.eqb_refl. cbn [negb]. rewrite orb_false_r, orb_diag.
  replace (BitLen (ip p) =? 0) with false.
  2: { unfold BitLen, IsValid in *. by destruct (z (ip p)). }
  destruct (z (ip p)) eqn:Ep.
  - unfold IsValid in Hv. by rewrite Ep in Hv.
  - assert (E4 : Is4 a = true) by (unfold Is4; by rewrite Hz). rewrite E4.
    assert (EB : BitLen (ip p) = 32) by (unfold BitLen; by rewrite Ep). rewrite EB in *.
    rewrite <- shiftr_lxor_eqb by lia. f_equal. apply wrap_small. unfold is_u.
    unfold wf_addr in Ha, Hp. rewrite Hz in Ha. rewrite Ep in Hp. unfold v4InV6 in *.
    assert (Hx : 0 <= Z.lxor (addr a) (addr (ip p)) < 2 ^ 32).
    { apply lxor_same_block; try lia.
      rewrite <- (Z.div_unique (addr a) (2 ^ 32) 65535 (addr a - 65535 * 2 ^ 32)) by lia.
      rewrite <- (Z.div_unique (addr (ip p)) (2 ^ 32) 65535 (addr (ip p) - 65535 * 2 ^ 32)) by lia. done. }
    rewrite Z.shiftr_div_pow2 by lia. split; [apply Z.div_pos; lia|].
    apply Z.le_lt_trans with (Z.lxor (addr a) (addr (ip p))); [|lia].
    apply Z.div_le_upper_bound; nia.
  - assert (E4 : Is4 a = false) by (unfold Is4; by rewrite Hz). rewrite E4.
    assert (EB : BitLen (ip p) = 128) by (unfold BitLen; by rewrite Ep). rewrite EB in *.
    by rewrite <- shiftr_lxor_eqb by lia.
Qed.

(** The first and last address of a prefix, as integers. *)
Definition prefix_first (p : Prefix) : Z := addr (ip p) / 2 ^ host_bits p * 2 ^ host_bits p.
Definition prefix_last (p : Prefix) : Z := prefix_first p + 2 ^ host_bits p - 1.

Lemma Contains_interval p a :
  wf_prefix p -> wf_addr a -> z a = z (ip p) ->
  Contains p a = (prefix_first p <=? addr a) && (addr a <=? prefix_last p).
Proof.
  intros Hp Ha Hz. rewrite Contains_spec by done. unfold prefix_last, prefix_first.
  assert (Hh : 0 < 2 ^ host_bits p).
  { apply Z.pow_pos_nonneg; [lia|]. destruct Hp as (_ & _ & ?). unfold host_bits. lia. }
  set (h := 2 ^ host_bits p) in *. set (q := addr (ip p) / h).
  destruct (Z.eqb_spec (addr a / h) q) as [He|Hn].
  - pose proof (Z.div_mod (addr a) h ltac:(lia)). pose proof (Z.mod_pos_bound (addr a) h Hh).
    symmetry. apply andb_true_iff. rewrite !Z.leb_le. nia.
  - symmetry. apply not_true_iff_false. rewrite andb_true_iff, !Z.leb_le. intros [H1 H2]. apply Hn.
    symmetry. apply (Z.div_unique _ _ _ (addr a - q * h)); nia.
Qed.

(** A block of [h] divides a larger aligned block. *)
Lemma block_inside x h g lo n :
  0 < h -> lo = n * (g * h) -> lo <= x < lo + g * h -> 0 < g ->
  lo <= x / h * h /\ x / h * h <= x /\ x <= x / h * h + h - 1 /\ x / h * h + h - 1 < lo + g * h.
Proof.
  intros Hh -> Hx Hg. pose proof (Z.div_mod x h ltac:(lia)) as Hdm.
  pose proof (Z.mod_pos_bound x h Hh) as Hm.
  assert (H1 : n * g <= x / h) by (apply Z.div_le_lower_bound; nia).
  assert (H2 : x / h < n * g + g) by (apply Z.div_lt_upper_bound; nia). nia.
Qed.

Lemma prefix_bounds p :
  wf_prefix p ->
  prefix_first p <= addr (ip p) <= prefix_last p
  /\ (if Is4 (ip p) then v4InV6 else 0) <= prefix_first p
  /\ prefix_last p < (if Is4 (ip p) then v4InV6 + 2 ^ 32 else 2 ^ 128).
Proof.
  intros (Hp & Hv & Hb). unfold prefix_last, prefix_first, host_bits in *.
  assert (Hsplit : forall w, 0 <= Bits p <= w -> 2 ^ w = 2 ^ Bits p * 2 ^ (w - Bits p)
    /\ 0 < 2 ^ Bits p /\ 0 < 2 ^ (w - Bits p)).
  { intros w Hw. rewrite <- Z.pow_add_r by lia. split; [f_equal; lia|].
    split; apply Z.pow_pos_nonneg; lia. }
  unfold BitLen, IsValid, Is4, wf_addr in *. destruct (z (ip p)); [done| |].
  - destruct (Hsplit 32 Hb) as (H1 & H2 & H3). rewrite bool_decide_true by done.
    pose proof (block_inside (addr (ip p)) (2 ^ (32 - Bits p)) (2 ^ Bits p) v4InV6 65535 H3) as K.
    rewrite <- H1 in K. specialize (K eq_refl Hp H2). lia.
  - destruct (Hsplit 128 Hb) as (H1 & H2 & H3). rewrite bool_decide_false by done.
    pose proof (block_inside (addr (ip p)) (2 ^ (128 - Bits p)) (2 ^ Bits p) 0 0 H3) as K.
    rewrite <- H1 in K. specialize (K eq_refl (proj1 Hp) H2). lia.
Qed.

Create HintDb netaddr.
#[export] Hint Resolve AsSlice_range : go.
