(* ===== verification/GoStrings.v ===== *)
(** The functions of Go's [strings], [strconv] and [path/filepath] packages the
    modelled code calls, on byte strings. *)

From S2P Require Import Prelude.

Definition chars := String.list_ascii_of_string.
Definition of_chars := String.string_of_list_ascii.

Lemma of_chars_chars s : of_chars (chars s) = s.
Proof. apply String.string_of_list_ascii_of_string. Qed.
Lemma chars_of_chars l : chars (of_chars l) = l.
Proof. apply String.list_ascii_of_string_of_list_ascii. Qed.
Lemma chars_app s t : chars (s +:+ t) = chars s ++ chars t.
Proof. unfold chars. induction s as [|c s IH]; cbn; [done|]. by rewrite <- IH. Qed.
Lemma chars_inj s t : chars s = chars t -> s = t.
Proof. intros H. rewrite <- (of_chars_chars s), <- (of_chars_chars t). by f_equal. Qed.

#[export] Instance ascii_eq_dec : EqDecision Ascii.ascii := Ascii.ascii_dec.

(** [strings.Contains] and [strings.Index]. *)
Definition Contains_str (s sub : string) : bool :=
  match String.index 0 sub s with Some _ => true | None => false end.
Definition Index_str (s sub : string) : option nat := String.index 0 sub s.

Definition HasPrefix (s p : string) : bool := String.prefix p s.

Definition drop_str (n : nat) (s : string) : string := of_chars (drop n (chars s)).
Definition take_str (n : nat) (s : string) : string := of_chars (take n (chars s)).

Definition TrimPrefix (s p : string) : string :=
  if HasPrefix s p then drop_str (String.length p) s else s.

(** [strings.Split] with a one-byte separator: always at least one part. *)
Fixpoint split_chars (sep : Ascii.ascii) (l : list Ascii.ascii) : list (list Ascii.ascii) :=
  match l with
  | [] => [[]]
  | c :: l' =>
      match split_chars sep l' with
      | [] => [[c]]
      | p :: ps => if bool_decide (c = sep) then [] :: p :: ps else (c :: p) :: ps
      end
  end.
Definition Split (s : string) (sep : Ascii.ascii) : list string :=
  map of_chars (split_chars sep (chars s)).

(** [strings.Join] *)
Fixpoint Join (l : list string) (sep : string) : string :=
  match l with
  | [] => ""
  | [s] => s
  | s :: l' => s +:+ sep +:+ Join l' sep
  end.

Definition is_digit (c : Ascii.ascii) : bool :=
  (48 <=? ascii_byte c) && (ascii_byte c <=? 57).
Definition digit_val (c : Ascii.ascii) : Z := ascii_byte c - 48.

(** The digit loop of [strconv.ParseUint] in base 10 for a maximal value [max]. *)
Fixpoint parse_digits (max n : Z) (l : list Ascii.ascii) : res Z :=
  match l with
  | [] => Ok n
  | c :: l' =>
      if is_digit c
      then let n1 := n * 10 + digit_val c in
           if max <? n1 then Err (ENew "value out of range") else parse_digits max n1 l'
      else Err (ENew "invalid syntax")
  end.

(** [strconv.ParseUint(s, 10, bitSize)] *)
Definition ParseUint (s : string) (bitSize : Z) : res Z :=
  match chars s with
  | [] => Err (ENew "invalid syntax")
  | l => parse_digits (2 ^ bitSize - 1) 0 l
  end.

(** [strconv.Atoi] on a 64-bit platform: an optional sign and decimal digits. *)
Definition Atoi (s : string) : res Z :=
  match chars s with
  | [] => Err (ENew "invalid syntax")
  | c :: l =>
      let neg := bool_decide (c = "-"%char) in
      let l' := if neg || bool_decide (c = "+"%char) then l else c :: l in
      match l' with
      | [] => Err (ENew "invalid syntax")
      | _ =>
          let! n := parse_digits (if neg then 2 ^ 63 else 2 ^ 63 - 1) 0 l' in
          Ok (if neg then - n else n)
      end
  end.

(** [n, _ := strconv.Atoi(s)] with the error dropped: the value [strconv]
    returns next to an error is 0 for a syntax error and the nearest bound for a
    value out of range. *)
Definition Atoi_or_default (s : string) : Z :=
  match Atoi s with
  | Ok n => n
  | Err (ENew m) =>
      if bool_decide (m = "value out of range")
      then (if HasPrefix s "-" then - 2 ^ 63 else 2 ^ 63 - 1)
      else 0
  | _ => 0
  end.

Definition digit_char (d : Z) : Ascii.ascii := byte_ascii (48 + d).

(** Decimal digits of a non-negative number, most significant first; [fuel]
    bounds the number of digits. *)
Fixpoint itoa_chars (fuel : nat) (n : Z) : list Ascii.ascii :=
  match fuel with
  | O => []
  | S f => (if n <? 10 then [] else itoa_chars f (n / 10)) ++ [digit_char (n mod 10)]
  end.

(** [strconv.Itoa] and [F.ToString] of an integer. *)
Definition Itoa (n : Z) : string :=
  if n <? 0
  then String "-"%char (of_chars (itoa_chars (S (Z.to_nat (Z.log2 (- n)))) (- n)))
  else of_chars (itoa_chars (S (Z.to_nat (Z.log2 n))) n).

(** ASCII lower case. *)
Definition is_ascii (c : Ascii.ascii) : bool := ascii_byte c <? 128.
Definition lower_char (c : Ascii.ascii) : Ascii.ascii :=
  let b := ascii_byte c in
  if (65 <=? b) && (b <=? 90) then byte_ascii (b + 32) else c.

(** [strings.ToLower]: the ASCII fast path; a string with a byte above 127 goes
    to the Unicode mapping, an argument of the model. *)
Definition ToLower (unicode_lower : string -> string) (s : string) : string :=
  if forallb is_ascii (chars s) then of_chars (map lower_char (chars s)) else unicode_lower s.

(** [strings.EqualFold], likewise. *)
Definition EqualFold (unicode_fold : string -> string -> bool) (s t : string) : bool :=
  if forallb is_ascii (chars s) && forallb is_ascii (chars t)
  then bool_decide (map lower_char (chars s) = map lower_char (chars t))
  else unicode_fold s t.

Fixpoint drop_while {A} (f : A -> bool) (l : list A) : list A :=
  match l with
  | [] => []
  | x :: l' => if f x then drop_while f l' else l
  end.
Fixpoint take_while {A} (f : A -> bool) (l : list A) : list A :=
  match l with
  | [] => []
  | x :: l' => if f x then x :: take_while f l' else []
  end.

Definition is_slash (c : Ascii.ascii) : bool := bool_decide (c = "/"%char).

(** [filepath.Base] on a Unix path. *)
Definition Base (path : string) : string :=
  match chars path with
  | [] => "."
  | l =>
      match rev (take_while (fun c => negb (is_slash c)) (drop_while is_slash (rev l))) with
      | [] => "/"
      | b => of_chars b
      end
  end.

(** ** Lemmas *)

Lemma split_chars_nonempty sep l : split_chars sep l <> [].
Proof.
  destruct l as [|c l]; cbn; [done|]. destruct (split_chars sep l); [done|].
  by case_bool_decide.
Qed.

Lemma split_chars_none sep l : sep ∉ l -> split_chars sep l = [l].
Proof.
  induction l as [|c l IH]; intros H; cbn; [done|].
  rewrite not_elem_of_cons in H. destruct H as [H1 H2].
  rewrite IH by done. by rewrite bool_decide_false by congruence.
Qed.

Lemma split_chars_app sep l l' :
  sep ∉ l -> split_chars sep (l ++ sep :: l') = l :: split_chars sep l'.
Proof.
  induction l as [|c l IH]; intros H; cbn.
  - destruct (split_chars sep l') eqn:E; [by apply split_chars_nonempty in E|].
    by rewrite bool_decide_true.
  - rewrite not_elem_of_cons in H. destruct H as [H1 H2].
    rewrite IH by done. by rewrite bool_decide_false by congruence.
Qed.

Lemma byte_of_digit_char d : 0 <= d < 10 -> ascii_byte (digit_char d) = 48 + d.
Proof.
  intros H. unfold digit_char, ascii_byte, byte_ascii.
  rewrite Ascii.N_ascii_embedding; lia.
Qed.

Lemma is_digit_digit_char d : 0 <= d < 10 -> is_digit (digit_char d) = true.
Proof. intros H. unfold is_digit. rewrite byte_of_digit_char by done. lia. Qed.

Lemma digit_val_digit_char d : 0 <= d < 10 -> digit_val (digit_char d) = d.
Proof. intros H. unfold digit_val. rewrite byte_of_digit_char by done. lia. Qed.

Lemma itoa_chars_digits fuel n : 0 <= n -> Forall (fun c => is_digit c = true) (itoa_chars fuel n).
Proof.
  revert n. induction fuel as [|f IH]; intros n Hn; cbn; [constructor|].
  apply Forall_app; split.
  - destruct (n <? 10); [constructor|]. apply IH, Z.div_pos; lia.
  - constructor; [|constructor]. apply is_digit_digit_char, Z.mod_pos_bound. lia.
Qed.

Lemma itoa_chars_nonempty fuel n : (0 < fuel)%nat -> itoa_chars fuel n <> [].
Proof. destruct fuel; [lia|]. cbn. intros _ H. by apply app_nil in H as [_ H]. Qed.

Lemma parse_digits_app max n l l' :
  parse_digits max n (l ++ l') = (let! m := parse_digits max n l in parse_digits max m l').
Proof.
  revert n. induction l as [|c l IH]; intros n; cbn; [done|].
  destruct (is_digit c); [|done]. destruct (max <? _); [done|]. apply IH.
Qed.

Lemma parse_itoa max fuel n :
  0 <= n <= max -> n < 2 ^ Z.of_nat fuel -> (0 < fuel)%nat ->
  parse_digits max 0 (itoa_chars fuel n) = Ok n.
Proof.
  revert n. induction fuel as [|f IH]; intros n Hn Hf Hpos; [lia|].
  cbn [itoa_chars]. rewrite parse_digits_app.
  assert (Hm : 0 <= n mod 10 < 10) by (apply Z.mod_pos_bound; lia).
  assert (Hlast : forall m, m = n / 10 -> parse_digits max m [digit_char (n mod 10)] = Ok n).
  { intros m ->. cbn. rewrite is_digit_digit_char, digit_val_digit_char by done.
    replace (n / 10 * 10 + n mod 10) with n by (pose proof (Z.div_mod n 10); lia).
    by replace (max <? n) with false by lia. }
  destruct (Z.ltb_spec n 10).
  - cbn [parse_digits res_bind]. apply Hlast. rewrite Z.div_small; lia.
  - destruct f as [|f]. { cbn in Hf. lia. }
    rewrite IH; cbn [res_bind].
    + by apply Hlast.
    + split; [apply Z.div_pos; lia|]. apply Z.le_trans with n; [|lia].
      apply Z.div_le_upper_bound; lia.
    + rewrite Nat2Z.inj_succ, Z.pow_succ_r in Hf by lia.
      apply Z.div_lt_upper_bound; lia.
    + lia.
Qed.

Lemma fuel_log2 n : 0 <= n -> n < 2 ^ Z.of_nat (S (Z.to_nat (Z.log2 n))).
Proof.
  intros H. rewrite Nat2Z.inj_succ, Z2Nat.id by apply Z.log2_nonneg.
  destruct (Z.eq_dec n 0) as [->|]; [done|]. apply Z.log2_spec. lia.
Qed.

Lemma chars_Itoa n :
  0 <= n -> chars (Itoa n) = itoa_chars (S (Z.to_nat (Z.log2 n))) n.
Proof.
  intros H. unfold Itoa. replace (n <? 0) with false by lia. apply chars_of_chars.
Qed.

Lemma digit_not_sign c : is_digit c = true -> c <> "-"%char /\ c <> "+"%char /\ c <> "."%char.
Proof. intros H. repeat split; intros ->; done. Qed.

Lemma Itoa_digits n : 0 <= n -> Forall (fun c => is_digit c = true) (chars (Itoa n)).
Proof. intros H. rewrite chars_Itoa by done. by apply itoa_chars_digits. Qed.

Lemma ParseUint_Itoa n bits :
  0 <= n < 2 ^ bits -> ParseUint (Itoa n) bits = Ok n.
Proof.
  intros H. unfold ParseUint. rewrite chars_Itoa by lia.
  pose proof (itoa_chars_nonempty (S (Z.to_nat (Z.log2 n))) n ltac:(lia)) as Hne.
  destruct (itoa_chars _ n) eqn:E; [done|]. rewrite <- E.
  apply parse_itoa; [lia| apply fuel_log2; lia |lia].
Qed.

Lemma Atoi_Itoa n : 0 <= n < 2 ^ 63 -> Atoi (Itoa n) = Ok n.
Proof.
  intros H. unfold Atoi. rewrite chars_Itoa by lia.
  pose proof (itoa_chars_digits (S (Z.to_nat (Z.log2 n))) n ltac:(lia)) as Hd.
  pose proof (itoa_chars_nonempty (S (Z.to_nat (Z.log2 n))) n ltac:(lia)) as Hne.
  pose proof (parse_itoa (2 ^ 63 - 1) (S (Z.to_nat (Z.log2 n))) n ltac:(lia)
    (fuel_log2 n ltac:(lia)) ltac:(lia)) as Hp.
  destruct (itoa_chars _ n) as [|c l] eqn:E; [done|].
  apply Forall_cons in Hd as [Hc _]. apply digit_not_sign in Hc as (H1 & H2 & _).
  rewrite !bool_decide_false by done. cbn [orb].
  by rewrite Hp.
Qed.

Lemma Atoi_or_default_Itoa n : 0 <= n < 2 ^ 63 -> Atoi_or_default (Itoa n) = n.
Proof. intros H. unfold Atoi_or_default. by rewrite Atoi_Itoa. Qed.

Lemma parse_digits_bound max n l m :
  0 <= n <= max -> parse_digits max n l = Ok m -> 0 <= m <= max.
Proof.
  revert n. induction l as [|c l IH]; intros n Hn; cbn.
  - intros [= <-]. done.
  - destruct (is_digit c) eqn:Ec; [|done].
    destruct (Z.ltb_spec max (n * 10 + digit_val c)); [done|]. apply IH.
    unfold is_digit in Ec. unfold digit_val in *. bsimpl. lia.
Qed.

Lemma ParseUint_bound s bits m : 0 <= bits -> ParseUint s bits = Ok m -> 0 <= m < 2 ^ bits.
Proof.
  intros Hb. unfold ParseUint. destruct (chars s) as [|c l] eqn:E; [done|].
  intros H. apply parse_digits_bound in H; lia.
Qed.

#[export] Hint Rewrite of_chars_chars chars_of_chars chars_app : go.
