(* ===== verification/RuleContext.v ===== *)
(** The connection metadata a rule reads, [adapter.InboundContext]
    (src/adapter/inbound.go), the DNS response attached to it, and the services
    and third-party packages the rule items call. *)

From S2P Require Import Prelude NetAddr GoStrings.

(** * DNS messages

    The parts of [dns.Msg] (github.com/miekg/dns) the rules inspect. *)

Inductive SVCBKeyValue :=
| SVCBIPv4Hint (Hint : list (list Z))
| SVCBIPv6Hint (Hint : list (list Z))
| SVCBOther (key : Z).

Inductive RR :=
| RR_A (ip : list Z)
| RR_AAAA (ip : list Z)
| RR_HTTPS (Value : list SVCBKeyValue)
| RR_Other (rrtype : Z) (rdata : string).

Record Msg := mkMsg { Rcode : Z; Answer : list RR; Ns : list RR; Extra : list RR }.

Definition RcodeSuccess : Z := 0.

(** * Metadata *)

(** [adapter.ConnectionOwner] *)
Record ConnectionOwner := mkConnectionOwner {
  ProcessID : Z;
  UserId : Z;
  UserName : string;
  ProcessPath : string;
  AndroidPackageNames : list string;
}.

(** [adapter.InboundContext], the fields read or written by the rule engine. *)
Record InboundContext := mkInboundContext {
  Inbound : string;
  IPVersion : Z;
  Network : string;
  Source : Socksaddr;
  Destination : Socksaddr;
  User : string;
  Outbound : string;
  Protocol : string;
  SniffHost : string;
  Client : string;
  CacheIPs : list Addr;
  Domain : string;
  DestinationAddresses : list Addr;
  DNSResponse : option Msg;
  NamedDNSResponses : gmap string Msg;
  DestinationAddressMatchFromResponse : bool;
  ProcessInfo : option ConnectionOwner;
  SourceMACAddress : option (list Z);
  SourceHostname : string;
  QueryType : Z;
  QueryClientSubnet : Prefix;
  QueryDNSSEC : bool;
  IPCIDRMatchSource : bool;
  IPCIDRAcceptEmpty : bool;
  SourceAddressMatch : bool;
  SourcePortMatch : bool;
  DestinationAddressMatch : bool;
  DestinationPortMatch : bool;
  DeferredIPCIDRMatchGroups : Z;
  IgnoreDestinationIPCIDRMatch : bool;
}.

Definition ResetRuleMatchCache (c : InboundContext) : InboundContext :=
  c <| SourceAddressMatch := false |>
    <| SourcePortMatch := false |>
    <| DestinationAddressMatch := false |>
    <| DestinationPortMatch := false |>
    <| DeferredIPCIDRMatchGroups := 0 |>.

Definition ResetRuleCache (c : InboundContext) : InboundContext :=
  ResetRuleMatchCache
    (c <| IPCIDRMatchSource := false |> <| IPCIDRAcceptEmpty := false |>).

(** The zero value of the struct. *)
Definition zeroSocksaddr : Socksaddr := mkSocksaddr zeroAddr 0 "".
Definition zeroInboundContext : InboundContext :=
  mkInboundContext "" 0 "" zeroSocksaddr zeroSocksaddr "" "" "" "" "" [] "" [] None ∅ false
    None None "" 0 zeroPrefix false false false false false false false 0 false.

(** * DNS response addresses *)

Section DNSResponse.
Context {M : MetadataPkg}.

(** The addresses of one answer record. *)
Definition hint_addresses (value : SVCBKeyValue) : list Addr :=
  match value with
  | SVCBIPv4Hint hint => List.filter IsValid (map (fun ip => Unmap (AddrFromIP ip)) hint)
  | SVCBIPv6Hint hint => List.filter IsValid (map AddrFromIP hint)
  | SVCBOther _ => []
  end.

Definition record_addresses (rawRecord : RR) : list Addr :=
  match rawRecord with
  | RR_A a => List.filter IsValid [AddrFromIP a]
  | RR_AAAA a => List.filter IsValid [AddrFromIP a]
  | RR_HTTPS values => concat (map hint_addresses values)
  | RR_Other _ _ => []
  end.

Definition DNSResponseAddresses (response : option Msg) : list Addr :=
  match response with
  | None => []
  | Some response =>
      if negb (Rcode response =? RcodeSuccess) then []
      else concat (map record_addresses (Answer response))
  end.

Definition DNSResponseAddressesForMatch (c : InboundContext) : list Addr :=
  DNSResponseAddresses (DNSResponse c).

(** A failed response exposes no address, and every exposed address is valid. *)
Lemma DNSResponseAddresses_valid response :
  Forall (fun a => IsValid a = true) (DNSResponseAddresses response).
Proof.
  destruct response as [m|]; cbn; [|constructor].
  destruct (negb _); [constructor|].
  apply Forall_concat, Forall_map, Forall_true. intros [ip|ip|vs|t d]; cbn; try constructor.
  - destruct (IsValid _) eqn:E; repeat constructor; done.
  - destruct (IsValid _) eqn:E; repeat constructor; done.
  - apply Forall_concat, Forall_map, Forall_true. intros [h|h|k]; cbn; try constructor.
    + apply List.Forall_forall. intros a Ha. by apply List.filter_In in Ha as [_ ?].
    + apply List.Forall_forall. intros a Ha. by apply List.filter_In in Ha as [_ ?].
Qed.

End DNSResponse.

(** * Network state *)

Record Interface := mkInterface { Interface_Name : string; Interface_Addresses : list Prefix }.

(** [adapter.NetworkInterface] *)
Record NetworkInterface := mkNetworkInterface {
  NI_Interface : Interface;
  NI_Type : Z;
  NI_Expensive : bool;
  NI_Constrained : bool;
}.

(** [adapter.WIFIState] *)
Record WIFIState := mkWIFIState { SSID : string; BSSID : string }.

(** What the items read of [adapter.NetworkManager] during a match. *)
Record NetworkManager := mkNetworkManager {
  DefaultNetworkInterface : option NetworkInterface;
  NetworkInterfaces : list NetworkInterface;
  InterfaceFinder_Interfaces : list Interface;
  InterfaceMonitor_MyInterfaces : list string;
  InterfaceMonitor_DefaultInterface : option Interface;
  NM_WIFIState : WIFIState;
}.

(** A netipx [IPSet] through the layout src/common/srs/ip_set.go gives it:
    sorted inclusive address ranges. *)
Notation IPSet := (list (Addr * Addr)).

(** A call on a [netipx.IPSetBuilder]. *)
Inductive builder_op := AddPrefix (p : Prefix) | AddAddr (a : Addr).

(** The packages and services outside the rule package. *)
Class RuleEnv := {
  env_metadata :: MetadataPkg;
  (* netipx *)
  IPSet_Contains : IPSet -> Addr -> bool;
  IPSetBuilder_IPSet : list builder_op -> res IPSet;
  (* net, net/netip: text forms *)
  netip_ParsePrefix : string -> res Prefix;
  netip_ParseAddr : string -> res Addr;
  net_ParseMAC : string -> res (list Z);
  HardwareAddr_String : list Z -> string;
  hex_DecodeString : string -> res (list Z);
  strings_TrimSpace : string -> string;
  Prefix_String : Prefix -> string;
  (* sing/common/domain *)
  DomainMatcher : Type;
  NewMatcher : list string -> list string -> bool -> DomainMatcher;
  DomainMatcher_Match : DomainMatcher -> string -> bool;
  AdGuardMatcher : Type;
  NewAdGuardMatcher : list string -> AdGuardMatcher;
  AdGuardMatcher_Match : AdGuardMatcher -> string -> bool;
  (* regexp *)
  Regexp : Type;
  regexp_Compile : string -> res Regexp;
  MatchString : Regexp -> string -> bool;
  (* strings: the mappings of non-ASCII text *)
  unicode_ToLower : string -> string;
  unicode_EqualFold : string -> string -> bool;
  (* sing/common/network *)
  IsPublicAddr : Addr -> bool;
  (* miekg/dns *)
  CanonicalName : string -> string;
  RcodeToString : Z -> string;
  dns_TypeToString : Z -> option string;
  dns_IsDuplicate : RR -> RR -> bool;
  RR_String : RR -> string;
  (* adapter.OutboundWithPreferredRoutes, adapter.DNSTransportWithPreferredDomain *)
  PreferredOutbound : Type;
  PreferredDomain : PreferredOutbound -> InboundContext -> string -> bool;
  PreferredAddress : PreferredOutbound -> InboundContext -> Addr -> bool;
  PreferredTransport : Type;
  Transport_PreferredDomain : PreferredTransport -> string -> bool;
  (* the running instance *)
  networkManager : NetworkManager;
  clashServer_Mode : string;
  IsAndroid : bool;
}.

(** * Values of src/option and src/constant *)

(** [InterfaceType.String] *)
Definition InterfaceType_String (t : Z) : string :=
  match t with
  | 0 => "wifi"
  | 1 => "cellular"
  | 2 => "ethernet"
  | 3 => "other"
  | _ => Itoa t
  end.

(** [option.DNSRecordOptions]; its record may be nil. *)
Record DNSRecordOptions := mkDNSRecordOptions { DNSRecordOptions_RR : option RR; fromBase64 : bool }.

Section Options.
Context {Env : RuleEnv}.

Definition DNSQueryTypeToString (queryType : Z) : string :=
  match dns_TypeToString queryType with
  | Some typeName => typeName
  | None => Itoa queryType
  end.

Definition DNSRecordOptions_Match (o : DNSRecordOptions) (record : RR) : bool :=
  match DNSRecordOptions_RR o with
  | None => false
  | Some rr => dns_IsDuplicate rr record
  end.

End Options.
