(* ===== verification/RuleItems.v ===== *)
(** The rule items of src/route/rule/rule_item_*.go and
    src/route/rule/rule_*interface_address.go: one record per item struct, its
    constructor and its [Match] method, and the [RuleItem] interface as the sum
    of the item types with the dispatching [Match]. *)

From S2P Require Import Prelude NetAddr GoStrings RuleContext.

(** * Domain match strategies *)

Definition DomainMatchStrategyAsIS : Z := 0.
Definition DomainMatchStrategyPreferFQDN : Z := 1.
Definition DomainMatchStrategyPreferSniffHost : Z := 2.
Definition DomainMatchStrategyFQDNOnly : Z := 3.
Definition DomainMatchStrategySniffHostOnly : Z := 4.

Definition str_empty (s : string) : bool := bool_decide (s = "").

Section Items.
Context {Env : RuleEnv}.

(** The host a domain item matches, by strategy: the switch at the head of the
    [Match] methods of the domain items. *)
Definition domainHost (strategy : Z) (metadata : InboundContext) : string :=
  if strategy =? DomainMatchStrategyPreferFQDN then
    if IsDomain (Destination metadata) then Fqdn (Destination metadata)
    else if negb (str_empty (SniffHost metadata)) then SniffHost metadata
    else Domain metadata
  else if strategy =? DomainMatchStrategyFQDNOnly then
    if IsDomain (Destination metadata) then Fqdn (Destination metadata) else ""
  else if strategy =? DomainMatchStrategySniffHostOnly then
    if negb (str_empty (SniffHost metadata)) then SniffHost metadata else ""
  else
    if negb (str_empty (SniffHost metadata)) then SniffHost metadata
    else if IsDomain (Destination metadata) then Fqdn (Destination metadata)
    else Domain metadata.

(** * Domain items *)

Record DomainItem := mkDomainItem {
  DomainItem_matcher : DomainMatcher;
  DomainItem_description : string;
  DomainItem_domainMatchStrategy : Z;
}.

(** [field=value], [field=[a b c]] or [field=[a b c...]]. *)
Definition list_description (field : string) (l : list string) : string :=
  match l with
  | [s] => field +:+ "=" +:+ s
  | _ =>
      if (3 <? length l)%nat
      then field +:+ "=[" +:+ Join (take 3 l) " " +:+ "...]"
      else field +:+ "=[" +:+ Join l " " +:+ "]"
  end.

Definition NewDomainItem (domains domainSuffixes : list string) (strategy : Z) : res DomainItem :=
  if inb "" domains then Err (ENew "domain: empty item is not allowed")
  else if inb "" domainSuffixes then Err (ENew "domain_suffix: empty item is not allowed")
  else
    let d1 := if nonempty domains then list_description "domain" domains else "" in
    let d2 :=
      if nonempty domainSuffixes
      then (if negb (str_empty d1) then d1 +:+ " " else d1)
             +:+ list_description "domain_suffix" domainSuffixes
      else d1 in
    Ok (mkDomainItem (NewMatcher domains domainSuffixes false) d2 strategy).

Definition NewRawDomainItem (matcher : DomainMatcher) (strategy : Z) : DomainItem :=
  mkDomainItem matcher "domain/domain_suffix=<binary>" strategy.

Definition DomainItem_Match (r : DomainItem) (metadata : InboundContext) : bool :=
  let host := domainHost (DomainItem_domainMatchStrategy r) metadata in
  if str_empty host then false
  else DomainMatcher_Match (DomainItem_matcher r) (ToLower unicode_ToLower host).

Record DomainKeywordItem := mkDomainKeywordItem {
  DomainKeywordItem_keywords : list string;
  DomainKeywordItem_domainMatchStrategy : Z;
}.

Definition NewDomainKeywordItem (keywords : list string) (strategy : Z) : DomainKeywordItem :=
  mkDomainKeywordItem keywords strategy.

Definition DomainKeywordItem_Match (r : DomainKeywordItem) (metadata : InboundContext) : bool :=
  let host := domainHost (DomainKeywordItem_domainMatchStrategy r) metadata in
  if str_empty host then false
  else existsb (fun keyword => Contains_str (ToLower unicode_ToLower host) keyword)
         (DomainKeywordItem_keywords r).

Record DomainRegexItem := mkDomainRegexItem {
  DomainRegexItem_matchers : list Regexp;
  DomainRegexItem_description : string;
  DomainRegexItem_domainMatchStrategy : Z;
}.

(** [field=expr] or [field=[e1 e2 e3]], at most three shown. *)
Definition regex_description (field : string) (l : list string) : string :=
  match l with
  | [s] => field +:+ "=" +:+ s
  | _ =>
      if (3 <? length l)%nat
      then field +:+ "=[" +:+ Join (take 3 l) " " +:+ "]"
      else field +:+ "=[" +:+ Join l " " +:+ "]"
  end.

Definition compile_all (expressions : list string) : res (list Regexp) :=
  res_map (fun regex => res_cause "parse expression " (regexp_Compile regex)) expressions.

Definition NewDomainRegexItem (expressions : list string) (strategy : Z) : res DomainRegexItem :=
  let! matchers := compile_all expressions in
  Ok (mkDomainRegexItem matchers (regex_description "domain_regex" expressions) strategy).

Definition DomainRegexItem_Match (r : DomainRegexItem) (metadata : InboundContext) : bool :=
  let host := domainHost (DomainRegexItem_domainMatchStrategy r) metadata in
  if str_empty host then false
  else existsb (fun matcher => MatchString matcher (ToLower unicode_ToLower host))
         (DomainRegexItem_matchers r).

Record AdGuardDomainItem := mkAdGuardDomainItem {
  AdGuardDomainItem_matcher : AdGuardMatcher;
  AdGuardDomainItem_domainMatchStrategy : Z;
}.

Definition NewAdGuardDomainItem (ruleLines : list string) (strategy : Z) : AdGuardDomainItem :=
  mkAdGuardDomainItem (NewAdGuardMatcher ruleLines) strategy.

Definition NewRawAdGuardDomainItem (matcher : AdGuardMatcher) (strategy : Z) : AdGuardDomainItem :=
  mkAdGuardDomainItem matcher strategy.

Definition AdGuardDomainItem_Match (r : AdGuardDomainItem) (metadata : InboundContext) : bool :=
  let host := domainHost (AdGuardDomainItem_domainMatchStrategy r) metadata in
  if str_empty host then false
  else AdGuardMatcher_Match (AdGuardDomainItem_matcher r) (ToLower unicode_ToLower host).

(** * Items that look a name up in a set *)

Record InboundItem := mkInboundItem {
  InboundItem_inbounds : list string;
  InboundItem_inboundMap : gset string;
}.
Definition NewInboundRule (inbounds : list string) : InboundItem :=
  mkInboundItem inbounds (set_of inbounds).
Definition InboundItem_Match (r : InboundItem) (metadata : InboundContext) : bool :=
  set_has (Inbound metadata) (InboundItem_inboundMap r).

Record NetworkItem := mkNetworkItem {
  NetworkItem_networks : list string;
  NetworkItem_networkMap : gset string;
}.
Definition NewNetworkItem (networks : list string) : NetworkItem :=
  mkNetworkItem networks (set_of networks).
Definition NetworkItem_Match (r : NetworkItem) (metadata : InboundContext) : bool :=
  set_has (Network metadata) (NetworkItem_networkMap r).

Record AuthUserItem := mkAuthUserItem {
  AuthUserItem_users : list string;
  AuthUserItem_userMap : gset string;
}.
Definition NewAuthUserItem (users : list string) : AuthUserItem :=
  mkAuthUserItem users (set_of users).
Definition AuthUserItem_Match (r : AuthUserItem) (metadata : InboundContext) : bool :=
  set_has (User metadata) (AuthUserItem_userMap r).

Record ProtocolItem := mkProtocolItem {
  ProtocolItem_protocols : list string;
  ProtocolItem_protocolMap : gset string;
}.
Definition NewProtocolItem (protocols : list string) : ProtocolItem :=
  mkProtocolItem protocols (set_of protocols).
Definition ProtocolItem_Match (r : ProtocolItem) (metadata : InboundContext) : bool :=
  set_has (Protocol metadata) (ProtocolItem_protocolMap r).

Record ClientItem := mkClientItem {
  ClientItem_clients : list string;
  ClientItem_clientMap : gset string;
}.
Definition NewClientItem (clients : list string) : ClientItem :=
  mkClientItem clients (set_of clients).
Definition ClientItem_Match (r : ClientItem) (metadata : InboundContext) : bool :=
  set_has (Client metadata) (ClientItem_clientMap r).

Record SourceHostnameItem := mkSourceHostnameItem {
  SourceHostnameItem_hostnames : list string;
  SourceHostnameItem_hostnameMap : gset string;
}.
Definition NewSourceHostnameItem (hostnameList : list string) : SourceHostnameItem :=
  mkSourceHostnameItem hostnameList (set_of hostnameList).
Definition SourceHostnameItem_Match (r : SourceHostnameItem) (metadata : InboundContext) : bool :=
  if str_empty (SourceHostname metadata) then false
  else set_has (SourceHostname metadata) (SourceHostnameItem_hostnameMap r).

Record SourceMACAddressItem := mkSourceMACAddressItem {
  SourceMACAddressItem_addresses : list string;
  SourceMACAddressItem_addressMap : gset string;
}.
Definition NewSourceMACAddressItem (addressList : list string) : SourceMACAddressItem :=
  mkSourceMACAddressItem addressList
    (set_of (map (fun address =>
       match net_ParseMAC address with
       | Ok parsed => HardwareAddr_String parsed
       | _ => address
       end) addressList)).
Definition SourceMACAddressItem_Match (r : SourceMACAddressItem) (metadata : InboundContext) : bool :=
  match SourceMACAddress metadata with
  | None => false
  | Some mac => set_has (HardwareAddr_String mac) (SourceMACAddressItem_addressMap r)
  end.

Record OutboundItem := mkOutboundItem {
  OutboundItem_outbounds : list string;
  OutboundItem_outboundMap : gset string;
  OutboundItem_matchAny : bool;
}.
Definition NewOutboundRule (outbounds : list string) : OutboundItem :=
  mkOutboundItem outbounds
    (set_of (List.filter (fun o => negb (bool_decide (o = "any"))) outbounds))
    (existsb (fun o => bool_decide (o = "any")) outbounds).
Definition OutboundItem_Match (r : OutboundItem) (metadata : InboundContext) : bool :=
  if OutboundItem_matchAny r then negb (str_empty (Outbound metadata))
  else set_has (Outbound metadata) (OutboundItem_outboundMap r).

Record ClashModeItem := mkClashModeItem {
  ClashModeItem_clashServer : bool;
  ClashModeItem_modes : list string;
}.
Definition NewClashModeItem (modes : list string) : ClashModeItem :=
  mkClashModeItem false modes.
(** [Start] takes the clash server of the context, if there is one. *)
Definition ClashModeItem_Start (registered : bool) (r : ClashModeItem) : ClashModeItem :=
  mkClashModeItem registered (ClashModeItem_modes r).
Definition ClashModeItem_Match (r : ClashModeItem) (metadata : InboundContext) : bool :=
  if negb (ClashModeItem_clashServer r) then false
  else existsb (fun mode => EqualFold unicode_EqualFold clashServer_Mode mode) (ClashModeItem_modes r).

(** * Process items *)

Record ProcessItem := mkProcessItem {
  ProcessItem_processes : list string;
  ProcessItem_processMap : gset string;
}.
Definition NewProcessItem (processNameList : list string) : ProcessItem :=
  mkProcessItem processNameList (set_of processNameList).
Definition ProcessItem_Match (r : ProcessItem) (metadata : InboundContext) : bool :=
  match ProcessInfo metadata with
  | None => false
  | Some info =>
      if str_empty (ProcessPath info) then false
      else set_has (Base (ProcessPath info)) (ProcessItem_processMap r)
  end.

Record ProcessPathItem := mkProcessPathItem {
  ProcessPathItem_processes : list string;
  ProcessPathItem_processMap : gset string;
}.
Definition NewProcessPathItem (processNameList : list string) : ProcessPathItem :=
  mkProcessPathItem processNameList (set_of processNameList).
Definition ProcessPathItem_Match (r : ProcessPathItem) (metadata : InboundContext) : bool :=
  match ProcessInfo metadata with
  | None => false
  | Some info =>
      if negb (str_empty (ProcessPath info))
         && set_has (ProcessPath info) (ProcessPathItem_processMap r) then true
      else if IsAndroid
           then existsb (fun packageName => set_has packageName (ProcessPathItem_processMap r))
                  (AndroidPackageNames info)
           else false
  end.

Record ProcessPathRegexItem := mkProcessPathRegexItem {
  ProcessPathRegexItem_matchers : list Regexp;
  ProcessPathRegexItem_description : string;
}.
Definition NewProcessPathRegexItem (expressions : list string) : res ProcessPathRegexItem :=
  let! matchers := compile_all expressions in
  Ok (mkProcessPathRegexItem matchers (regex_description "process_path_regex" expressions)).
Definition ProcessPathRegexItem_Match (r : ProcessPathRegexItem) (metadata : InboundContext) : bool :=
  match ProcessInfo metadata with
  | None => false
  | Some info =>
      if str_empty (ProcessPath info) then false
      else existsb (fun matcher => MatchString matcher (ProcessPath info))
             (ProcessPathRegexItem_matchers r)
  end.

Record PackageNameItem := mkPackageNameItem {
  PackageNameItem_packageNames : list string;
  PackageNameItem_packageMap : gset string;
}.
Definition NewPackageNameItem (packageNameList : list string) : PackageNameItem :=
  mkPackageNameItem packageNameList (set_of packageNameList).
Definition PackageNameItem_Match (r : PackageNameItem) (metadata : InboundContext) : bool :=
  match ProcessInfo metadata with
  | None => false
  | Some info =>
      existsb (fun packageName => set_has packageName (PackageNameItem_packageMap r))
        (AndroidPackageNames info)
  end.

Record PackageNameRegexItem := mkPackageNameRegexItem {
  PackageNameRegexItem_matchers : list Regexp;
  PackageNameRegexItem_description : string;
}.
Definition NewPackageNameRegexItem (expressions : list string) : res PackageNameRegexItem :=
  let! matchers := compile_all expressions in
  Ok (mkPackageNameRegexItem matchers (regex_description "package_name_regex" expressions)).
Definition PackageNameRegexItem_Match (r : PackageNameRegexItem) (metadata : InboundContext) : bool :=
  match ProcessInfo metadata with
  | None => false
  | Some info =>
      if negb (nonempty (AndroidPackageNames info)) then false
      else existsb (fun matcher => existsb (MatchString matcher) (AndroidPackageNames info))
             (PackageNameRegexItem_matchers r)
  end.

Record UserItem := mkUserItem {
  UserItem_users : list string;
  UserItem_userMap : gset string;
}.
Definition NewUserItem (users : list string) : UserItem := mkUserItem users (set_of users).
Definition UserItem_Match (r : UserItem) (metadata : InboundContext) : bool :=
  match ProcessInfo metadata with
  | None => false
  | Some info =>
      if str_empty (UserName info) then false
      else set_has (UserName info) (UserItem_userMap r)
  end.

Record UserIdItem := mkUserIdItem {
  UserIdItem_userIds : list Z;
  UserIdItem_userIdMap : gset Z;
}.
Definition NewUserIDItem (userIdList : list Z) : UserIdItem :=
  mkUserIdItem userIdList (set_of userIdList).
Definition UserIdItem_Match (r : UserIdItem) (metadata : InboundContext) : bool :=
  match ProcessInfo metadata with
  | None => false
  | Some info =>
      if UserId info =? -1 then false
      else set_has (UserId info) (UserIdItem_userIdMap r)
  end.

(** * Port items *)

Record PortItem := mkPortItem {
  PortItem_ports : list Z;
  PortItem_portMap : gset Z;
  PortItem_isSource : bool;
}.
Definition NewPortItem (isSource : bool) (ports : list Z) : PortItem :=
  mkPortItem ports (set_of ports) isSource.
Definition PortItem_Match (r : PortItem) (metadata : InboundContext) : bool :=
  if PortItem_isSource r
  then set_has (Port (Source metadata)) (PortItem_portMap r)
  else set_has (Port (Destination metadata)) (PortItem_portMap r).

Record rangeItem := mkRangeItem { range_start : Z; range_end : Z }.

Record PortRangeItem := mkPortRangeItem {
  PortRangeItem_isSource : bool;
  PortRangeItem_portRanges : list string;
  PortRangeItem_portRangeList : list rangeItem;
}.

(** One element of the loop of [NewPortRangeItem]. *)
Definition parsePortRange (portRange : string) : res rangeItem :=
  let bad := ENew "bad port range" in
  match Index_str portRange ":" with
  | None => Err (ECause bad portRange)
  | Some subIndex =>
      let! start :=
        if (0 <? subIndex)%nat
        then res_cause portRange (ParseUint (take_str subIndex portRange) 16)
        else Ok 0 in
      let! end_ :=
        if (subIndex =? String.length portRange - 1)%nat
        then Ok 0xFFFF
        else res_cause portRange (ParseUint (drop_str (subIndex + 1) portRange) 16) in
      Ok (mkRangeItem (u16 start) (u16 end_))
  end.

Definition NewPortRangeItem (isSource : bool) (rangeList : list string) : res PortRangeItem :=
  let! portRangeList := res_map parsePortRange rangeList in
  Ok (mkPortRangeItem isSource rangeList portRangeList).

Definition PortRangeItem_Match (r : PortRangeItem) (metadata : InboundContext) : bool :=
  let port := if PortRangeItem_isSource r then Port (Source metadata)
              else Port (Destination metadata) in
  existsb (fun portRange => (range_start portRange <=? port) && (port <=? range_end portRange))
    (PortRangeItem_portRangeList r).

(** * Address items *)

Record IPCIDRItem := mkIPCIDRItem {
  IPCIDRItem_ipSet : IPSet;
  IPCIDRItem_isSource : bool;
  IPCIDRItem_description : string;
}.

(** One element of the loop that feeds the [IPSetBuilder]: a prefix, or else an
    address; the error reported is the prefix's. *)
Definition parse_cidr (prefixString : string) : res builder_op :=
  match netip_ParsePrefix prefixString with
  | Ok prefix => Ok (AddPrefix prefix)
  | Err err =>
      match netip_ParseAddr prefixString with
      | Ok a => Ok (AddAddr a)
      | _ => Err (ECause err "parse [")
      end
  | Panic s => Panic s
  | OutOfFuel => OutOfFuel
  end.

Definition NewIPCIDRItem (isSource : bool) (prefixStrings : list string) : res IPCIDRItem :=
  let! ops := res_map parse_cidr prefixStrings in
  let! ipSet := IPSetBuilder_IPSet ops in
  Ok (mkIPCIDRItem ipSet isSource
        (list_description (if isSource then "source_ip_cidr" else "ip_cidr") prefixStrings)).

Definition NewRawIPCIDRItem (isSource : bool) (ipSet : IPSet) : IPCIDRItem :=
  mkIPCIDRItem ipSet isSource
    ((if isSource then "source_ip_cidr=" else "ip_cidr=") +:+ "<binary>").

Definition IPCIDRItem_Match (r : IPCIDRItem) (metadata : InboundContext) : bool :=
  let contains := IPSet_Contains (IPCIDRItem_ipSet r) in
  if IPCIDRItem_isSource r || IPCIDRMatchSource metadata
  then contains (Socksaddr_Addr (Source metadata))
  else if DestinationAddressMatchFromResponse metadata then
    let addresses := DNSResponseAddressesForMatch metadata in
    if negb (nonempty addresses) then IPCIDRAcceptEmpty metadata
    else existsb contains addresses
  else if IsIP (Destination metadata) then contains (Socksaddr_Addr (Destination metadata))
  else if nonempty (DestinationAddresses metadata)
  then existsb contains (DestinationAddresses metadata)
  else if nonempty (CacheIPs metadata) then existsb contains (CacheIPs metadata)
  else IPCIDRAcceptEmpty metadata.

Record IPIsPrivateItem := mkIPIsPrivateItem { IPIsPrivateItem_isSource : bool }.
Definition NewIPIsPrivateItem (isSource : bool) : IPIsPrivateItem := mkIPIsPrivateItem isSource.
Definition IPIsPrivateItem_Match (r : IPIsPrivateItem) (metadata : InboundContext) : bool :=
  let private a := negb (IsPublicAddr a) in
  if IPIsPrivateItem_isSource r then private (Socksaddr_Addr (Source metadata))
  else if DestinationAddressMatchFromResponse metadata
  then existsb private (DNSResponseAddressesForMatch metadata)
  else if IsValid (Socksaddr_Addr (Destination metadata))
  then private (Socksaddr_Addr (Destination metadata))
  else if existsb private (DestinationAddresses metadata) then true
  else existsb private (CacheIPs metadata).

Record IPAcceptAnyItem := mkIPAcceptAnyItem {}.
Definition NewIPAcceptAnyItem : IPAcceptAnyItem := mkIPAcceptAnyItem.
Definition IPAcceptAnyItem_Match (r : IPAcceptAnyItem) (metadata : InboundContext) : bool :=
  if DestinationAddressMatchFromResponse metadata
  then nonempty (DNSResponseAddressesForMatch metadata)
  else nonempty (DestinationAddresses metadata).

Record IPVersionItem := mkIPVersionItem { IPVersionItem_isIPv6 : bool }.
Definition NewIPVersionItem (isIPv6 : bool) : IPVersionItem := mkIPVersionItem isIPv6.
Definition IPVersionItem_Match (r : IPVersionItem) (metadata : InboundContext) : bool :=
  (negb (IPVersion metadata =? 0) && Bool.eqb (IPVersion metadata =? 6) (IPVersionItem_isIPv6 r))
  || (IsIP (Destination metadata)
      && Bool.eqb (IsIPv6 (Destination metadata)) (IPVersionItem_isIPv6 r)).

(** * Network state items *)

Record NetworkTypeItem := mkNetworkTypeItem { NetworkTypeItem_networkType : list Z }.
Definition NewNetworkTypeItem (networkType : list Z) : NetworkTypeItem :=
  mkNetworkTypeItem networkType.
Definition NetworkTypeItem_Match (r : NetworkTypeItem) (metadata : InboundContext) : bool :=
  match DefaultNetworkInterface networkManager with
  | None => false
  | Some networkInterface => inb (NI_Type networkInterface) (NetworkTypeItem_networkType r)
  end.

Record NetworkIsExpensiveItem := mkNetworkIsExpensiveItem {}.
Definition NewNetworkIsExpensiveItem : NetworkIsExpensiveItem := mkNetworkIsExpensiveItem.
Definition NetworkIsExpensiveItem_Match (r : NetworkIsExpensiveItem) (metadata : InboundContext) : bool :=
  match DefaultNetworkInterface networkManager with
  | None => false
  | Some networkInterface => NI_Expensive networkInterface
  end.

Record NetworkIsConstrainedItem := mkNetworkIsConstrainedItem {}.
Definition NewNetworkIsConstrainedItem : NetworkIsConstrainedItem := mkNetworkIsConstrainedItem.
Definition NetworkIsConstrainedItem_Match (r : NetworkIsConstrainedItem) (metadata : InboundContext) : bool :=
  match DefaultNetworkInterface networkManager with
  | None => false
  | Some networkInterface => NI_Constrained networkInterface
  end.

Record WIFISSIDItem := mkWIFISSIDItem {
  WIFISSIDItem_ssidList : list string;
  WIFISSIDItem_ssidMap : gset string;
}.
Definition NewWIFISSIDItem (ssidList : list string) : WIFISSIDItem :=
  mkWIFISSIDItem ssidList (set_of ssidList).
Definition WIFISSIDItem_Match (r : WIFISSIDItem) (metadata : InboundContext) : bool :=
  set_has (SSID (NM_WIFIState networkManager)) (WIFISSIDItem_ssidMap r).

(** [adapter.NormalizeWIFIBSSID] *)
Definition NormalizeWIFIBSSID (bssid0 : string) : string :=
  let bssid := strings_TrimSpace bssid0 in
  if str_empty bssid then ""
  else
    let fallback :=
      if (String.length bssid =? 12)%nat
      then match hex_DecodeString bssid with
           | Ok decoded => HardwareAddr_String decoded
           | _ => bssid
           end
      else bssid in
    match net_ParseMAC bssid with
    | Ok parsed => if (length parsed =? 6)%nat then HardwareAddr_String parsed else fallback
    | _ => fallback
    end.

Record WIFIBSSIDItem := mkWIFIBSSIDItem {
  WIFIBSSIDItem_bssidList : list string;
  WIFIBSSIDItem_bssidMap : gset string;
}.
Definition NewWIFIBSSIDItem (bssidList : list string) : WIFIBSSIDItem :=
  mkWIFIBSSIDItem bssidList (set_of (map NormalizeWIFIBSSID bssidList)).
Definition WIFIBSSIDItem_Match (r : WIFIBSSIDItem) (metadata : InboundContext) : bool :=
  set_has (BSSID (NM_WIFIState networkManager)) (WIFIBSSIDItem_bssidMap r).

Record InterfaceAddressItem := mkInterfaceAddressItem {
  InterfaceAddressItem_interfaceAddresses : gmap string (list Prefix);
  InterfaceAddressItem_description : string;
}.
Definition NewInterfaceAddressItem (interfaceAddresses : list (string * list Prefix)) : InterfaceAddressItem :=
  mkInterfaceAddressItem
    (fold_left (fun m '(key, prefixes) => <[key := prefixes]> m) interfaceAddresses ∅)
    ("interface_address=["
       +:+ Join (map (fun '(key, prefixes) => key +:+ "=" +:+ Join (map Prefix_String prefixes) ",")
                  interfaceAddresses) " " +:+ "]").
Definition InterfaceAddressItem_Match (r : InterfaceAddressItem) (metadata : InboundContext) : bool :=
  let interfaces := InterfaceFinder_Interfaces networkManager in
  forallb (fun '(ifName, addresses) =>
    match List.find (fun it => bool_decide (Interface_Name it = ifName)) interfaces with
    | None => false
    | Some iface =>
        if str_empty (Interface_Name iface) then false
        else negb (forallb (fun address =>
               forallb (fun it => negb (Overlaps address it)) (Interface_Addresses iface)) addresses)
    end) (map_to_list (InterfaceAddressItem_interfaceAddresses r)).

Record NetworkInterfaceAddressItem := mkNetworkInterfaceAddressItem {
  NetworkInterfaceAddressItem_interfaceAddresses : gmap Z (list Prefix);
  NetworkInterfaceAddressItem_description : string;
}.
Definition NewNetworkInterfaceAddressItem (interfaceAddresses : list (Z * list Prefix)) : NetworkInterfaceAddressItem :=
  mkNetworkInterfaceAddressItem
    (fold_left (fun m '(key, prefixes) => <[key := prefixes]> m) interfaceAddresses ∅)
    ("network_interface_address=["
       +:+ Join (map (fun '(key, prefixes) =>
                    InterfaceType_String key +:+ "=" +:+ Join (map Prefix_String prefixes) ",")
                  interfaceAddresses) " " +:+ "]").
Definition NetworkInterfaceAddressItem_Match (r : NetworkInterfaceAddressItem) (metadata : InboundContext) : bool :=
  let interfaces := NetworkInterfaces networkManager in
  let myInterfaces := InterfaceMonitor_MyInterfaces networkManager in
  forallb (fun '(ifType, addresses) =>
    existsb (fun networkInterface =>
      if inb (Interface_Name (NI_Interface networkInterface)) myInterfaces then false
      else if negb (NI_Type networkInterface =? ifType) then false
      else existsb (fun it => existsb (fun prefix => Overlaps prefix it) addresses)
             (Interface_Addresses (NI_Interface networkInterface))) interfaces)
    (map_to_list (NetworkInterfaceAddressItem_interfaceAddresses r)).

Record DefaultInterfaceAddressItem := mkDefaultInterfaceAddressItem {
  DefaultInterfaceAddressItem_interfaceAddresses : list Prefix;
}.
Definition NewDefaultInterfaceAddressItem (interfaceAddresses : list Prefix) : DefaultInterfaceAddressItem :=
  mkDefaultInterfaceAddressItem interfaceAddresses.
Definition DefaultInterfaceAddressItem_Match (r : DefaultInterfaceAddressItem) (metadata : InboundContext) : bool :=
  match InterfaceMonitor_DefaultInterface networkManager with
  | None => false
  | Some defaultInterface =>
      forallb (fun address =>
        negb (forallb (fun it => negb (Overlaps address it)) (Interface_Addresses defaultInterface)))
        (DefaultInterfaceAddressItem_interfaceAddresses r)
  end.

(** * Preferred-by items *)

Record PreferredByItem := mkPreferredByItem {
  PreferredByItem_outboundTags : list string;
  PreferredByItem_outbounds : list PreferredOutbound;
  PreferredByItem_domainMatchStrategy : Z;
}.
Definition NewPreferredByItem (outboundTags : list string) (strategy : Z) : PreferredByItem :=
  mkPreferredByItem outboundTags [] strategy.
(** [Start] resolves the tags with the outbound manager; [lookup] gives [None]
    for an unknown tag and [Some None] for an outbound without preferred
    routes. *)
Definition PreferredByItem_Start (lookup : string -> option (option PreferredOutbound))
    (r : PreferredByItem) : res PreferredByItem :=
  let! outbounds := res_map (fun tag =>
    match lookup tag with
    | None => Err (ENew ("outbound not found: " +:+ tag))
    | Some None => Err (ENew "outbound type does not support preferred routes: ")
    | Some (Some outbound) => Ok outbound
    end) (PreferredByItem_outboundTags r) in
  Ok (mkPreferredByItem (PreferredByItem_outboundTags r)
        (PreferredByItem_outbounds r ++ outbounds) (PreferredByItem_domainMatchStrategy r)).
Definition PreferredByItem_Match (r : PreferredByItem) (metadata : InboundContext) : bool :=
  let host := domainHost (PreferredByItem_domainMatchStrategy r) metadata in
  let preferred a := existsb (fun outbound => PreferredAddress outbound metadata a)
                       (PreferredByItem_outbounds r) in
  if negb (str_empty host)
     && existsb (fun outbound => PreferredDomain outbound metadata host) (PreferredByItem_outbounds r)
  then true
  else if IsIP (Destination metadata) && preferred (Socksaddr_Addr (Destination metadata)) then true
  else if existsb preferred (DestinationAddresses metadata) then true
  else existsb preferred (CacheIPs metadata).

Record PreferredByDNSItem := mkPreferredByDNSItem {
  PreferredByDNSItem_transportTags : list string;
  PreferredByDNSItem_transports : list PreferredTransport;
}.
Definition NewPreferredByDNSItem (transportTags : list string) : PreferredByDNSItem :=
  mkPreferredByDNSItem transportTags [].
Definition PreferredByDNSItem_Start (lookup : string -> option (option PreferredTransport))
    (r : PreferredByDNSItem) : res PreferredByDNSItem :=
  let! transports := res_map (fun tag =>
    match lookup tag with
    | None => Err (ENew ("DNS server not found: " +:+ tag))
    | Some None => Err (ENew "DNS server type does not support preferred_by: ")
    | Some (Some transport) => Ok transport
    end) (PreferredByDNSItem_transportTags r) in
  Ok (mkPreferredByDNSItem (PreferredByDNSItem_transportTags r)
        (PreferredByDNSItem_transports r ++ transports)).
Definition PreferredByDNSItem_Match (r : PreferredByDNSItem) (metadata : InboundContext) : bool :=
  let host := if negb (str_empty (Domain metadata)) then Domain metadata
              else Fqdn (Destination metadata) in
  if str_empty host then false
  else existsb (fun transport => Transport_PreferredDomain transport (CanonicalName host))
         (PreferredByDNSItem_transports r).

(** * DNS query and response items *)

Record QueryTypeItem := mkQueryTypeItem {
  QueryTypeItem_typeList : list Z;
  QueryTypeItem_typeMap : gset Z;
}.
Definition NewQueryTypeItem (typeList : list Z) : QueryTypeItem :=
  mkQueryTypeItem (map u16 typeList) (set_of (map u16 typeList)).
Definition QueryTypeItem_Match (r : QueryTypeItem) (metadata : InboundContext) : bool :=
  if QueryType metadata =? 0 then false
  else set_has (QueryType metadata) (QueryTypeItem_typeMap r).

Record QueryClientSubnetItem := mkQueryClientSubnetItem {
  QueryClientSubnetItem_prefixes : list Prefix;
}.
Definition NewQueryClientSubnetItem (prefixables : list Prefix) : QueryClientSubnetItem :=
  mkQueryClientSubnetItem prefixables.
Definition QueryClientSubnetItem_Match (r : QueryClientSubnetItem) (metadata : InboundContext) : bool :=
  let clientSubnet := QueryClientSubnet metadata in
  if negb (Prefix_IsValid clientSubnet) then false
  else existsb (fun prefix => (Bits prefix <=? Bits clientSubnet) && Contains prefix (ip clientSubnet))
         (QueryClientSubnetItem_prefixes r).

Record QueryDNSSECItem := mkQueryDNSSECItem {}.
Definition NewQueryDNSSECItem : QueryDNSSECItem := mkQueryDNSSECItem.
Definition QueryDNSSECItem_Match (r : QueryDNSSECItem) (metadata : InboundContext) : bool :=
  QueryDNSSEC metadata.

Record DNSResponseRCodeItem := mkDNSResponseRCodeItem { DNSResponseRCodeItem_rcode : Z }.
Definition NewDNSResponseRCodeItem (rcode : Z) : DNSResponseRCodeItem := mkDNSResponseRCodeItem rcode.
Definition DNSResponseRCodeItem_Match (r : DNSResponseRCodeItem) (metadata : InboundContext) : bool :=
  match DNSResponse metadata with
  | None => false
  | Some response => Rcode response =? DNSResponseRCodeItem_rcode r
  end.

(** The section of the response a record item selects. *)
Inductive dnsSection := dnsResponseAnswers | dnsResponseNS | dnsResponseExtra.
Definition select_section (s : dnsSection) (message : Msg) : list RR :=
  match s with
  | dnsResponseAnswers => Answer message
  | dnsResponseNS => Ns message
  | dnsResponseExtra => Extra message
  end.

Record DNSResponseRecordItem := mkDNSResponseRecordItem {
  DNSResponseRecordItem_field : string;
  DNSResponseRecordItem_records : list DNSRecordOptions;
  DNSResponseRecordItem_selector : dnsSection;
}.
Definition NewDNSResponseRecordItem (field : string) (records : list DNSRecordOptions)
    (selector : dnsSection) : DNSResponseRecordItem :=
  mkDNSResponseRecordItem field records selector.
Definition DNSResponseRecordItem_Match (r : DNSResponseRecordItem) (metadata : InboundContext) : bool :=
  match DNSResponse metadata with
  | None => false
  | Some response =>
      let records := select_section (DNSResponseRecordItem_selector r) response in
      existsb (fun expected => existsb (DNSRecordOptions_Match expected) records)
        (DNSResponseRecordItem_records r)
  end.

(** * The interface *)

(** [RuleItem]: the item types a rule can hold. *)
Inductive RuleItem :=
| I_Domain (i : DomainItem)
| I_DomainKeyword (i : DomainKeywordItem)
| I_DomainRegex (i : DomainRegexItem)
| I_AdGuardDomain (i : AdGuardDomainItem)
| I_Inbound (i : InboundItem)
| I_Network (i : NetworkItem)
| I_AuthUser (i : AuthUserItem)
| I_Protocol (i : ProtocolItem)
| I_Client (i : ClientItem)
| I_SourceHostname (i : SourceHostnameItem)
| I_SourceMACAddress (i : SourceMACAddressItem)
| I_Outbound (i : OutboundItem)
| I_ClashMode (i : ClashModeItem)
| I_Process (i : ProcessItem)
| I_ProcessPath (i : ProcessPathItem)
| I_ProcessPathRegex (i : ProcessPathRegexItem)
| I_PackageName (i : PackageNameItem)
| I_PackageNameRegex (i : PackageNameRegexItem)
| I_User (i : UserItem)
| I_UserId (i : UserIdItem)
| I_Port (i : PortItem)
| I_PortRange (i : PortRangeItem)
| I_IPCIDR (i : IPCIDRItem)
| I_IPIsPrivate (i : IPIsPrivateItem)
| I_IPAcceptAny (i : IPAcceptAnyItem)
| I_IPVersion (i : IPVersionItem)
| I_NetworkType (i : NetworkTypeItem)
| I_NetworkIsExpensive (i : NetworkIsExpensiveItem)
| I_NetworkIsConstrained (i : NetworkIsConstrainedItem)
| I_WIFISSID (i : WIFISSIDItem)
| I_WIFIBSSID (i : WIFIBSSIDItem)
| I_InterfaceAddress (i : InterfaceAddressItem)
| I_NetworkInterfaceAddress (i : NetworkInterfaceAddressItem)
| I_DefaultInterfaceAddress (i : DefaultInterfaceAddressItem)
| I_PreferredBy (i : PreferredByItem)
| I_PreferredByDNS (i : PreferredByDNSItem)
| I_QueryType (i : QueryTypeItem)
| I_QueryClientSubnet (i : QueryClientSubnetItem)
| I_QueryDNSSEC (i : QueryDNSSECItem)
| I_DNSResponseRCode (i : DNSResponseRCodeItem)
| I_DNSResponseRecord (i : DNSResponseRecordItem).

Definition RuleItem_Match (item : RuleItem) : InboundContext -> bool :=
  match item with
  | I_Domain i => DomainItem_Match i
  | I_DomainKeyword i => DomainKeywordItem_Match i
  | I_DomainRegex i => DomainRegexItem_Match i
  | I_AdGuardDomain i => AdGuardDomainItem_Match i
  | I_Inbound i => InboundItem_Match i
  | I_Network i => NetworkItem_Match i
  | I_AuthUser i => AuthUserItem_Match i
  | I_Protocol i => ProtocolItem_Match i
  | I_Client i => ClientItem_Match i
  | I_SourceHostname i => SourceHostnameItem_Match i
  | I_SourceMACAddress i => SourceMACAddressItem_Match i
  | I_Outbound i => OutboundItem_Match i
  | I_ClashMode i => ClashModeItem_Match i
  | I_Process i => ProcessItem_Match i
  | I_ProcessPath i => ProcessPathItem_Match i
  | I_ProcessPathRegex i => ProcessPathRegexItem_Match i
  | I_PackageName i => PackageNameItem_Match i
  | I_PackageNameRegex i => PackageNameRegexItem_Match i
  | I_User i => UserItem_Match i
  | I_UserId i => UserIdItem_Match i
  | I_Port i => PortItem_Match i
  | I_PortRange i => PortRangeItem_Match i
  | I_IPCIDR i => IPCIDRItem_Match i
  | I_IPIsPrivate i => IPIsPrivateItem_Match i
  | I_IPAcceptAny i => IPAcceptAnyItem_Match i
  | I_IPVersion i => IPVersionItem_Match i
  | I_NetworkType i => NetworkTypeItem_Match i
  | I_NetworkIsExpensive i => NetworkIsExpensiveItem_Match i
  | I_NetworkIsConstrained i => NetworkIsConstrainedItem_Match i
  | I_WIFISSID i => WIFISSIDItem_Match i
  | I_WIFIBSSID i => WIFIBSSIDItem_Match i
  | I_InterfaceAddress i => InterfaceAddressItem_Match i
  | I_NetworkInterfaceAddress i => NetworkInterfaceAddressItem_Match i
  | I_DefaultInterfaceAddress i => DefaultInterfaceAddressItem_Match i
  | I_PreferredBy i => PreferredByItem_Match i
  | I_PreferredByDNS i => PreferredByDNSItem_Match i
  | I_QueryType i => QueryTypeItem_Match i
  | I_QueryClientSubnet i => QueryClientSubnetItem_Match i
  | I_QueryDNSSEC i => QueryDNSSECItem_Match i
  | I_DNSResponseRCode i => DNSResponseRCodeItem_Match i
  | I_DNSResponseRecord i => DNSResponseRecordItem_Match i
  end.

(** * Descriptions

    The [String] methods. *)

(** [field=a] or [field=[a b]] *)
Definition one_or_list (field : string) (l : list string) : string :=
  match l with
  | [s] => field +:+ "=" +:+ s
  | _ => field +:+ "=[" +:+ Join l " " +:+ "]"
  end.

Definition DomainKeywordItem_String (r : DomainKeywordItem) : string :=
  list_description "domain_keyword" (DomainKeywordItem_keywords r).
Definition AdGuardDomainItem_String (r : AdGuardDomainItem) : string :=
  "!adguard_domain_rules=<binary>".
Definition InboundItem_String (r : InboundItem) : string :=
  one_or_list "inbound" (InboundItem_inbounds r).
Definition NetworkItem_String (r : NetworkItem) : string :=
  one_or_list "network" (NetworkItem_networks r).
Definition AuthUserItem_String (r : AuthUserItem) : string :=
  one_or_list "auth_user" (AuthUserItem_users r).
Definition ProtocolItem_String (r : ProtocolItem) : string :=
  one_or_list "protocol" (ProtocolItem_protocols r).
Definition ClientItem_String (r : ClientItem) : string :=
  one_or_list "client" (ClientItem_clients r).
Definition SourceHostnameItem_String (r : SourceHostnameItem) : string :=
  one_or_list "source_hostname" (SourceHostnameItem_hostnames r).
Definition SourceMACAddressItem_String (r : SourceMACAddressItem) : string :=
  one_or_list "source_mac_address" (SourceMACAddressItem_addresses r).
Definition OutboundItem_String (r : OutboundItem) : string :=
  one_or_list "outbound" (OutboundItem_outbounds r).
(** [r.modes[0]] panics on an empty list. *)
Definition ClashModeItem_String (r : ClashModeItem) : res string :=
  match ClashModeItem_modes r with
  | [] => Panic "index out of range"
  | [mode] => Ok ("clash_mode=" +:+ mode)
  | modes => Ok ("clash_mode=" +:+ "[" +:+ Join modes ", " +:+ "]")
  end.
Definition ProcessItem_String (r : ProcessItem) : string :=
  one_or_list "process_name" (ProcessItem_processes r).
Definition ProcessPathItem_String (r : ProcessPathItem) : string :=
  one_or_list "process_path" (ProcessPathItem_processes r).
Definition PackageNameItem_String (r : PackageNameItem) : string :=
  one_or_list "package_name" (PackageNameItem_packageNames r).
Definition UserItem_String (r : UserItem) : string :=
  one_or_list "user" (UserItem_users r).
Definition UserIdItem_String (r : UserIdItem) : string :=
  one_or_list "user_id" (map Itoa (UserIdItem_userIds r)).
Definition PortItem_String (r : PortItem) : string :=
  one_or_list (if PortItem_isSource r then "source_port" else "port") (map Itoa (PortItem_ports r)).
Definition PortRangeItem_String (r : PortRangeItem) : string :=
  one_or_list (if PortRangeItem_isSource r then "source_port_range" else "port_range")
    (PortRangeItem_portRanges r).
Definition IPIsPrivateItem_String (r : IPIsPrivateItem) : string :=
  if IPIsPrivateItem_isSource r then "source_ip_is_private=true" else "ip_is_private=true".
Definition IPAcceptAnyItem_String (r : IPAcceptAnyItem) : string := "ip_accept_any=true".
Definition IPVersionItem_String (r : IPVersionItem) : string :=
  "ip_version=" +:+ (if IPVersionItem_isIPv6 r then "6" else "4").
Definition NetworkTypeItem_String (r : NetworkTypeItem) : string :=
  one_or_list "network_type" (map InterfaceType_String (NetworkTypeItem_networkType r)).
Definition NetworkIsExpensiveItem_String (r : NetworkIsExpensiveItem) : string :=
  "network_is_expensive=true".
Definition NetworkIsConstrainedItem_String (r : NetworkIsConstrainedItem) : string :=
  "network_is_expensive=true".
Definition WIFISSIDItem_String (r : WIFISSIDItem) : string :=
  one_or_list "wifi_ssid" (WIFISSIDItem_ssidList r).
Definition WIFIBSSIDItem_String (r : WIFIBSSIDItem) : string :=
  one_or_list "wifi_bssid" (WIFIBSSIDItem_bssidList r).
Definition DefaultInterfaceAddressItem_String (r : DefaultInterfaceAddressItem) : string :=
  list_description "default_interface_address"
    (map Prefix_String (DefaultInterfaceAddressItem_interfaceAddresses r)).
Definition PreferredByItem_String (r : PreferredByItem) : string :=
  one_or_list "preferred_by" (PreferredByItem_outboundTags r).
Definition PreferredByDNSItem_String (r : PreferredByDNSItem) : string :=
  one_or_list "preferred_by" (PreferredByDNSItem_transportTags r).
Definition QueryTypeItem_String (r : QueryTypeItem) : string :=
  one_or_list "query_type" (map DNSQueryTypeToString (QueryTypeItem_typeList r)).
Definition QueryClientSubnetItem_String (r : QueryClientSubnetItem) : string :=
  one_or_list "query_client_subnet" (map Prefix_String (QueryClientSubnetItem_prefixes r)).
Definition QueryDNSSECItem_String (r : QueryDNSSECItem) : string := "query_dnssec=true".
Definition DNSResponseRCodeItem_String (r : DNSResponseRCodeItem) : string :=
  "response_rcode=" +:+ RcodeToString (DNSResponseRCodeItem_rcode r).
Definition DNSResponseRecordItem_String (r : DNSResponseRecordItem) : string :=
  DNSResponseRecordItem_field r +:+ "=["
    +:+ Join (omap (fun record => RR_String <$> DNSRecordOptions_RR record)
             (DNSResponseRecordItem_records r)) " " +:+ "]".

Definition RuleItem_String (item : RuleItem) : res string :=
  match item with
  | I_Domain i => Ok (DomainItem_description i)
  | I_DomainKeyword i => Ok (DomainKeywordItem_String i)
  | I_DomainRegex i => Ok (DomainRegexItem_description i)
  | I_AdGuardDomain i => Ok (AdGuardDomainItem_String i)
  | I_Inbound i => Ok (InboundItem_String i)
  | I_Network i => Ok (NetworkItem_String i)
  | I_AuthUser i => Ok (AuthUserItem_String i)
  | I_Protocol i => Ok (ProtocolItem_String i)
  | I_Client i => Ok (ClientItem_String i)
  | I_SourceHostname i => Ok (SourceHostnameItem_String i)
  | I_SourceMACAddress i => Ok (SourceMACAddressItem_String i)
  | I_Outbound i => Ok (OutboundItem_String i)
  | I_ClashMode i => ClashModeItem_String i
  | I_Process i => Ok (ProcessItem_String i)
  | I_ProcessPath i => Ok (ProcessPathItem_String i)
  | I_ProcessPathRegex i => Ok (ProcessPathRegexItem_description i)
  | I_PackageName i => Ok (PackageNameItem_String i)
  | I_PackageNameRegex i => Ok (PackageNameRegexItem_description i)
  | I_User i => Ok (UserItem_String i)
  | I_UserId i => Ok (UserIdItem_String i)
  | I_Port i => Ok (PortItem_String i)
  | I_PortRange i => Ok (PortRangeItem_String i)
  | I_IPCIDR i => Ok (IPCIDRItem_description i)
  | I_IPIsPrivate i => Ok (IPIsPrivateItem_String i)
  | I_IPAcceptAny i => Ok (IPAcceptAnyItem_String i)
  | I_IPVersion i => Ok (IPVersionItem_String i)
  | I_NetworkType i => Ok (NetworkTypeItem_String i)
  | I_NetworkIsExpensive i => Ok (NetworkIsExpensiveItem_String i)
  | I_NetworkIsConstrained i => Ok (NetworkIsConstrainedItem_String i)
  | I_WIFISSID i => Ok (WIFISSIDItem_String i)
  | I_WIFIBSSID i => Ok (WIFIBSSIDItem_String i)
  | I_InterfaceAddress i => Ok (InterfaceAddressItem_description i)
  | I_NetworkInterfaceAddress i => Ok (NetworkInterfaceAddressItem_description i)
  | I_DefaultInterfaceAddress i => Ok (DefaultInterfaceAddressItem_String i)
  | I_PreferredBy i => Ok (PreferredByItem_String i)
  | I_PreferredByDNS i => Ok (PreferredByDNSItem_String i)
  | I_QueryType i => Ok (QueryTypeItem_String i)
  | I_QueryClientSubnet i => Ok (QueryClientSubnetItem_String i)
  | I_QueryDNSSEC i => Ok (QueryDNSSECItem_String i)
  | I_DNSResponseRCode i => Ok (DNSResponseRCodeItem_String i)
  | I_DNSResponseRecord i => Ok (DNSResponseRecordItem_String i)
  end.

End Items.
