(* ===== verification/RuleEngine.v ===== *)
(** The matching engine of src/route/rule: match groups (match_state.go), default
    and logical rules (rule_abstract.go), references to rule sets
    (rule_item_rule_set.go, rule_set_abstract.go), headless rules and DNS rules
    (rule_headless.go, rule_dns.go).

    A rule's [Match] receives a pointer to the metadata and writes
    [DeferredIPCIDRMatchGroups] through it, so it is a function from metadata to
    a boolean and the metadata it leaves. *)

From S2P Require Import Prelude NetAddr GoStrings RuleContext RuleItems.

(** * Match groups *)

Definition ruleMatchSourceAddress : Z := 1.
Definition ruleMatchSourcePort : Z := 2.
Definition ruleMatchDestinationAddress : Z := 4.
Definition ruleMatchDestinationPort : Z := 8.

Record ruleGroupMatch := mkRuleGroupMatch { required : Z; satisfied : Z }.

Definition ruleGroupMatch_done (g : ruleGroupMatch) : bool :=
  andnot (required g) (satisfied g) =? 0.

Definition mergeWith (g other : ruleGroupMatch) : ruleGroupMatch :=
  mkRuleGroupMatch (Z.lor (required g) (required other)) (Z.lor (satisfied g) (satisfied other)).

(** [ruleMatchState.has] *)
Definition has (s target : Z) : bool := negb (Z.land s target =? 0).

(** * Rules *)

(** [adapter.RuleSetMetadata] *)
Record RuleSetMetadata := mkRuleSetMetadata {
  ContainsProcessRule : bool;
  ContainsWIFIRule : bool;
  ContainsIPCIDRRule : bool;
  ContainsDNSQueryTypeRule : bool;
  ContainsNonIPCIDRRule : bool;
}.

Definition LogicalTypeAnd : string := "and".
Definition LogicalTypeOr : string := "or".

Section Rules.
Context {Env : RuleEnv}.

(** What matching reads of [abstractRuleSet]. *)
Record RuleSet (R : Type) := mkRuleSet {
  RuleSet_tag : string;
  RuleSet_rules : list R;
  RuleSet_metadata : RuleSetMetadata;
}.

Record RuleSetItem (R : Type) := mkRuleSetItem {
  tagList : list string;
  setList : list (RuleSet R);
  ipCidrMatchSource : bool;
  ipCidrAcceptEmpty : bool;
}.

(** An element of [allItems]: a plain item, or the pointer also held in
    [ruleSetItem]. *)
Inductive AnyItem :=
| AnyRuleItem (i : RuleItem)
| AnyRuleSetItem.

Record abstractDefaultRule (R : Type) := mkAbstractDefaultRule {
  items : list RuleItem;
  sourceAddressItems : list RuleItem;
  sourcePortItems : list RuleItem;
  destinationAddressItems : list RuleItem;
  destinationIPCIDRItems : list RuleItem;
  destinationPortItems : list RuleItem;
  allItems : list AnyItem;
  ruleSetItem : option (RuleSetItem R);
  rule_domainMatchStrategy : Z;
  ruleCount : Z;
  invert : bool;
}.

Record abstractLogicalRule (R : Type) := mkAbstractLogicalRule {
  logical_rules : list R;
  logical_mode : string;
  logical_domainMatchStrategy : Z;
  logical_invert : bool;
  logical_ruleCount : Z;
}.

(** The dynamic type of an [adapter.HeadlessRule]. *)
Inductive HeadlessRule :=
| DefaultHeadlessRule (d : abstractDefaultRule HeadlessRule)
| LogicalHeadlessRule (l : abstractLogicalRule HeadlessRule)
| DefaultRule (d : abstractDefaultRule HeadlessRule)
| LogicalRule (l : abstractLogicalRule HeadlessRule)
| DefaultDNSRule (d : abstractDefaultRule HeadlessRule)
    (matchResponse : bool) (matchResponseTag : string) (race : bool)
| LogicalDNSRule (l : abstractLogicalRule HeadlessRule)
    (matchResponseTags : list string) (matchResponseAnonymous : bool) (race : bool).

#[global] Arguments mkRuleSet {R}.
#[global] Arguments RuleSet_tag {R}.
#[global] Arguments RuleSet_rules {R}.
#[global] Arguments RuleSet_metadata {R}.
#[global] Arguments mkRuleSetItem {R}.
#[global] Arguments tagList {R}.
#[global] Arguments setList {R}.
#[global] Arguments ipCidrMatchSource {R}.
#[global] Arguments ipCidrAcceptEmpty {R}.
#[global] Arguments mkAbstractDefaultRule {R}.
#[global] Arguments items {R}.
#[global] Arguments sourceAddressItems {R}.
#[global] Arguments sourcePortItems {R}.
#[global] Arguments destinationAddressItems {R}.
#[global] Arguments destinationIPCIDRItems {R}.
#[global] Arguments destinationPortItems {R}.
#[global] Arguments allItems {R}.
#[global] Arguments ruleSetItem {R}.
#[global] Arguments rule_domainMatchStrategy {R}.
#[global] Arguments ruleCount {R}.
#[global] Arguments invert {R}.
#[global] Arguments mkAbstractLogicalRule {R}.
#[global] Arguments logical_rules {R}.
#[global] Arguments logical_mode {R}.
#[global] Arguments logical_domainMatchStrategy {R}.
#[global] Arguments logical_invert {R}.
#[global] Arguments logical_ruleCount {R}.

(** ** Default rules *)

Section Default.
Context {R : Type}.
Implicit Types r : abstractDefaultRule R.

Definition matchAnyItem (its : list RuleItem) (metadata : InboundContext) : bool :=
  existsb (fun it => RuleItem_Match it metadata) its.

Definition destinationIPCIDRMatchesSource r (metadata : InboundContext) : bool :=
  IPCIDRMatchSource metadata && nonempty (destinationIPCIDRItems r).

Definition destinationIPCIDRMatchesDestination r (metadata : InboundContext) : bool :=
  negb (IgnoreDestinationIPCIDRMatch metadata) && negb (IPCIDRMatchSource metadata)
  && nonempty (destinationIPCIDRItems r).

(** [groups.required |= bit; if matched { groups.satisfied |= bit }] *)
Definition require_group (bit : Z) (matched : bool) (g : ruleGroupMatch) : ruleGroupMatch :=
  mkRuleGroupMatch (Z.lor (required g) bit)
    (if matched then Z.lor (satisfied g) bit else satisfied g).

Definition evaluateGroups r (metadata : InboundContext) : ruleGroupMatch * InboundContext :=
  let groups := mkRuleGroupMatch 0 0 in
  let groups :=
    if nonempty (sourceAddressItems r)
    then require_group ruleMatchSourceAddress (matchAnyItem (sourceAddressItems r) metadata) groups
    else groups in
  let groups :=
    if destinationIPCIDRMatchesSource r metadata
    then require_group ruleMatchSourceAddress
           (negb (has (satisfied groups) ruleMatchSourceAddress)
            && matchAnyItem (destinationIPCIDRItems r) metadata) groups
    else groups in
  let groups :=
    if nonempty (sourcePortItems r)
    then require_group ruleMatchSourcePort (matchAnyItem (sourcePortItems r) metadata) groups
    else groups in
  let groups :=
    if nonempty (destinationAddressItems r)
    then require_group ruleMatchDestinationAddress
           (matchAnyItem (destinationAddressItems r) metadata) groups
    else groups in
  let groups :=
    if destinationIPCIDRMatchesDestination r metadata
    then require_group ruleMatchDestinationAddress
           (negb (has (satisfied groups) ruleMatchDestinationAddress)
            && matchAnyItem (destinationIPCIDRItems r) metadata) groups
    else groups in
  let groups :=
    if nonempty (destinationPortItems r)
    then require_group ruleMatchDestinationPort (matchAnyItem (destinationPortItems r) metadata) groups
    else groups in
  let metadata :=
    if IgnoreDestinationIPCIDRMatch metadata && negb (IPCIDRMatchSource metadata)
       && nonempty (destinationIPCIDRItems r) && negb (nonempty (destinationAddressItems r))
    then metadata <| DeferredIPCIDRMatchGroups :=
           Z.lor (DeferredIPCIDRMatchGroups metadata) ruleMatchDestinationAddress |>
    else metadata in
  (groups, metadata).

(** [evaluateForMerge]: [None] when a non-grouped item fails. *)
Definition evaluateForMerge r (metadata : InboundContext) : option ruleGroupMatch * InboundContext :=
  let '(groups, metadata) := evaluateGroups r metadata in
  (if forallb (fun item => RuleItem_Match item metadata) (items r) then Some groups else None,
   metadata).

(** [RuleSetItem.nestedMetadata] *)
Definition nestedMetadata (i : RuleSetItem R) (metadata : InboundContext) : InboundContext :=
  (ResetRuleMatchCache metadata)
    <| IPCIDRMatchSource := ipCidrMatchSource i |>
    <| IPCIDRAcceptEmpty := ipCidrAcceptEmpty i |>.

Section WithRuleSets.
(** The two methods of a rule set a reference calls. *)
Variable mergeableRule : RuleSet R -> option (abstractDefaultRule R).
Variable ruleSetMatch : RuleSet R -> InboundContext -> bool * InboundContext.

(** The loop over [setList]; [inl] is an early [return true] with the metadata it
    leaves. *)
Fixpoint outerGroups_loop (i : RuleSetItem R) (metadata : InboundContext) (outerGroups : ruleGroupMatch)
    (outerDone : bool) (sets : list (RuleSet R)) (matched : bool) (deferredGroups : Z)
    : InboundContext + bool * Z :=
  match sets with
  | [] => inr (matched, deferredGroups)
  | ruleSet :: sets' =>
      let continue := outerGroups_loop i metadata outerGroups outerDone sets' in
      let nested := nestedMetadata i metadata in
      match mergeableRule ruleSet with
      | Some branch =>
          match evaluateForMerge branch nested with
          | (None, _) => continue matched deferredGroups
          | (Some branchGroups, nested) =>
              let merged := mergeWith outerGroups branchGroups in
              if ruleGroupMatch_done merged then
                let branchDeferredGroups :=
                  andnot (DeferredIPCIDRMatchGroups nested) (satisfied merged) in
                if branchDeferredGroups =? 0
                then inl (metadata <| DeferredIPCIDRMatchGroups :=
                            andnot (DeferredIPCIDRMatchGroups metadata) (satisfied merged) |>)
                else continue true (Z.lor deferredGroups branchDeferredGroups)
              else continue matched deferredGroups
          end
      | None =>
          if outerDone then
            let '(setMatched, nested) := ruleSetMatch ruleSet nested in
            if setMatched then
              if DeferredIPCIDRMatchGroups nested =? 0 then inl metadata
              else continue true (Z.lor deferredGroups (DeferredIPCIDRMatchGroups nested))
            else continue matched deferredGroups
          else continue matched deferredGroups
      end
  end.

Definition matchWithOuterGroups (i : RuleSetItem R) (metadata : InboundContext)
    (outerGroups : ruleGroupMatch) : bool * InboundContext :=
  match outerGroups_loop i metadata outerGroups (ruleGroupMatch_done outerGroups) (setList i) false 0 with
  | inl metadata => (true, metadata)
  | inr (matched, deferredGroups) =>
      (matched,
       if matched
       then metadata <| DeferredIPCIDRMatchGroups :=
              Z.lor (DeferredIPCIDRMatchGroups metadata) deferredGroups |>
       else metadata)
  end.

Definition matchInner r (metadata : InboundContext) : bool * InboundContext :=
  let '(groups, metadata) := evaluateGroups r metadata in
  if negb (forallb (fun item => RuleItem_Match item metadata) (items r)) then (false, metadata)
  else
    let '(matched, metadata) :=
      match ruleSetItem r with
      | Some i => matchWithOuterGroups i metadata groups
      | None => (ruleGroupMatch_done groups, metadata)
      end in
    if matched
    then (true, metadata <| DeferredIPCIDRMatchGroups :=
                  andnot (DeferredIPCIDRMatchGroups metadata) (satisfied groups) |>)
    else (false, metadata).

Definition abstractDefaultRule_Match r (metadata : InboundContext) : bool * InboundContext :=
  if negb (nonempty (allItems r)) then (true, metadata)
  else
    let '(matched, metadata) := matchInner r metadata in
    if invert r then
      if negb matched then (true, metadata <| DeferredIPCIDRMatchGroups := 0 |>)
      else (negb (DeferredIPCIDRMatchGroups metadata =? 0), metadata)
    else (matched, metadata).

End WithRuleSets.
End Default.

(** ** Logical rules and rule sets *)

Section Loops.
Context {R : Type} (rule_Match : R -> InboundContext -> bool * InboundContext).

(** The loop of the [and] mode: the rules all match the copies of the metadata. *)
Fixpoint logical_and_loop (nested : InboundContext) (rules : list R) (deferredGroups : Z) : bool * Z :=
  match rules with
  | [] => (true, deferredGroups)
  | rule :: rules' =>
      let '(m, nested') := rule_Match rule nested in
      if negb m then (false, 0)
      else logical_and_loop nested rules' (Z.lor deferredGroups (DeferredIPCIDRMatchGroups nested'))
  end.

(** The loop of the [or] mode: stops at a match that defers nothing. *)
Fixpoint logical_or_loop (nested : InboundContext) (rules : list R) (matched : bool)
    (deferredGroups : Z) : bool * Z :=
  match rules with
  | [] => (matched, deferredGroups)
  | rule :: rules' =>
      let '(m, nested') := rule_Match rule nested in
      if m then
        if DeferredIPCIDRMatchGroups nested' =? 0 then (true, 0)
        else logical_or_loop nested rules' true (Z.lor deferredGroups (DeferredIPCIDRMatchGroups nested'))
      else logical_or_loop nested rules' matched deferredGroups
  end.

Definition abstractLogicalRule_Match (r : abstractLogicalRule R) (metadata : InboundContext) : bool * InboundContext :=
  let nested := ResetRuleCache metadata in
  let '(matched, deferredGroups) :=
    if bool_decide (logical_mode r = LogicalTypeAnd)
    then logical_and_loop nested (logical_rules r) 0
    else logical_or_loop nested (logical_rules r) false 0 in
  let metadata :=
    if matched
    then metadata <| DeferredIPCIDRMatchGroups :=
           Z.lor (DeferredIPCIDRMatchGroups metadata) deferredGroups |>
    else metadata in
  if logical_invert r
  then (if negb matched then true else negb (deferredGroups =? 0), metadata)
  else (matched, metadata).

(** The loop of [matchAnyHeadlessRule]: [None] is its early [return true]. *)
Fixpoint matchAny_loop (nested : InboundContext) (rules : list R) (matched : bool)
    (deferredGroups : Z) : option (bool * Z) :=
  match rules with
  | [] => Some (matched, deferredGroups)
  | rule :: rules' =>
      let '(m, nested') := rule_Match rule nested in
      if m then
        if DeferredIPCIDRMatchGroups nested' =? 0 then None
        else matchAny_loop nested rules' true (Z.lor deferredGroups (DeferredIPCIDRMatchGroups nested'))
      else matchAny_loop nested rules' matched deferredGroups
  end.

Definition matchAnyHeadlessRule (rules : list R) (metadata : InboundContext) : bool * InboundContext :=
  match matchAny_loop (ResetRuleMatchCache metadata) rules false 0 with
  | None => (true, metadata)
  | Some (matched, deferredGroups) =>
      (matched,
       if matched
       then metadata <| DeferredIPCIDRMatchGroups :=
              Z.lor (DeferredIPCIDRMatchGroups metadata) deferredGroups |>
       else metadata)
  end.

End Loops.

(** [mergeableRuleIn]: the single default, non-inverted, reference-free rule of a
    rule set. *)
Definition mergeableRuleIn (rules : list HeadlessRule) : option (abstractDefaultRule HeadlessRule) :=
  match rules with
  | [DefaultHeadlessRule d] =>
      if invert d then None
      else match ruleSetItem d with Some _ => None | None => Some d end
  | _ => None
  end.

Definition RuleSet_mergeableRule (s : RuleSet HeadlessRule) : option (abstractDefaultRule HeadlessRule) :=
  mergeableRuleIn (RuleSet_rules s).

(** The metadata a response-matching DNS rule evaluates against. *)
Definition with_response (response : option Msg) (metadata : InboundContext) : InboundContext :=
  metadata <| DNSResponse := response |> <| DestinationAddressMatchFromResponse := true |>.

(** The response a [match_response] rule refers to. *)
Definition selectedResponse (tag : string) (metadata : InboundContext) : option Msg :=
  if negb (str_empty tag) then NamedDNSResponses metadata !! tag else DNSResponse metadata.

(** [Match] of every rule type. *)
Fixpoint Match (rule : HeadlessRule) (metadata : InboundContext) {struct rule} : bool * InboundContext :=
  let ruleSetMatch := fun s m => matchAnyHeadlessRule Match (RuleSet_rules s) m in
  match rule with
  | DefaultHeadlessRule d => abstractDefaultRule_Match RuleSet_mergeableRule ruleSetMatch d metadata
  | DefaultRule d => abstractDefaultRule_Match RuleSet_mergeableRule ruleSetMatch d metadata
  | DefaultDNSRule d matchResponse tag _ =>
      if matchResponse then
        match selectedResponse tag metadata with
        | None => (invert d, metadata)
        | Some response =>
            (fst (abstractDefaultRule_Match RuleSet_mergeableRule ruleSetMatch d
                    (with_response (Some response) metadata)), metadata)
        end
      else abstractDefaultRule_Match RuleSet_mergeableRule ruleSetMatch d metadata
  | LogicalHeadlessRule l => abstractLogicalRule_Match Match l metadata
  | LogicalRule l => abstractLogicalRule_Match Match l metadata
  | LogicalDNSRule l _ _ _ => abstractLogicalRule_Match Match l metadata
  end.

(** [abstractRuleSet.Match] *)
Definition RuleSet_Match (s : RuleSet HeadlessRule) (metadata : InboundContext) : bool * InboundContext :=
  matchAnyHeadlessRule Match (RuleSet_rules s) metadata.

(** [abstractDefaultRule.Match] of a DNS rule, past its [match_response] test. *)
Definition default_Match (d : abstractDefaultRule HeadlessRule) : InboundContext -> bool * InboundContext :=
  abstractDefaultRule_Match RuleSet_mergeableRule RuleSet_Match d.

(** ** DNS rules before and after the response *)

(** [LegacyPreMatch]: the match before the lookup, with destination addresses
    still unknown. *)
Definition LegacyPreMatch (rule : HeadlessRule) (metadata : InboundContext) : bool * InboundContext :=
  let restore (p : bool * InboundContext) :=
    (fst p, (snd p) <| IgnoreDestinationIPCIDRMatch := false |>) in
  let ignoring := metadata <| IgnoreDestinationIPCIDRMatch := true |> in
  match rule with
  | DefaultDNSRule d matchResponse _ _ =>
      if matchResponse then (false, metadata)
      else restore (default_Match d ignoring)
  | LogicalDNSRule l _ _ _ => restore (abstractLogicalRule_Match Match l ignoring)
  | _ => (false, metadata)
  end.

(** [MatchAddressLimit]: the match of a copy of the metadata once the response
    is known. *)
Definition MatchAddressLimit (rule : HeadlessRule) (metadata : InboundContext) (response : option Msg) : bool :=
  let matchMetadata := with_response response (ResetRuleCache metadata) in
  match rule with
  | DefaultDNSRule d _ _ _ => fst (default_Match d matchMetadata)
  | LogicalDNSRule l _ _ _ => fst (abstractLogicalRule_Match Match l matchMetadata)
  | _ => false
  end.

(** [RuleSetItem.ContainsDestinationIPCIDRRule] *)
Definition ContainsDestinationIPCIDRRule (i : RuleSetItem HeadlessRule) : bool :=
  if ipCidrMatchSource i then false
  else existsb (fun s => ContainsIPCIDRRule (RuleSet_metadata s)) (setList i).

(** [WithAddressLimit]: whether the answer must be checked against the rule. *)
Fixpoint WithAddressLimit (rule : HeadlessRule) : bool :=
  match rule with
  | DefaultDNSRule d _ _ _ =>
      if nonempty (destinationIPCIDRItems d) then true
      else match ruleSetItem d with
           | Some i => ContainsDestinationIPCIDRRule i
           | None => false
           end
  | LogicalDNSRule l _ _ _ => existsb WithAddressLimit (logical_rules l)
  | _ => false
  end.

End Rules.
