(* ===== verification/RuleSpec.v ===== *)
(** What a rule means: a boolean denotation of rules, free of match state, and
    the proof that the engine computes it.

    A default rule is a conjunction of its plain items and of four groups (source
    address, source port, destination address, destination port), each group
    being a disjunction.  A rule set of one plain rule extends the groups of the
    rule that refers to it; any other rule set is one more condition. *)

From S2P Require Import Prelude NetAddr GoStrings RuleContext RuleItems RuleEngine.

Section Spec.
Context {Env : RuleEnv}.

(** * The denotation *)

Inductive group := SourceAddressGroup | SourcePortGroup | DestinationAddressGroup | DestinationPortGroup.

Definition all_groups (p : group -> bool) : bool :=
  p SourceAddressGroup && p SourcePortGroup && p DestinationAddressGroup && p DestinationPortGroup.

(** The items that make up a group: the address items of [ip_cidr] count as source
    or as destination addresses by the metadata's flag, and not at all while
    destination addresses are ignored. *)
Definition group_items {R} (r : abstractDefaultRule R) (md : InboundContext) (g : group) : list RuleItem :=
  match g with
  | SourceAddressGroup =>
      sourceAddressItems r ++ (if IPCIDRMatchSource md then destinationIPCIDRItems r else [])
  | SourcePortGroup => sourcePortItems r
  | DestinationAddressGroup =>
      destinationAddressItems r
      ++ (if IPCIDRMatchSource md || IgnoreDestinationIPCIDRMatch md then []
          else destinationIPCIDRItems r)
  | DestinationPortGroup => destinationPortItems r
  end.

Definition group_required {R} (r : abstractDefaultRule R) md g : bool := nonempty (group_items r md g).
Definition group_satisfied {R} (r : abstractDefaultRule R) md g : bool := matchAnyItem (group_items r md g) md.

(** A required group has a matching item. *)
Definition group_holds {R} (r : abstractDefaultRule R) md g : bool :=
  negb (group_required r md g) || group_satisfied r md g.

(** The same for the union of a rule's group and that of the rule of a rule set. *)
Definition merged_group_holds {R} (r branch : abstractDefaultRule R) md nested g : bool :=
  negb (group_required r md g || group_required branch nested g)
  || group_satisfied r md g || group_satisfied branch nested g.

Definition items_hold {R} (r : abstractDefaultRule R) md : bool :=
  forallb (fun item => RuleItem_Match item md) (items r).

(** Whether one rule set accepts, given the referring rule [d]. *)
Definition set_holds (rules_hold : list HeadlessRule -> InboundContext -> bool)
    (d : abstractDefaultRule HeadlessRule) (md nested : InboundContext) (s : RuleSet HeadlessRule) : bool :=
  match RuleSet_mergeableRule s with
  | Some branch => items_hold branch nested && all_groups (merged_group_holds d branch md nested)
  | None => all_groups (group_holds d md) && rules_hold (RuleSet_rules s) (ResetRuleMatchCache nested)
  end.

Definition default_holds (rules_hold : list HeadlessRule -> InboundContext -> bool)
    (d : abstractDefaultRule HeadlessRule) (md : InboundContext) : bool :=
  if nonempty (allItems d) then
    xorb (invert d)
      (items_hold d md
       && match ruleSetItem d with
          | None => all_groups (group_holds d md)
          | Some i => existsb (set_holds rules_hold d md (nestedMetadata i md)) (setList i)
          end)
  else true.

Definition logical_holds (holds : HeadlessRule -> InboundContext -> bool)
    (l : abstractLogicalRule HeadlessRule) (md : InboundContext) : bool :=
  let nested := ResetRuleCache md in
  xorb (logical_invert l)
    (if bool_decide (logical_mode l = LogicalTypeAnd)
     then forallb (fun r => holds r nested) (logical_rules l)
     else existsb (fun r => holds r nested) (logical_rules l)).

Fixpoint eval (rule : HeadlessRule) (md : InboundContext) {struct rule} : bool :=
  let rules_hold := fun rules m => existsb (fun r => eval r m) rules in
  match rule with
  | DefaultHeadlessRule d => default_holds rules_hold d md
  | DefaultRule d => default_holds rules_hold d md
  | DefaultDNSRule d matchResponse tag _ =>
      if matchResponse then
        match selectedResponse tag md with
        | None => invert d
        | Some response => default_holds rules_hold d (with_response (Some response) md)
        end
      else default_holds rules_hold d md
  | LogicalHeadlessRule l => logical_holds eval l md
  | LogicalRule l => logical_holds eval l md
  | LogicalDNSRule l _ _ _ => logical_holds eval l md
  end.

Definition rules_eval (rules : list HeadlessRule) (md : InboundContext) : bool :=
  existsb (fun r => eval r md) rules.

(** * Induction on rules *)

(** [P] holds of the rules of the sets a default rule refers to. *)
Definition all_set_rules (P : HeadlessRule -> Prop) (d : abstractDefaultRule HeadlessRule) : Prop :=
  match ruleSetItem d with
  | Some i => Forall (fun s => Forall P (RuleSet_rules s)) (setList i)
  | None => True
  end.

Section Induction.
Variable P : HeadlessRule -> Prop.
Hypothesis HDefaultHeadless : forall d, all_set_rules P d -> P (DefaultHeadlessRule d).
Hypothesis HDefault : forall d, all_set_rules P d -> P (DefaultRule d).
Hypothesis HDefaultDNS : forall d m t race, all_set_rules P d -> P (DefaultDNSRule d m t race).
Hypothesis HLogicalHeadless : forall l, Forall P (logical_rules l) -> P (LogicalHeadlessRule l).
Hypothesis HLogical : forall l, Forall P (logical_rules l) -> P (LogicalRule l).
Hypothesis HLogicalDNS : forall l t a race, Forall P (logical_rules l) -> P (LogicalDNSRule l t a race).

Lemma HeadlessRule_rules_ind rule : P rule.
Proof.
  revert rule. fix IH 1.
  intros [d|l|d|l|d m t race|l t a race].
  1: apply HDefaultHeadless. 3: apply HDefault. 5: apply HDefaultDNS.
  2: apply HLogicalHeadless. 4: apply HLogical. 6: apply HLogicalDNS.
  1,3,5: unfold all_set_rules; destruct d as [? ? ? ? ? ? ? rs ? ? ?]; cbn;
    destruct rs as [[? sets ? ?]|]; [|exact I]; cbn;
    induction sets as [|[? rules ?] sets IHs]; constructor; [|exact IHs]; cbn;
    induction rules as [|x rules IHr]; constructor; [apply IH|exact IHr].
  all: destruct l as [rules ? ? ? ?]; cbn;
    induction rules as [|x rules IHr]; constructor; [apply IH|exact IHr].
Qed.
End Induction.

(** * Match groups as sets *)

Definition bits (p : group -> bool) : Z :=
  (if p SourceAddressGroup then 1 else 0) + (if p SourcePortGroup then 2 else 0)
  + (if p DestinationAddressGroup then 4 else 0) + (if p DestinationPortGroup then 8 else 0).

Lemma done_bits p q :
  ruleGroupMatch_done (mkRuleGroupMatch (bits p) (bits q)) = all_groups (fun g => negb (p g) || q g).
Proof.
  unfold ruleGroupMatch_done, bits, all_groups, required, satisfied.
  by destruct (p SourceAddressGroup), (p SourcePortGroup), (p DestinationAddressGroup),
    (p DestinationPortGroup), (q SourceAddressGroup), (q SourcePortGroup),
    (q DestinationAddressGroup), (q DestinationPortGroup).
Qed.

Lemma lor_bits p q : Z.lor (bits p) (bits q) = bits (fun g => p g || q g).
Proof.
  unfold bits.
  by destruct (p SourceAddressGroup), (p SourcePortGroup), (p DestinationAddressGroup),
    (p DestinationPortGroup), (q SourceAddressGroup), (q SourcePortGroup),
    (q DestinationAddressGroup), (q DestinationPortGroup).
Qed.

(** The value of [DeferredIPCIDRMatchGroups]: destination addresses or nothing. *)
Definition deferred (b : bool) : Z := if b then ruleMatchDestinationAddress else 0.

Lemma andnot_deferred b q :
  andnot (deferred b) (bits q) = deferred (b && negb (q DestinationAddressGroup)).
Proof.
  unfold bits, deferred.
  by destruct b, (q SourceAddressGroup), (q SourcePortGroup), (q DestinationAddressGroup),
    (q DestinationPortGroup).
Qed.

Lemma lor_deferred a b : Z.lor (deferred a) (deferred b) = deferred (a || b).
Proof. by destruct a, b. Qed.

Lemma deferred_eqb b : (deferred b =? 0) = negb b.
Proof. by destruct b. Qed.

Lemma matchAnyItem_app l1 l2 md : matchAnyItem (l1 ++ l2) md = matchAnyItem l1 md || matchAnyItem l2 md.
Proof. apply existsb_app. Qed.

Lemma nonempty_app {A} (l1 l2 : list A) : nonempty (l1 ++ l2) = nonempty l1 || nonempty l2.
Proof. by destruct l1. Qed.

(** Whether evaluating the groups of a rule defers its address items. *)
Definition defers_items {R} (r : abstractDefaultRule R) (md : InboundContext) : bool :=
  IgnoreDestinationIPCIDRMatch md && negb (IPCIDRMatchSource md)
  && nonempty (destinationIPCIDRItems r) && negb (nonempty (destinationAddressItems r)).

Lemma set_deferred_id md : md <| DeferredIPCIDRMatchGroups := DeferredIPCIDRMatchGroups md |> = md.
Proof. by destruct md. Qed.

Lemma set_deferred_set md x y :
  md <| DeferredIPCIDRMatchGroups := x |> <| DeferredIPCIDRMatchGroups := y |>
  = md <| DeferredIPCIDRMatchGroups := y |>.
Proof. by destruct md. Qed.

Lemma matchAnyItem_if (c : bool) its md : matchAnyItem (if c then its else []) md = c && matchAnyItem its md.
Proof. by destruct c. Qed.

Lemma matchAnyItem_if_not (c : bool) its md :
  matchAnyItem (if c then [] else its) md = negb c && matchAnyItem its md.
Proof. by destruct c. Qed.

Lemma nonempty_if {A} (c : bool) (l : list A) : nonempty (if c then l else []) = c && nonempty l.
Proof. by destruct c. Qed.

Lemma nonempty_if_not {A} (c : bool) (l : list A) : nonempty (if c then [] else l) = negb c && nonempty l.
Proof. by destruct c. Qed.

Lemma item_states its md :
  nonempty its = true \/ nonempty its = false /\ matchAnyItem its md = false.
Proof. destruct its; [by right|by left]. Qed.

(** [evaluateGroups] computes the group predicates. *)
Lemma evaluateGroups_bits {R} (r : abstractDefaultRule R) md b :
  DeferredIPCIDRMatchGroups md = deferred b ->
  evaluateGroups r md =
    (mkRuleGroupMatch (bits (group_required r md)) (bits (group_satisfied r md)),
     md <| DeferredIPCIDRMatchGroups := deferred (b || defers_items r md) |>).
Proof.
  intros Hb. unfold evaluateGroups. f_equal.
  - unfold group_required, group_satisfied, bits, group_items, destinationIPCIDRMatchesSource,
      destinationIPCIDRMatchesDestination. rewrite !nonempty_app, !matchAnyItem_app,
      matchAnyItem_if, matchAnyItem_if_not, nonempty_if, nonempty_if_not.
    destruct r as [it sa sp da ip dp all rs ds rc inv]; cbn -[matchAnyItem nonempty].
    generalize (IPCIDRMatchSource md), (IgnoreDestinationIPCIDRMatch md). intros s g.
    destruct (item_states sa md) as [->|[-> ->]], (item_states sp md) as [->|[-> ->]],
      (item_states da md) as [->|[-> ->]], (item_states ip md) as [->|[-> ->]],
      (item_states dp md) as [->|[-> ->]]; cbn -[matchAnyItem];
    destruct s, g; cbn -[matchAnyItem];
      repeat (destruct (matchAnyItem _ md)); reflexivity.
  - unfold defers_items. rewrite Hb. destruct (_ && _); rewrite ?orb_true_r, ?orb_false_r.
    + f_equal. by destruct b.
    + by rewrite <- Hb, set_deferred_id.
Qed.

(** * Three-valued outcomes

    While destination addresses are unknown, a match is certain ([Yes]), ruled
    out ([No]), or pending on the addresses ([Maybe]): the engine returns [true]
    and leaves [DeferredIPCIDRMatchGroups] non-zero. *)

Inductive tri := No | Maybe | Yes.

Definition tri_of (b : bool) : tri := if b then Yes else No.
Definition tri_and (a b : tri) : tri :=
  match a, b with No, _ => No | _, No => No | Yes, Yes => Yes | _, _ => Maybe end.
Definition tri_or (a b : tri) : tri :=
  match a, b with Yes, _ => Yes | _, Yes => Yes | No, No => No | _, _ => Maybe end.
Definition tri_not (a : tri) : tri := match a with No => Yes | Maybe => Maybe | Yes => No end.
Definition tri_xor (c : bool) (a : tri) : tri := if c then tri_not a else a.
Definition tri_any {A} (f : A -> tri) (l : list A) : tri := foldr (fun x t => tri_or (f x) t) No l.
Definition tri_all {A} (f : A -> tri) (l : list A) : tri := foldr (fun x t => tri_and (f x) t) Yes l.
(** [Yes] weakened to [Maybe]. *)
Definition tri_pending (b : bool) : tri := if b then Maybe else Yes.

(** The result [p] of an evaluation started at [md] stands for the outcome [t]. *)
Definition outcome (t : tri) (md : InboundContext) (p : bool * InboundContext) : Prop :=
  match t with
  | No => fst p = false /\ exists d,
      snd p = md <| DeferredIPCIDRMatchGroups := deferred d |>
      /\ (IgnoreDestinationIPCIDRMatch md = false -> d = false)
  | Maybe => p = (true, md <| DeferredIPCIDRMatchGroups := deferred true |>)
  | Yes => p = (true, md <| DeferredIPCIDRMatchGroups := deferred false |>)
  end.

Lemma outcome_inv t md p :
  outcome t md p -> exists b d, p = (b, md <| DeferredIPCIDRMatchGroups := deferred d |>)
    /\ (t = if b then if d then Maybe else Yes else No)
    /\ (b = false -> IgnoreDestinationIPCIDRMatch md = false -> d = false).
Proof.
  destruct t, p as [b m]; cbn.
  - intros (-> & d & -> & Hd). by exists false, d.
  - intros [= -> ->]. by exists true, true.
  - intros [= -> ->]. by exists true, false.
Qed.

(** The result of a disjunction evaluated on copies of the metadata. *)
Definition any_result (md : InboundContext) (t : tri) : bool * InboundContext :=
  match t with
  | No => (false, md)
  | Maybe => (true, md <| DeferredIPCIDRMatchGroups :=
                     Z.lor (DeferredIPCIDRMatchGroups md) (deferred true) |>)
  | Yes => (true, md)
  end.

Lemma deferred_of_set md x : DeferredIPCIDRMatchGroups (md <| DeferredIPCIDRMatchGroups := x |>) = x.
Proof. done. Qed.

Lemma any_result_outcome md t :
  DeferredIPCIDRMatchGroups md = 0 -> outcome t md (any_result md t).
Proof.
  intros H0. assert (Hid : md = md <| DeferredIPCIDRMatchGroups := deferred false |>).
  { unfold deferred. rewrite <- H0. by rewrite set_deferred_id. }
  destruct t; unfold outcome, any_result.
  - split; [done|]. by exists false.
  - by rewrite H0.
  - by rewrite <- Hid.
Qed.

(** The state in which such a loop ends. *)
Definition any_loop_result (t : tri) : option (bool * Z) :=
  match t with
  | No => Some (false, deferred false)
  | Maybe => Some (true, deferred true)
  | Yes => None
  end.

Lemma matchAnyHeadlessRule_tri (rule_Match : HeadlessRule -> InboundContext -> bool * InboundContext)
    (f : HeadlessRule -> tri) rules md :
  Forall (fun r => outcome (f r) (ResetRuleMatchCache md) (rule_Match r (ResetRuleMatchCache md))) rules ->
  matchAnyHeadlessRule rule_Match rules md = any_result md (tri_any f rules).
Proof.
  intros H. unfold matchAnyHeadlessRule.
  assert (Hgen : forall matched,
    matchAny_loop rule_Match (ResetRuleMatchCache md) rules matched (deferred matched)
    = any_loop_result (tri_or (if matched then Maybe else No) (tri_any f rules))).
  2: { change 0 with (deferred false). rewrite (Hgen false). by destruct (tri_any f rules). }
  induction H as [|r rules Hr Hrs IH]; intros matched; [by destruct matched|].
  apply outcome_inv in Hr as (b & d & Hr & Ht & _). cbn [tri_any foldr matchAny_loop].
  fold (tri_any f rules). rewrite Hr, Ht, deferred_of_set, deferred_eqb, lor_deferred.
  destruct b, d; cbn [negb]; rewrite ?orb_true_r, ?(IH true), ?(IH matched);
    by destruct matched, (tri_any f rules).
Qed.

Lemma logical_and_loop_tri (rule_Match : HeadlessRule -> InboundContext -> bool * InboundContext)
    (f : HeadlessRule -> tri) rules nested a :
  Forall (fun r => outcome (f r) nested (rule_Match r nested)) rules ->
  logical_and_loop rule_Match nested rules (deferred a)
  = match tri_and (tri_pending a) (tri_all f rules) with
    | No => (false, 0)
    | Maybe => (true, deferred true)
    | Yes => (true, deferred false)
    end.
Proof.
  intros H. revert a. induction H as [|r rules Hr Hrs IH]; intros a; [by destruct a|].
  apply outcome_inv in Hr as (b & d & Hr & Ht & _). cbn [tri_all foldr logical_and_loop].
  fold (tri_all f rules). rewrite Hr, Ht. cbn [negb].
  destruct b; cbn [negb]; [|by destruct a].
  rewrite deferred_of_set, lor_deferred, IH. by destruct a, d, (tri_all f rules).
Qed.

Lemma logical_or_loop_tri (rule_Match : HeadlessRule -> InboundContext -> bool * InboundContext)
    (f : HeadlessRule -> tri) rules nested matched :
  Forall (fun r => outcome (f r) nested (rule_Match r nested)) rules ->
  logical_or_loop rule_Match nested rules matched (deferred matched)
  = match tri_or (if matched then Maybe else No) (tri_any f rules) with
    | No => (false, 0)
    | Maybe => (true, deferred true)
    | Yes => (true, 0)
    end.
Proof.
  intros H. revert matched. induction H as [|r rules Hr Hrs IH]; intros matched; [by destruct matched|].
  apply outcome_inv in Hr as (b & d & Hr & Ht & _). cbn [tri_any foldr logical_or_loop].
  fold (tri_any f rules). rewrite Hr, Ht, deferred_of_set, deferred_eqb, lor_deferred.
  destruct b, d; cbn [negb]; rewrite ?orb_true_r, ?(IH true), ?(IH matched);
    by destruct matched, (tri_any f rules).
Qed.

Definition logical_tri (f : HeadlessRule -> InboundContext -> tri)
    (l : abstractLogicalRule HeadlessRule) (md : InboundContext) : tri :=
  let nested := ResetRuleCache md in
  tri_xor (logical_invert l)
    (if bool_decide (logical_mode l = LogicalTypeAnd)
     then tri_all (fun r => f r nested) (logical_rules l)
     else tri_any (fun r => f r nested) (logical_rules l)).

Lemma abstractLogicalRule_Match_tri (rule_Match : HeadlessRule -> InboundContext -> bool * InboundContext)
    (f : HeadlessRule -> InboundContext -> tri) l md :
  DeferredIPCIDRMatchGroups md = 0 ->
  Forall (fun r => outcome (f r (ResetRuleCache md)) (ResetRuleCache md) (rule_Match r (ResetRuleCache md)))
    (logical_rules l) ->
  outcome (logical_tri f l md) md (abstractLogicalRule_Match rule_Match l md).
Proof.
  intros H0 H. unfold abstractLogicalRule_Match, logical_tri.
  set (t := if bool_decide (logical_mode l = LogicalTypeAnd) then _ else _ : tri).
  assert (Hloop : exists m dg, (if bool_decide (logical_mode l = LogicalTypeAnd)
      then logical_and_loop rule_Match (ResetRuleCache md) (logical_rules l) 0
      else logical_or_loop rule_Match (ResetRuleCache md) (logical_rules l) false 0) = (m, deferred dg)
      /\ t = (if m then if dg then Maybe else Yes else No) /\ (m = false -> dg = false)).
  { subst t. change 0 with (deferred false). destruct (bool_decide _).
    - rewrite (logical_and_loop_tri rule_Match _ _ _ false H).
      destruct (tri_all _ _); [exists false, false|exists true, true|exists true, false]; done.
    - rewrite (logical_or_loop_tri rule_Match _ _ _ false H).
      destruct (tri_any _ _); [exists false, false|exists true, true|exists true, false]; done. }
  destruct Hloop as (m & dg & -> & -> & Hmd).
  assert (Hid : md = md <| DeferredIPCIDRMatchGroups := deferred false |>).
  { unfold deferred. rewrite <- H0. by rewrite set_deferred_id. }
  rewrite H0, deferred_eqb. destruct m; [|rewrite (Hmd eq_refl)];
    [destruct dg, (logical_invert l)|destruct (logical_invert l)];
    unfold tri_xor, tri_not, outcome; cbn [negb fst snd];
    try (split; [done|exists false; split; [|done]]); first [reflexivity | by rewrite <- Hid].
Qed.

(** * The three-valued denotation *)

Definition set_tri (rules_tri : list HeadlessRule -> InboundContext -> tri)
    (d : abstractDefaultRule HeadlessRule) (md nested : InboundContext) (s : RuleSet HeadlessRule) : tri :=
  match RuleSet_mergeableRule s with
  | Some branch =>
      tri_and (tri_of (items_hold branch nested && all_groups (merged_group_holds d branch md nested)))
        (tri_pending (defers_items branch nested
                      && negb (group_satisfied d md DestinationAddressGroup
                               || group_satisfied branch nested DestinationAddressGroup)))
  | None => tri_and (tri_of (all_groups (group_holds d md)))
              (rules_tri (RuleSet_rules s) (ResetRuleMatchCache nested))
  end.

Definition default_tri (rules_tri : list HeadlessRule -> InboundContext -> tri)
    (d : abstractDefaultRule HeadlessRule) (md : InboundContext) : tri :=
  if nonempty (allItems d) then
    tri_xor (invert d)
      (tri_and (tri_of (items_hold d md))
        (tri_and (tri_pending (defers_items d md))
          match ruleSetItem d with
          | None => tri_of (all_groups (group_holds d md))
          | Some i => tri_any (set_tri rules_tri d md (nestedMetadata i md)) (setList i)
          end))
  else Yes.

Fixpoint eval3 (rule : HeadlessRule) (md : InboundContext) {struct rule} : tri :=
  let rules_tri := fun rules m => tri_any (fun r => eval3 r m) rules in
  match rule with
  | DefaultHeadlessRule d => default_tri rules_tri d md
  | DefaultRule d => default_tri rules_tri d md
  | DefaultDNSRule d matchResponse tag _ =>
      if matchResponse then
        match selectedResponse tag md with
        | None => tri_of (invert d)
        | Some response => default_tri rules_tri d (with_response (Some response) md)
        end
      else default_tri rules_tri d md
  | LogicalHeadlessRule l => logical_tri eval3 l md
  | LogicalRule l => logical_tri eval3 l md
  | LogicalDNSRule l _ _ _ => logical_tri eval3 l md
  end.

Definition rules_tri (rules : list HeadlessRule) (md : InboundContext) : tri :=
  tri_any (fun r => eval3 r md) rules.

(** Once addresses are known the two denotations coincide. *)

Lemma tri_any_of {A} (f : A -> tri) (g : A -> bool) l :
  Forall (fun x => f x = tri_of (g x)) l -> tri_any f l = tri_of (existsb g l).
Proof.
  induction 1 as [|x l Hx Hl IH]; cbn; [done|]. unfold tri_any in IH. rewrite Hx, IH.
  by destruct (g x), (existsb g l).
Qed.

Lemma tri_all_of {A} (f : A -> tri) (g : A -> bool) l :
  Forall (fun x => f x = tri_of (g x)) l -> tri_all f l = tri_of (forallb g l).
Proof.
  induction 1 as [|x l Hx Hl IH]; cbn; [done|]. unfold tri_all in IH. rewrite Hx, IH.
  by destruct (g x), (forallb g l).
Qed.

Lemma defers_items_known {R} (r : abstractDefaultRule R) md :
  IgnoreDestinationIPCIDRMatch md = false -> defers_items r md = false.
Proof. unfold defers_items. by intros ->. Qed.

Lemma default_tri_known d md :
  IgnoreDestinationIPCIDRMatch md = false ->
  all_set_rules (fun r => forall md, IgnoreDestinationIPCIDRMatch md = false -> eval3 r md = tri_of (eval r md)) d ->
  default_tri rules_tri d md = tri_of (default_holds rules_eval d md).
Proof.
  intros Hm IH. unfold default_tri, default_holds. destruct (nonempty (allItems d)); [|done].
  rewrite (defers_items_known d md Hm). unfold all_set_rules in IH.
  destruct (ruleSetItem d) as [i|].
  - rewrite (tri_any_of _ (set_holds rules_eval d md (nestedMetadata i md))).
    + by destruct (items_hold d md), (existsb _ _), (invert d).
    + eapply Forall_impl; [exact IH|]. intros s Hs. unfold set_tri, set_holds.
      destruct (RuleSet_mergeableRule s) as [branch|].
      * rewrite defers_items_known by done. by destruct (_ && _).
      * unfold rules_tri. rewrite (tri_any_of _ (fun r => eval r (ResetRuleMatchCache (nestedMetadata i md)))).
        { unfold rules_eval. by destruct (all_groups _), (existsb _ _). }
        eapply Forall_impl; [exact Hs|]. intros r Hr. by apply Hr.
  - by destruct (items_hold d md), (all_groups _), (invert d).
Qed.

Lemma logical_tri_known l md :
  IgnoreDestinationIPCIDRMatch md = false ->
  Forall (fun r => forall md, IgnoreDestinationIPCIDRMatch md = false -> eval3 r md = tri_of (eval r md))
    (logical_rules l) ->
  logical_tri eval3 l md = tri_of (logical_holds eval l md).
Proof.
  intros Hm IH. unfold logical_tri, logical_holds.
  assert (IH' : Forall (fun r => eval3 r (ResetRuleCache md) = tri_of (eval r (ResetRuleCache md))) (logical_rules l)).
  { eapply Forall_impl; [exact IH|]. intros r Hr. by apply Hr. }
  destruct (bool_decide _).
  - rewrite (tri_all_of _ _ _ IH'). by destruct (forallb _ _), (logical_invert l).
  - rewrite (tri_any_of _ _ _ IH'). by destruct (existsb _ _), (logical_invert l).
Qed.

Lemma eval3_known rule : forall md,
  IgnoreDestinationIPCIDRMatch md = false -> eval3 rule md = tri_of (eval rule md).
Proof.
  induction rule as [d IH|d IH|d m t race IH|l IH|l IH|l t a race IH] using HeadlessRule_rules_ind; intros md Hm; cbn.
  - by apply default_tri_known.
  - by apply default_tri_known.
  - destruct m; [|by apply default_tri_known].
    destruct (selectedResponse t md) as [resp|]; [|done]. by apply default_tri_known.
  - by apply logical_tri_known.
  - by apply logical_tri_known.
  - by apply logical_tri_known.
Qed.

End Spec.
