(* ===== verification/RulePreMatch.v ===== *)
(** The engine against its specification: with known addresses [Match] decides
    the denotation of the rule and leaves the metadata as it was; before a DNS
    lookup, with destination addresses ignored, it decides the three-valued
    denotation, and the verdicts of [LegacyPreMatch] are sound for
    [MatchAddressLimit] on any response. *)

From S2P Require Import Prelude NetAddr GoStrings RuleContext RuleItems RuleEngine RuleSpec.

Section PreMatch.
Context {Env : RuleEnv}.

(** * Rules a match before the lookup can judge *)

(** Items whose verdict does not depend on the DNS response, and items that stop
    depending on it under [rule_set_ip_cidr_match_source]. *)
Definition response_free (item : RuleItem) : bool :=
  match item with
  | I_IPCIDR i => IPCIDRItem_isSource i
  | I_IPIsPrivate i => IPIsPrivateItem_isSource i
  | I_IPAcceptAny _ | I_PreferredBy _ | I_DNSResponseRCode _ | I_DNSResponseRecord _ => false
  | _ => true
  end.

Definition is_ip_cidr (item : RuleItem) : bool :=
  match item with I_IPCIDR _ => true | _ => false end.

(** Whether the rule has destination address items pending on the lookup. *)
Definition has_pending_items {R} (source : bool) (d : abstractDefaultRule R) : bool :=
  negb source && nonempty (destinationIPCIDRItems d).

Fixpoint defers (source : bool) (rule : HeadlessRule) {struct rule} : bool :=
  let defers_default := fun d =>
    has_pending_items source d
    || match ruleSetItem d with
       | None => false
       | Some i => existsb (fun s => existsb (defers (ipCidrMatchSource i)) (RuleSet_rules s)) (setList i)
       end in
  match rule with
  | DefaultHeadlessRule d | DefaultRule d | DefaultDNSRule d _ _ _ => defers_default d
  | LogicalHeadlessRule l | LogicalRule l | LogicalDNSRule l _ _ _ =>
      existsb (defers false) (logical_rules l)
  end.

Definition wf_items {R} (source : bool) (d : abstractDefaultRule R) : bool :=
  forallb response_free (items d)
  && forallb response_free (sourceAddressItems d) && forallb response_free (sourcePortItems d)
  && forallb response_free (destinationAddressItems d) && forallb response_free (destinationPortItems d)
  && (negb source || forallb is_ip_cidr (destinationIPCIDRItems d)).

(** Domain and address items do not share a group. *)
Definition wf_set (source setSource : bool) (d : abstractDefaultRule HeadlessRule)
    (s : RuleSet HeadlessRule) : bool :=
  match RuleSet_mergeableRule s with
  | Some branch =>
      negb ((nonempty (destinationAddressItems d) || nonempty (destinationAddressItems branch))
            && (has_pending_items source d || has_pending_items setSource branch))
  | None => negb (nonempty (destinationAddressItems d) && existsb (defers setSource) (RuleSet_rules s))
  end.

Fixpoint wf (source : bool) (rule : HeadlessRule) {struct rule} : bool :=
  let wf_default := fun d =>
    wf_items source d
    && negb (nonempty (destinationAddressItems d) && has_pending_items source d)
    && match ruleSetItem d with
       | None => true
       | Some i =>
           forallb (fun s => forallb (wf (ipCidrMatchSource i)) (RuleSet_rules s)
                             && wf_set source (ipCidrMatchSource i) d s) (setList i)
       end in
  match rule with
  | DefaultHeadlessRule d | DefaultRule d => wf_default d
  | DefaultDNSRule d matchResponse _ _ => negb matchResponse && wf_default d
  | LogicalHeadlessRule l | LogicalRule l | LogicalDNSRule l _ _ _ =>
      forallb (wf false) (logical_rules l)
  end.

(** The condition on a default rule, by name. *)
Definition wf_default (source : bool) (d : abstractDefaultRule HeadlessRule) : bool :=
  wf source (DefaultRule d).

(** * Items and the response *)

(** The metadata without what a lookup changes. *)
Definition forget (md : InboundContext) : InboundContext :=
  md <| DNSResponse := None |> <| DestinationAddressMatchFromResponse := false |>
     <| DeferredIPCIDRMatchGroups := 0 |> <| IgnoreDestinationIPCIDRMatch := false |>.

Lemma response_free_forget item md :
  response_free item = true -> RuleItem_Match item md = RuleItem_Match item (forget md).
Proof.
  destruct item; cbn [response_free RuleItem_Match]; intros H; try discriminate H; try reflexivity.
  - unfold IPCIDRItem_Match. by rewrite H.
  - unfold IPIsPrivateItem_Match. by rewrite H.
Qed.

Lemma is_ip_cidr_forget item md :
  is_ip_cidr item = true -> IPCIDRMatchSource md = true ->
  RuleItem_Match item md = RuleItem_Match item (forget md).
Proof.
  destruct item; cbn [is_ip_cidr RuleItem_Match]; intros H Hs; try discriminate H.
  unfold IPCIDRItem_Match. change (IPCIDRMatchSource (forget md)) with (IPCIDRMatchSource md).
  by rewrite Hs, orb_true_r.
Qed.

Definition agree (md md' : InboundContext) : Prop := forget md = forget md'.

Lemma items_agree p its md md' :
  (forall item, p item = true -> RuleItem_Match item md = RuleItem_Match item md') ->
  forallb p its = true ->
  matchAnyItem its md = matchAnyItem its md'
  /\ forallb (fun item => RuleItem_Match item md) its = forallb (fun item => RuleItem_Match item md') its.
Proof.
  intros Hp. induction its as [|x its IH]; cbn; [done|].
  intros [Hx Hits]%andb_true_iff. destruct (IH Hits) as [H1 H2].
  rewrite (Hp x Hx), H2. unfold matchAnyItem in H1. by rewrite H1.
Qed.

Lemma response_free_agree md md' item :
  agree md md' -> response_free item = true -> RuleItem_Match item md = RuleItem_Match item md'.
Proof. intros Ha Hi. by rewrite (response_free_forget _ md), (response_free_forget _ md'), Ha. Qed.

Lemma static_any md md' its :
  agree md md' -> forallb response_free its = true -> matchAnyItem its md = matchAnyItem its md'.
Proof.
  intros Ha Hi. eapply items_agree; [|exact Hi]. intros item. by apply response_free_agree.
Qed.

Lemma static_all md md' (d : abstractDefaultRule HeadlessRule) :
  agree md md' -> forallb response_free (items d) = true -> items_hold d md = items_hold d md'.
Proof.
  intros Ha Hi. eapply items_agree; [|exact Hi]. intros item. by apply response_free_agree.
Qed.

Lemma source_any md md' its :
  agree md md' -> IPCIDRMatchSource md = true -> IPCIDRMatchSource md' = true ->
  forallb is_ip_cidr its = true -> matchAnyItem its md = matchAnyItem its md'.
Proof.
  intros Ha H1 H2 Hi. eapply items_agree; [|exact Hi]. intros item Hitem.
  by rewrite (is_ip_cidr_forget _ md), (is_ip_cidr_forget _ md'), Ha.
Qed.

Lemma agree_source md md' : agree md md' -> IPCIDRMatchSource md = IPCIDRMatchSource md'.
Proof. intros H. by apply (f_equal IPCIDRMatchSource) in H. Qed.

(** * Only pending items defer *)

Lemma tri_any_Maybe {A} (f : A -> tri) l : tri_any f l = Maybe -> exists x, x ∈ l /\ f x = Maybe.
Proof.
  induction l as [|x l IH]; cbn; [done|]. fold (tri_any f l). intros H.
  destruct (f x) eqn:E; [|by exists x; split; [left|]|done].
  destruct (tri_any f l); try done. destruct IH as (y & Hy & Hf); [done|].
  exists y. split; [by right|done].
Qed.

Lemma tri_all_Maybe {A} (f : A -> tri) l : tri_all f l = Maybe -> exists x, x ∈ l /\ f x = Maybe.
Proof.
  induction l as [|x l IH]; cbn; [done|]. fold (tri_all f l). intros H.
  destruct (f x) eqn:E; [done|by exists x; split; [left|]|].
  destruct (tri_all f l); try done. destruct IH as (y & Hy & Hf); [done|].
  exists y. split; [by right|done].
Qed.

Lemma defers_items_pending {R} (d : abstractDefaultRule R) md :
  defers_items d md = true ->
  has_pending_items (IPCIDRMatchSource md) d = true /\ nonempty (destinationAddressItems d) = false
  /\ IgnoreDestinationIPCIDRMatch md = true.
Proof.
  unfold defers_items, has_pending_items. intros H. bsimpl. by rewrite H, H1, H2.
Qed.

Lemma existsb_in {A} (f : A -> bool) l x : x ∈ l -> f x = true -> existsb f l = true.
Proof. intros Hx Hf. apply existsb_exists. exists x. by rewrite <- list_elem_of_In. Qed.

(** The rules of a mergeable set are its branch. *)
Lemma mergeableRule_rules s branch :
  RuleSet_mergeableRule s = Some branch -> RuleSet_rules s = [DefaultHeadlessRule branch]
  /\ ruleSetItem branch = None.
Proof.
  unfold RuleSet_mergeableRule, mergeableRuleIn.
  destruct (RuleSet_rules s) as [|[] [|]]; try discriminate.
  destruct (invert d); [discriminate|]. destruct (ruleSetItem d) eqn:E; [discriminate|].
  by intros [= ->].
Qed.

(** A pending rule set has a rule that defers. *)
Lemma set_tri_Maybe d md (i : RuleSetItem HeadlessRule) s :
  Forall (fun r => forall md, eval3 r md = Maybe ->
            defers (IPCIDRMatchSource md) r = true /\ IgnoreDestinationIPCIDRMatch md = true) (RuleSet_rules s) ->
  set_tri rules_tri d md (nestedMetadata i md) s = Maybe ->
  existsb (defers (ipCidrMatchSource i)) (RuleSet_rules s) = true
  /\ IgnoreDestinationIPCIDRMatch md = true.
Proof.
  intros IH. unfold set_tri. destruct (RuleSet_mergeableRule s) as [branch|] eqn:Hs; intros H.
  - destruct (defers_items branch (nestedMetadata i md)) eqn:E; [|by destruct (_ && _)].
    destruct (defers_items_pending _ _ E) as (H1 & _ & H2). split; [|exact H2].
    apply mergeableRule_rules in Hs as [-> _].
    change (IPCIDRMatchSource (nestedMetadata i md)) with (ipCidrMatchSource i) in H1.
    cbn [existsb defers]. by rewrite H1.
  - assert (Hm : rules_tri (RuleSet_rules s) (ResetRuleMatchCache (nestedMetadata i md)) = Maybe).
    { by destruct (all_groups _), (rules_tri _ _). }
    apply tri_any_Maybe in Hm as (r & Hr & Hm). rewrite Forall_forall in IH.
    destruct (IH r Hr _ Hm) as [H1 H2]. split; [|exact H2].
    by apply (existsb_in _ _ r).
Qed.

Definition only_pending_defers (r : HeadlessRule) : Prop := forall md, eval3 r md = Maybe ->
  defers (IPCIDRMatchSource md) r = true /\ IgnoreDestinationIPCIDRMatch md = true.

Lemma default_tri_Maybe d md :
  all_set_rules only_pending_defers d -> default_tri rules_tri d md = Maybe ->
  defers (IPCIDRMatchSource md) (DefaultRule d) = true /\ IgnoreDestinationIPCIDRMatch md = true.
Proof.
  unfold default_tri, all_set_rules. intros IH H. destruct (nonempty (allItems d)); [|done].
  destruct (defers_items d md) eqn:E.
  { destruct (defers_items_pending _ _ E) as (H1 & _ & H2). split; [|done]. cbn [defers]. by rewrite H1. }
  destruct (ruleSetItem d) as [i|] eqn:Hi; [|by destruct (items_hold _ _), (all_groups _), (invert d)].
  assert (Hm : tri_any (set_tri rules_tri d md (nestedMetadata i md)) (setList i) = Maybe).
  { by destruct (items_hold _ _), (tri_any _ _), (invert d). }
  apply tri_any_Maybe in Hm as (s & Hs & Hm). rewrite Forall_forall in IH.
  destruct (set_tri_Maybe d md i s (IH s Hs) Hm) as [H1 H2]. split; [|done].
  cbn [defers]. rewrite Hi. rewrite (existsb_in _ (setList i) s Hs H1). apply orb_true_r.
Qed.

Lemma logical_tri_Maybe l md :
  Forall only_pending_defers (logical_rules l) -> logical_tri eval3 l md = Maybe ->
  existsb (defers false) (logical_rules l) = true /\ IgnoreDestinationIPCIDRMatch md = true.
Proof.
  unfold logical_tri. intros IH H. rewrite Forall_forall in IH.
  assert (Hm : exists r, r ∈ logical_rules l /\ eval3 r (ResetRuleCache md) = Maybe).
  { destruct (bool_decide _).
    - apply (tri_all_Maybe (fun r => eval3 r (ResetRuleCache md))). by destruct (tri_all _ _), (logical_invert l).
    - apply (tri_any_Maybe (fun r => eval3 r (ResetRuleCache md))). by destruct (tri_any _ _), (logical_invert l). }
  destruct Hm as (r & Hr & Hm). destruct (IH r Hr _ Hm) as [H1 H2].
  split; [by apply (existsb_in _ _ r)|exact H2].
Qed.

Lemma eval3_Maybe rule : only_pending_defers rule.
Proof.
  induction rule as [d IH|d IH|d m t race IH|l IH|l IH|l t a race IH] using HeadlessRule_rules_ind;
    intros md; cbn [eval3]; intros H.
  - by apply default_tri_Maybe.
  - by apply default_tri_Maybe.
  - destruct m; [|by apply default_tri_Maybe].
    destruct (selectedResponse t md) as [resp|]; [|by destruct (invert d)].
    by apply (default_tri_Maybe d (with_response (Some resp) md)).
  - by apply (logical_tri_Maybe l).
  - by apply (logical_tri_Maybe l).
  - by apply (logical_tri_Maybe l).
Qed.

(** * The engine computes the three-valued denotation *)

Definition judged (rule : HeadlessRule) (md : InboundContext) : Prop :=
  IgnoreDestinationIPCIDRMatch md = true -> wf (IPCIDRMatchSource md) rule = true.

Definition engine_ok (rule : HeadlessRule) : Prop := forall md,
  DeferredIPCIDRMatchGroups md = 0 -> judged rule md -> outcome (eval3 rule md) md (Match rule md).

Lemma agree_deferred md x : agree (md <| DeferredIPCIDRMatchGroups := x |>) md.
Proof. done. Qed.

Lemma items_hold_deferred (d : abstractDefaultRule HeadlessRule) md :
  DeferredIPCIDRMatchGroups md = 0 ->
  (IgnoreDestinationIPCIDRMatch md = true -> forallb response_free (items d) = true) ->
  items_hold d (md <| DeferredIPCIDRMatchGroups := deferred (defers_items d md) |>) = items_hold d md.
Proof.
  intros H0 Hw. destruct (IgnoreDestinationIPCIDRMatch md) eqn:Hi.
  - apply static_all; [apply agree_deferred|by apply Hw].
  - rewrite (defers_items_known d md Hi). unfold deferred. rewrite <- H0. by rewrite set_deferred_id.
Qed.

Lemma wf_items_items {R} source (d : abstractDefaultRule R) :
  wf_items source d = true -> forallb response_free (items d) = true.
Proof. unfold wf_items. intros H. by bsimpl. Qed.

Lemma evaluateForMerge_bits (branch : abstractDefaultRule HeadlessRule) md :
  DeferredIPCIDRMatchGroups md = 0 ->
  (IgnoreDestinationIPCIDRMatch md = true -> wf_items (IPCIDRMatchSource md) branch = true) ->
  evaluateForMerge branch md =
    (if items_hold branch md
     then Some (mkRuleGroupMatch (bits (group_required branch md)) (bits (group_satisfied branch md)))
     else None,
     md <| DeferredIPCIDRMatchGroups := deferred (defers_items branch md) |>).
Proof.
  intros H0 Hw. unfold evaluateForMerge. rewrite (evaluateGroups_bits branch md false) by done.
  cbn [orb]. change (forallb _ (items branch)) with
    (items_hold branch (md <| DeferredIPCIDRMatchGroups := deferred (defers_items branch md) |>)).
  rewrite items_hold_deferred; [done|done|]. intros Hi. by apply wf_items_items with (IPCIDRMatchSource md), Hw.
Qed.

(** While addresses are ignored, a group has no destination address without a
    domain item. *)
Lemma satisfied_destination {R} (d : abstractDefaultRule R) md :
  IgnoreDestinationIPCIDRMatch md = true -> nonempty (destinationAddressItems d) = false ->
  group_satisfied d md DestinationAddressGroup = false.
Proof.
  unfold group_satisfied, group_items. intros -> H. rewrite orb_true_r, app_nil_r.
  by destruct (destinationAddressItems d).
Qed.

Lemma wf_DefaultHeadlessRule source d :
  wf source (DefaultHeadlessRule d) = true -> wf_items source d = true.
Proof. cbn. intros H. by bsimpl. Qed.

(** What the loop over the rule sets finds for one set, in the terms of its body. *)
Lemma merge_step d md nested branch :
  ruleGroupMatch_done
    (mergeWith (mkRuleGroupMatch (bits (group_required d md)) (bits (group_satisfied d md)))
       (mkRuleGroupMatch (bits (group_required branch nested)) (bits (group_satisfied branch nested))))
  = all_groups (@merged_group_holds Env HeadlessRule d branch md nested)
  /\ satisfied (mergeWith (mkRuleGroupMatch (bits (group_required d md)) (bits (group_satisfied d md)))
       (mkRuleGroupMatch (bits (group_required branch nested)) (bits (group_satisfied branch nested))))
  = bits (fun g => group_satisfied d md g || group_satisfied branch nested g).
Proof.
  unfold mergeWith. cbn [required satisfied]. rewrite !lor_bits, done_bits. split; [|done].
  unfold all_groups, merged_group_holds. by rewrite !orb_assoc.
Qed.

Section SetLoop.
Variables (d : abstractDefaultRule HeadlessRule) (md : InboundContext) (i : RuleSetItem HeadlessRule).

Notation m := (md <| DeferredIPCIDRMatchGroups := deferred (defers_items d md) |>).
Notation outer := (mkRuleGroupMatch (bits (group_required d md)) (bits (group_satisfied d md))).

Definition set_judged (s : RuleSet HeadlessRule) : Prop :=
  IgnoreDestinationIPCIDRMatch md = true ->
  forallb (wf (ipCidrMatchSource i)) (RuleSet_rules s)
  && wf_set (IPCIDRMatchSource md) (ipCidrMatchSource i) d s = true.

Definition sets_result (t : tri) : InboundContext + bool * Z :=
  match t with
  | No => inr (false, deferred false)
  | Maybe => inr (true, deferred true)
  | Yes => inl m
  end.

Notation loop := (outerGroups_loop RuleSet_mergeableRule RuleSet_Match i m outer (all_groups (group_holds d md))).

(** One iteration on a mergeable set. *)
Lemma loop_mergeable s branch sets matched :
  RuleSet_mergeableRule s = Some branch -> set_judged s ->
  loop (s :: sets) matched (deferred matched)
  = match set_tri rules_tri d md (nestedMetadata i md) s with
    | Yes => inl m
    | Maybe => loop sets true (deferred true)
    | No => loop sets matched (deferred matched)
    end.
Proof.
  intros Hs Hj. unfold set_tri. cbn [outerGroups_loop]. rewrite Hs.
  change (nestedMetadata i m) with (nestedMetadata i md).
  assert (Hbr : RuleSet_rules s = [DefaultHeadlessRule branch]) by by apply mergeableRule_rules.
  rewrite evaluateForMerge_bits; [|done|].
  2: { intros Hi. specialize (Hj Hi). rewrite Hbr in Hj. cbn [forallb] in Hj. bsimpl.
       by apply wf_DefaultHeadlessRule. }
  destruct (items_hold branch _) eqn:Eit; [|done].
  destruct (merge_step d md (nestedMetadata i md) branch) as [-> ->].
  destruct (all_groups (merged_group_holds _ _ _ _)) eqn:Eg; [|done].
  rewrite !deferred_of_set, !andnot_deferred, deferred_eqb.
  destruct (defers_items branch _ && _) eqn:Ed; cbn [tri_pending tri_and tri_of andb].
  - rewrite lor_deferred, orb_true_r. done.
  - rewrite set_deferred_set. do 3 f_equal.
    destruct (defers_items d md) eqn:Eo; [|done].
    apply defers_items_pending in Eo as (Hp & Hd & Hi). specialize (Hj Hi).
    unfold wf_set in Hj. rewrite Hs, Hp, Hd in Hj. cbn [orb] in Hj. rewrite andb_true_r in Hj.
    apply andb_true_iff in Hj as [_ Hj%negb_true_iff].
    rewrite (satisfied_destination d) by done. by rewrite (satisfied_destination branch).
Qed.

(** One iteration on any other set. *)
Lemma loop_set s sets matched :
  RuleSet_mergeableRule s = None -> set_judged s -> Forall engine_ok (RuleSet_rules s) ->
  loop (s :: sets) matched (deferred matched)
  = match set_tri rules_tri d md (nestedMetadata i md) s with
    | Yes => inl m
    | Maybe => loop sets true (deferred true)
    | No => loop sets matched (deferred matched)
    end.
Proof.
  intros Hs Hj Hok. unfold set_tri. cbn [outerGroups_loop]. rewrite Hs.
  change (nestedMetadata i m) with (nestedMetadata i md).
  destruct (all_groups (group_holds d md)); [|done].
  unfold RuleSet_Match. rewrite (matchAnyHeadlessRule_tri _ (fun r => eval3 r (ResetRuleMatchCache (nestedMetadata i md)))).
  - fold (rules_tri (RuleSet_rules s) (ResetRuleMatchCache (nestedMetadata i md))).
    destruct (rules_tri _ _); cbn [any_result tri_of tri_and]; try done.
    change (Z.lor (DeferredIPCIDRMatchGroups (nestedMetadata i md)) (deferred true)) with (deferred true).
    rewrite deferred_of_set, deferred_eqb, lor_deferred, orb_true_r. done.
  - rewrite Forall_forall in Hok |- *. intros r Hr. apply (Hok r Hr); [done|].
    intros Hi. specialize (Hj Hi). bsimpl. rewrite forallb_forall in H.
    apply H. by apply list_elem_of_In.
Qed.

Lemma outerGroups_loop_tri sets matched :
  Forall set_judged sets -> Forall (fun s => Forall engine_ok (RuleSet_rules s)) sets ->
  loop sets matched (deferred matched)
  = sets_result (tri_or (if matched then Maybe else No)
                   (tri_any (set_tri rules_tri d md (nestedMetadata i md)) sets)).
Proof.
  intros Hj Hok. revert matched. induction sets as [|s sets IH]; intros matched; [by destruct matched|].
  apply Forall_cons in Hj as [Hs Hj]. apply Forall_cons in Hok as [Hs' Hok].
  specialize (IH Hj Hok). cbn [tri_any foldr]. fold (tri_any (set_tri rules_tri d md (nestedMetadata i md)) sets).
  destruct (RuleSet_mergeableRule s) as [branch|] eqn:E.
  - rewrite (loop_mergeable s branch) by done. rewrite (IH true), (IH matched).
    by destruct (set_tri _ _ _ _ s), matched, (tri_any _ sets).
  - rewrite loop_set by done. rewrite (IH true), (IH matched).
    by destruct (set_tri _ _ _ _ s), matched, (tri_any _ sets).
Qed.

End SetLoop.

Definition inner_tri (d : abstractDefaultRule HeadlessRule) (md : InboundContext) : tri :=
  tri_and (tri_of (items_hold d md))
    (tri_and (tri_pending (defers_items d md))
      match ruleSetItem d with
      | None => tri_of (all_groups (group_holds d md))
      | Some i => tri_any (set_tri rules_tri d md (nestedMetadata i md)) (setList i)
      end).

Lemma wf_default_sets source d i s :
  wf_default source d = true -> ruleSetItem d = Some i -> s ∈ setList i ->
  forallb (wf (ipCidrMatchSource i)) (RuleSet_rules s) && wf_set source (ipCidrMatchSource i) d s = true.
Proof.
  unfold wf_default. cbn [wf]. intros H Hi Hs. rewrite Hi in H. apply andb_true_iff in H as [_ H].
  rewrite forallb_forall in H. apply H. by apply list_elem_of_In.
Qed.

Lemma wf_default_items source d : wf_default source d = true -> wf_items source d = true.
Proof. unfold wf_default. cbn [wf]. intros H. by bsimpl. Qed.

(** The reference to the rule sets, evaluated with the rule's own groups. *)
Lemma matchWithOuterGroups_tri d md i :
  (IgnoreDestinationIPCIDRMatch md = true -> wf_default (IPCIDRMatchSource md) d = true) ->
  ruleSetItem d = Some i -> all_set_rules engine_ok d ->
  matchWithOuterGroups RuleSet_mergeableRule RuleSet_Match i
    (md <| DeferredIPCIDRMatchGroups := deferred (defers_items d md) |>)
    (mkRuleGroupMatch (bits (group_required d md)) (bits (group_satisfied d md)))
  = any_result (md <| DeferredIPCIDRMatchGroups := deferred (defers_items d md) |>)
      (tri_any (set_tri rules_tri d md (nestedMetadata i md)) (setList i)).
Proof.
  intros Hw Hi Hok. unfold all_set_rules in Hok. rewrite Hi in Hok.
  unfold matchWithOuterGroups. rewrite done_bits.
  change (all_groups _) with (all_groups (group_holds d md)).
  change (outerGroups_loop _ _ i ?m ?o ?dn ?l false 0) with
    (outerGroups_loop RuleSet_mergeableRule RuleSet_Match i m o dn l false (deferred false)).
  rewrite outerGroups_loop_tri; [by destruct (tri_any _ _)| |done].
  apply Forall_forall. intros s Hs Hm. apply wf_default_sets; auto.
Qed.

(** Clearing the satisfied groups after a match clears nothing pending. *)
Lemma pending_destination d md i :
  (IgnoreDestinationIPCIDRMatch md = true -> wf_default (IPCIDRMatchSource md) d = true) ->
  ruleSetItem d = Some i ->
  tri_any (set_tri rules_tri d md (nestedMetadata i md)) (setList i) = Maybe ->
  group_satisfied d md DestinationAddressGroup = false.
Proof.
  intros Hw Hi Hm. apply tri_any_Maybe in Hm as (s & Hs & Hm).
  destruct (set_tri_Maybe d md i s) as [Hd Hig].
  { apply Forall_forall. intros r _. apply eval3_Maybe. }
  { done. }
  apply satisfied_destination; [done|].
  pose proof (wf_default_sets _ _ _ _ (Hw Hig) Hi Hs) as H. apply andb_true_iff in H as [_ H].
  unfold wf_set in H. destruct (RuleSet_mergeableRule s) as [branch|] eqn:E.
  - apply mergeableRule_rules in E as [Hr Hb]. rewrite Hr in Hd. cbn [existsb defers] in Hd.
    rewrite Hb, !orb_false_r in Hd. rewrite Hd, orb_true_r, andb_true_r in H. by bsimpl.
  - rewrite Hd, andb_true_r in H. by bsimpl.
Qed.

Lemma matchInner_tri d md :
  DeferredIPCIDRMatchGroups md = 0 ->
  (IgnoreDestinationIPCIDRMatch md = true -> wf_default (IPCIDRMatchSource md) d = true) ->
  all_set_rules engine_ok d ->
  outcome (inner_tri d md) md (matchInner RuleSet_mergeableRule RuleSet_Match d md).
Proof.
  intros H0 Hw Hok. unfold matchInner, inner_tri. rewrite (evaluateGroups_bits d md false) by done.
  cbn [orb]. change (forallb _ (items d)) with
    (items_hold d (md <| DeferredIPCIDRMatchGroups := deferred (defers_items d md) |>)).
  rewrite items_hold_deferred by (try done; intros Hi; by eapply wf_default_items, wf_items_items in Hw).
  set (o := defers_items d md).
  assert (Ho : o = true -> group_satisfied d md DestinationAddressGroup = false).
  { intros E. apply defers_items_pending in E as (_ & ? & ?). by apply satisfied_destination. }
  assert (Hno : outcome No md (false, md <| DeferredIPCIDRMatchGroups := deferred o |>)).
  { split; [done|]. exists o. split; [done|]. apply defers_items_known. }
  destruct (items_hold d md); [|exact Hno]. cbn [negb tri_of satisfied].
  destruct (ruleSetItem d) as [i|] eqn:Hi.
  - subst o. rewrite matchWithOuterGroups_tri by done. set (o := defers_items d md) in *.
    pose proof (pending_destination d md i Hw Hi) as Hp.
    destruct (tri_any _ (setList i)); cbn [any_result].
    + by destruct o.
    + rewrite !deferred_of_set, !set_deferred_set, lor_deferred, orb_true_r, andnot_deferred, (Hp eq_refl).
      by destruct o.
    + rewrite deferred_of_set, andnot_deferred, set_deferred_set.
      destruct o; [|done]. by rewrite (Ho eq_refl).
  - rewrite done_bits. change (all_groups _) with (all_groups (group_holds d md)).
    destruct (all_groups _); [|by destruct o].
    rewrite deferred_of_set, andnot_deferred, set_deferred_set.
    destruct o; [|done]. by rewrite (Ho eq_refl).
Qed.

Lemma abstractDefaultRule_Match_tri d md :
  DeferredIPCIDRMatchGroups md = 0 ->
  (IgnoreDestinationIPCIDRMatch md = true -> wf_default (IPCIDRMatchSource md) d = true) ->
  all_set_rules engine_ok d ->
  outcome (default_tri rules_tri d md) md (default_Match d md).
Proof.
  intros H0 Hw Hok. unfold default_Match, abstractDefaultRule_Match, default_tri.
  fold (inner_tri d md). destruct (nonempty (allItems d)); cbn [negb].
  2: { unfold outcome, deferred. rewrite <- H0. by rewrite set_deferred_id. }
  destruct (outcome_inv _ _ _ (matchInner_tri d md H0 Hw Hok)) as (b & x & -> & -> & Hx).
  rewrite deferred_of_set, deferred_eqb.
  destruct (invert d), b; cbn [negb].
  - destruct x; [done|]. split; [done|]. by exists false.
  - by rewrite set_deferred_set.
  - by destruct x.
  - split; [done|]. exists x. split; [done|]. by apply Hx.
Qed.

Lemma logical_engine_ok l md :
  Forall engine_ok (logical_rules l) -> DeferredIPCIDRMatchGroups md = 0 -> judged (LogicalRule l) md ->
  outcome (logical_tri eval3 l md) md (abstractLogicalRule_Match Match l md).
Proof.
  intros IH H0 Hj. apply abstractLogicalRule_Match_tri; [done|].
  rewrite Forall_forall in IH |- *. intros r Hr. apply (IH r Hr); [done|].
  intros Hi. specialize (Hj Hi). cbn [wf] in Hj. rewrite forallb_forall in Hj.
  apply Hj. by apply list_elem_of_In.
Qed.

(** A rule on a DNS response matches a copy of the metadata. *)
Lemma response_engine_ok d md resp :
  all_set_rules engine_ok d -> DeferredIPCIDRMatchGroups md = 0 ->
  IgnoreDestinationIPCIDRMatch md = false ->
  outcome (default_tri rules_tri d (with_response resp md)) md
    (fst (default_Match d (with_response resp md)), md).
Proof.
  intros IH H0 Hi. set (md' := with_response resp md).
  assert (Hi' : IgnoreDestinationIPCIDRMatch md' = false) by exact Hi.
  assert (Hmd' : outcome (default_tri rules_tri d md') md' (default_Match d md')).
  { apply abstractDefaultRule_Match_tri; [done| |done]. congruence. }
  apply outcome_inv in Hmd' as (b & x & -> & Ht & Hx).
  assert (Hn : default_tri rules_tri d md' <> Maybe).
  { intros Hm. destruct (default_tri_Maybe d md') as [_ Hig]; [|done|congruence].
    unfold all_set_rules. destruct (ruleSetItem d); [|done].
    apply Forall_true. intros s. apply Forall_true. apply eval3_Maybe. }
  rewrite Ht in Hn |- *. destruct b; [destruct x; [done|]|].
  - apply (any_result_outcome md Yes H0).
  - apply (any_result_outcome md No H0).
Qed.

Lemma Match_engine_ok rule : engine_ok rule.
Proof.
  induction rule as [d IH|d IH|d m t race IH|l IH|l IH|l t a race IH] using HeadlessRule_rules_ind;
    intros md H0 Hj; cbn [Match eval3].
  - by apply abstractDefaultRule_Match_tri.
  - by apply abstractDefaultRule_Match_tri.
  - destruct m; [|by apply abstractDefaultRule_Match_tri].
    destruct (selectedResponse t md) as [resp|].
    + apply response_engine_ok; [done|done|]. destruct (IgnoreDestinationIPCIDRMatch md) eqn:Hi; [|done].
      specialize (Hj Hi). discriminate Hj.
    + destruct (invert d); [apply (any_result_outcome md Yes H0)|apply (any_result_outcome md No H0)].
  - by apply logical_engine_ok.
  - by apply logical_engine_ok.
  - by apply logical_engine_ok.
Qed.

(** * The verdict before the lookup approximates the match after it *)

(** [t] is a safe answer to [b]: not [No] when [b] holds and, unless something is
    pending anyway, [Yes] only when [b] holds. *)
Definition approx_under (pending : bool) (t : tri) (b : bool) : Prop :=
  (b = true -> t <> No) /\ (pending = false -> t = Yes -> b = true).
Notation approx := (approx_under false).

Lemma approx_of p b : approx_under p (tri_of b) b.
Proof. by destruct b. Qed.

Lemma approx_and p t1 b1 t2 b2 :
  approx_under p t1 b1 -> approx_under p t2 b2 -> approx_under p (tri_and t1 t2) (b1 && b2).
Proof. unfold approx_under. destruct t1, t2, b1, b2; cbn; intuition congruence. Qed.

Lemma approx_or p t1 b1 t2 b2 :
  approx_under p t1 b1 -> approx_under p t2 b2 -> approx_under p (tri_or t1 t2) (b1 || b2).
Proof. unfold approx_under. destruct t1, t2, b1, b2; cbn; intuition congruence. Qed.

Lemma approx_xor c t b : approx t b -> approx (tri_xor c t) (xorb c b).
Proof. unfold approx_under. destruct c, t, b; cbn; intuition congruence. Qed.

Lemma approx_pending p t b : approx_under p t b -> approx (tri_and (tri_pending p) t) b.
Proof. unfold approx_under. destruct p, t, b; cbn; intuition congruence. Qed.

Lemma approx_any {A} p (f : A -> tri) (g : A -> bool) l :
  Forall (fun x => approx_under p (f x) (g x)) l -> approx_under p (tri_any f l) (existsb g l).
Proof. induction 1; cbn; [done|]. by apply approx_or. Qed.

Lemma approx_all {A} p (f : A -> tri) (g : A -> bool) l :
  Forall (fun x => approx_under p (f x) (g x)) l -> approx_under p (tri_all f l) (forallb g l).
Proof. induction 1; cbn; [done|]. by apply approx_and. Qed.

(** The groups of a rule before ([md]) and after ([md']) the lookup. *)
Lemma groups_before_after (d : abstractDefaultRule HeadlessRule) md md' :
  agree md md' -> IgnoreDestinationIPCIDRMatch md = true -> IgnoreDestinationIPCIDRMatch md' = false ->
  wf_items (IPCIDRMatchSource md) d = true ->
  (forall g, g <> DestinationAddressGroup ->
     group_required d md g = group_required d md' g /\ group_satisfied d md g = group_satisfied d md' g)
  /\ group_required d md DestinationAddressGroup = nonempty (destinationAddressItems d)
  /\ group_satisfied d md DestinationAddressGroup = matchAnyItem (destinationAddressItems d) md'
  /\ group_required d md' DestinationAddressGroup
     = nonempty (destinationAddressItems d) || has_pending_items (IPCIDRMatchSource md) d
  /\ group_satisfied d md' DestinationAddressGroup
     = matchAnyItem (destinationAddressItems d) md'
       || (negb (IPCIDRMatchSource md) && matchAnyItem (destinationIPCIDRItems d) md').
Proof.
  intros Ha Hi Hi' Hw. pose proof (agree_source _ _ Ha) as Hs. unfold wf_items in Hw.
  apply andb_true_iff in Hw as [Hw Hsrc]. bsimpl.
  unfold group_required, group_satisfied, group_items, has_pending_items.
  rewrite <- Hs, Hi, Hi', !orb_true_r, !orb_false_r, app_nil_r.
  rewrite !nonempty_app, !matchAnyItem_app, nonempty_if_not, matchAnyItem_if_not.
  split; [|by rewrite (static_any md md')].
  intros [] Hg; try done; rewrite ?nonempty_app, ?matchAnyItem_app, ?nonempty_if, ?matchAnyItem_if.
  - rewrite (static_any md md') by done. split; [done|].
    destruct (IPCIDRMatchSource md) eqn:E; [|done]. by rewrite (source_any md md').
  - by rewrite (static_any md md').
  - by rewrite (static_any md md').
Qed.

Lemma approx_groups (d : abstractDefaultRule HeadlessRule) md md' :
  agree md md' -> IgnoreDestinationIPCIDRMatch md = true -> IgnoreDestinationIPCIDRMatch md' = false ->
  wf_items (IPCIDRMatchSource md) d = true ->
  nonempty (destinationAddressItems d) && has_pending_items (IPCIDRMatchSource md) d = false ->
  approx_under (defers_items d md) (tri_of (all_groups (group_holds d md))) (all_groups (group_holds d md')).
Proof.
  intros Ha Hi Hi' Hw Hmix.
  destruct (groups_before_after d md md' Ha Hi Hi' Hw) as (Hg & H1 & H2 & H3 & H4).
  unfold all_groups, group_holds. rewrite H1, H2, H3, H4.
  destruct (Hg SourceAddressGroup) as [-> ->]; [done|]. destruct (Hg SourcePortGroup) as [-> ->]; [done|].
  destruct (Hg DestinationPortGroup) as [-> ->]; [done|].
  unfold defers_items, has_pending_items in *. rewrite Hi. cbn [andb].
  destruct (item_states (destinationIPCIDRItems d) md') as [Hp|[Hp ->]]; rewrite Hp in Hmix |- *;
    rewrite ?andb_false_r, ?orb_false_r; [|apply approx_of].
  rewrite andb_true_r in Hmix |- *.
  destruct (IPCIDRMatchSource md); cbn [negb andb]; rewrite ?orb_false_r; [apply approx_of|].
  rewrite andb_true_r in Hmix. rewrite Hmix. cbn [negb orb andb].
  split; [|done]. intros H. bsimpl. by rewrite H, H0, H6.
Qed.

Lemma approx_merged (d branch : abstractDefaultRule HeadlessRule) md md' n n' :
  agree md md' -> IgnoreDestinationIPCIDRMatch md = true -> IgnoreDestinationIPCIDRMatch md' = false ->
  agree n n' -> IgnoreDestinationIPCIDRMatch n = true -> IgnoreDestinationIPCIDRMatch n' = false ->
  wf_items (IPCIDRMatchSource md) d = true -> wf_items (IPCIDRMatchSource n) branch = true ->
  (nonempty (destinationAddressItems d) || nonempty (destinationAddressItems branch))
  && (has_pending_items (IPCIDRMatchSource md) d || has_pending_items (IPCIDRMatchSource n) branch) = false ->
  approx_under (defers_items d md)
    (tri_and (tri_of (all_groups (merged_group_holds d branch md n)))
       (tri_pending (defers_items branch n && negb (group_satisfied d md DestinationAddressGroup
                                                    || group_satisfied branch n DestinationAddressGroup))))
    (all_groups (merged_group_holds d branch md' n')).
Proof.
  intros Ha Hi Hi' Hn Hni Hni' Hw Hwb Hmix.
  destruct (groups_before_after d md md' Ha Hi Hi' Hw) as (Hg & H1 & H2 & H3 & H4).
  destruct (groups_before_after branch n n' Hn Hni Hni' Hwb) as (Hgb & K1 & K2 & K3 & K4).
  unfold all_groups, merged_group_holds. rewrite H1, H2, H3, H4, K1, K2, K3, K4.
  destruct (Hg SourceAddressGroup) as [-> ->]; [done|]. destruct (Hg SourcePortGroup) as [-> ->]; [done|].
  destruct (Hg DestinationPortGroup) as [-> ->]; [done|].
  destruct (Hgb SourceAddressGroup) as [-> ->]; [done|]. destruct (Hgb SourcePortGroup) as [-> ->]; [done|].
  destruct (Hgb DestinationPortGroup) as [-> ->]; [done|].
  generalize (negb (group_required d md' SourceAddressGroup || group_required branch n' SourceAddressGroup)
    || group_satisfied d md' SourceAddressGroup || group_satisfied branch n' SourceAddressGroup),
   (negb (group_required d md' SourcePortGroup || group_required branch n' SourcePortGroup)
    || group_satisfied d md' SourcePortGroup || group_satisfied branch n' SourcePortGroup),
   (negb (group_required d md' DestinationPortGroup || group_required branch n' DestinationPortGroup)
    || group_satisfied d md' DestinationPortGroup || group_satisfied branch n' DestinationPortGroup).
  intros sa sp dp. clear Hg Hgb H1 H2 H3 H4 K1 K2 K3 K4.
  unfold defers_items, has_pending_items in *. rewrite Hi, Hni. unfold approx_under.
  destruct (item_states (destinationAddressItems d) md') as [E1|[E1 ->]],
    (item_states (destinationAddressItems branch) n') as [E2|[E2 ->]],
    (item_states (destinationIPCIDRItems d) md') as [E3|[E3 ->]],
    (item_states (destinationIPCIDRItems branch) n') as [E4|[E4 ->]];
    rewrite E1, E2, E3, E4 in Hmix |- *;
    destruct (IPCIDRMatchSource md), (IPCIDRMatchSource n); try discriminate Hmix;
    destruct sa, sp, dp; cbn [negb andb orb tri_of tri_and tri_pending]; try done;
    repeat (destruct (matchAnyItem _ _)); cbn; intuition congruence.
Qed.

Lemma agree_nested (i : RuleSetItem HeadlessRule) md md' :
  agree md md' -> agree (nestedMetadata i md) (nestedMetadata i md').
Proof. intros H. exact (f_equal (nestedMetadata i) H). Qed.

Lemma agree_reset_match md md' : agree md md' -> agree (ResetRuleMatchCache md) (ResetRuleMatchCache md').
Proof. intros H. exact (f_equal ResetRuleMatchCache H). Qed.

Lemma agree_reset md md' : agree md md' -> agree (ResetRuleCache md) (ResetRuleCache md').
Proof. intros H. exact (f_equal ResetRuleCache H). Qed.

Definition approx_ok (rule : HeadlessRule) : Prop := forall md md',
  agree md md' -> IgnoreDestinationIPCIDRMatch md = true -> IgnoreDestinationIPCIDRMatch md' = false ->
  wf (IPCIDRMatchSource md) rule = true -> approx (eval3 rule md) (eval rule md').

Lemma approx_set d md md' i s :
  agree md md' -> IgnoreDestinationIPCIDRMatch md = true -> IgnoreDestinationIPCIDRMatch md' = false ->
  wf_default (IPCIDRMatchSource md) d = true -> ruleSetItem d = Some i -> s ∈ setList i ->
  Forall approx_ok (RuleSet_rules s) ->
  approx_under (defers_items d md) (set_tri rules_tri d md (nestedMetadata i md) s)
    (set_holds rules_eval d md' (nestedMetadata i md') s).
Proof.
  intros Ha Hi Hi' Hw Hri Hs IH. pose proof (wf_default_sets _ _ _ _ Hw Hri Hs) as Hws.
  apply andb_true_iff in Hws as [Hrules Hset]. unfold wf_set in Hset.
  pose proof (wf_default_items _ _ Hw) as Hit.
  unfold set_tri, set_holds. destruct (RuleSet_mergeableRule s) as [branch|] eqn:Hm.
  - apply mergeableRule_rules in Hm as [Hr _]. rewrite Hr in Hrules. cbn [forallb] in Hrules.
    rewrite andb_true_r in Hrules. apply wf_DefaultHeadlessRule in Hrules.
    rewrite (static_all (nestedMetadata i md) (nestedMetadata i md'));
      [|by apply agree_nested|by eapply wf_items_items].
    destruct (items_hold branch _); [|done]. cbn [andb].
    apply approx_merged; try done; [by apply agree_nested|by apply negb_true_iff].
  - apply approx_and.
    + apply approx_groups; try done. unfold wf_default in Hw. cbn [wf] in Hw. by bsimpl.
    + assert (H : approx (rules_tri (RuleSet_rules s) (ResetRuleMatchCache (nestedMetadata i md)))
                   (rules_eval (RuleSet_rules s) (ResetRuleMatchCache (nestedMetadata i md')))).
      { apply approx_any. rewrite Forall_forall in IH |- *. intros r Hr. apply IH; try done.
        - by apply agree_reset_match, agree_nested.
        - rewrite forallb_forall in Hrules. apply Hrules. by apply list_elem_of_In. }
      destruct H as [HA HB]. split; [exact HA|]. intros _. by apply HB.
Qed.

Lemma approx_default d md md' :
  agree md md' -> IgnoreDestinationIPCIDRMatch md = true -> IgnoreDestinationIPCIDRMatch md' = false ->
  wf_default (IPCIDRMatchSource md) d = true -> all_set_rules approx_ok d ->
  approx (default_tri rules_tri d md) (default_holds rules_eval d md').
Proof.
  intros Ha Hi Hi' Hw IH. unfold default_tri, default_holds, all_set_rules in *.
  destruct (nonempty (allItems d)); [|done]. apply approx_xor.
  pose proof (wf_default_items _ _ Hw) as Hit.
  rewrite (static_all md md'); [|done|by eapply wf_items_items].
  apply approx_and; [apply approx_of|]. apply approx_pending.
  destruct (ruleSetItem d) as [i|] eqn:Hri.
  - apply approx_any. rewrite Forall_forall in IH |- *. intros s Hs. apply approx_set; auto.
  - apply approx_groups; try done. unfold wf_default in Hw. cbn [wf] in Hw. by bsimpl.
Qed.

Lemma approx_logical l md md' :
  agree md md' -> IgnoreDestinationIPCIDRMatch md = true -> IgnoreDestinationIPCIDRMatch md' = false ->
  forallb (wf false) (logical_rules l) = true -> Forall approx_ok (logical_rules l) ->
  approx (logical_tri eval3 l md) (logical_holds eval l md').
Proof.
  intros Ha Hi Hi' Hw IH. unfold logical_tri, logical_holds. apply approx_xor.
  assert (H : Forall (fun r => approx (eval3 r (ResetRuleCache md)) (eval r (ResetRuleCache md'))) (logical_rules l)).
  { rewrite Forall_forall in IH |- *. intros r Hr. apply IH; try done; [by apply agree_reset|].
    rewrite forallb_forall in Hw. apply Hw. by apply list_elem_of_In. }
  destruct (bool_decide _); [by apply approx_all|by apply approx_any].
Qed.

Lemma eval3_approx rule : approx_ok rule.
Proof.
  induction rule as [d IH|d IH|d m t race IH|l IH|l IH|l t a race IH] using HeadlessRule_rules_ind;
    intros md md' Ha Hi Hi' Hw; cbn [eval eval3].
  - by apply approx_default.
  - by apply approx_default.
  - destruct m; [discriminate Hw|]. by apply approx_default.
  - by apply approx_logical.
  - by apply approx_logical.
  - by apply approx_logical.
Qed.

End PreMatch.
