(* ===== verification/RuleExamples.v ===== *)
(** Concrete rules, rule sets and metadata on which the theorems about rules are
    evaluated, over an instance of the packages the rule items call. *)

From S2P Require Import Prelude NetAddr GoStrings RuleContext RuleItems RuleEngine RuleSpec RulePreMatch.

(** A matcher by list membership stands for the domain package, ranges for
    netipx, and equality for compiled expressions. *)
Definition example_env : RuleEnv := {|
  env_metadata := metadata_pkg;
  IPSet_Contains ranges a :=
    existsb (fun '(lo, hi) => (addr lo <=? addr a) && (addr a <=? addr hi)) ranges;
  IPSetBuilder_IPSet ops :=
    Ok (omap (fun op => match op with AddAddr a => Some (a, a) | AddPrefix p => Some (ip p, ip p) end) ops);
  netip_ParsePrefix s := Err (ENew "not a prefix");
  netip_ParseAddr s := let! v := Atoi s in Ok (AddrFrom4 v);
  net_ParseMAC s := Ok (bytes_of_string s);
  HardwareAddr_String := string_of_bytes;
  hex_DecodeString s := Ok (bytes_of_string s);
  strings_TrimSpace s := s;
  Prefix_String p := Itoa (addr (ip p));
  DomainMatcher := list string * list string;
  NewMatcher domains suffixes _ := (domains, suffixes);
  DomainMatcher_Match m s := inb s (m.1 ++ m.2);
  AdGuardMatcher := list string;
  NewAdGuardMatcher l := l;
  AdGuardMatcher_Match m s := inb s m;
  Regexp := string;
  regexp_Compile s := Ok s;
  MatchString r s := bool_decide (r = s);
  unicode_ToLower s := s;
  unicode_EqualFold s t := bool_decide (s = t);
  IsPublicAddr a := negb (addr a =? 0xffff0a000001);
  CanonicalName s := s;
  RcodeToString := Itoa;
  dns_TypeToString _ := None;
  dns_IsDuplicate _ _ := false;
  RR_String _ := "record";
  PreferredOutbound := unit;
  PreferredDomain _ _ _ := false;
  PreferredAddress _ _ _ := false;
  PreferredTransport := unit;
  Transport_PreferredDomain _ _ := false;
  networkManager := mkNetworkManager None [] [] [] None (mkWIFIState "" "");
  clashServer_Mode := "rule";
  IsAndroid := false;
|}.

#[local] Existing Instance example_env.

(** A default rule of the given plain items and groups. *)
Definition example_default (its dst ips : list RuleItem) (set : option (RuleSetItem HeadlessRule))
    (inv : bool) : abstractDefaultRule HeadlessRule :=
  mkAbstractDefaultRule its [] [] dst ips []
    (map AnyRuleItem (its ++ dst ++ ips) ++ match set with Some _ => [AnyRuleSetItem] | None => [] end)
    set 0 1 inv.

Definition domain_item (domain : string) : RuleItem := I_DomainKeyword (mkDomainKeywordItem [domain] 0).
Definition address_item (v : Z) : RuleItem :=
  I_IPCIDR (mkIPCIDRItem [(AddrFrom4 v, AddrFrom4 v)] false "ip_cidr").

Definition example_set (name : string) (rules : list (abstractDefaultRule HeadlessRule)) (ipcidr : bool)
    : RuleSet HeadlessRule :=
  mkRuleSet name (map DefaultHeadlessRule rules) (mkRuleSetMetadata false false ipcidr false true).

Definition example_reference (sets : list (RuleSet HeadlessRule)) : RuleSetItem HeadlessRule :=
  mkRuleSetItem (map RuleSet_tag sets) sets false false.

(** A query for a domain, and responses carrying one address. *)
Definition example_query (domain : string) : InboundContext :=
  zeroInboundContext <| Destination := mkSocksaddr zeroAddr 0 domain |> <| Domain := domain |>.
Definition example_response (v : Z) : option Msg :=
  Some (mkMsg 0 [RR_A (AsSlice (AddrFrom4 v))] [] []).

Definition response_in := example_response 0x08080808.
Definition response_out := example_response 0x01010101.
