(* ===== verification/RuleTheorems.v ===== *)
(** The properties of the rule engine. *)

From S2P Require Import Prelude NetAddr GoStrings RuleContext RuleItems RuleEngine RuleSpec RulePreMatch RuleExamples.

Section Theorems.
Context {Env : RuleEnv}.

(** * Definitions the statements use *)

(** Metadata as the router hands it to a rule: caches reset, no lookup pending. *)
Definition fresh (md : InboundContext) : Prop :=
  ResetRuleCache md = md /\ IgnoreDestinationIPCIDRMatch md = false.

Definition is_dns_rule (rule : HeadlessRule) : bool :=
  match rule with DefaultDNSRule _ _ _ _ | LogicalDNSRule _ _ _ _ => true | _ => false end.

(** The metadata of every rule set announces its destination address rules, and
    a set matched by source has none. *)
Fixpoint limit_accurate (rule : HeadlessRule) : bool :=
  match rule with
  | DefaultDNSRule d _ _ _ =>
      match ruleSetItem d with
      | None => true
      | Some i =>
          forallb (fun s =>
            implb (existsb (defers (ipCidrMatchSource i)) (RuleSet_rules s))
                  (negb (ipCidrMatchSource i) && ContainsIPCIDRRule (RuleSet_metadata s))) (setList i)
      end
  | LogicalDNSRule l _ _ _ => forallb limit_accurate (logical_rules l)
  | _ => false
  end.

(** A rule with the items and groups of the rule of a rule set appended to its
    own. *)
Definition flatten (d branch : abstractDefaultRule HeadlessRule) : abstractDefaultRule HeadlessRule :=
  mkAbstractDefaultRule (items d ++ items branch)
    (sourceAddressItems d ++ sourceAddressItems branch)
    (sourcePortItems d ++ sourcePortItems branch)
    (destinationAddressItems d ++ destinationAddressItems branch)
    (destinationIPCIDRItems d ++ destinationIPCIDRItems branch)
    (destinationPortItems d ++ destinationPortItems branch)
    (allItems d) None (rule_domainMatchStrategy d) (ruleCount d) (invert d).

(** * Lemmas *)

Lemma fresh_deferred md : fresh md -> DeferredIPCIDRMatchGroups md = 0.
Proof. intros [H _]. by rewrite <- H. Qed.

Lemma fresh_source md : fresh md -> IPCIDRMatchSource md = false.
Proof. intros [H _]. by rewrite <- H. Qed.

Lemma engine_known rule md :
  IgnoreDestinationIPCIDRMatch md = false -> DeferredIPCIDRMatchGroups md = 0 ->
  Match rule md = (eval rule md, md).
Proof.
  intros Hi H0. pose proof (Match_engine_ok rule md H0) as H.
  unfold judged in H. rewrite Hi in H. specialize (H ltac:(done)).
  rewrite (eval3_known rule md Hi) in H.
  assert (Hid : md = md <| DeferredIPCIDRMatchGroups := 0 |>) by (rewrite <- H0; by rewrite set_deferred_id).
  destruct (eval rule md); cbn [tri_of outcome] in H.
  - rewrite H. unfold deferred. by rewrite <- Hid.
  - destruct (Match rule md) as [b m]. cbn [fst snd] in H. destruct H as (-> & d & -> & Hd).
    rewrite (Hd Hi). unfold deferred. by rewrite <- Hid.
Qed.

Lemma pre_match_engine rule md :
  is_dns_rule rule = true -> fresh md -> wf false rule = true ->
  exists t, t = eval3 rule (md <| IgnoreDestinationIPCIDRMatch := true |>)
  /\ fst (LegacyPreMatch rule md) = match t with No => false | _ => true end
  /\ (t <> No -> DeferredIPCIDRMatchGroups (snd (LegacyPreMatch rule md))
               = match t with Maybe => ruleMatchDestinationAddress | _ => 0 end).
Proof.
  intros Hr Hf Hw. set (m := md <| IgnoreDestinationIPCIDRMatch := true |>).
  assert (H : outcome (eval3 rule m) m (Match rule m)).
  { apply Match_engine_ok; [exact (fresh_deferred _ Hf)|]. intros _.
    change (IPCIDRMatchSource m) with (IPCIDRMatchSource md). by rewrite (fresh_source _ Hf). }
  assert (HL : LegacyPreMatch rule md
    = (fst (Match rule m), (snd (Match rule m)) <| IgnoreDestinationIPCIDRMatch := false |>)).
  { destruct rule as [| | | |d [] t race|]; try discriminate Hr; try discriminate Hw; reflexivity. }
  exists (eval3 rule m). split; [done|]. rewrite HL.
  destruct (eval3 rule m); cbn [outcome] in H.
  - by destruct H as (-> & _).
  - rewrite H. done.
  - rewrite H. done.
Qed.

Lemma address_limit_eval rule md response :
  is_dns_rule rule = true -> fresh md -> wf false rule = true ->
  MatchAddressLimit rule md response = eval rule (with_response response md).
Proof.
  intros Hr Hf Hw. pose proof Hf as [Hfr Hi].
  pose proof (engine_known rule (with_response response md) Hi (fresh_deferred _ Hf)) as HM.
  unfold MatchAddressLimit. rewrite Hfr.
  destruct rule as [| | | |d [] t race|]; try discriminate Hr; try discriminate Hw;
    (etransitivity; [|exact (f_equal fst HM)]); reflexivity.
Qed.

Lemma pre_match_approx rule md response :
  is_dns_rule rule = true -> fresh md -> wf false rule = true ->
  approx_under false (eval3 rule (md <| IgnoreDestinationIPCIDRMatch := true |>))
    (MatchAddressLimit rule md response).
Proof.
  intros Hr Hf Hw. rewrite address_limit_eval by done. apply eval3_approx; [done|done|exact (proj2 Hf)|].
  change (IPCIDRMatchSource _) with (IPCIDRMatchSource md). by rewrite (fresh_source _ Hf).
Qed.

Lemma WithAddressLimit_defers rule :
  limit_accurate rule = true -> WithAddressLimit rule = false -> defers false rule = false.
Proof.
  induction rule as [d IH|d IH|d m t race IH|l IH|l IH|l t a race IH] using HeadlessRule_rules_ind;
    intros Ha Hl; try discriminate Ha.
  - cbn [limit_accurate WithAddressLimit defers] in *. unfold has_pending_items. cbn [negb andb].
    destruct (nonempty (destinationIPCIDRItems d)); [discriminate Hl|]. cbn [orb].
    destruct (ruleSetItem d) as [i|]; [|done].
    apply not_true_iff_false. rewrite existsb_exists. intros (s & Hs & Hd).
    rewrite forallb_forall in Ha. specialize (Ha s Hs). rewrite Hd in Ha. cbn [implb] in Ha. bsimpl.
    unfold ContainsDestinationIPCIDRRule in Hl. rewrite H in Hl.
    assert (Ht : existsb (fun s => ContainsIPCIDRRule (RuleSet_metadata s)) (setList i) = true)
      by (apply existsb_exists; eauto). congruence.
  - cbn [limit_accurate WithAddressLimit defers] in *.
    induction IH as [|r rules Hr Hrs IHr]; [done|]. cbn in *. bsimpl. rewrite Hr by done. auto.
Qed.

Lemma match_all_spec its md :
  forallb (fun item => RuleItem_Match item md) its = true <-> forall item, item ∈ its -> RuleItem_Match item md = true.
Proof. rewrite forallb_forall. by setoid_rewrite list_elem_of_In. Qed.

Lemma match_any_spec its md :
  negb (nonempty its) || matchAnyItem its md = true
  <-> its = [] \/ exists item, item ∈ its /\ RuleItem_Match item md = true.
Proof.
  unfold matchAnyItem. destruct its as [|x its]; cbn [nonempty negb orb]; [by split; auto|].
  rewrite existsb_exists. setoid_rewrite list_elem_of_In. split; [by right|]. by intros [|].
Qed.

Lemma flatten_group d branch md g :
  group_required (flatten d branch) md g = group_required d md g || group_required branch md g
  /\ group_satisfied (flatten d branch) md g = group_satisfied d md g || group_satisfied branch md g.
Proof.
  unfold group_required, group_satisfied, group_items, flatten.
  destruct g; cbn [sourceAddressItems sourcePortItems destinationAddressItems destinationIPCIDRItems
    destinationPortItems]; rewrite ?nonempty_app, ?matchAnyItem_app, ?nonempty_if, ?nonempty_if_not,
    ?matchAnyItem_if, ?matchAnyItem_if_not, ?nonempty_app, ?matchAnyItem_app; split; try done.
  all: destruct (IPCIDRMatchSource md), (IgnoreDestinationIPCIDRMatch md); cbn [andb orb negb];
    rewrite ?orb_false_r; try done.
  all: rewrite !orb_assoc; f_equal; rewrite <- !orb_assoc; f_equal; apply orb_comm.
Qed.

(** * Matching *)

(** C1: matching with known addresses.  For every rule of any type, [Match] on
    metadata with no deferred group and no ignored addresses returns exactly the
    truth value of the rule's boolean denotation, and leaves the metadata as it
    found it. *)
Theorem Match_decides_rule rule md :
  IgnoreDestinationIPCIDRMatch md = false -> DeferredIPCIDRMatchGroups md = 0 ->
  Match rule md = (eval rule md, md).
Proof. apply engine_known. Qed.

(** What a default rule without rule sets means.  It matches exactly when
    every plain item matches and each of the four groups (source address, source
    port, destination address with [ip_cidr], destination port) is empty or has a
    matching item; inversion negates this. *)
Theorem default_rule_meaning d md :
  fresh md -> ruleSetItem d = None -> allItems d <> [] ->
  (fst (Match (DefaultRule d) md) = negb (invert d)
   <-> (forall item, item ∈ items d -> RuleItem_Match item md = true)
       /\ Forall (fun its => its = [] \/ exists item, item ∈ its /\ RuleItem_Match item md = true)
            [sourceAddressItems d; sourcePortItems d;
             destinationAddressItems d ++ destinationIPCIDRItems d; destinationPortItems d]).
Proof.
  intros Hf Hs Ha. rewrite (engine_known _ md (proj2 Hf) (fresh_deferred _ Hf)).
  cbn [fst eval]. unfold default_holds. rewrite Hs.
  destruct (allItems d); [done|]. cbn [nonempty].
  transitivity (items_hold d md && all_groups (group_holds d md) = true).
  { by destruct (invert d), (items_hold d md && _). }
  unfold items_hold, all_groups, group_holds, group_required, group_satisfied, group_items.
  rewrite (fresh_source _ Hf), (proj2 Hf). cbn [orb]. rewrite app_nil_r.
  rewrite !andb_true_iff, match_all_spec, !match_any_spec, !Forall_cons, Forall_nil. tauto.
Qed.

(** A reference to a rule set of one plain rule extends the referring rule.
    A rule that refers to a single rule set holding one default, non-inverted,
    reference-free rule matches exactly like the rule whose items and groups are
    the concatenation of both. *)
Theorem single_rule_set_extends d i s branch md :
  fresh md -> ruleSetItem d = Some i -> setList i = [s] ->
  ipCidrMatchSource i = false -> ipCidrAcceptEmpty i = false ->
  RuleSet_mergeableRule s = Some branch ->
  Match (DefaultRule d) md = Match (DefaultRule (flatten d branch)) md.
Proof.
  intros Hf Hi Hl Hsrc Hae Hb.
  rewrite !(engine_known _ md (proj2 Hf) (fresh_deferred _ Hf)). f_equal. cbn [eval].
  assert (Hn : nestedMetadata i md = md).
  { rewrite <- (proj1 Hf) at 2. unfold nestedMetadata. rewrite Hsrc, Hae. reflexivity. }
  unfold default_holds. rewrite Hi, Hl, Hn. cbn [ruleSetItem flatten allItems invert existsb].
  destruct (nonempty (allItems d)); [|done]. f_equal. rewrite orb_false_r.
  unfold set_holds. rewrite Hb. unfold items_hold at 3. cbn [items flatten].
  rewrite forallb_app, <- andb_assoc. do 2 f_equal. unfold all_groups, group_holds, merged_group_holds.
  destruct (flatten_group d branch md SourceAddressGroup) as [-> ->],
    (flatten_group d branch md SourcePortGroup) as [-> ->],
    (flatten_group d branch md DestinationAddressGroup) as [-> ->],
    (flatten_group d branch md DestinationPortGroup) as [-> ->].
  by rewrite !orb_assoc.
Qed.

(** * Matching before the lookup *)

(** C2: soundness of the match before a DNS lookup.  Let a DNS rule not match on
    responses, itself or by an item, let none of its destination groups, with those of
    the rule sets merged into it, mix domain and address items, and let no rule set
    that is not merged defer anything next to domain items of the rule ([wf]); let the
    metadata be as the router hands it over.  Then, if the rule accepts some response, [LegacyPreMatch] does not
    reject it, and when [LegacyPreMatch] accepts without deferring anything,
    [MatchAddressLimit] accepts every response. *)
Theorem LegacyPreMatch_sound rule md response :
  is_dns_rule rule = true -> wf false rule = true -> fresh md ->
  (MatchAddressLimit rule md response = true -> fst (LegacyPreMatch rule md) = true)
  /\ (fst (LegacyPreMatch rule md) = true ->
      DeferredIPCIDRMatchGroups (snd (LegacyPreMatch rule md)) = 0 ->
      MatchAddressLimit rule md response = true).
Proof.
  intros Hr Hw Hf. destruct (pre_match_approx rule md response Hr Hf Hw) as [HA HB].
  destruct (pre_match_engine rule md Hr Hf Hw) as (t & Ht & -> & HD). rewrite <- Ht in HA, HB.
  destruct t; [|specialize (HD ltac:(done)); rewrite HD|specialize (HD ltac:(done)); rewrite HD]; split; try done.
  - intros H. by apply HA in H.
  - intros _ _. by apply HB.
Qed.

(** Rules without an address limit need no check of the answer.  When
    [WithAddressLimit] is false and the metadata of the rule sets is accurate,
    the verdict before the lookup is the verdict on every response. *)
Theorem no_address_limit_decided rule md response :
  is_dns_rule rule = true -> wf false rule = true -> fresh md ->
  limit_accurate rule = true -> WithAddressLimit rule = false ->
  MatchAddressLimit rule md response = fst (LegacyPreMatch rule md).
Proof.
  intros Hr Hw Hf Ha Hl. destruct (pre_match_approx rule md response Hr Hf Hw) as [HA HB].
  destruct (pre_match_engine rule md Hr Hf Hw) as (t & Ht & -> & _).
  pose proof (eval3_Maybe rule (md <| IgnoreDestinationIPCIDRMatch := true |>)) as HM.
  rewrite <- Ht in HA, HB, HM. destruct t.
  - destruct (MatchAddressLimit rule md response); [by specialize (HA eq_refl)|done].
  - destruct (HM eq_refl) as [Hd _]. change (IPCIDRMatchSource _) with (IPCIDRMatchSource md) in Hd.
    rewrite (fresh_source _ Hf), (WithAddressLimit_defers rule Ha Hl) in Hd. discriminate Hd.
  - by apply HB.
Qed.

End Theorems.

(** * Evaluations *)

#[local] Existing Instance example_env.

Lemma fresh_example domain : fresh (example_query domain).
Proof. by split. Qed.

(** A domain keyword with a rule set whose rule is an address. *)
Definition example_set_rule : abstractDefaultRule HeadlessRule :=
  example_default [domain_item "example"] [] []
    (Some (example_reference [example_set "geoip" [example_default [] [] [address_item 0x08080808] None false] true]))
    false.
Definition example_dns_rule : HeadlessRule := DefaultDNSRule example_set_rule false "" false.
Definition example_plain_rule : abstractDefaultRule HeadlessRule :=
  example_default [] [domain_item "example"] [] None true.

Lemma Match_decides_rule_witness :
  Match example_dns_rule (example_query "example.org")
  = (eval example_dns_rule (example_query "example.org"), example_query "example.org").
Proof. apply (Match_decides_rule example_dns_rule); reflexivity. Defined.

Lemma default_rule_meaning_witness :
  fst (Match (DefaultRule example_plain_rule) (example_query "example.org")) = negb (invert example_plain_rule)
  <-> (forall item, item ∈ items example_plain_rule -> RuleItem_Match item (example_query "example.org") = true)
       /\ Forall (fun its => its = [] \/ exists item, item ∈ its /\ RuleItem_Match item (example_query "example.org") = true)
            [sourceAddressItems example_plain_rule; sourcePortItems example_plain_rule;
             destinationAddressItems example_plain_rule ++ destinationIPCIDRItems example_plain_rule;
             destinationPortItems example_plain_rule].
Proof. apply (default_rule_meaning example_plain_rule); [split; reflexivity|reflexivity|discriminate]. Defined.

Lemma single_rule_set_extends_witness :
  Match (DefaultRule example_set_rule) (example_query "example.org")
  = Match (DefaultRule (flatten example_set_rule (example_default [] [] [address_item 0x08080808] None false)))
      (example_query "example.org").
Proof.
  eapply (single_rule_set_extends example_set_rule); [split; reflexivity|reflexivity..].
Defined.

Lemma LegacyPreMatch_sound_witness :
  fst (LegacyPreMatch example_dns_rule (example_query "example.org")) = true
  /\ MatchAddressLimit example_dns_rule (example_query "example.org") response_in = true
  /\ MatchAddressLimit example_dns_rule (example_query "example.org") response_out = false.
Proof.
  split; [|split; [vm_compute; reflexivity|vm_compute; reflexivity]].
  refine (proj1 (LegacyPreMatch_sound example_dns_rule (example_query "example.org") response_in _ _ _) _);
    [reflexivity|vm_compute; reflexivity|split; reflexivity|vm_compute; reflexivity].
Defined.

Definition example_unlimited_rule : HeadlessRule := DefaultDNSRule example_plain_rule false "" false.

Lemma no_address_limit_decided_witness :
  MatchAddressLimit example_unlimited_rule (example_query "example.org") response_in
  = fst (LegacyPreMatch example_unlimited_rule (example_query "example.org")).
Proof.
  apply (no_address_limit_decided example_unlimited_rule);
    [reflexivity|vm_compute; reflexivity|split; reflexivity|reflexivity|reflexivity].
Defined.

(** * Limits of the match before the lookup *)

(** An inverted rule on a domain and a rule set of two address rules. *)
Definition inverted_set_rule : HeadlessRule :=
  DefaultDNSRule
    (example_default [] [domain_item "example"] []
       (Some (example_reference
                [example_set "geoip" [example_default [] [] [address_item 0x08080808] None false;
                                      example_default [] [] [address_item 0x09090909] None false] true]))
       true) false "" false.

(** An inverted rule loses its deferral.  For an inverted rule on a matching
    domain and a rule set of several address rules, [LegacyPreMatch] rejects the
    query although [MatchAddressLimit] accepts a response outside the set: the
    satisfied domain group clears the deferral of a set that does not merge. *)
Example inverted_rule_set_rejected_early :
  fst (LegacyPreMatch inverted_set_rule (example_query "example.org")) = false
  /\ MatchAddressLimit inverted_set_rule (example_query "example.org") response_out = true.
Proof. split; vm_compute; reflexivity. Qed.

(** A rule set of one logical rule on addresses, referred to with
    [rule_set_ip_cidr_match_source]. *)
Definition match_source_rule : HeadlessRule :=
  DefaultDNSRule
    (example_default [] [] []
       (Some (mkRuleSetItem ["geoip"]
          [mkRuleSet "geoip"
             [LogicalHeadlessRule
                (mkAbstractLogicalRule [DefaultHeadlessRule (example_default [] [] [address_item 0x08080808] None false)]
                   LogicalTypeOr 0 false 1)]
             (mkRuleSetMetadata false false true false false)] true false)) false) false "" false.

(** [rule_set_ip_cidr_match_source] does not reach the rules inside a logical
    rule of the set.  The rule below claims no address limit and the query's
    source address is never in the set, yet the rule accepts a response by its
    destination address and rejects another. *)
Example match_source_lost_in_logical_rule :
  WithAddressLimit match_source_rule = false
  /\ MatchAddressLimit match_source_rule (example_query "example.org") response_in = true
  /\ MatchAddressLimit match_source_rule (example_query "example.org") response_out = false.
Proof. repeat split; vm_compute; reflexivity. Qed.
