(* ===== verification/FakeIP.v ===== *)
(** The fake-address store: src/dns/transport/fakeip (store.go, memory.go) and the
    metadata it persists (src/adapter/fakeip_metadata.go).

    The store is written against the [FakeIPStorage] interface.  Its theorems are
    proved from the laws of that interface, and the in-memory storage discharges
    them. *)

From S2P Require Import Prelude NetAddr GoStrings.

(** * Metadata *)

Record FakeIPMetadata := mkFakeIPMetadata {
  Inet4Range : Prefix;
  Inet6Range : Prefix;
  Inet4Current : Addr;
  Inet6Current : Addr;
}.

(** [netip.Addr.MarshalBinary] and [UnmarshalBinary]. *)
Definition Addr_MarshalBinary (a : Addr) : list Z :=
  match z a with
  | z6 zone => AsSlice a ++ bytes_of_string zone
  | _ => AsSlice a
  end.

Definition Addr_UnmarshalBinary (b : list Z) : res Addr :=
  if (length b =? 0)%nat then Ok zeroAddr
  else if (length b =? 4)%nat then Ok (AddrFrom4 (be_combine b))
  else if (length b =? 16)%nat then Ok (AddrFrom16 (be_combine b))
  else if (16 <? length b)%nat
       then Ok (mkAddr (be_combine (take 16 b)) (z6 (string_of_bytes (drop 16 b))))
  else Err (ENew "unexpected slice size").

(** [netip.Prefix.MarshalBinary]: the address without zone, then the length; an
    invalid prefix has length -1, the byte 255. *)
Definition Prefix_MarshalBinary (p : Prefix) : list Z :=
  Addr_MarshalBinary (withoutZone (ip p)) ++ [u8 (Bits p)].

Definition Prefix_UnmarshalBinary (b : list Z) : res Prefix :=
  match list.last b with
  | None => Err (ENew "unexpected slice size")
  | Some bits =>
      let! a := Addr_UnmarshalBinary (removelast b) in
      Ok (PrefixFrom a bits)
  end.

(** One element of [MarshalBinary]'s loop: a 16-bit length and the data. *)
Definition marshal_element (data : list Z) : list Z := be_split 2 (u16 (zlen data)) ++ data.

Definition FakeIPMetadata_MarshalBinary (m : FakeIPMetadata) : list Z :=
  marshal_element (Prefix_MarshalBinary (Inet4Range m))
  ++ marshal_element (Prefix_MarshalBinary (Inet6Range m))
  ++ marshal_element (Addr_MarshalBinary (Inet4Current m))
  ++ marshal_element (Addr_MarshalBinary (Inet6Current m)).

(** One element of [UnmarshalBinary]'s loop.  The length is read under
    [common.Must], which panics at the end of the data. *)
Definition unmarshal_element {A} (unmarshal : list Z -> res A) (data : list Z) : res (A * list Z) :=
  if (length data <? 2)%nat then Panic "EOF"
  else
    let len := Z.to_nat (be_combine (take 2 data)) in
    let rest := drop 2 data in
    if (length rest <? len)%nat then Err (if (length rest =? 0)%nat then EOF else ErrUnexpectedEOF)
    else let! v := unmarshal (take len rest) in Ok (v, drop len rest).

Definition FakeIPMetadata_UnmarshalBinary (data : list Z) : res FakeIPMetadata :=
  let! ' (r4, data) := unmarshal_element Prefix_UnmarshalBinary data in
  let! ' (r6, data) := unmarshal_element Prefix_UnmarshalBinary data in
  let! ' (c4, data) := unmarshal_element Addr_UnmarshalBinary data in
  let! ' (c6, data) := unmarshal_element Addr_UnmarshalBinary data in
  Ok (mkFakeIPMetadata r4 r6 c4 c6).

(** * The storage interface *)

Class FakeIPStorage (S : Type) := {
  FakeIPMetadata_load : S -> option FakeIPMetadata * S;
  FakeIPSaveMetadata : S -> FakeIPMetadata -> res unit * S;
  FakeIPSaveMetadataAsync : S -> FakeIPMetadata -> S;
  FakeIPStore : S -> Addr -> string -> res unit * S;
  FakeIPLoad : S -> Addr -> option string;
  FakeIPLoadDomain : S -> string -> bool -> option Addr;
  FakeIPReset : S -> res unit * S;
}.

(** * In-memory storage *)

Record MemoryStorage := mkMemoryStorage {
  addressCache : gmap Addr string;
  domainCache4 : gmap string Addr;
  domainCache6 : gmap string Addr;
}.

Definition NewMemoryStorage : MemoryStorage := mkMemoryStorage ∅ ∅ ∅.

Definition MemoryStorage_FakeIPMetadata (s : MemoryStorage) : option FakeIPMetadata * MemoryStorage :=
  (None, s).

Definition MemoryStorage_FakeIPSaveMetadata (s : MemoryStorage) (metadata : FakeIPMetadata)
    : res unit * MemoryStorage := (Ok tt, s).

Definition MemoryStorage_FakeIPSaveMetadataAsync (s : MemoryStorage) (metadata : FakeIPMetadata)
    : MemoryStorage := s.

Definition MemoryStorage_FakeIPStore (s : MemoryStorage) (address : Addr) (domain : string)
    : res unit * MemoryStorage :=
  let s :=
    match addressCache s !! address with
    | Some oldDomain =>
        if Is4 address
        then s <| domainCache4 := delete oldDomain (domainCache4 s) |>
        else s <| domainCache6 := delete oldDomain (domainCache6 s) |>
    | None => s
    end in
  let s := s <| addressCache := <[address := domain]> (addressCache s) |> in
  let s :=
    if Is4 address
    then s <| domainCache4 := <[domain := address]> (domainCache4 s) |>
    else s <| domainCache6 := <[domain := address]> (domainCache6 s) |> in
  (Ok tt, s).

Definition MemoryStorage_FakeIPLoad (s : MemoryStorage) (address : Addr) : option string :=
  addressCache s !! address.

Definition MemoryStorage_FakeIPLoadDomain (s : MemoryStorage) (domain : string) (isIPv6 : bool)
    : option Addr :=
  if negb isIPv6 then domainCache4 s !! domain else domainCache6 s !! domain.

Definition MemoryStorage_FakeIPReset (s : MemoryStorage) : res unit * MemoryStorage :=
  (Ok tt, NewMemoryStorage).

#[export] Instance memory_storage : FakeIPStorage MemoryStorage := {|
  FakeIPMetadata_load := MemoryStorage_FakeIPMetadata;
  FakeIPSaveMetadata := MemoryStorage_FakeIPSaveMetadata;
  FakeIPSaveMetadataAsync := MemoryStorage_FakeIPSaveMetadataAsync;
  FakeIPStore := MemoryStorage_FakeIPStore;
  FakeIPLoad := MemoryStorage_FakeIPLoad;
  FakeIPLoadDomain := MemoryStorage_FakeIPLoadDomain;
  FakeIPReset := MemoryStorage_FakeIPReset;
|}.

(** * The store *)

Record Store (S : Type) := mkStore {
  inet4Range : Prefix;
  inet6Range : Prefix;
  inet4Last : Addr;
  inet6Last : Addr;
  storage : option S;
  inet4Current : Addr;
  inet6Current : Addr;
}.
Arguments mkStore {S}.
Arguments inet4Range {S}.
Arguments inet6Range {S}.
Arguments inet4Last {S}.
Arguments inet6Last {S}.
Arguments storage {S}.
Arguments inet4Current {S}.
Arguments inet6Current {S}.

(** [raw[i/8] |= 1 << (7 - i%8)] *)
Definition set_bit (raw : list Z) (i : nat) : list Z :=
  let j := (i / 8)%nat in
  match raw !! j with
  | Some b => <[j := Z.lor b (Z.shiftl 1 (7 - Z.of_nat (i mod 8)))]> raw
  | None => raw
  end.

(** [Addr.As16] *)
Definition As16 (a : Addr) : list Z := be_split 16 (addr a).

Definition broadcastAddress (prefix : Prefix) : Addr :=
  let a := ip prefix in
  let bits := Bits prefix + (if Is4 a then 96 else 0) in
  let raw := fold_left set_bit (seq (Z.to_nat bits) (Z.to_nat (128 - bits))) (As16 a) in
  if Is4 a then AddrFrom4 (be_combine (drop 12 raw)) else AddrFrom16 (be_combine raw).

Section Store.
Context {S : Type} `{FakeIPStorage S}.

Definition NewStore (inet4 inet6 : Prefix) : Store S :=
  mkStore inet4 inet6
    (if Prefix_IsValid inet4 then broadcastAddress inet4 else zeroAddr)
    (if Prefix_IsValid inet6 then broadcastAddress inet6 else zeroAddr)
    None zeroAddr zeroAddr.

(** [Start], once [storage] is chosen: the cache file when it keeps fake
    addresses, memory otherwise. *)
Definition Store_Start (s : Store S) (chosen : S) : Store S :=
  let '(metadata, chosen) := FakeIPMetadata_load chosen in
  let fresh :=
    let c4 := if Prefix_IsValid (inet4Range s) then Next (ip (inet4Range s)) else inet4Current s in
    let c6 := if Prefix_IsValid (inet6Range s) then Next (ip (inet6Range s)) else inet6Current s in
    let '(_, chosen) := FakeIPReset chosen in
    mkStore (inet4Range s) (inet6Range s) (inet4Last s) (inet6Last s) (Some chosen) c4 c6 in
  match metadata with
  | Some m =>
      if bool_decide (Inet4Range m = inet4Range s) && bool_decide (Inet6Range m = inet6Range s)
      then mkStore (inet4Range s) (inet6Range s) (inet4Last s) (inet6Last s) (Some chosen)
             (Inet4Current m) (Inet6Current m)
      else fresh
  | None => fresh
  end.

Definition Store_Contains (s : Store S) (address : Addr) : bool :=
  Contains (inet4Range s) address || Contains (inet6Range s) address.

(** The metadata [Close] and [Create] save. *)
Definition Store_metadata (s : Store S) : FakeIPMetadata :=
  mkFakeIPMetadata (inet4Range s) (inet6Range s) (inet4Current s) (inet6Current s).

Definition Store_Close (s : Store S) : res unit * Store S :=
  match storage s with
  | None => (Ok tt, s)
  | Some st =>
      let '(err, st) := FakeIPSaveMetadata st (Store_metadata s) in
      (err, s <| storage := Some st |>)
  end.

(** The address after [current] in [range], wrapping before the last one. *)
Definition nextAddress (range : Prefix) (last current : Addr) : Addr :=
  let next := Next current in
  if bool_decide (next = last) || negb (Contains range next) then Next (Next (ip range)) else next.

(** [Create].  The lock is taken after a first look at the storage, which is
    repeated under it. *)
Definition Store_Create (s : Store S) (domain : string) (isIPv6 : bool) : res Addr * Store S :=
  match storage s with
  | None => (Panic "nil pointer dereference", s)
  | Some st =>
      match FakeIPLoadDomain st domain isIPv6 with
      | Some address => (Ok address, s)
      | None =>
          if negb isIPv6 then
            if negb (IsValid (inet4Current s)) then (Err (ENew "missing IPv4 fakeip address range"), s)
            else
              let address := nextAddress (inet4Range s) (inet4Last s) (inet4Current s) in
              let s := s <| inet4Current := address |> in
              let '(_, st) := FakeIPStore st address domain in
              (Ok address, s <| storage := Some (FakeIPSaveMetadataAsync st (Store_metadata s)) |>)
          else
            if negb (IsValid (inet6Current s)) then (Err (ENew "missing IPv6 fakeip address range"), s)
            else
              let address := nextAddress (inet6Range s) (inet6Last s) (inet6Current s) in
              let s := s <| inet6Current := address |> in
              let '(_, st) := FakeIPStore st address domain in
              (Ok address, s <| storage := Some (FakeIPSaveMetadataAsync st (Store_metadata s)) |>)
      end
  end.

Definition Store_Lookup (s : Store S) (address : Addr) : res (option string) :=
  match storage s with
  | None => Panic "nil pointer dereference"
  | Some st => Ok (FakeIPLoad st address)
  end.

Definition Store_Reset (s : Store S) : res unit * Store S :=
  match storage s with
  | None => (Panic "nil pointer dereference", s)
  | Some st => let '(err, st) := FakeIPReset st in (err, s <| storage := Some st |>)
  end.

End Store.
