(* ===== verification/FakeIPProofs.v ===== *)
(** The fake-address store: address allocation, the bijection between domains and
    addresses, persistence of the metadata. *)

From S2P Require Import Prelude NetAddr GoStrings FakeIP.

(** * The broadcast address *)

Lemma testbit_be_combine l j t :
  Forall is_byte l -> (j < length l)%nat -> 0 <= t < 8 ->
  Z.testbit (be_combine l) (8 * (Z.of_nat (length l) - 1 - Z.of_nat j) + t)
  = Z.testbit (nth j l 0) t.
Proof.
  intros Hl. revert j. induction Hl as [|b l Hb Hl IH]; intros j Hj Ht; [cbn in Hj; lia|].
  cbn [be_combine length nth] in *. rewrite Nat2Z.inj_succ.
  pose proof (be_combine_range l Hl) as Hr.
  replace (256 ^ Z.of_nat (length l)) with (2 ^ (8 * Z.of_nat (length l))) in *
    by (rewrite Z.pow_mul_r by lia; done).
  set (L := Z.of_nat (length l)) in *. destruct j as [|j].
  - replace (8 * (Z.succ L - 1 - Z.of_nat 0) + t) with (t + 8 * L) by lia.
    rewrite <- Z.div_pow2_bits by lia. f_equal.
    symmetry. apply (Z.div_unique _ _ _ (be_combine l)); lia.
  - replace (8 * (Z.succ L - 1 - Z.of_nat (S j)) + t) with (8 * (L - 1 - Z.of_nat j) + t) by lia.
    rewrite <- IH by lia. rewrite <- (Z.mod_pow2_bits_low _ (8 * L)) by lia. f_equal.
    symmetry. apply (Z.mod_unique _ _ b); lia.
Qed.

Lemma be_combine_insert l j b v :
  l !! j = Some b ->
  be_combine (<[j := v]> l) = be_combine l + (v - b) * 256 ^ (Z.of_nat (length l) - 1 - Z.of_nat j).
Proof.
  revert j. induction l as [|x l IH]; intros [|j]; cbn [lookup list_lookup]; try done; intros Hj.
  - injection Hj as ->. cbn [insert list_insert be_combine length].
    rewrite Nat2Z.inj_succ. replace (Z.succ _ - 1 - Z.of_nat 0) with (Z.of_nat (length l)) by lia. lia.
  - change (<[S j := v]> (x :: l)) with (x :: <[j := v]> l). cbn [be_combine length].
    rewrite length_insert, (IH j Hj), !Nat2Z.inj_succ.
    replace (Z.succ (Z.of_nat (length l)) - 1 - Z.succ (Z.of_nat j))
      with (Z.of_nat (length l) - 1 - Z.of_nat j) by lia. lia.
Qed.

Lemma lor_pow2 x m :
  0 <= m -> Z.lor x (2 ^ m) = if Z.testbit x m then x else x + 2 ^ m.
Proof.
  intros Hm. destruct (Z.testbit x m) eqn:E.
  - apply Z.bits_inj'. intros n Hn. rewrite Z.lor_spec, Z.pow2_bits_eqb by lia.
    destruct (Z.eqb_spec m n) as [->|]; [by rewrite E|apply orb_false_r].
  - symmetry. rewrite Z.add_nocarry_lxor, Z.lxor_lor; [done| |];
      apply Z.bits_inj'; intros n Hn; rewrite Z.land_spec, Z.bits_0, Z.pow2_bits_eqb by lia;
      destruct (Z.eqb_spec m n) as [->|]; by rewrite ?E, ?andb_false_r.
Qed.

Lemma lor_byte b t : is_byte b -> 0 <= t < 8 -> is_byte (Z.lor b (2 ^ t)).
Proof.
  unfold is_u. intros Hb Ht. split; [apply Z.lor_nonneg; split; [lia|apply Z.pow_nonneg; lia]|].
  destruct (Z.eq_dec (Z.lor b (2 ^ t)) 0) as [->|Hn]; [lia|].
  apply Z.log2_lt_pow2; [assert (0 <= Z.lor b (2 ^ t)) by (apply Z.lor_nonneg; split; [lia|apply Z.pow_nonneg; lia]); lia|].
  rewrite Z.log2_lor by (try lia; apply Z.pow_nonneg; lia). apply Z.max_lub_lt.
  - destruct (Z.eq_dec b 0) as [->|]; [done|]. apply Z.log2_lt_pow2; lia.
  - rewrite Z.log2_pow2; lia.
Qed.

(** Setting bit [i] from the left of a 16-byte array. *)
Lemma set_bit_spec raw i :
  Forall is_byte raw -> length raw = 16%nat -> (i < 128)%nat ->
  Forall is_byte (set_bit raw i) /\ length (set_bit raw i) = 16%nat
  /\ be_combine (set_bit raw i) = Z.lor (be_combine raw) (2 ^ (127 - Z.of_nat i)).
Proof.
  intros Hb Hl Hi. unfold set_bit. set (j := (i / 8)%nat). set (t := 7 - Z.of_nat (i mod 8)).
  assert (Hij : (i = 8 * j + i mod 8)%nat) by (apply Nat.div_mod; lia).
  pose proof (Nat.mod_upper_bound i 8 ltac:(lia)) as Hm.
  assert (Hj : (j < 16)%nat) by lia. assert (Ht : 0 <= t < 8) by lia.
  destruct (raw !! j) as [b|] eqn:E; [|apply lookup_ge_None in E; lia].
  rewrite Z.shiftl_1_l. pose proof (Forall_lookup_1 _ _ _ _ Hb E) as Hbb.
  split; [apply Forall_insert; [done|by apply lor_byte]|]. split; [by rewrite length_insert|].
  rewrite (be_combine_insert _ _ b) by done. rewrite Hl.
  assert (Hpos : 127 - Z.of_nat i = 8 * (Z.of_nat 16 - 1 - Z.of_nat j) + t) by lia.
  rewrite Hpos, (lor_pow2 b t), (lor_pow2 (be_combine raw)) by lia.
  pose proof (testbit_be_combine raw j t Hb ltac:(lia) Ht) as Htb. rewrite Hl in Htb.
  rewrite Htb. rewrite (nth_lookup_Some _ _ _ _ E).
  destruct (Z.testbit b t); [lia|]. rewrite Z.pow_add_r, Z.pow_mul_r by lia. change (2 ^ 8) with 256. lia.
Qed.

Lemma set_bits_spec n : forall i raw,
  Forall is_byte raw -> length raw = 16%nat -> (i + n = 128)%nat ->
  let raw' := fold_left set_bit (seq i n) raw in
  Forall is_byte raw' /\ length raw' = 16%nat
  /\ be_combine raw' = Z.lor (be_combine raw) (Z.ones (Z.of_nat n)).
Proof.
  induction n as [|n IH]; intros i raw Hb Hl Hi; cbn [seq fold_left].
  - rewrite Z.lor_0_r. done.
  - destruct (set_bit_spec raw i Hb Hl ltac:(lia)) as (Hb' & Hl' & Hc).
    destruct (IH (S i) _ Hb' Hl' ltac:(lia)) as (H1 & H2 & H3). split; [done|]. split; [done|].
    rewrite H3, Hc, <- Z.lor_assoc. f_equal.
    replace (127 - Z.of_nat i) with (Z.of_nat n) by lia.
    apply Z.bits_inj'. intros k Hk. rewrite Z.lor_spec, Z.pow2_bits_eqb, !Z.testbit_ones_nonneg by lia.
    destruct (Z.eqb_spec (Z.of_nat n) k), (Z.ltb_spec k (Z.of_nat n)), (Z.ltb_spec k (Z.of_nat (S n))); lia || done.
Qed.

Lemma lor_ones x k : 0 <= k -> Z.lor x (Z.ones k) = x / 2 ^ k * 2 ^ k + 2 ^ k - 1.
Proof.
  intros Hk. rewrite <- Z.shiftr_div_pow2, <- Z.shiftl_mul_pow2 by lia.
  replace (Z.shiftl (Z.shiftr x k) k + 2 ^ k - 1) with (Z.shiftl (Z.shiftr x k) k + Z.ones k)
    by (rewrite Z.ones_equiv; lia).
  rewrite Z.add_nocarry_lxor.
  - apply Z.bits_inj'. intros n Hn.
    rewrite Z.lor_spec, Z.lxor_spec, Z.shiftl_spec, Z.testbit_ones_nonneg by lia.
    destruct (Z.ltb_spec n k).
    + rewrite (Z.testbit_neg_r _ (n - k)) by lia. by rewrite orb_true_r.
    + rewrite Z.shiftr_spec by lia. replace (n - k + k) with n by lia. by rewrite orb_false_r, xorb_false_r.
  - apply Z.bits_inj'. intros n Hn.
    rewrite Z.land_spec, Z.bits_0, Z.shiftl_spec, Z.testbit_ones_nonneg by lia.
    destruct (Z.ltb_spec n k); [rewrite (Z.testbit_neg_r _ (n - k)) by lia; done|apply andb_false_r].
Qed.

Lemma be_combine_app l1 l2 :
  be_combine (l1 ++ l2) = be_combine l1 * 256 ^ Z.of_nat (length l2) + be_combine l2.
Proof.
  induction l1 as [|b l1 IH]; cbn [be_combine app]; [lia|].
  rewrite IH, length_app, Nat2Z.inj_add, Z.pow_add_r by lia. lia.
Qed.

Lemma As16_combine a : wf_addr a -> IsValid a = true -> be_combine (As16 a) = addr a.
Proof.
  intros Hw Hv. unfold As16. rewrite be_combine_split. apply Z.mod_small.
  change (256 ^ Z.of_nat 16) with (2 ^ 128). unfold wf_addr, IsValid, v4InV6 in *.
  destruct (z a); [done|lia|lia].
Qed.

(** [broadcastAddress] is the last address of the prefix. *)
Lemma broadcastAddress_last p :
  wf_prefix p -> broadcastAddress p = mkAddr (prefix_last p) (z (ip p)).
Proof.
  intros Hp. pose proof Hp as (Hw & Hv & Hb). pose proof (prefix_bounds p Hp) as (Hip & Hlo & Hhi).
  unfold broadcastAddress. set (bits := Bits p + (if Is4 (ip p) then 96 else 0)).
  assert (Hhost : 128 - bits = host_bits p /\ 0 <= bits <= 128).
  { unfold host_bits, bits, BitLen, Is4, IsValid in *. destruct (z (ip p)); [done| |].
    - rewrite bool_decide_true by done. lia.
    - rewrite bool_decide_false by done. lia. }
  destruct Hhost as [Hhost Hbits].
  destruct (set_bits_spec (Z.to_nat (128 - bits)) (Z.to_nat bits) (As16 (ip p))) as (Hr1 & Hr2 & Hr3);
    [apply be_split_range|apply be_split_length|lia|].
  set (raw := fold_left set_bit _ (As16 (ip p))) in *.
  rewrite As16_combine, Z2Nat.id, lor_ones, Hhost in Hr3 by (try lia; done).
  change (_ + _ - 1) with (prefix_last p) in Hr3.
  destruct (Is4 (ip p)) eqn:E4.
  - clear Hhost. rewrite <- (take_drop 12 raw), be_combine_app, length_drop, Hr2 in Hr3. change (256 ^ _) with (2 ^ 32) in Hr3.
    assert (Hd : 0 <= be_combine (drop 12 raw) < 2 ^ 32).
    { pose proof (be_combine_range (drop 12 raw)) as Hr. rewrite length_drop, Hr2 in Hr.
      apply Hr. by apply Forall_drop. }
    unfold AddrFrom4, Is4 in E4 |- *. apply bool_decide_eq_true in E4. rewrite E4. f_equal.
    unfold v4InV6 in *. lia.
  - rewrite Hr3. unfold AddrFrom16, wf_addr, Is4, IsValid in *. destruct (z (ip p)) as [| |s]; try done.
    destruct Hw as [_ ->]. done.
Qed.

(** * Allocation *)

(** A range with room for an address besides its first two and its last. *)
Definition usable (p : Prefix) : Prop := wf_prefix p /\ addr (ip p) + 2 < prefix_last p.

(** A current address of the range. *)
Definition current_in (p : Prefix) (a : Addr) : Prop :=
  z a = z (ip p) /\ addr (ip p) + 1 <= addr a < prefix_last p.

Lemma addr_eta a v t : addr a = v -> z a = t -> a = mkAddr v t.
Proof. destruct a. by intros <- <-. Qed.

Lemma wf_in_range p v : wf_prefix p -> prefix_first p <= v <= prefix_last p -> wf_addr (mkAddr v (z (ip p))).
Proof.
  intros Hp Hv. pose proof (prefix_bounds p Hp) as (_ & Hlo & Hhi). destruct Hp as (Hw & Hval & _).
  unfold wf_addr, Is4, IsValid in *. cbn [z addr]. destruct (z (ip p)) as [| |s]; [done| |].
  - rewrite bool_decide_true in Hlo, Hhi by done. lia.
  - rewrite bool_decide_false in Hlo, Hhi by done. split; [lia|tauto].
Qed.

Lemma Next_in_range p v :
  wf_prefix p -> prefix_first p <= v < prefix_last p ->
  Next (mkAddr v (z (ip p))) = mkAddr (v + 1) (z (ip p)).
Proof.
  intros Hp Hv. pose proof (prefix_bounds p Hp) as (_ & Hlo & Hhi).
  rewrite Next_addr; [done|apply wf_in_range; [done|lia]| |].
  - by destruct Hp as (_ & ? & _).
  - cbn [addr]. change (Is4 (mkAddr v (z (ip p)))) with (Is4 (ip p)). lia.
Qed.

Lemma nextAddress_spec p a :
  usable p -> current_in p a ->
  nextAddress p (mkAddr (prefix_last p) (z (ip p))) a
  = mkAddr (if addr a + 1 =? prefix_last p then addr (ip p) + 2 else addr a + 1) (z (ip p)).
Proof.
  intros [Hp Hroom] [Hz Ha]. pose proof (prefix_bounds p Hp) as (Hip & _ & _).
  unfold nextAddress. rewrite (addr_eta a _ _ eq_refl Hz), Next_in_range by (try done; lia).
  cbn [addr]. destruct (Z.eqb_spec (addr a + 1) (prefix_last p)) as [E|E].
  - rewrite E. rewrite bool_decide_true by done. cbn [orb].
    rewrite (addr_eta (ip p) _ _ eq_refl eq_refl) at 1. rewrite !Next_in_range by (try done; lia).
    f_equal. lia.
  - rewrite bool_decide_false by (intros [=]; lia).
    rewrite Contains_interval; [|done|apply wf_in_range; [done|lia]|done]. cbn [addr].
    replace (prefix_first p <=? addr a + 1) with true by lia.
    by replace (addr a + 1 <=? prefix_last p) with true by lia.
Qed.

Lemma nextAddress_in p a :
  usable p -> current_in p a ->
  current_in p (nextAddress p (mkAddr (prefix_last p) (z (ip p))) a)
  /\ addr (ip p) + 2 <= addr (nextAddress p (mkAddr (prefix_last p) (z (ip p))) a).
Proof.
  intros Hu Ha. rewrite nextAddress_spec by done. destruct Hu as [Hp Hroom], Ha as [Hz Ha].
  unfold current_in. cbn [addr z]. destruct (Z.eqb_spec (addr a + 1) (prefix_last p)); split; try split; lia || done.
Qed.

Lemma current_in_valid p a : usable p -> current_in p a -> IsValid a = true /\ Is4 a = Is4 (ip p).
Proof. intros [(_ & Hv & _) _] [Hz _]. unfold IsValid, Is4 in *. by rewrite Hz. Qed.

Lemma current_in_contains p a : usable p -> current_in p a -> Contains p a = true.
Proof.
  intros [Hp _] [Hz Ha]. pose proof (prefix_bounds p Hp) as (Hip & _ & _).
  rewrite Contains_interval; [|done| |done].
  - apply andb_true_iff. rewrite !Z.leb_le. lia.
  - rewrite (addr_eta a _ _ eq_refl Hz). apply wf_in_range; [done|lia].
Qed.

(** The addresses after [a], one after the other. *)
Fixpoint nth_next (p : Prefix) (a : Addr) (k : nat) : Addr :=
  match k with
  | O => a
  | S k => nextAddress p (mkAddr (prefix_last p) (z (ip p))) (nth_next p a k)
  end.

(** How many addresses a range has to hand out: all but its first two and its last. *)
Definition capacity (p : Prefix) : Z := prefix_last p - addr (ip p) - 2.

(** The [i]th address after [a], going round the range. *)
Definition ith_address (p : Prefix) (a : Addr) (i : nat) : Addr :=
  mkAddr (addr (ip p) + 2 + (addr a - addr (ip p) - 1 + Z.of_nat i) mod capacity p) (z (ip p)).

Lemma nth_next_in p a k : usable p -> current_in p a -> current_in p (nth_next p a k).
Proof. intros Hu Ha. induction k as [|k IH]; [done|]. by apply nextAddress_in. Qed.

Lemma nth_next_ith p a k : usable p -> current_in p a -> nth_next p a (S k) = ith_address p a k.
Proof.
  intros Hu Ha. pose proof Hu as [Hp Hroom]. assert (HN : 0 < capacity p) by (unfold capacity; lia).
  induction k as [|k IH].
  - cbn [nth_next]. rewrite nextAddress_spec by done. unfold ith_address. f_equal. destruct Ha as [_ Ha].
    rewrite Z.add_0_r. destruct (Z.eqb_spec (addr a + 1) (prefix_last p)) as [E|E].
    + replace (addr a - addr (ip p) - 1) with (1 * capacity p) by (unfold capacity; lia). rewrite Z.mod_mul by lia. lia.
    + rewrite Z.mod_small by (unfold capacity; lia). lia.
  - cbn [nth_next] in *. fold (nth_next p a (S k)) in *. rewrite IH.
    assert (Hc : current_in p (ith_address p a k)) by (rewrite <- IH; by apply (nth_next_in p a (S k))).
    rewrite nextAddress_spec by done. unfold ith_address. cbn [addr].
    set (x := addr a - addr (ip p) - 1 + Z.of_nat k). pose proof (Z.mod_pos_bound x _ HN) as Hm.
    f_equal. replace (addr a - addr (ip p) - 1 + Z.of_nat (S k)) with (x + 1) by lia.
    rewrite <- (Zplus_mod_idemp_l x). destruct (Z.eqb_spec (addr (ip p) + 2 + x mod capacity p + 1) (prefix_last p)) as [E|E].
    + replace (x mod capacity p + 1) with (1 * capacity p) by (unfold capacity in *; lia). rewrite Z.mod_mul by lia. lia.
    + rewrite (Z.mod_small (_ + 1)) by (unfold capacity in *; lia). lia.
Qed.

Lemma ith_address_inj p a i j :
  Z.of_nat i < capacity p -> Z.of_nat j < capacity p -> ith_address p a i = ith_address p a j -> i = j.
Proof.
  intros Hi Hj [= H]. set (c := addr a - addr (ip p) - 1) in *. set (N := capacity p) in *.
  assert (E : (Z.of_nat i - Z.of_nat j) mod N = 0).
  { replace (Z.of_nat i - Z.of_nat j) with ((c + Z.of_nat i) - (c + Z.of_nat j)) by lia. rewrite Zminus_mod.
    replace ((c + Z.of_nat i) mod N) with ((c + Z.of_nat j) mod N) by lia. by rewrite Z.sub_diag, Z.mod_0_l by lia. }
  apply Z.mod_divide in E as [q E]; [|lia]. assert (q = 0) by nia. lia.
Qed.

Lemma first_in p : usable p -> current_in p (Next (ip p)).
Proof.
  intros [Hp Hroom]. pose proof (prefix_bounds p Hp) as (Hip & _ & _).
  assert (E : Next (ip p) = mkAddr (addr (ip p) + 1) (z (ip p))).
  { rewrite (addr_eta (ip p) _ _ eq_refl eq_refl) at 1. by rewrite Next_in_range by (try done; lia). }
  rewrite E. split; cbn [z addr]; [done|lia].
Qed.

(** * What a storage promises *)

(** The domain cache of an address's family. *)
Definition family (a : Addr) : bool := negb (Is4 a).

(** What an operation of the storage did to the entries of the addresses it can keep. *)
Section Outcomes.
Context {S : Type} `{FakeIPStorage S} (storable : Addr -> Prop).

Definition same_entries (s s' : S) : Prop :=
  (forall a, storable a -> FakeIPLoad s' a = FakeIPLoad s a) /\ (forall d v6, FakeIPLoadDomain s' d v6 = FakeIPLoadDomain s d v6).
Definition no_entries (s : S) : Prop :=
  (forall a, storable a -> FakeIPLoad s a = None) /\ (forall d v6, FakeIPLoadDomain s d v6 = None).
Definition stored (s : S) (a : Addr) (d : string) (s' : S) : Prop :=
  (forall a', storable a' -> FakeIPLoad s' a' = if bool_decide (a' = a) then Some d else FakeIPLoad s a')
  /\ (forall d' v6, FakeIPLoadDomain s' d' v6 =
       if Bool.eqb v6 (family a)
       then if bool_decide (d' = d) then Some a
            else if bool_decide (FakeIPLoad s a = Some d') then None else FakeIPLoadDomain s d' v6
       else FakeIPLoadDomain s d' v6).

End Outcomes.

(** An operation that fails leaves the entries as they were, or loses them all when the
    file turns out to be damaged and is replaced.  [storable] are the addresses kept
    faithfully, [storage_ok] what the storage relies on. *)
Class FakeIPStorageLaws (S : Type) `{FakeIPStorage S} := {
  storable : Addr -> Prop;
  storage_ok : S -> Prop;
  FakeIPStore_law s a d : storage_ok s -> storable a ->
    let '(err, s') := FakeIPStore s a d in
    storage_ok s' /\ (stored storable s a d s' \/ is_ok err = false /\ (same_entries storable s s' \/ no_entries storable s'));
  FakeIPSaveMetadataAsync_law s m : storage_ok s ->
    storage_ok (FakeIPSaveMetadataAsync s m) /\ same_entries storable s (FakeIPSaveMetadataAsync s m);
  FakeIPSaveMetadata_law s m : storage_ok s ->
    let '(_, s') := FakeIPSaveMetadata s m in storage_ok s' /\ (same_entries storable s s' \/ no_entries storable s');
  FakeIPMetadata_law s : storage_ok s ->
    let '(_, s') := FakeIPMetadata_load s in storage_ok s' /\ (same_entries storable s s' \/ no_entries storable s');
  FakeIPReset_law s : storage_ok s ->
    let '(err, s') := FakeIPReset s in storage_ok s' /\ (no_entries storable s' \/ is_ok err = false /\ same_entries storable s s');
}.

(** Memory keeps every address and never fails. *)
#[export] Instance memory_storage_laws : FakeIPStorageLaws MemoryStorage.
Proof.
  refine {| storable _ := True; storage_ok _ := True |}.
  - intros [ac d4 d6] a d _ _. cbn [FakeIPStore memory_storage]. unfold MemoryStorage_FakeIPStore. split; [done|]. left.
    unfold stored, FakeIPLoad, FakeIPLoadDomain, memory_storage, MemoryStorage_FakeIPLoadDomain, MemoryStorage_FakeIPLoad, family. split.
    + intros a' _. destruct (addressCache _ !! a), (Is4 a); cbn; unfold constant; case_bool_decide; simplify_map_eq; done.
    + intros d' v6. destruct (addressCache _ !! a) as [old|] eqn:E, (Is4 a), v6; cbn in *; unfold constant; try done;
        repeat case_bool_decide; simplify_map_eq; try done; by rewrite lookup_delete_ne by congruence.
  - intros s m _. by split.
  - intros s m _. split; [done|]. by left.
  - intros s _. split; [done|]. by left.
  - intros s _. split; [done|]. left. split; [intros a _; apply lookup_empty|intros d []; apply lookup_empty].
Defined.

(** * The invariant of a started store *)

Section StoreProofs.
Context {S : Type} `{FakeIPStorageLaws S}.

(** Every store is carried out. *)
Definition reliable : Prop := forall st a d, storage_ok st -> storable a -> stored storable st a d (FakeIPStore st a d).2.

(** The two caches are inverse to each other, family by family. *)
Definition consistent (st : S) : Prop :=
  (forall d v6 a, FakeIPLoadDomain st d v6 = Some a -> storable a /\ FakeIPLoad st a = Some d /\ family a = v6)
  /\ (forall d a, storable a -> FakeIPLoad st a = Some d -> FakeIPLoadDomain st d (family a) = Some a).

(** A range that is absent, or usable with a current address and its last one. *)
Definition range_ok (is4 : bool) (range : Prefix) (lastAddr current : Addr) : Prop :=
  IsValid current = false
  \/ usable range /\ Is4 (ip range) = is4 /\ (forall a, current_in range a -> storable a) /\ current_in range current
     /\ lastAddr = mkAddr (prefix_last range) (z (ip range)).

Definition store_ok (s : Store S) : Prop :=
  (exists st, storage s = Some st /\ storage_ok st /\ consistent st)
  /\ range_ok true (inet4Range s) (inet4Last s) (inet4Current s)
  /\ range_ok false (inet6Range s) (inet6Last s) (inet6Current s).

(** The addresses of the storage lie in the ranges. *)
Definition contained (r4 r6 : Prefix) (st : S) : Prop :=
  forall a d, storable a -> FakeIPLoad st a = Some d -> Contains r4 a || Contains r6 a = true.

Lemma consistent_stored st a d st' :
  consistent st -> storable a -> FakeIPLoadDomain st d (family a) = None -> stored storable st a d st' -> consistent st'.
Proof.
  intros [H1 H2] Ha0 Hn [L1 L2]. split.
  - intros d' v6 a'. rewrite L2.
    destruct (Bool.eqb_spec v6 (family a)) as [->|Hf].
    + case_bool_decide as Hd; [intros [= <-]; subst; by rewrite L1, bool_decide_true|].
      case_bool_decide as Hl; [done|]. intros Ha'. destruct (H1 _ _ _ Ha') as (Hs & Hl' & Hf').
      split; [done|]. split; [|done]. rewrite L1, bool_decide_false; [done| |done]. intros ->. done.
    + intros Ha'. destruct (H1 _ _ _ Ha') as (Hs & Hl' & Hf'). split; [done|]. split; [|done].
      rewrite L1, bool_decide_false; [done| |done]. intros ->. done.
  - intros d' a' Hs. rewrite (L1 a' Hs), L2. case_bool_decide as Ha.
    + intros [= <-]. subst. by rewrite eqb_reflx, bool_decide_true.
    + intros Hl. pose proof (H2 _ _ Hs Hl) as Hd'. destruct (Bool.eqb_spec (family a') (family a)) as [Hf|Hf]; [|done].
      rewrite bool_decide_false; [|intros ->; congruence].
      rewrite bool_decide_false; [done|]. intros Hl'. apply H2 in Hl'; [|done]. congruence.
Qed.

Lemma consistent_same st st' : same_entries storable st st' -> consistent st -> consistent st'.
Proof.
  intros [E1 E2] [H1 H2]. split.
  - intros d v6 a. rewrite E2. intros Ha. destruct (H1 _ _ _ Ha) as (Hs & ? & ?). by rewrite E1.
  - intros d a Hs. rewrite E1, E2 by done. by apply H2.
Qed.

Lemma consistent_empty st : no_entries storable st -> consistent st.
Proof. intros [E1 E2]. split; [intros *; by rewrite E2|]. intros d a Ha. by rewrite E1. Qed.

Lemma consistent_kept st st' : same_entries storable st st' \/ no_entries storable st' -> consistent st -> consistent st'.
Proof. intros [E|E]; [by apply consistent_same|by intros _; apply consistent_empty]. Qed.

Lemma contained_kept r4 r6 st st' : same_entries storable st st' \/ no_entries storable st' -> contained r4 r6 st -> contained r4 r6 st'.
Proof. intros [[E _]|[E _]] Hc a d Ha; rewrite E by done; [by apply Hc|done]. Qed.

(** ** Creation *)

(** The fields of a family. *)
Definition range_of (v6 : bool) (s : Store S) : Prefix := if v6 then inet6Range s else inet4Range s.
Definition last_of (v6 : bool) (s : Store S) : Addr := if v6 then inet6Last s else inet4Last s.
Definition current_of (v6 : bool) (s : Store S) : Addr := if v6 then inet6Current s else inet4Current s.
Definition with_current (v6 : bool) (a : Addr) (s : Store S) : Store S :=
  if v6 then s <| inet6Current := a |> else s <| inet4Current := a |>.

Lemma store_ok_range v6 s : store_ok s -> range_ok (negb v6) (range_of v6 s) (last_of v6 s) (current_of v6 s).
Proof. intros (_ & H4 & H6). by destruct v6. Qed.

(** The three ways of [Create]. *)
Lemma Store_Create_cases s st domain v6 : storage s = Some st ->
  match FakeIPLoadDomain st domain v6 with
  | Some a => Store_Create s domain v6 = (Ok a, s)
  | None =>
      if IsValid (current_of v6 s)
      then let a := nextAddress (range_of v6 s) (last_of v6 s) (current_of v6 s) in
           exists m, Store_Create s domain v6
             = (Ok a, with_current v6 a s <| storage := Some (FakeIPSaveMetadataAsync (FakeIPStore st a domain).2 m) |>)
      else exists e, Store_Create s domain v6 = (Err e, s)
  end.
Proof.
  intros Hst. unfold Store_Create. rewrite Hst. destruct (FakeIPLoadDomain st domain v6); [done|].
  destruct v6; cbn [negb current_of range_of last_of with_current];
    (destruct (IsValid _); cbn [negb]; [rewrite (surjective_pairing (FakeIPStore st _ domain))|]); eauto.
Qed.

(** The next address of a range in good order. *)
Lemma next_ok is4 range lastAddr current :
  range_ok is4 range lastAddr current -> IsValid current = true ->
  range_ok is4 range lastAddr (nextAddress range lastAddr current)
  /\ family (nextAddress range lastAddr current) = negb is4 /\ storable (nextAddress range lastAddr current)
  /\ Contains range (nextAddress range lastAddr current) = true.
Proof.
  intros [H1|(Hu & Hfam & Hsto & Hcur & ->)] Hv; [congruence|].
  destruct (nextAddress_in _ _ Hu Hcur) as [Hin _]. split; [by right|]. split_and!; [|by apply Hsto|by apply current_in_contains].
  unfold family. by rewrite (proj2 (current_in_valid _ _ Hu Hin)), Hfam.
Qed.

(** What the storage did with a new entry. *)
Lemma store_outcome st a d m : storage_ok st -> storable a ->
  let st' := FakeIPSaveMetadataAsync (FakeIPStore st a d).2 m in
  storage_ok st'
  /\ (stored storable st a d st' \/ is_ok (FakeIPStore st a d).1 = false /\ (same_entries storable st st' \/ no_entries storable st')).
Proof.
  intros Hok Ha. pose proof (FakeIPStore_law st a d Hok Ha) as Hl. destruct (FakeIPStore st a d) as [err st1]. cbn [fst snd].
  destruct Hl as [Hok1 Hl]. destruct (FakeIPSaveMetadataAsync_law st1 m Hok1) as [Hok' [E1 E2]]. split; [done|].
  destruct Hl as [[L1 L2]|[He [[L1 L2]|[L1 L2]]]]; [left|right; split; [done|left]|right; split; [done|right]];
    (split; [intros a' Ha'; rewrite E1 by done; by apply L1|intros d' v6; rewrite E2; apply L2]).
Qed.

Lemma reliable_outcome st a d m : reliable -> storage_ok st -> storable a ->
  stored storable st a d (FakeIPSaveMetadataAsync (FakeIPStore st a d).2 m).
Proof.
  intros Hr Hok Ha. destruct (Hr st a d Hok Ha) as [L1 L2]. pose proof (FakeIPStore_law st a d Hok Ha) as Hl.
  destruct (FakeIPStore st a d) as [err st1]. cbn [fst snd] in *. destruct Hl as [Hok1 _].
  destruct (FakeIPSaveMetadataAsync_law st1 m Hok1) as [_ [E1 E2]].
  split; [intros a' Ha'; rewrite E1 by done; by apply L1|intros d' v6; rewrite E2; apply L2].
Qed.

Lemma store_ok_with v6 a s st st' :
  store_ok s -> storage s = Some st -> range_ok (negb v6) (range_of v6 s) (last_of v6 s) a -> storage_ok st' -> consistent st' ->
  store_ok (with_current v6 a s <| storage := Some st' |>).
Proof. intros (_ & H4 & H6) _ Hr Hok Hc. destruct v6; (split; [by exists st'|by split]). Qed.

(** What a storage that keeps its laws ends with. *)
Lemma outcome_consistent st a d st' : consistent st -> storable a -> FakeIPLoadDomain st d (family a) = None ->
  stored storable st a d st' \/ same_entries storable st st' \/ no_entries storable st' -> consistent st'.
Proof. intros Hc Ha Hn [Hs|Hk]; [by eapply consistent_stored|by eapply consistent_kept]. Qed.

Lemma outcome_contained r4 r6 st a d st' : Contains r4 a || Contains r6 a = true ->
  stored storable st a d st' \/ same_entries storable st st' \/ no_entries storable st' -> contained r4 r6 st -> contained r4 r6 st'.
Proof.
  intros Ha [[L1 _]|Hk] Hc; [|by eapply contained_kept]. intros a' d' Ha'. rewrite L1 by done.
  case_bool_decide; [by subst|by apply Hc].
Qed.

(** A new entry that was stored is there, and no other changed. *)
Definition entered (s : Store S) (domain : string) (v6 : bool) (a : Addr) (s' : Store S) : Prop :=
  Store_Lookup s' a = Ok (Some domain) /\ Store_Create s' domain v6 = (Ok a, s')
  /\ forall a', storable a' -> a' <> a -> Store_Lookup s' a' = Store_Lookup s a'.

Lemma entered_known s st d v6 a : storage s = Some st -> consistent st -> FakeIPLoadDomain st d v6 = Some a -> entered s d v6 a s.
Proof.
  intros Hst Hcon Hl. destruct (proj1 Hcon _ _ _ Hl) as (_ & Ha & _). pose proof (Store_Create_cases s st d v6 Hst) as Hc.
  rewrite Hl in Hc. unfold entered, Store_Lookup. rewrite Hst, Ha. done.
Qed.

Lemma entered_stored s st d a s' st' : storage s = Some st -> storage s' = Some st' -> storable a -> stored storable st a d st' ->
  entered s d (family a) a s'.
Proof.
  intros Hst Hst' Ha [L1 L2]. pose proof (Store_Create_cases s' st' d (family a) Hst') as Hc.
  rewrite L2, eqb_reflx, bool_decide_true in Hc by done. unfold entered, Store_Lookup. rewrite Hst, Hst'. split_and!.
  - by rewrite L1, bool_decide_true.
  - done.
  - intros a' Ha' Hne. by rewrite L1, bool_decide_false.
Qed.

(** What [Create] does on a store in good order. *)
Definition create_post (s : Store S) (st : S) (domain : string) (v6 : bool) (r : res Addr) (s' : Store S) : Prop :=
  store_ok s' /\ inet4Range s' = inet4Range s /\ inet6Range s' = inet6Range s /\
  match r with
  | Ok a =>
      family a = v6 /\ storable a
      /\ (exists st', storage s' = Some st'
           /\ (contained (inet4Range s) (inet6Range s) st -> contained (inet4Range s) (inet6Range s) st' /\ Store_Contains s a = true)
           /\ (FakeIPLoadDomain st domain v6 = None -> Store_Contains s a = true)
           /\ (entered s domain v6 a s'
               \/ FakeIPLoadDomain st domain v6 = None /\ is_ok (FakeIPStore st a domain).1 = false
                  /\ (same_entries storable st st' \/ no_entries storable st')))
  | Err _ => s' = s /\ FakeIPLoadDomain st domain v6 = None /\ IsValid (current_of v6 s) = false
  | _ => False
  end.

Lemma Contains_of v6 s a : Contains (range_of v6 s) a = true -> Store_Contains s a = true.
Proof. unfold Store_Contains. destruct v6; cbn [range_of]; intros ->; [apply orb_true_r|done]. Qed.

Lemma Store_Create_post s st domain v6 r s' :
  store_ok s -> storage s = Some st -> Store_Create s domain v6 = (r, s') -> create_post s st domain v6 r s'.
Proof.
  intros Hs Hst Hc. pose proof Hs as ((st0 & Hst0 & Hok & Hcon) & _). assert (st0 = st) as -> by congruence. clear Hst0.
  pose proof (Store_Create_cases s st domain v6 Hst) as Hcases.
  destruct (FakeIPLoadDomain st domain v6) as [a0|] eqn:Hld.
  { rewrite Hc in Hcases. injection Hcases as -> ->. destruct (proj1 Hcon _ _ _ Hld) as (Hsto & Hl & Hf).
    unfold create_post. rewrite Hld. split_and!; [done..|]. exists st. split_and!; [done| |done|].
    - intros Hin. split; [done|]. by eapply Hin.
    - left. by eapply entered_known. }
  destruct (IsValid (current_of v6 s)) eqn:Hv.
  2: { destruct Hcases as [e He]. rewrite Hc in He. injection He as -> ->. unfold create_post. by rewrite Hld, Hv. }
  cbv zeta in Hcases. set (a := nextAddress _ _ _) in *. destruct Hcases as [m E]. rewrite Hc in E. injection E as -> ->.
  destruct (next_ok _ _ _ _ (store_ok_range v6 s Hs) Hv) as (Hr' & Hf & Hsto & HC). fold a in Hr', Hf, Hsto, HC. rewrite negb_involutive in Hf.
  destruct (store_outcome st a domain m Hok Hsto) as [Hok' Hout]. cbv zeta in Hok', Hout. set (st' := FakeIPSaveMetadataAsync _ m) in *.
  assert (Hout' : stored storable st a domain st' \/ same_entries storable st st' \/ no_entries storable st') by (destruct Hout as [?|[_ ?]]; auto).
  unfold create_post. split_and!; [|by destruct v6..|done|done|].
  - apply (store_ok_with v6 a s st); [done..|]. eapply outcome_consistent; [done|done|by rewrite Hf|exact Hout'].
  - exists st'. split; [by destruct v6|]. pose proof (Contains_of v6 s a HC) as HC'. split_and!; [|done|].
    + intros Hin. split; [|done]. by eapply outcome_contained.
    + destruct Hout as [Hout|[He Hk]]; [left|right; by rewrite Hld]. rewrite <- Hf. eapply (entered_stored s st); [done|by destruct (family a)|done|done].
Qed.

(** ** Reachable stores *)

Inductive store_step : Store S -> Store S -> Prop :=
| step_create s domain v6 : store_step s (Store_Create s domain v6).2
| step_reset s : store_step s (Store_Reset s).2
| step_close s : store_step s (Store_Close s).2.

Definition configured (is4 : bool) (range : Prefix) : Prop :=
  Prefix_IsValid range = false \/ usable range /\ Is4 (ip range) = is4 /\ forall a, current_in range a -> storable a.

Lemma usable_valid p : usable p -> Prefix_IsValid p = true.
Proof. intros [(_ & _ & Hb) _]. unfold Prefix_IsValid, Bits in *. lia. Qed.

Lemma start_range is4 range current : configured is4 range ->
  IsValid current = false \/ Prefix_IsValid range = true /\ current_in range current ->
  range_ok is4 range (if Prefix_IsValid range then broadcastAddress range else zeroAddr) current.
Proof.
  intros Hc [?|[Hv Hcur]]; [by left|]. rewrite Hv. destruct Hc as [?|(Hu & Hf & Hs)]; [congruence|]. right. split_and!; [done..|].
  apply broadcastAddress_last. by destruct Hu.
Qed.

Lemma start_current is4 range : configured is4 range ->
  let current := if Prefix_IsValid range then Next (ip range) else zeroAddr in
  IsValid current = false \/ Prefix_IsValid range = true /\ current_in range current.
Proof. intros [->|(Hu & _)]; [by left|]. rewrite (usable_valid _ Hu). right. split; [done|by apply first_in]. Qed.

(** The metadata of a storage is taken over when it is of the same ranges. *)
Definition resumes (r4 r6 : Prefix) (m : option FakeIPMetadata) : bool :=
  match m with Some m => bool_decide (Inet4Range m = r4) && bool_decide (Inet6Range m = r6) | None => false end.

(** A storage to start with: its entries are consistent, and the addresses it goes on
    from are in their ranges. *)
Definition startable (r4 r6 : Prefix) (chosen : S) : Prop :=
  storage_ok chosen /\ consistent chosen
  /\ forall m, fst (FakeIPMetadata_load chosen) = Some m -> Inet4Range m = r4 -> Inet6Range m = r6 ->
       (IsValid (Inet4Current m) = false \/ Prefix_IsValid r4 = true /\ current_in r4 (Inet4Current m))
       /\ (IsValid (Inet6Current m) = false \/ Prefix_IsValid r6 = true /\ current_in r6 (Inet6Current m)).

(** Its addresses lie in the ranges, or it is reset. *)
Definition starts_contained (r4 r6 : Prefix) (chosen : S) : Prop :=
  contained r4 r6 chosen
  \/ resumes r4 r6 (fst (FakeIPMetadata_load chosen)) = false /\ is_ok (fst (FakeIPReset (snd (FakeIPMetadata_load chosen)))) = true.

Lemma start_ok r4 r6 (chosen : S) : configured true r4 -> configured false r6 -> startable r4 r6 chosen ->
  let s := Store_Start (NewStore r4 r6) chosen in
  store_ok s /\ inet4Range s = r4 /\ inet6Range s = r6
  /\ (starts_contained r4 r6 chosen -> exists st, storage s = Some st /\ contained r4 r6 st).
Proof.
  intros H4 H6 (Hok & Hcon & Hm). unfold Store_Start, starts_contained. pose proof (FakeIPMetadata_law chosen Hok) as Hl.
  destruct (FakeIPMetadata_load chosen) as [m c]. cbn [fst snd] in *. destruct Hl as [Hok1 Hk].
  pose proof (consistent_kept _ _ Hk Hcon) as Hcon1. pose proof (FakeIPReset_law c Hok1) as Hr. destruct (FakeIPReset c) as [err c'] eqn:Er.
  cbn [fst snd] in *. destruct Hr as [Hok2 Hr].
  assert (Hk2 : same_entries storable c c' \/ no_entries storable c') by (destruct Hr as [?|[_ ?]]; auto).
  assert (Hfresh : resumes r4 r6 m = false ->
    let s := mkStore r4 r6 (if Prefix_IsValid r4 then broadcastAddress r4 else zeroAddr) (if Prefix_IsValid r6 then broadcastAddress r6 else zeroAddr)
      (Some c') (if Prefix_IsValid r4 then Next (ip r4) else zeroAddr) (if Prefix_IsValid r6 then Next (ip r6) else zeroAddr) in
    store_ok s /\ inet4Range s = r4 /\ inet6Range s = r6
    /\ (contained r4 r6 chosen \/ resumes r4 r6 m = false /\ is_ok err = true -> exists st, storage s = Some st /\ contained r4 r6 st)).
  { intros _. split_and!; [|done|done|].
    - split; [|split]; [exists c'; split_and!; [done|done|by eapply consistent_kept]|
        apply (start_range true r4); [done|by apply (start_current true)]|apply (start_range false r6); [done|by apply (start_current false)]].
    - intros Hc. exists c'. split; [done|]. destruct Hc as [Hc|[_ He]]; [by apply (contained_kept _ _ c), (contained_kept _ _ chosen)|].
      destruct Hr as [Hr|[He' _]]; [|congruence]. intros a d Ha. by rewrite (proj1 Hr). }
  destruct m as [m|]; [|exact (Hfresh eq_refl)]. cbn [resumes] in *. cbn [inet4Range inet6Range NewStore].
  destruct (bool_decide (Inet4Range m = r4)) eqn:E4, (bool_decide (Inet6Range m = r6)) eqn:E6; cbn [andb] in *; try exact (Hfresh eq_refl).
  apply bool_decide_eq_true in E4, E6. destruct (Hm m eq_refl E4 E6) as [Hm4 Hm6]. split_and!; [|done|done|].
  - split; [|split]; [by exists c|by apply (start_range true r4)|by apply (start_range false r6)].
  - intros [Hc|[? _]]; [|done]. exists c. split; [done|by apply (contained_kept _ _ chosen)].
Qed.

Lemma step_ok s s' : store_ok s -> store_step s s' ->
  store_ok s' /\ inet4Range s' = inet4Range s /\ inet6Range s' = inet6Range s
  /\ forall st, storage s = Some st -> contained (inet4Range s) (inet6Range s) st ->
       exists st', storage s' = Some st' /\ contained (inet4Range s) (inet6Range s) st'.
Proof.
  intros Hs Hstep. pose proof Hs as ((st & Hst & Hok & Hcon) & H4 & H6). destruct Hstep as [s domain v6|s|s].
  - destruct (Store_Create s domain v6) as [r s'] eqn:Hc. cbn [snd].
    destruct (Store_Create_post _ _ _ _ _ _ Hs Hst Hc) as (Hs' & E4 & E6 & Hr). split_and!; [done..|].
    intros st0 Hst0 Hin. assert (st0 = st) as -> by congruence. destruct r; try done.
    + destruct Hr as (_ & _ & st' & Hst' & Hin' & _). exists st'. split; [done|by apply Hin'].
    + destruct Hr as (-> & _). by exists st.
  - unfold Store_Reset. rewrite Hst. pose proof (FakeIPReset_law st Hok) as Hl. destruct (FakeIPReset st) as [err c']. destruct Hl as [Hok' Hl].
    assert (Hk : same_entries storable st c' \/ no_entries storable c') by (destruct Hl as [?|[_ ?]]; auto).
    cbn [snd]. split_and!; [|done|done|]; [split; [|by split]; exists c'; split_and!; [done|done|by eapply consistent_kept]|].
    intros st0 Hst0 Hin. assert (st0 = st) as -> by congruence. exists c'. split; [done|by eapply contained_kept].
  - unfold Store_Close. rewrite Hst. pose proof (FakeIPSaveMetadata_law st (Store_metadata s) Hok) as Hl.
    destruct (FakeIPSaveMetadata st _) as [err c']. destruct Hl as [Hok' Hk].
    cbn [snd]. split_and!; [|done|done|]; [split; [|by split]; exists c'; split_and!; [done|done|by eapply consistent_kept]|].
    intros st0 Hst0 Hin. assert (st0 = st) as -> by congruence. exists c'. split; [done|by eapply contained_kept].
Qed.

(** * Properties *)

(** C23: domains and fake addresses stay in bijection, even if the storage fails.  Let
    a store be started with ranges that have room or are absent, on a storage that
    keeps the laws and is consistent.  In every store reached from it by [Create],
    [Reset] and [Close], whether the operations of the storage succeed, fail or lose
    its contents, the domain and address caches are inverse to each other in each
    family, and the address to go on from lies in its range.  All stored addresses lie
    in the ranges if they did at the start or the storage was then reset with
    success. *)
Theorem store_reachable_consistent r4 r6 (chosen : S) s :
  configured true r4 -> configured false r6 -> startable r4 r6 chosen ->
  rtc store_step (Store_Start (NewStore r4 r6) chosen) s ->
  exists st, storage s = Some st
  /\ (forall d v6 a, FakeIPLoadDomain st d v6 = Some a <-> storable a /\ FakeIPLoad st a = Some d /\ family a = v6)
  /\ range_ok true r4 (inet4Last s) (inet4Current s) /\ range_ok false r6 (inet6Last s) (inet6Current s)
  /\ (starts_contained r4 r6 chosen -> forall a d, storable a -> FakeIPLoad st a = Some d -> Store_Contains s a = true).
Proof.
  intros H4 H6 Hm Hr. pose proof (start_ok r4 r6 chosen H4 H6 Hm) as (Hs & E4 & E6 & Hin). cbv zeta in *.
  assert (Hall : store_ok s /\ inet4Range s = r4 /\ inet6Range s = r6
    /\ (starts_contained r4 r6 chosen -> exists st, storage s = Some st /\ contained r4 r6 st)).
  { revert Hs E4 E6 Hin. generalize (starts_contained r4 r6 chosen) as P. induction Hr as [|s1 s2 s3 Hstep _ IH]; [done|].
    intros P Hs E4 E6 Hin. destruct (step_ok _ _ Hs Hstep) as (Hs2 & E4' & E6' & Hin'). apply IH; [done|congruence|congruence|].
    intros HP. destruct (Hin HP) as (st & Hst & Hc). rewrite E4, E6 in Hin'. eauto. }
  destruct Hall as (((st & Hst & Hok & H1 & H2) & R4 & R6) & <- & <- & Hc). exists st. split_and!; [done| |done|done|].
  - intros d v6 a. split; [apply H1|]. intros (Ha & Hl & <-). auto.
  - intros HP. destruct (Hc HP) as (st' & Hst' & Hin'). assert (st' = st) as -> by congruence. exact Hin'.
Qed.

(** C24: what [Create] assigns.  In a store in good order it gives an address, or an
    error, which changes nothing and is given exactly when the domain is not known and
    its family has no range.  An address is of the family asked for; a new one lies in
    the ranges, and so does one known before if all those stored do.  Unless the
    storage reports a failure to store a new address, looking the address up gives the
    domain, creating again returns the same address and changes nothing, and no other
    address changes its domain.  When it does, either all addresses keep their
    domains or, the storage being lost, none has one.  The store remains in good
    order. *)
Theorem create_assigns s st domain v6 r s' :
  store_ok s -> storage s = Some st -> Store_Create s domain v6 = (r, s') ->
  store_ok s' /\
  match r with
  | Ok a =>
      family a = v6
      /\ (FakeIPLoadDomain st domain v6 = None \/ contained (inet4Range s) (inet6Range s) st -> Store_Contains s' a = true)
      /\ (Store_Lookup s' a = Ok (Some domain) /\ Store_Create s' domain v6 = (Ok a, s')
          /\ (forall a', storable a' -> a' <> a -> Store_Lookup s' a' = Store_Lookup s a')
          \/ FakeIPLoadDomain st domain v6 = None /\ is_ok (FakeIPStore st a domain).1 = false
             /\ ((forall a', storable a' -> Store_Lookup s' a' = Store_Lookup s a')
                 \/ (forall a', storable a' -> Store_Lookup s' a' = Ok None)))
  | Err _ => s' = s /\ FakeIPLoadDomain st domain v6 = None /\ IsValid (if v6 then inet6Current s else inet4Current s) = false
  | _ => False
  end.
Proof.
  intros Hs Hst Hc. destruct (Store_Create_post _ _ _ _ _ _ Hs Hst Hc) as (Hs' & E4 & E6 & Hr). split; [done|].
  destruct r as [a|e| |]; try done. destruct Hr as (Hf & Ha & st' & Hst' & Hin & Hnew & Hout). split; [done|]. split.
  - assert (HC : Store_Contains s' a = Store_Contains s a) by (unfold Store_Contains; by rewrite E4, E6). rewrite HC.
    intros [Hn|Hn]; [by apply Hnew|by apply Hin].
  - destruct Hout as [Hout|(Hn & He & Hk)]; [by left|right]. split; [done|]. split; [done|]. unfold Store_Lookup. rewrite Hst, Hst'.
    destruct Hk as [[E _]|[E _]]; [left|right]; intros a' Ha'; by rewrite E.
Qed.

(** ** Concurrent creation *)

(** A caller of [Create]: before its look at the storage, waiting for the lock
    after a miss, or finished.  The section under the lock looks again and is one
    step, since other callers see of it only the storage. *)
Inductive caller := Starting | Waiting | Finished (r : res Addr).

Inductive caller_step (domain : string) (v6 : bool) : Store S * caller -> Store S * caller -> Prop :=
| look_hit s st a : storage s = Some st -> FakeIPLoadDomain st domain v6 = Some a ->
    caller_step domain v6 (s, Starting) (s, Finished (Ok a))
| look_miss s st : storage s = Some st -> FakeIPLoadDomain st domain v6 = None ->
    caller_step domain v6 (s, Starting) (s, Waiting)
| locked s r s' : Store_Create s domain v6 = (r, s') ->
    caller_step domain v6 (s, Waiting) (s', Finished r).

(** Any number of callers for one domain, in any interleaving. *)
Inductive callers_step (domain : string) (v6 : bool) : Store S * list caller -> Store S * list caller -> Prop :=
| one_caller s s' cs i c c' : cs !! i = Some c -> caller_step domain v6 (s, c) (s', c') ->
    callers_step domain v6 (s, cs) (s', <[i := c']> cs).

(** Every caller that got an address got the one the storage holds. *)
Definition callers_ok (domain : string) (v6 : bool) (x : Store S * list caller) : Prop :=
  store_ok (fst x)
  /\ (forall a, Finished (Ok a) ∈ snd x ->
       Store_Lookup (fst x) a = Ok (Some domain) /\ Store_Create (fst x) domain v6 = (Ok a, fst x)).

Lemma Finished_insert (cs : list caller) i c a :
  Finished (Ok a) ∈ <[i := c]> cs -> c = Finished (Ok a) \/ Finished (Ok a) ∈ cs.
Proof.
  intros Hin. apply list_elem_of_lookup in Hin as [j Hj].
  destruct (decide (i = j)) as [->|Hne].
  - destruct (decide (j < length cs)%nat).
    + rewrite list_lookup_insert_eq in Hj by done. left. congruence.
    + apply lookup_lt_Some in Hj. rewrite length_insert in Hj. lia.
  - rewrite list_lookup_insert_ne in Hj by done. right. by eapply list_elem_of_lookup_2.
Qed.

(** On a reliable storage, what was created is entered. *)
Lemma Store_Create_entered s domain v6 a s' : reliable -> store_ok s -> Store_Create s domain v6 = (Ok a, s') -> entered s domain v6 a s'.
Proof.
  intros Hr Hs Hc. pose proof Hs as ((st & Hst & Hok & Hcon) & _). pose proof (Store_Create_cases s st domain v6 Hst) as Hcases.
  destruct (FakeIPLoadDomain st domain v6) as [a0|] eqn:Hl.
  { rewrite Hc in Hcases. injection Hcases as -> ->. by eapply entered_known. }
  destruct (IsValid (current_of v6 s)) eqn:Hv; [|destruct Hcases as [e E]; congruence].
  destruct Hcases as [m E]. rewrite Hc in E. injection E as -> ->.
  destruct (next_ok _ _ _ _ (store_ok_range v6 s Hs) Hv) as (_ & Hf & Hsto & _). rewrite negb_involutive in Hf.
  set (a := nextAddress _ _ _) in *. pose proof (reliable_outcome st a domain m Hr Hok Hsto) as Hsd.
  set (st' := FakeIPSaveMetadataAsync _ m) in *.
  pose proof (entered_stored s st domain a (with_current v6 a s <| storage := Some st' |>) st' Hst ltac:(by destruct v6) Hsto Hsd) as He.
  by rewrite Hf in He.
Qed.

Lemma callers_step_ok domain v6 x y :
  reliable -> callers_ok domain v6 x -> callers_step domain v6 x y -> callers_ok domain v6 y.
Proof.
  intros Hrel [Hs Hall] Hstep. destruct Hstep as [s s' cs i c c' Hc Hstep]. cbn [fst snd] in *.
  inversion Hstep as [s0 st a Hst Hl|s0 st Hst Hl|s0 r s0' Hcr]; subst; unfold callers_ok; cbn [fst snd].
  - split; [done|]. intros a' [[= <-]|Hin]%Finished_insert; [|auto].
    destruct Hs as ((st0 & Hst0 & _ & Hcon) & _). assert (st0 = st) as -> by congruence.
    by destruct (entered_known _ st domain v6 a Hst Hcon Hl) as (? & ? & _).
  - split; [done|]. intros a' [|Hin]%Finished_insert; [done|auto].
  - pose proof Hs as ((st & Hst & _) & _). destruct (Store_Create_post _ _ _ _ _ _ Hs Hst Hcr) as (Hs' & _ & _ & Hr). split; [done|].
    intros a' [[= ->]|Hin]%Finished_insert.
    + by destruct (Store_Create_entered _ _ _ _ _ Hrel Hs Hcr) as (? & ? & _).
    + apply Hall in Hin as [Hl Hin]. rewrite Hin in Hcr. injection Hcr as <- <-. done.
Qed.

Lemma callers_run_ok domain v6 x y :
  reliable -> callers_ok domain v6 x -> rtc (callers_step domain v6) x y -> callers_ok domain v6 y.
Proof. intros Hrel Hok Hr. induction Hr; eauto using callers_step_ok. Qed.

(** C26: concurrent creations agree.  However the callers of [Create] for one
    domain and family interleave, on a storage that carries out every store, all that
    return an address return the same one; it then resolves to the domain, and
    creating once more returns it and changes nothing. *)
Theorem concurrent_creates_agree domain v6 s n s' cs a b :
  reliable -> store_ok s -> rtc (callers_step domain v6) (s, replicate n Starting) (s', cs) ->
  Finished (Ok a) ∈ cs -> Finished (Ok b) ∈ cs ->
  a = b /\ Store_Lookup s' a = Ok (Some domain) /\ Store_Create s' domain v6 = (Ok a, s').
Proof.
  intros Hrel Hs Hr Ha Hb.
  assert (Hok : callers_ok domain v6 (s, replicate n Starting)).
  { split; [done|]. cbn [snd]. intros c Hc. apply elem_of_replicate in Hc as [[=] _]. }
  assert (Hok' : callers_ok domain v6 (s', cs)) by by apply (callers_run_ok domain v6 _ _ Hrel Hok).
  destruct Hok' as [_ Hall]. apply Hall in Ha as [Hl Ha], Hb as [_ Hb]. cbn [fst] in *. split; [congruence|done].
Qed.

(** ** Exhausting a range *)

(** Successive calls of [Create]. *)
Definition create_all (s : Store S) (domains : list string) (v6 : bool) : list (res Addr) * Store S :=
  fold_left (fun '(results, s) d => let '(r, s) := Store_Create s d v6 in (results ++ [r], s)) domains ([], s).

(** The store after [domains], whatever the storage did, from [s0]. *)
Definition allocated (v6 : bool) (s0 : Store S) (domains : list string) (s : Store S) : Prop :=
  store_ok s /\ range_of v6 s = range_of v6 s0 /\ last_of v6 s = last_of v6 s0
  /\ current_of v6 s = nth_next (range_of v6 s0) (current_of v6 s0) (length domains)
  /\ exists st st0, storage s = Some st /\ storage s0 = Some st0
     /\ (forall d, FakeIPLoadDomain st d v6 <> None -> FakeIPLoadDomain st0 d v6 <> None \/ d ∈ domains)
     /\ (reliable -> forall i d, domains !! i = Some d ->
          FakeIPLoad st (ith_address (range_of v6 s0) (current_of v6 s0) i) = Some d).

(** The address of a valid family goes on in its range. *)
Lemma store_ok_valid v6 s : store_ok s -> IsValid (current_of v6 s) = true ->
  usable (range_of v6 s) /\ current_in (range_of v6 s) (current_of v6 s) /\ (forall a, current_in (range_of v6 s) a -> storable a)
  /\ last_of v6 s = mkAddr (prefix_last (range_of v6 s)) (z (ip (range_of v6 s))).
Proof. intros Hs Hv. destruct (store_ok_range v6 s Hs) as [?|(Hu & _ & Hsto & Hcur & Hl)]; [congruence|done]. Qed.

Lemma known_outcome st a d st' d' v6 :
  stored storable st a d st' \/ same_entries storable st st' \/ no_entries storable st' ->
  FakeIPLoadDomain st' d' v6 <> None -> FakeIPLoadDomain st d' v6 <> None \/ d' = d.
Proof.
  intros [[_ L]|[[_ L]|[_ L]]]; rewrite L; [|by left|done]. destruct (Bool.eqb _ _); [|by left].
  case_bool_decide; [by right|]. case_bool_decide; [done|by left].
Qed.

Lemma allocated_next v6 s0 domains s d :
  store_ok s0 -> IsValid (current_of v6 s0) = true -> Z.of_nat (length domains) < capacity (range_of v6 s0) -> d ∉ domains ->
  (forall st0, storage s0 = Some st0 -> FakeIPLoadDomain st0 d v6 = None) -> allocated v6 s0 domains s ->
  exists s', Store_Create s d v6 = (Ok (ith_address (range_of v6 s0) (current_of v6 s0) (length domains)), s')
    /\ allocated v6 s0 (domains ++ [d]) s'.
Proof.
  intros Hs0 Hv Hk Hd Hnew0 (Hs & Hr & Hl & Hc & st & st0 & Hst & Hst0 & Hdom & Hload).
  destruct (store_ok_valid v6 s0 Hs0 Hv) as (Hu & Hcur & Hsto & Hlast).
  pose proof (nth_next_in _ _ (length domains) Hu Hcur) as Hcur'. pose proof (nth_next_ith _ _ (length domains) Hu Hcur) as Hith.
  pose proof (nth_next_in _ _ (Datatypes.S (length domains)) Hu Hcur) as Hin.
  set (a := ith_address _ _ _) in *. rewrite Hith in Hin.
  assert (Hnew : FakeIPLoadDomain st d v6 = None).
  { destruct (FakeIPLoadDomain st d v6) eqn:E; [|done]. destruct (Hdom d ltac:(by rewrite E)) as [Hx|?]; [|done]. by rewrite Hnew0 in Hx. }
  pose proof (Store_Create_cases s st d v6 Hst) as Hcases. rewrite Hnew, Hc, (proj1 (current_in_valid _ _ Hu Hcur')) in Hcases.
  cbv zeta in Hcases. rewrite Hr, Hl, Hlast in Hcases. change (nextAddress _ _ _) with (nth_next (range_of v6 s0) (current_of v6 s0) (Datatypes.S (length domains))) in Hcases.
  rewrite Hith in Hcases. destruct Hcases as [m Hcr]. eexists. split; [exact Hcr|].
  pose proof Hs as ((st1 & Hst1 & Hok & _) & _). assert (st1 = st) as -> by congruence.
  destruct (Store_Create_post _ _ _ _ _ _ Hs Hst Hcr) as (Hs' & _). destruct (store_outcome st a d m Hok (Hsto a Hin)) as [_ Hout]. cbv zeta in Hout.
  unfold allocated. split; [exact Hs'|]. split; [by destruct v6|]. split; [by destruct v6|]. split.
  { rewrite length_app, Nat.add_1_r, Hith. by destruct v6. }
  eexists _, st0. split; [by destruct v6|]. split; [done|]. split.
  - intros d' Hd'. apply (known_outcome st a d) in Hd' as [Hd'| ->]; [|right; set_solver|destruct Hout as [?|[_ ?]]; auto].
    destruct (Hdom d' Hd'); [by left|right; set_solver].
  - intros Hrel i d' Hi. destruct (reliable_outcome st a d m Hrel Hok (Hsto a Hin)) as [L _].
    assert (Hai : (i <= length domains)%nat) by (apply lookup_lt_Some in Hi; rewrite length_app in Hi; cbn in Hi; lia).
    rewrite L by (rewrite <- (nth_next_ith _ _ i Hu Hcur); by apply Hsto, nth_next_in).
    apply lookup_app_Some in Hi as [Hi|[Hge Hi]].
    + pose proof (lookup_lt_Some _ _ _ Hi). rewrite bool_decide_false; [by apply Hload|].
      intros Heq. apply ith_address_inj in Heq; lia.
    + apply list_lookup_singleton_Some in Hi as [Hi <-]. replace i with (length domains) by lia. by rewrite bool_decide_true.
Qed.

Lemma create_all_snoc s domains d v6 :
  create_all s (domains ++ [d]) v6 =
    let '(results, s1) := create_all s domains v6 in
    let '(r, s2) := Store_Create s1 d v6 in (results ++ [r], s2).
Proof. unfold create_all. rewrite fold_left_app. cbn [fold_left]. by destruct (fold_left _ _ _). Qed.

Lemma create_all_allocated v6 s domains :
  store_ok s -> IsValid (current_of v6 s) = true -> NoDup domains -> Z.of_nat (length domains) <= capacity (range_of v6 s) ->
  (forall st d, storage s = Some st -> d ∈ domains -> FakeIPLoadDomain st d v6 = None) ->
  exists s', create_all s domains v6
    = (map (fun i => Ok (ith_address (range_of v6 s) (current_of v6 s) i)) (seq 0 (length domains)), s')
    /\ allocated v6 s domains s'.
Proof.
  intros Hs Hv. induction domains as [|d domains IH] using rev_ind; intros Hnd Hlen Hnew.
  - exists s. split; [done|]. pose proof Hs as ((st & Hst & _) & _). split; [done|]. do 3 (split; [done|]).
    exists st, st. split_and!; [done|done|by left|done].
  - apply NoDup_app in Hnd as (Hnd & Hdisj & _). rewrite length_app in Hlen. cbn [length] in Hlen.
    destruct IH as (s1 & Hc1 & Ha1); [done|lia|set_solver|].
    destruct (allocated_next v6 s domains s1 d Hs Hv) as (s2 & Hc2 & Ha2); [lia| |set_solver|done|].
    { intros Hin. apply (Hdisj _ Hin). set_solver. }
    exists s2. split; [|done]. rewrite create_all_snoc, Hc1, Hc2, length_app. cbn [length]. by rewrite seq_app, map_app.
Qed.

(** C25: no address is handed out twice before its range is used up.  From any store
    in good order, in either family, creating domains the storage does not know, no
    more than the range holds (all its addresses but the first two and the last),
    succeeds for each and hands out distinct addresses of the range: those after the
    current one, in order, going round before the last to the third.  This is so even
    if the storage fails; if it carries out every store, each domain is found at its
    address afterwards. *)
Theorem no_early_reuse (v6 : bool) s st domains :
  let range := if v6 then inet6Range s else inet4Range s in
  let current := if v6 then inet6Current s else inet4Current s in
  store_ok s -> storage s = Some st -> IsValid current = true ->
  NoDup domains -> (forall d, d ∈ domains -> FakeIPLoadDomain st d v6 = None) ->
  Z.of_nat (length domains) <= prefix_last range - addr (ip range) - 2 ->
  let '(results, s') := create_all s domains v6 in
  results = map (fun i => Ok (ith_address range current i)) (seq 0 (length domains))
  /\ NoDup results
  /\ (forall a, Ok a ∈ results -> Contains range a = true)
  /\ (reliable -> forall i d, domains !! i = Some d -> Store_Lookup s' (ith_address range current i) = Ok (Some d)).
Proof.
  intros range current Hs Hst Hv Hnd Hnew Hlen. change (IsValid (current_of v6 s) = true) in Hv.
  destruct (create_all_allocated v6 s domains Hs Hv Hnd Hlen) as (s' & -> & Ha); [intros st0 d ?; assert (st0 = st) as -> by congruence; auto|].
  change range with (range_of v6 s). change current with (current_of v6 s).
  destruct (store_ok_valid v6 s Hs Hv) as (Hu & Hcur & _). split; [done|]. split_and!.
  - apply NoDup_fmap_2_strong; [|apply NoDup_seq]. intros i j Hi Hj. rewrite elem_of_seq in Hi, Hj.
    intros [= Heq]. change (range_of v6 s) with range in *. apply (ith_address_inj range (current_of v6 s)); [unfold capacity; lia..|].
    unfold ith_address. f_equal. exact Heq.
  - intros a Hin. apply list_elem_of_fmap in Hin as (i & [= ->] & _).
    rewrite <- (nth_next_ith _ _ i Hu Hcur). by apply current_in_contains, nth_next_in.
  - destruct Ha as (_ & _ & _ & _ & st' & st0 & Hst' & _ & _ & Hload). intros Hrel i d Hi. unfold Store_Lookup. by rewrite Hst', (Hload Hrel i d Hi).
Qed.

End StoreProofs.

(** * Persisted metadata *)

Definition storable_addr (a : Addr) : Prop := a = zeroAddr \/ wf_addr a /\ IsValid a = true.
Definition storable_prefix (p : Prefix) : Prop := p = zeroPrefix \/ wf_prefix p.

Lemma Addr_MarshalBinary_wf a : wf_addr a -> Addr_MarshalBinary a = AsSlice a.
Proof.
  unfold wf_addr, Addr_MarshalBinary. destruct (z a) as [| |s]; [done|done|]. intros [_ ->]. apply app_nil_r.
Qed.

Lemma Addr_roundtrip a : storable_addr a -> Addr_UnmarshalBinary (Addr_MarshalBinary a) = Ok a.
Proof.
  intros [->|[Hw Hv]]; [done|]. rewrite Addr_MarshalBinary_wf by done.
  pose proof (AddrFromSlice_AsSlice a Hw Hv) as HA. pose proof (AsSlice_length a) as HL.
  unfold AddrFromSlice, Addr_UnmarshalBinary, IsValid in *.
  destruct (z a); [done| |]; rewrite HL in *; cbn in *; by injection HA as ->.
Qed.

Lemma Addr_MarshalBinary_length a : storable_addr a -> (length (Addr_MarshalBinary a) <= 16)%nat.
Proof.
  intros [->|[Hw _]]; [cbn; lia|]. rewrite Addr_MarshalBinary_wf, AsSlice_length by done. destruct (z a); lia.
Qed.

Lemma withoutZone_wf a : wf_addr a -> withoutZone a = a.
Proof. destruct a as [v [| |s]]; unfold wf_addr, withoutZone; cbn; [done|done|]. by intros [_ ->]. Qed.

Lemma Prefix_roundtrip p : storable_prefix p -> Prefix_UnmarshalBinary (Prefix_MarshalBinary p) = Ok p.
Proof.
  unfold Prefix_UnmarshalBinary, Prefix_MarshalBinary. rewrite last_snoc, removelast_last.
  intros [->|(Hw & Hv & Hb)]; [done|]. rewrite withoutZone_wf, Addr_roundtrip by (try done; by right).
  cbn [res_bind]. f_equal. unfold PrefixFrom.
  assert (HB : BitLen (ip p) <= 128) by (unfold BitLen; destruct (z (ip p)); lia).
  rewrite wrap_small by (unfold is_u; lia).
  rewrite withoutZone_wf, Hv by done. replace (0 <=? Bits p) with true by lia.
  replace (Bits p <=? BitLen (ip p)) with true by lia. cbn [andb].
  unfold Bits. destruct p as [a b]. cbn. f_equal. lia.
Qed.

Lemma Prefix_MarshalBinary_length p : storable_prefix p -> (length (Prefix_MarshalBinary p) <= 17)%nat.
Proof.
  unfold Prefix_MarshalBinary. rewrite length_app. cbn [length].
  intros [->|(Hw & Hv & _)]; [cbn; lia|]. rewrite withoutZone_wf by done.
  pose proof (Addr_MarshalBinary_length (ip p) (or_intror (conj Hw Hv))). lia.
Qed.

Lemma unmarshal_marshal_element {A} (unmarshal : list Z -> res A) data v rest :
  (length data <= 17)%nat -> unmarshal data = Ok v ->
  unmarshal_element unmarshal (marshal_element data ++ rest) = Ok (v, rest).
Proof.
  intros Hl Hu. unfold unmarshal_element, marshal_element.
  rewrite !length_app, be_split_length.
  replace (2 + length data + length rest <? 2)%nat with false by (symmetry; apply Nat.ltb_ge; lia).
  rewrite <- app_assoc, take_app_length', drop_app_length' by (by rewrite be_split_length).
  rewrite be_combine_split. unfold wrap, zlen. change (256 ^ Z.of_nat 2) with (2 ^ 16).
  rewrite Z.mod_mod, Z.mod_small, Nat2Z.id by lia.
  rewrite length_app. replace (length data + length rest <? length data)%nat with false
    by (symmetry; apply Nat.ltb_ge; lia).
  by rewrite take_app_length, drop_app_length, Hu.
Qed.

(** the persisted metadata of the store is read back as written: decoding the
    encoding of any metadata with well-formed or unset ranges and addresses gives
    it back. *)
Theorem metadata_roundtrip m :
  storable_prefix (Inet4Range m) -> storable_prefix (Inet6Range m) ->
  storable_addr (Inet4Current m) -> storable_addr (Inet6Current m) ->
  FakeIPMetadata_UnmarshalBinary (FakeIPMetadata_MarshalBinary m) = Ok m.
Proof.
  intros H1 H2 H3 H4. unfold FakeIPMetadata_UnmarshalBinary, FakeIPMetadata_MarshalBinary.
  pose proof (Addr_MarshalBinary_length _ H3). pose proof (Addr_MarshalBinary_length _ H4).
  rewrite (unmarshal_marshal_element _ _ (Inet4Range m))
    by (auto using Prefix_MarshalBinary_length, Prefix_roundtrip). cbn [res_bind].
  rewrite (unmarshal_marshal_element _ _ (Inet6Range m))
    by (auto using Prefix_MarshalBinary_length, Prefix_roundtrip). cbn [res_bind].
  rewrite (unmarshal_marshal_element _ _ (Inet4Current m)) by (try lia; by apply Addr_roundtrip). cbn [res_bind].
  rewrite <- (app_nil_r (marshal_element (Addr_MarshalBinary (Inet6Current m)))).
  rewrite (unmarshal_marshal_element _ _ (Inet6Current m)) by (try lia; by apply Addr_roundtrip).
  cbn [res_bind]. by destruct m.
Qed.

(** Metadata cut inside a length field makes the reader panic instead of being
    refused. *)
Lemma truncated_metadata_panics b : FakeIPMetadata_UnmarshalBinary [b] = Panic "EOF".
Proof. reflexivity. Qed.

(** * Evaluations *)

Definition example_range4 : Prefix := PrefixFrom (AddrFrom4 0xC6120000) 29.
Definition example_range6 : Prefix := PrefixFrom (AddrFrom16 (0xfc00 * 2 ^ 112)) 18.

Lemma example_range4_usable : usable example_range4.
Proof. split; [split; [|split]|]; vm_compute; (done || split; done). Qed.

Lemma example_range6_usable : usable example_range6.
Proof. split; [split; [split|split]|]; vm_compute; (done || split; done). Qed.

Definition example_store : Store MemoryStorage :=
  Store_Start (NewStore example_range4 example_range6) NewMemoryStorage.

Lemma example_configured4 : configured (S := MemoryStorage) true example_range4.
Proof. right. split; [apply example_range4_usable|]. by split. Qed.
Lemma example_configured6 : configured (S := MemoryStorage) false example_range6.
Proof. right. split; [apply example_range6_usable|]. by split. Qed.

Lemma memory_reliable : reliable (S := MemoryStorage).
Proof. intros st a d Hok Ha. pose proof (FakeIPStore_law st a d Hok Ha) as H. cbn in H |- *. by destruct H as [_ [?|[? _]]]. Qed.

Lemma memory_empty : no_entries (S := MemoryStorage) (fun _ => True) NewMemoryStorage.
Proof. split; [intros a _; apply lookup_empty|intros d []; apply lookup_empty]. Qed.
Lemma example_startable : startable (S := MemoryStorage) example_range4 example_range6 NewMemoryStorage.
Proof. split; [done|]. split; [apply consistent_empty, memory_empty|done]. Qed.

Lemma example_store_ok : store_ok (S := MemoryStorage) example_store.
Proof.
  exact (proj1 (start_ok (S := MemoryStorage) example_range4 example_range6 NewMemoryStorage example_configured4 example_configured6 example_startable)).
Qed.

Lemma store_reachable_consistent_witness :
  let s := (Store_Create (S := MemoryStorage) example_store "a.example" false).2 in
  exists st, storage s = Some st /\ FakeIPLoadDomain st "a.example" false = Some (AddrFrom4 0xC6120002)
  /\ FakeIPLoad st (AddrFrom4 0xC6120002) = Some "a.example" /\ Store_Contains s (AddrFrom4 0xC6120002) = true.
Proof.
  intros s.
  destruct (store_reachable_consistent (S := MemoryStorage) example_range4 example_range6 NewMemoryStorage s
    example_configured4 example_configured6 example_startable) as (st & Hst & Hbi & _ & _ & Hin).
  - apply rtc_once. apply step_create.
  - exists st. split; [exact Hst|].
    assert (Hl : FakeIPLoadDomain st "a.example" false = Some (AddrFrom4 0xC6120002)) by (vm_compute in Hst; injection Hst as <-; reflexivity).
    split; [exact Hl|]. destruct (proj1 (Hbi _ _ _) Hl) as (Ha & Hd & _). split; [exact Hd|].
    refine (Hin (or_introl _) _ _ Ha Hd). intros a d _ H. rewrite (proj1 memory_empty a I) in H. discriminate H.
Defined.

Lemma create_assigns_witness :
  let s' := (Store_Create (S := MemoryStorage) example_store "a.example" false).2 in
  Store_Lookup s' (AddrFrom4 0xC6120002) = Ok (Some "a.example") /\ Store_Contains s' (AddrFrom4 0xC6120002) = true.
Proof.
  intros s'.
  pose proof (create_assigns (S := MemoryStorage) example_store NewMemoryStorage "a.example" false (Ok (AddrFrom4 0xC6120002)) s'
    example_store_ok eq_refl eq_refl) as (_ & _ & Hc & Hout).
  split; [|apply Hc; left; reflexivity]. destruct Hout as [[Hl _]|(_ & He & _)]; [exact Hl|discriminate He].
Defined.

Lemma concurrent_creates_agree_witness :
  let s' := (Store_Create (S := MemoryStorage) example_store "a.example" false).2 in
  AddrFrom4 0xC6120002 = AddrFrom4 0xC6120002 /\ Store_Lookup s' (AddrFrom4 0xC6120002) = Ok (Some "a.example")
  /\ Store_Create s' "a.example" false = (Ok (AddrFrom4 0xC6120002), s').
Proof.
  intros s'.
  apply (concurrent_creates_agree (S := MemoryStorage) "a.example" false example_store 3 s'
    [Finished (Ok (AddrFrom4 0xC6120002)); Finished (Ok (AddrFrom4 0xC6120002)); Finished (Ok (AddrFrom4 0xC6120002))] _ _
    memory_reliable example_store_ok).
  - eapply rtc_l; [apply (one_caller _ _ _ example_store _ 0 Starting Waiting); [done|]; eapply look_miss; done|].
    eapply rtc_l; [apply (one_caller _ _ _ example_store _ 1 Starting Waiting); [done|]; eapply look_miss; done|].
    eapply rtc_l; [apply (one_caller _ _ _ s' _ 1 Waiting (Finished (Ok (AddrFrom4 0xC6120002)))); [done|];
      apply locked; vm_compute; reflexivity|].
    eapply rtc_l; [apply (one_caller _ _ s' s' _ 2 Starting (Finished (Ok (AddrFrom4 0xC6120002)))); [done|];
      eapply look_hit; vm_compute; reflexivity|].
    apply rtc_once. refine (one_caller "a.example" false s' s' [Waiting; Finished (Ok (AddrFrom4 0xC6120002)); Finished (Ok (AddrFrom4 0xC6120002))]
      0 Waiting (Finished (Ok (AddrFrom4 0xC6120002))) eq_refl _).
    apply locked. vm_compute. reflexivity.
  - left.
  - right. left.
Defined.

Lemma no_early_reuse_witness :
  (create_all (S := MemoryStorage) example_store ["a"; "b"; "c"; "d"; "e"] false).1
    = map (fun n => Ok (AddrFrom4 (0xC6120002 + n))) [0; 1; 2; 3; 4]
  /\ Store_Lookup (create_all (S := MemoryStorage) example_store ["a"; "b"; "c"] true).2 (AddrFrom16 (0xfc00 * 2 ^ 112 + 3)) = Ok (Some "b").
Proof.
  split.
  - pose proof (no_early_reuse (S := MemoryStorage) false example_store NewMemoryStorage ["a"; "b"; "c"; "d"; "e"] example_store_ok eq_refl eq_refl
      ltac:(apply (bool_decide_eq_true _); vm_compute; reflexivity) (fun d _ => proj2 memory_empty d false) ltac:(vm_compute; discriminate)) as Hw.
    destruct (create_all _ _ _) as [results s']. rewrite (proj1 Hw). vm_compute. reflexivity.
  - pose proof (no_early_reuse (S := MemoryStorage) true example_store NewMemoryStorage ["a"; "b"; "c"] example_store_ok eq_refl eq_refl
      ltac:(apply (bool_decide_eq_true _); vm_compute; reflexivity) (fun d _ => proj2 memory_empty d true) ltac:(vm_compute; discriminate)) as Hw.
    destruct (create_all _ _ _) as [results s']. exact (proj2 (proj2 (proj2 Hw)) memory_reliable 1%nat "b" eq_refl).
Defined.

Lemma metadata_roundtrip_witness :
  let m := mkFakeIPMetadata example_range4 zeroPrefix (AddrFrom4 0xC6120003) zeroAddr in
  FakeIPMetadata_UnmarshalBinary (FakeIPMetadata_MarshalBinary m) = Ok m.
Proof.
  apply (metadata_roundtrip (mkFakeIPMetadata example_range4 zeroPrefix (AddrFrom4 0xC6120003) zeroAddr)).
  - right. apply example_range4_usable.
  - by left.
  - right. vm_compute. split; [split; done|done].
  - by left.
Defined.

(** Ranges without room hand out addresses outside themselves.  For the
    ranges 198.18.0.0/31 and /32 the address created for the first domain is not
    in the range, so the store does not recognise it as its own. *)
Example small_range_escapes :
  Forall (fun bits =>
    let s := Store_Start (S := MemoryStorage) (NewStore (PrefixFrom (AddrFrom4 0xC6120000) bits) zeroPrefix) NewMemoryStorage in
    let '(r, s') := Store_Create s "a.example" false in
    r = Ok (AddrFrom4 0xC6120002) /\ Store_Contains s' (AddrFrom4 0xC6120002) = false) [31; 32].
Proof. repeat constructor. Qed.
