(* ===== verification/Binary.v ===== *)
(** Reading and writing binary data: the parts of Go's [io], [bufio] and
    [encoding/binary] the codecs use, over the list of bytes still to be read,
    and the interface of github.com/sagernet/sing/common/varbin. *)

From S2P Require Import Prelude.

(** A reader consumes a prefix of the remaining bytes. *)
Definition reader (A : Type) : Type := list Z -> res (A * list Z).

Definition rret {A} (a : A) : reader A := fun b => Ok (a, b).
Definition rbind {A B} (m : reader A) (k : A -> reader B) : reader B :=
  fun b => let! ' (a, b') := m b in k a b'.
Definition rfail {A} (e : error) : reader A := fun _ => Err e.
Definition rlift {A} (r : res A) : reader A := fun b => let! a := r in Ok (a, b).
Definition rmap {A B} (f : A -> B) (m : reader A) : reader B := rbind m (fun a => rret (f a)).
Definition rcause {A} (message : string) (m : reader A) : reader A := fun b => res_cause message (m b).

Notation "x <- m ;; k" := (rbind m (fun x => k))
  (at level 100, m at next level, right associativity) : go_scope.

(** [ReadByte] *)
Definition ReadByte : reader Z := fun b =>
  match b with [] => Err EOF | x :: b' => Ok (x, b') end.

(** [io.ReadFull] into [n] bytes. *)
Definition ReadFull (n : nat) : reader (list Z) := fun b =>
  if (length b <? n)%nat then Err (if (length b =? 0)%nat then EOF else ErrUnexpectedEOF)
  else Ok (take n b, drop n b).

(** [binary.Read] of unsigned integers, big-endian, and of a boolean. *)
Definition Read_uint8 : reader Z := ReadByte.
Definition Read_uint64 : reader Z := rmap be_combine (ReadFull 8).
Definition Read_bool : reader bool := rmap (fun b => negb (b =? 0)) ReadByte.

Definition Write_bool (b : bool) : list Z := [if b then 1 else 0].
Definition Write_uint64 (x : Z) : list Z := be_split 8 x.

(** [binary.ReadUvarint]: seven bits a byte, least significant first, at most ten
    bytes and sixty-four bits. *)
Definition MaxVarintLen64 : nat := 10.
Fixpoint ReadUvarint_loop (n : nat) (i : nat) (x s : Z) : reader Z := fun buf =>
  match n with
  | O => Err ErrOverflow
  | S n' =>
      match buf with
      | [] => Err (if (0 <? i)%nat then ErrUnexpectedEOF else EOF)
      | b :: buf' =>
          if b <? 0x80 then
            if (i =? MaxVarintLen64 - 1)%nat && (1 <? b) then Err ErrOverflow
            else Ok (Z.lor x (u64 (Z.shiftl b s)), buf')
          else ReadUvarint_loop n' (S i) (Z.lor x (u64 (Z.shiftl (Z.land b 0x7f) s))) (s + 7) buf'
      end
  end.
Definition ReadUvarint : reader Z := ReadUvarint_loop MaxVarintLen64 0 0 0.

(** [binary.AppendUvarint] *)
Fixpoint AppendUvarint_loop (fuel : nat) (x : Z) : list Z :=
  match fuel with
  | O => []
  | S f => if x <? 0x80 then [x] else Z.lor (Z.land x 0x7f) 0x80 :: AppendUvarint_loop f (Z.shiftr x 7)
  end.
Definition AppendUvarint (x : Z) : list Z := AppendUvarint_loop 10 x.

(** [for range n { x, err = read(r) }]: the fuel bounds the iterations by the
    bytes left, since each consumes at least one. *)
Fixpoint read_range_loop {A} (fuel : nat) (n : Z) (read : reader A) : reader (list A) := fun b =>
  if n <=? 0 then Ok ([], b)
  else match fuel with
       | O => OutOfFuel
       | S f => (x <- read ;; xs <- read_range_loop f (n - 1) read ;; rret (x :: xs)) b
       end.
Definition read_range {A} (n : Z) (read : reader A) : reader (list A) :=
  fun b => read_range_loop (S (length b)) n read b.

(** * Readers that behave *)

(** [consumes_or P k m]: on success at least [k] bytes are gone; [m] panics only as [P]
    allows and does not run out of fuel. *)
Definition consumes_or (P : string -> Prop) (k : nat) {A} (m : reader A) : Prop := forall b,
  match m b with
  | Ok (_, b') => (length b' + k <= length b)%nat
  | Err _ => True
  | Panic p => P p
  | OutOfFuel => False
  end.
(** No panic at all. *)
Notation consumes := (consumes_or (fun _ => False)).

Section Consumes.
Context {P : string -> Prop}.
#[local] Notation consumes := (consumes_or P).

Lemma consumes_weaken j k {A} (m : reader A) : (j <= k)%nat -> consumes k m -> consumes j m.
Proof. intros Hjk H b. specialize (H b). destruct (m b) as [[]| | |]; auto. lia. Qed.

Lemma consumes_0 k {A} (m : reader A) : consumes k m -> consumes 0 m.
Proof. apply consumes_weaken. lia. Qed.

Lemma consumes_ret {A} (a : A) : consumes 0 (rret a).
Proof. intros b. cbn. lia. Qed.

Lemma consumes_fail k {A} e : consumes k (rfail (A := A) e).
Proof. intros b. exact I. Qed.

Lemma rcause_ok {A} message (m : reader A) b x : m b = Ok x -> rcause message m b = Ok x.
Proof. unfold rcause. by intros ->. Qed.

Lemma consumes_bind j k {A B} (m : reader A) (f : A -> reader B) :
  consumes j m -> (forall a, consumes k (f a)) -> consumes (j + k) (rbind m f).
Proof.
  intros Hm Hf b. unfold rbind. specialize (Hm b). destruct (m b) as [[a b']| | |]; cbn; auto.
  specialize (Hf a b'). destruct (f a b') as [[]| | |]; auto. lia.
Qed.

Lemma consumes_bind_l k {A B} (m : reader A) (f : A -> reader B) :
  consumes k m -> (forall a, consumes 0 (f a)) -> consumes k (rbind m f).
Proof. intros Hm Hf. rewrite <- (Nat.add_0_r k). by apply consumes_bind. Qed.

Lemma consumes_bind_0 {A B} (m : reader A) (f : A -> reader B) :
  consumes 0 m -> (forall a, consumes 0 (f a)) -> consumes 0 (rbind m f).
Proof. apply consumes_bind_l. Qed.

Lemma consumes_map k {A B} (f : A -> B) m : consumes k m -> consumes k (rmap f m).
Proof. intros Hm. apply consumes_bind_l; [done|]. intros a. apply consumes_ret. Qed.

Lemma consumes_cause k {A} message (m : reader A) : consumes k m -> consumes k (rcause message m).
Proof. intros Hm b. specialize (Hm b). unfold rcause, res_cause. by destruct (m b) as [[]| | |]. Qed.

Lemma consumes_ReadByte : consumes 1 ReadByte.
Proof. intros [|x b]; cbn; [done|lia]. Qed.

Lemma consumes_ReadFull n : consumes n (ReadFull n).
Proof.
  intros b. unfold ReadFull. destruct (length b <? n)%nat eqn:E; [done|].
  apply Nat.ltb_ge in E. rewrite length_drop. lia.
Qed.

Lemma consumes_ReadUvarint_loop n : forall i x s, consumes 1 (ReadUvarint_loop n i x s).
Proof.
  induction n as [|n IH]; intros i x s b; cbn [ReadUvarint_loop]; [done|].
  destruct b as [|y b]; [done|]. destruct (y <? 128).
  - destruct (_ && _); [done|]. cbn. lia.
  - specialize (IH (S i) (Z.lor x (u64 (Z.shiftl (Z.land y 127) s))) (s + 7) b).
    destruct (ReadUvarint_loop _ _ _ _ b) as [[]| | |]; auto. cbn. lia.
Qed.

Lemma consumes_ReadUvarint : consumes 1 ReadUvarint.
Proof. apply consumes_ReadUvarint_loop. Qed.

Lemma consumes_read_range {A} n (read : reader A) : consumes 1 read -> consumes 0 (read_range n read).
Proof.
  intros Hr b. unfold read_range.
  assert (H : forall fuel n b, (length b < fuel)%nat ->
    match read_range_loop fuel n read b with
    | Ok (_, b') => (length b' + 0 <= length b)%nat | Err _ => True | Panic p => P p | OutOfFuel => False end).
  2: { apply H. lia. }
  clear n b. induction fuel as [|fuel IH]; intros n b Hb; [lia|]. cbn [read_range_loop].
  destruct (n <=? 0); [cbn; lia|]. unfold rbind at 1. specialize (Hr b).
  destruct (read b) as [[x b']| | |]; cbn; auto. unfold rbind.
  specialize (IH (n - 1) b' ltac:(lia)).
  destruct (read_range_loop fuel (n - 1) read b') as [[xs b'']| | |]; cbn; auto. lia.
Qed.

(** What a package function does, as a read of nothing. *)
Lemma consumes_lift {A} (r : res A) : (forall p, r = Panic p -> P p) -> r <> OutOfFuel -> consumes 0 (rlift r).
Proof. intros Hp Hf b. unfold rlift. destruct r; cbn; auto. lia. Qed.

Lemma consumes_panics k {A} (m : reader A) : consumes_or (fun _ => True) k m -> (forall b p, m b = Panic p -> P p) -> consumes k m.
Proof. intros Hm Hp b. specialize (Hm b). destruct (m b) as [[]| | |] eqn:E; eauto. Qed.

End Consumes.

Lemma consumes_safe k {A} (m : reader A) b : consumes k m -> safe (m b).
Proof. intros H. specialize (H b). by destruct (m b) as [[]| | |]. Qed.

#[export] Hint Resolve consumes_ret consumes_fail consumes_ReadByte consumes_ReadFull
  consumes_ReadUvarint consumes_read_range consumes_map consumes_cause : go.

(** * Round trips *)

Lemma rbind_ok {A B} (m : reader A) (k : A -> reader B) b x b' : m b = Ok (x, b') -> rbind m k b = k x b'.
Proof. unfold rbind. by intros ->. Qed.

Lemma ReadByte_cons x b : ReadByte (x :: b) = Ok (x, b).
Proof. done. Qed.

Lemma ReadFull_app l rest n : length l = n -> ReadFull n (l ++ rest) = Ok (l, rest).
Proof.
  intros <-. unfold ReadFull. rewrite length_app.
  replace (_ <? _)%nat with false by (symmetry; apply Nat.ltb_ge; lia).
  by rewrite take_app_length, drop_app_length.
Qed.

Lemma Read_bool_Write b rest : Read_bool (Write_bool b ++ rest) = Ok (b, rest).
Proof. by destruct b. Qed.

Lemma Read_uint64_Write x rest : 0 <= x < 2 ^ 64 -> Read_uint64 (Write_uint64 x ++ rest) = Ok (x, rest).
Proof.
  intros Hx. unfold Read_uint64, rmap, rbind, Write_uint64. rewrite ReadFull_app by apply be_split_length.
  cbn [res_bind]. rewrite be_combine_split. change (256 ^ Z.of_nat 8) with (2 ^ 64).
  by rewrite Z.mod_small.
Qed.

Lemma lor_low_high x k : 0 <= k -> Z.lor (Z.land x (Z.ones k)) (Z.shiftl (Z.shiftr x k) k) = x.
Proof.
  intros Hk. apply Z.bits_inj'. intros n Hn.
  rewrite Z.lor_spec, Z.land_spec, Z.shiftl_spec, Z.testbit_ones_nonneg by lia.
  destruct (Z.ltb_spec n k).
  - rewrite (Z.testbit_neg_r _ (n - k)) by lia. by rewrite andb_true_r, orb_false_r.
  - rewrite Z.shiftr_spec by lia. replace (n - k + k) with n by lia. by rewrite andb_false_r.
Qed.

Lemma continuation_byte x :
  let b := Z.lor (Z.land x 0x7f) 0x80 in b <? 0x80 = false /\ Z.land b 0x7f = Z.land x 0x7f.
Proof.
  cbn zeta. assert (Hl : 0 <= Z.land x 127 < 128).
  { change 127 with (Z.ones 7). rewrite Z.land_ones by lia. apply Z.mod_pos_bound. lia. }
  split.
  - apply Z.ltb_ge. rewrite <- Z.lxor_lor, <- Z.add_nocarry_lxor; try lia;
      rewrite <- Z.land_assoc; change (Z.land 127 128) with 0; apply Z.land_0_r.
  - rewrite Z.land_lor_distr_l, <- Z.land_assoc. change (Z.land 127 127) with 127.
    change (Z.land 128 127) with 0. apply Z.lor_0_r.
Qed.

Lemma u64_shiftl x i : 0 <= i -> 0 <= x < 2 ^ (64 - i) -> i <= 64 -> u64 (Z.shiftl x i) = Z.shiftl x i.
Proof.
  intros Hi Hx H64. apply wrap_small. unfold is_u. rewrite Z.shiftl_mul_pow2 by lia.
  replace (2 ^ 64) with (2 ^ (64 - i) * 2 ^ i) by (rewrite <- Z.pow_add_r by lia; f_equal; lia).
  pose proof (Z.pow_pos_nonneg 2 i ltac:(lia) Hi). nia.
Qed.

Lemma ReadUvarint_loop_Append n : forall i acc x rest,
  (n + i = 10)%nat -> 0 <= x < 2 ^ (64 - 7 * Z.of_nat i) -> 0 <= acc ->
  ReadUvarint_loop n i acc (7 * Z.of_nat i) (AppendUvarint_loop n x ++ rest)
  = Ok (Z.lor acc (Z.shiftl x (7 * Z.of_nat i)), rest).
Proof.
  induction n as [|n IH]; intros i acc x rest Hn Hx Ha.
  { replace i with 10%nat in Hx by lia. change (2 ^ _) with (2 ^ (-6)) in Hx. cbn in Hx. lia. }
  cbn [AppendUvarint_loop ReadUvarint_loop]. destruct (x <? 128) eqn:E; cbn [app].
  - rewrite E. rewrite u64_shiftl by lia.
    destruct (Nat.eqb_spec i (MaxVarintLen64 - 1)) as [Hi|Hi]; [|done]. cbn [andb].
    replace (1 <? x) with false; [done|]. symmetry. apply Z.ltb_ge.
    rewrite Hi in Hx. change (2 ^ _) with 2 in Hx. lia.
  - destruct (continuation_byte x) as [-> ->]. apply Z.ltb_ge in E.
    assert (Hi : (i <= 8)%nat).
    { destruct (decide (i <= 8)%nat); [done|]. exfalso.
      assert (2 ^ (64 - 7 * Z.of_nat i) <= 2 ^ 1) by (apply Z.pow_le_mono_r; lia). lia. }
    assert (Hlow : 0 <= Z.land x 127 < 128).
    { change 127 with (Z.ones 7). rewrite Z.land_ones by lia. apply Z.mod_pos_bound. lia. }
    assert (Hbig : 2 ^ 7 <= 2 ^ (64 - 7 * Z.of_nat i)) by (apply Z.pow_le_mono_r; lia).
    rewrite u64_shiftl by lia.
    replace (7 * Z.of_nat i + 7) with (7 * Z.of_nat (S i)) by lia.
    rewrite IH.
    + f_equal. f_equal. rewrite <- Z.lor_assoc. f_equal.
      replace (7 * Z.of_nat (S i)) with (7 + 7 * Z.of_nat i) by lia.
      rewrite <- (Z.shiftl_shiftl _ 7) by lia. rewrite <- Z.shiftl_lor.
      change 127 with (Z.ones 7). by rewrite lor_low_high by lia.
    + lia.
    + rewrite Z.shiftr_div_pow2 by lia. split; [apply Z.div_pos; lia|].
      apply Z.div_lt_upper_bound; [lia|]. rewrite <- Z.pow_add_r by lia.
      replace (7 + (64 - 7 * Z.of_nat (S i))) with (64 - 7 * Z.of_nat i) by lia. lia.
    + apply Z.lor_nonneg. split; [done|]. apply Z.shiftl_nonneg. lia.
Qed.

Lemma ReadUvarint_Append x rest :
  0 <= x < 2 ^ 64 -> ReadUvarint (AppendUvarint x ++ rest) = Ok (x, rest).
Proof.
  intros Hx. unfold ReadUvarint, AppendUvarint.
  change (ReadUvarint_loop MaxVarintLen64 0 0 0) with (ReadUvarint_loop 10 0 0 (7 * Z.of_nat 0)).
  rewrite ReadUvarint_loop_Append by (try lia; done). by rewrite Z.shiftl_0_r.
Qed.

(** Reading back a sequence of elements. *)
Lemma read_range_segments {A B} (read : reader B) (g : A -> B) (l : list A) (segs : list (list Z)) rest :
  Forall2 (fun a seg => (1 <= length seg)%nat /\ forall r, read (seg ++ r) = Ok (g a, r)) l segs ->
  read_range (zlen l) read (concat segs ++ rest) = Ok (map g l, rest).
Proof.
  intros Hf. unfold read_range.
  assert (H : forall fuel, (length l < fuel)%nat ->
    read_range_loop fuel (zlen l) read (concat segs ++ rest) = Ok (map g l, rest)).
  { induction Hf as [|a seg l segs [_ Hr] Hf IH]; intros [|fuel] Hfuel; try lia; cbn [read_range_loop]; [done|].
    unfold zlen in *. replace (Z.of_nat (length (a :: l)) <=? 0) with false by (symmetry; apply Z.leb_gt; cbn [length]; lia).
    cbn [map concat]. rewrite <- app_assoc. unfold rbind at 1. rewrite Hr. cbn [res_bind].
    replace (Z.of_nat (length (a :: l)) - 1) with (Z.of_nat (length l)) by (cbn [length]; lia).
    unfold rbind. cbn [length] in Hfuel. by rewrite IH by lia. }
  apply H. rewrite length_app. clear H. induction Hf as [|a seg l segs [Hseg _] Hf IH]; cbn; [lia|].
  rewrite length_app. lia.
Qed.

(** A sequence in which some element fails to read. *)
Lemma read_range_fails {A B} (read : reader B) (g : A -> B) (l : list A) (segs : list (list Z)) rest :
  Forall2 (fun a seg => (1 <= length seg)%nat
             /\ ((forall r, read (seg ++ r) = Ok (g a, r)) \/ forall r, exists e, read (seg ++ r) = Err e)) l segs ->
  Exists (fun seg => forall r, exists e, read (seg ++ r) = Err e) segs ->
  exists e, read_range (zlen l) read (concat segs ++ rest) = Err e.
Proof.
  intros Hf He. unfold read_range.
  assert (H : forall fuel, (length l < fuel)%nat ->
    exists e, read_range_loop fuel (zlen l) read (concat segs ++ rest) = Err e).
  { induction Hf as [|a seg l segs [_ Hr] Hf IH]; [by inversion He|]. intros [|fuel] Hfuel; [lia|].
    cbn [read_range_loop]. unfold zlen in *.
    replace (Z.of_nat (length (a :: l)) <=? 0) with false by (symmetry; apply Z.leb_gt; cbn [length]; lia).
    cbn [concat length]. rewrite <- app_assoc. unfold rbind at 1.
    assert (Hbad : (forall r, exists e, read (seg ++ r) = Err e) -> exists e, read (seg ++ concat segs ++ rest) = Err e) by auto.
    destruct Hr as [Hr|Hr]; [|destruct (Hbad Hr) as [e ->]; by exists e].
    rewrite Hr. cbn [res_bind]. replace (Z.of_nat (S (length l)) - 1) with (Z.of_nat (length l)) by lia.
    assert (He' : Exists (fun seg => forall r, exists e, read (seg ++ r) = Err e) segs).
    { inversion He as [? ? Hx|]; [|done]. destruct (Hx []) as [e Hx']. by rewrite Hr in Hx'. }
    cbn [length] in Hfuel. destruct (IH He' fuel ltac:(lia)) as [e IHe]. unfold rbind. rewrite IHe. by exists e. }
  apply H. rewrite length_app. clear H He. induction Hf as [|a seg l segs [Hseg _] Hf IH]; cbn; [lia|].
  rewrite length_app. lia.
Qed.

Lemma read_range_app {A} (read : reader A) (write : A -> list Z) (l : list A) (g : A -> A) rest :
  (forall a r, a ∈ l -> read (write a ++ r) = Ok (g a, r)) ->
  (forall a, a ∈ l -> (1 <= length (write a))%nat) ->
  read_range (zlen l) read (concat (map write l) ++ rest) = Ok (map g l, rest).
Proof.
  intros Hr Hlen. apply read_range_segments. apply Forall2_fmap_r, Forall_Forall2_diag, Forall_forall. auto.
Qed.
