(* ===== verification/RuleSetOptions.v ===== *)
(** The options of a rule set: [HeadlessRule], [DefaultHeadlessRule],
    [LogicalHeadlessRule] and [PlainRuleSet] of src/option/rule_set.go. *)

From S2P Require Import Prelude NetAddr GoStrings RuleContext RuleEngine.

(** A Go slice: nil, or its elements. *)
Notation goslice A := (option (list A)).
Definition elems {A} (s : goslice A) : list A := match s with Some l => l | None => [] end.
Definition slice_set {A} (s : goslice A) : bool := nonempty (elems s).

Lemma elems_nonempty {A} (s : goslice A) l : elems s = l -> l <> [] -> s = Some l.
Proof. destruct s; cbn; congruence. Qed.

Section Options.
Context {Env : RuleEnv}.

(** [option.DefaultHeadlessRule].  [NetworkInterfaceAddress] is a pointer to an
    ordered map, given by its entries. *)
Record OptDefaultHeadlessRule := mkOptDefaultHeadlessRule {
  o_QueryType : goslice Z;
  o_Network : goslice string;
  o_Domain : goslice string;
  o_DomainSuffix : goslice string;
  o_DomainKeyword : goslice string;
  o_DomainRegex : goslice string;
  o_SourceIPCIDR : goslice string;
  o_IPCIDR : goslice string;
  o_SourcePort : goslice Z;
  o_SourcePortRange : goslice string;
  o_Port : goslice Z;
  o_PortRange : goslice string;
  o_ProcessName : goslice string;
  o_ProcessPath : goslice string;
  o_ProcessPathRegex : goslice string;
  o_PackageName : goslice string;
  o_PackageNameRegex : goslice string;
  o_NetworkType : goslice Z;
  o_NetworkIsExpensive : bool;
  o_NetworkIsConstrained : bool;
  o_WIFISSID : goslice string;
  o_WIFIBSSID : goslice string;
  o_DomainMatchStrategy : Z;
  o_NetworkInterfaceAddress : option (list (Z * list Prefix));
  o_DefaultInterfaceAddress : goslice Prefix;
  o_Invert : bool;
  o_DomainMatcher : option DomainMatcher;
  o_SourceIPSet : option IPSet;
  o_IPSet : option IPSet;
  o_AdGuardDomain : goslice string;
  o_AdGuardDomainMatcher : option AdGuardMatcher;
}.

(** The zero value. *)
Definition zeroOptDefaultHeadlessRule : OptDefaultHeadlessRule :=
  mkOptDefaultHeadlessRule None None None None None None None None None None None None None None None
    None None None false false None None 0 None None false None None None None None.

(** [option.LogicalHeadlessRule] *)
Record OptLogicalHeadlessRule (R : Type) := mkOptLogicalHeadlessRule {
  o_Mode : string;
  o_Rules : goslice R;
  o_LogicalDomainMatchStrategy : Z;
  o_LogicalInvert : bool;
}.
#[global] Arguments mkOptLogicalHeadlessRule {R}.
#[global] Arguments o_Mode {R}.
#[global] Arguments o_Rules {R}.
#[global] Arguments o_LogicalDomainMatchStrategy {R}.
#[global] Arguments o_LogicalInvert {R}.

Definition zeroOptLogicalHeadlessRule {R} : OptLogicalHeadlessRule R :=
  mkOptLogicalHeadlessRule EmptyString None 0 false.

(** [option.HeadlessRule]: [Type] says which options count. *)
Inductive OptHeadlessRule :=
| mkOptHeadlessRule (o_Type : string) (o_DefaultOptions : OptDefaultHeadlessRule)
    (o_LogicalOptions : OptLogicalHeadlessRule OptHeadlessRule).

Definition RuleTypeDefault : string := "default".
Definition RuleTypeLogical : string := "logical".

(** [DefaultHeadlessRule.IsValid]: some field other than [Invert] differs from
    its zero value; an empty slice that is not nil does. *)
Definition is_nil {A} (s : option A) : bool := match s with None => true | Some _ => false end.

Definition OptDefaultHeadlessRule_IsValid (r : OptDefaultHeadlessRule) : bool :=
  negb (is_nil (o_QueryType r) && is_nil (o_Network r) && is_nil (o_Domain r) && is_nil (o_DomainSuffix r)
        && is_nil (o_DomainKeyword r) && is_nil (o_DomainRegex r) && is_nil (o_SourceIPCIDR r)
        && is_nil (o_IPCIDR r) && is_nil (o_SourcePort r) && is_nil (o_SourcePortRange r)
        && is_nil (o_Port r) && is_nil (o_PortRange r) && is_nil (o_ProcessName r)
        && is_nil (o_ProcessPath r) && is_nil (o_ProcessPathRegex r) && is_nil (o_PackageName r)
        && is_nil (o_PackageNameRegex r) && is_nil (o_NetworkType r)
        && negb (o_NetworkIsExpensive r) && negb (o_NetworkIsConstrained r)
        && is_nil (o_WIFISSID r) && is_nil (o_WIFIBSSID r) && (o_DomainMatchStrategy r =? 0)
        && is_nil (o_NetworkInterfaceAddress r) && is_nil (o_DefaultInterfaceAddress r)
        && is_nil (o_DomainMatcher r) && is_nil (o_SourceIPSet r) && is_nil (o_IPSet r)
        && is_nil (o_AdGuardDomain r) && is_nil (o_AdGuardDomainMatcher r)).

(** [HeadlessRule.IsValid] and [LogicalHeadlessRule.IsValid]; an unknown type
    panics. *)
Fixpoint all_valid {R} (IsValid : R -> res bool) (rules : list R) : res bool :=
  match rules with
  | [] => Ok true
  | r :: rules' => let! v := IsValid r in if v then all_valid IsValid rules' else Ok false
  end.

Definition OptLogicalHeadlessRule_IsValid {R} (IsValid : R -> res bool) (l : OptLogicalHeadlessRule R) : res bool :=
  match o_Rules l with
  | None => Ok false
  | Some rules => if nonempty rules then all_valid IsValid rules else Ok false
  end.

Fixpoint OptHeadlessRule_IsValid (r : OptHeadlessRule) : res bool :=
  match r with
  | mkOptHeadlessRule ty d l =>
      if bool_decide (ty = RuleTypeDefault) || bool_decide (ty = EmptyString)
      then Ok (OptDefaultHeadlessRule_IsValid d)
      else if bool_decide (ty = RuleTypeLogical)
      then OptLogicalHeadlessRule_IsValid OptHeadlessRule_IsValid l
      else Panic ("unknown rule type: " +:+ ty)
  end.

End Options.
