(* ===== verification/Srs.v ===== *)
(** The binary rule-set format: src/common/srs (binary.go, ip_set.go, ip_cidr.go).

    Writers produce the bytes they emit, readers consume the bytes that remain.
    The succinct domain matchers, [varbin] and the compressor are packages of
    their own; what the codec relies on is stated as laws. *)

From S2P Require Import Prelude NetAddr GoStrings RuleContext RuleItems RuleEngine RuleSetOptions Binary.

(** * Packages the codec calls *)

Class SrsPackages `{RuleEnv} := {
  (* sing/common/varbin *)
  WriteUvarint : Z -> list Z;
  ReadSlice_uint16 : reader (goslice Z);
  ReadSlice_uint8 : reader (goslice Z);
  (* sing/common/domain *)
  Matcher_Write : DomainMatcher -> list Z;
  ReadMatcher : reader DomainMatcher;
  Matcher_Dump : DomainMatcher -> res (list string * list string);
  AdGuardMatcher_Write : AdGuardMatcher -> list Z;
  ReadAdGuardMatcher : reader AdGuardMatcher;
  AdGuardMatcher_Dump : AdGuardMatcher -> res (list string);
  (* netipx *)
  IPSet_Prefixes : IPSet -> res (list Prefix);
  (* badjson.TypedMap *)
  TypedMap_Put : list (Z * list Prefix) -> Z -> list Prefix -> list (Z * list Prefix);
  (* compress/zlib *)
  zlib_compress : list Z -> list Z;
  zlib_decompress : list Z -> res (list Z);
}.

(** * Constants *)

Definition MagicBytes : list Z := [0x53; 0x52; 0x53].

Definition ruleItemQueryType : Z := 0.
Definition ruleItemNetwork : Z := 1.
Definition ruleItemDomain : Z := 2.
Definition ruleItemDomainKeyword : Z := 3.
Definition ruleItemDomainRegex : Z := 4.
Definition ruleItemSourceIPCIDR : Z := 5.
Definition ruleItemIPCIDR : Z := 6.
Definition ruleItemSourcePort : Z := 7.
Definition ruleItemSourcePortRange : Z := 8.
Definition ruleItemPort : Z := 9.
Definition ruleItemPortRange : Z := 10.
Definition ruleItemProcessName : Z := 11.
Definition ruleItemProcessPath : Z := 12.
Definition ruleItemPackageName : Z := 13.
Definition ruleItemWIFISSID : Z := 14.
Definition ruleItemWIFIBSSID : Z := 15.
Definition ruleItemAdGuardDomain : Z := 16.
Definition ruleItemProcessPathRegex : Z := 17.
Definition ruleItemNetworkType : Z := 18.
Definition ruleItemNetworkIsExpensive : Z := 19.
Definition ruleItemNetworkIsConstrained : Z := 20.
Definition ruleItemNetworkInterfaceAddress : Z := 21.
Definition ruleItemDefaultInterfaceAddress : Z := 22.
Definition ruleItemPackageNameRegex : Z := 23.
Definition ruleItemFinal : Z := 0xFF.

Definition RuleSetVersion1 : Z := 1.
Definition RuleSetVersion2 : Z := 2.
Definition RuleSetVersion3 : Z := 3.
Definition RuleSetVersion4 : Z := 4.
Definition RuleSetVersion5 : Z := 5.
Definition RuleSetVersionCurrent : Z := RuleSetVersion5.

Definition maxLogicalRuleDepth : nat := 100.

Section Srs.
Context {Env : RuleEnv} {Pkg : SrsPackages}.

(** * Addresses and prefixes *)

(** [varbin.WriteUvarint(writer, len(b)); writer.Write(b)] *)
Definition write_bytes (b : list Z) : list Z := WriteUvarint (zlen b) ++ b.

(** The length and bytes of an address. *)
Definition read_addr : reader Addr :=
  addrLen <- ReadUvarint ;;
  if negb (addrLen =? 4) && negb (addrLen =? 16) then rfail ErrInvalid
  else addrBytes <- ReadFull (Z.to_nat addrLen) ;; rret (AddrFromIP addrBytes).

Definition readIPSetAddr : reader Addr := read_addr.

Definition readIPSet : reader IPSet :=
  version <- ReadByte ;;
  if negb (version =? 1) then rfail ErrInvalid
  else
    length <- Read_uint64 ;;
    read_range length (from <- readIPSetAddr ;; to <- readIPSetAddr ;; rret (from, to)).

Definition writeIPSet (set : IPSet) : list Z :=
  1 :: Write_uint64 (zlen set)
  ++ concat (map (fun '(from, to) => write_bytes (AsSlice from) ++ write_bytes (AsSlice to)) set).

Definition readPrefix : reader Prefix :=
  a <- read_addr ;; prefixBits <- ReadByte ;; rret (PrefixFrom a prefixBits).

Definition writePrefix (prefix : Prefix) : list Z :=
  write_bytes (AsSlice (ip prefix)) ++ [u8 (Bits prefix)].

(** * Items *)

Definition readRuleItemString : reader (goslice string) :=
  length <- ReadUvarint ;;
  result <- read_range length (value <- ReadSlice_uint8 ;; rret (string_of_bytes (elems value))) ;;
  rret (if nonempty result then Some result else None).

Definition writeRuleItemString (itemType : Z) (value : list string) : list Z :=
  itemType :: WriteUvarint (zlen value)
  ++ concat (map (fun s => WriteUvarint (Z.of_nat (String.length s)) ++ bytes_of_string s) value).

Definition writeRuleItemUint8 (itemType : Z) (value : list Z) : list Z :=
  itemType :: WriteUvarint (zlen value) ++ value.

Definition writeRuleItemUint16 (itemType : Z) (value : list Z) : list Z :=
  itemType :: WriteUvarint (zlen value) ++ concat (map (be_split 2) value).

Definition writeRuleItemCIDR (itemType : Z) (value : list string) : res (list Z) :=
  let! ops := res_map parse_cidr value in
  let! ipSet := IPSetBuilder_IPSet ops in
  Ok (itemType :: writeIPSet ipSet).

(** A count and that many prefixes. *)
Definition read_prefixes : reader (list Prefix) := prefixCount <- ReadUvarint ;; read_range prefixCount readPrefix.
Definition write_prefixes (l : list Prefix) : list Z := WriteUvarint (zlen l) ++ concat (map writePrefix l).

(** [var value []*T; append(value, ...)] *)
Definition appended {A} (l : list A) : goslice A := if nonempty l then Some l else None.

(** * Default rules *)

(** One turn of the loop of [readDefaultRule], past the item type and other than
    [ruleItemFinal]. *)
Definition read_item (recover : bool) (itemType lastItemType : Z) (rule : OptDefaultHeadlessRule)
    : reader OptDefaultHeadlessRule :=
  if itemType =? ruleItemQueryType then
    v <- ReadSlice_uint16 ;; rret (rule <| o_QueryType := Some (map u16 (elems v)) |>)
  else if itemType =? ruleItemNetwork then v <- readRuleItemString ;; rret (rule <| o_Network := v |>)
  else if itemType =? ruleItemDomain then
    matcher <- ReadMatcher ;;
    let rule := rule <| o_DomainMatcher := Some matcher |> in
    if recover
    then dump <- rlift (Matcher_Dump matcher) ;;
         rret (rule <| o_Domain := Some (fst dump) |> <| o_DomainSuffix := Some (snd dump) |>)
    else rret rule
  else if itemType =? ruleItemDomainKeyword then v <- readRuleItemString ;; rret (rule <| o_DomainKeyword := v |>)
  else if itemType =? ruleItemDomainRegex then v <- readRuleItemString ;; rret (rule <| o_DomainRegex := v |>)
  else if itemType =? ruleItemSourceIPCIDR then
    v <- readIPSet ;;
    let rule := rule <| o_SourceIPSet := Some v |> in
    if recover
    then prefixes <- rlift (IPSet_Prefixes v) ;; rret (rule <| o_SourceIPCIDR := Some (map Prefix_String prefixes) |>)
    else rret rule
  else if itemType =? ruleItemIPCIDR then
    v <- readIPSet ;;
    let rule := rule <| o_IPSet := Some v |> in
    if recover
    then prefixes <- rlift (IPSet_Prefixes v) ;; rret (rule <| o_IPCIDR := Some (map Prefix_String prefixes) |>)
    else rret rule
  else if itemType =? ruleItemSourcePort then v <- ReadSlice_uint16 ;; rret (rule <| o_SourcePort := v |>)
  else if itemType =? ruleItemSourcePortRange then v <- readRuleItemString ;; rret (rule <| o_SourcePortRange := v |>)
  else if itemType =? ruleItemPort then v <- ReadSlice_uint16 ;; rret (rule <| o_Port := v |>)
  else if itemType =? ruleItemPortRange then v <- readRuleItemString ;; rret (rule <| o_PortRange := v |>)
  else if itemType =? ruleItemProcessName then v <- readRuleItemString ;; rret (rule <| o_ProcessName := v |>)
  else if itemType =? ruleItemProcessPath then v <- readRuleItemString ;; rret (rule <| o_ProcessPath := v |>)
  else if itemType =? ruleItemProcessPathRegex then v <- readRuleItemString ;; rret (rule <| o_ProcessPathRegex := v |>)
  else if itemType =? ruleItemPackageName then v <- readRuleItemString ;; rret (rule <| o_PackageName := v |>)
  else if itemType =? ruleItemPackageNameRegex then v <- readRuleItemString ;; rret (rule <| o_PackageNameRegex := v |>)
  else if itemType =? ruleItemWIFISSID then v <- readRuleItemString ;; rret (rule <| o_WIFISSID := v |>)
  else if itemType =? ruleItemWIFIBSSID then v <- readRuleItemString ;; rret (rule <| o_WIFIBSSID := v |>)
  else if itemType =? ruleItemAdGuardDomain then
    matcher <- ReadAdGuardMatcher ;;
    let rule := rule <| o_AdGuardDomainMatcher := Some matcher |> in
    if recover
    then domains <- rlift (AdGuardMatcher_Dump matcher) ;; rret (rule <| o_AdGuardDomain := Some domains |>)
    else rret rule
  else if itemType =? ruleItemNetworkType then v <- ReadSlice_uint8 ;; rret (rule <| o_NetworkType := v |>)
  else if itemType =? ruleItemNetworkIsExpensive then rret (rule <| o_NetworkIsExpensive := true |>)
  else if itemType =? ruleItemNetworkIsConstrained then rret (rule <| o_NetworkIsConstrained := true |>)
  else if itemType =? ruleItemNetworkInterfaceAddress then
    size <- ReadUvarint ;;
    entries <- read_range size (key <- Read_uint8 ;; value <- read_prefixes ;; rret (key, value)) ;;
    rret (rule <| o_NetworkInterfaceAddress :=
            Some (fold_left (fun m '(key, value) => TypedMap_Put m key value) entries []) |>)
  else if itemType =? ruleItemDefaultInterfaceAddress then
    value <- read_prefixes ;; rret (rule <| o_DefaultInterfaceAddress := appended value |>)
  else rfail (ENew ("unknown rule item type: " +:+ Itoa itemType +:+ ", last type: " +:+ Itoa lastItemType)).

(** The loop of [readDefaultRule]; each turn consumes the item type at least, so
    the bytes left bound the turns. *)
Fixpoint readDefaultRule_loop (fuel : nat) (recover : bool) (lastItemType : Z) (rule : OptDefaultHeadlessRule)
    : reader OptDefaultHeadlessRule :=
  match fuel with
  | O => fun _ => OutOfFuel
  | S fuel =>
      itemType <- Read_uint8 ;;
      if itemType =? ruleItemFinal
      then invert <- Read_bool ;; rret (rule <| o_Invert := invert |>)
      else
        rule <- read_item recover itemType lastItemType rule ;;
        readDefaultRule_loop fuel recover itemType rule
  end.

Definition readDefaultRule (recover : bool) : reader OptDefaultHeadlessRule :=
  fun b => readDefaultRule_loop (S (length b)) recover 0 zeroOptDefaultHeadlessRule b.

(** An item written when present, from the version that has it on. *)
Definition write_if (present : bool) (bytes : res (list Z)) : res (list Z) :=
  if present then bytes else Ok [].
Definition since (generateVersion version : Z) (message : string) (bytes : res (list Z)) : res (list Z) :=
  if generateVersion <? version then Err (ENew message) else bytes.
Definition strings_item (itemType : Z) (value : goslice string) : res (list Z) :=
  write_if (slice_set value) (Ok (writeRuleItemString itemType (elems value))).
Definition uint16_item (itemType : Z) (value : goslice Z) : res (list Z) :=
  write_if (slice_set value) (Ok (writeRuleItemUint16 itemType (elems value))).

(** The items [writeDefaultRule] writes, in order. *)
Definition default_rule_items (rule : OptDefaultHeadlessRule) (generateVersion : Z) : list (res (list Z)) :=
  [ uint16_item ruleItemQueryType (option_map (map u16) (o_QueryType rule));
    strings_item ruleItemNetwork (o_Network rule);
    write_if (slice_set (o_Domain rule) || slice_set (o_DomainSuffix rule))
      (Ok (ruleItemDomain :: Matcher_Write
             (NewMatcher (elems (o_Domain rule)) (elems (o_DomainSuffix rule))
                (generateVersion =? RuleSetVersion1))));
    strings_item ruleItemDomainKeyword (o_DomainKeyword rule);
    strings_item ruleItemDomainRegex (o_DomainRegex rule);
    write_if (slice_set (o_SourceIPCIDR rule))
      (res_cause "source_ip_cidr" (writeRuleItemCIDR ruleItemSourceIPCIDR (elems (o_SourceIPCIDR rule))));
    write_if (slice_set (o_IPCIDR rule))
      (res_cause "ipcidr" (writeRuleItemCIDR ruleItemIPCIDR (elems (o_IPCIDR rule))));
    uint16_item ruleItemSourcePort (o_SourcePort rule);
    strings_item ruleItemSourcePortRange (o_SourcePortRange rule);
    uint16_item ruleItemPort (o_Port rule);
    strings_item ruleItemPortRange (o_PortRange rule);
    strings_item ruleItemProcessName (o_ProcessName rule);
    strings_item ruleItemProcessPath (o_ProcessPath rule);
    strings_item ruleItemProcessPathRegex (o_ProcessPathRegex rule);
    strings_item ruleItemPackageName (o_PackageName rule);
    write_if (slice_set (o_PackageNameRegex rule))
      (since generateVersion RuleSetVersion5 "`package_name_regex` rule item is only supported in version 5 or later"
         (Ok (writeRuleItemString ruleItemPackageNameRegex (elems (o_PackageNameRegex rule)))));
    write_if (slice_set (o_NetworkType rule))
      (since generateVersion RuleSetVersion3 "`network_type` rule item is only supported in version 3 or later"
         (Ok (writeRuleItemUint8 ruleItemNetworkType (elems (o_NetworkType rule)))));
    write_if (o_NetworkIsExpensive rule)
      (since generateVersion RuleSetVersion3 "`network_is_expensive` rule item is only supported in version 3 or later"
         (Ok [ruleItemNetworkIsExpensive]));
    write_if (o_NetworkIsConstrained rule)
      (since generateVersion RuleSetVersion3 "`network_is_constrained` rule item is only supported in version 3 or later"
         (Ok [ruleItemNetworkIsConstrained]));
    write_if (slice_set (o_NetworkInterfaceAddress rule))
      (since generateVersion RuleSetVersion4 "`network_interface_address` rule item is only supported in version 4 or later"
         (Ok (ruleItemNetworkInterfaceAddress :: WriteUvarint (zlen (elems (o_NetworkInterfaceAddress rule)))
              ++ concat (map (fun '(key, value) => u8 key :: write_prefixes value)
                           (elems (o_NetworkInterfaceAddress rule))))));
    write_if (slice_set (o_DefaultInterfaceAddress rule))
      (since generateVersion RuleSetVersion4 "`default_interface_address` rule item is only supported in version 4 or later"
         (Ok (ruleItemDefaultInterfaceAddress :: write_prefixes (elems (o_DefaultInterfaceAddress rule)))));
    strings_item ruleItemWIFISSID (o_WIFISSID rule);
    strings_item ruleItemWIFIBSSID (o_WIFIBSSID rule);
    write_if (slice_set (o_AdGuardDomain rule))
      (since generateVersion RuleSetVersion2 "AdGuard rule items is only supported in version 2 or later"
         (Ok (ruleItemAdGuardDomain :: AdGuardMatcher_Write (NewAdGuardMatcher (elems (o_AdGuardDomain rule)))))) ].

Definition writeDefaultRule (rule : OptDefaultHeadlessRule) (generateVersion : Z) : res (list Z) :=
  let! items := res_map id (default_rule_items rule generateVersion) in
  Ok (0 :: concat items ++ ruleItemFinal :: Write_bool (o_Invert rule)).

(** * Logical rules and rule sets *)

(** [readRule]; [levels] is the number of nesting levels still allowed,
    [maxLogicalRuleDepth + 1 - depth]. *)
Fixpoint readRule (levels : nat) (recover : bool) : reader OptHeadlessRule :=
  match levels with
  | O => rfail (ENew "logical rule nested too deep")
  | S levels =>
      ruleType <- Read_uint8 ;;
      if ruleType =? 0 then
        d <- readDefaultRule recover ;;
        rret (mkOptHeadlessRule RuleTypeDefault d zeroOptLogicalHeadlessRule)
      else if ruleType =? 1 then
        mode <- ReadByte ;;
        modeName <- (if mode =? 0 then rret LogicalTypeAnd else if mode =? 1 then rret LogicalTypeOr
                     else rfail (ENew ("unknown logical mode: " +:+ Itoa mode))) ;;
        length <- ReadUvarint ;;
        rules <- read_range length (rcause "read logical rule [" (readRule levels recover)) ;;
        invert <- Read_bool ;;
        rret (mkOptHeadlessRule RuleTypeLogical zeroOptDefaultHeadlessRule
                (mkOptLogicalHeadlessRule modeName (appended rules) 0 invert))
      else rfail (ENew ("unknown rule type: " +:+ Itoa ruleType))
  end.

Definition writeLogicalRule (writeRule : OptHeadlessRule -> res (list Z))
    (logicalRule : OptLogicalHeadlessRule OptHeadlessRule) : res (list Z) :=
  let mode := o_Mode logicalRule in
  let! modeByte :=
    if bool_decide (mode = LogicalTypeAnd) then Ok 0
    else if bool_decide (mode = LogicalTypeOr) then Ok 1
    else Panic ("unknown logical mode: " +:+ mode) in
  let! rules :=
    match o_Rules logicalRule with
    | None => Ok []
    | Some rules => res_map writeRule rules
    end in
  Ok (1 :: modeByte :: WriteUvarint (zlen rules) ++ concat rules ++ Write_bool (o_LogicalInvert logicalRule)).

Fixpoint writeRule (generateVersion : Z) (rule : OptHeadlessRule) : res (list Z) :=
  match rule with
  | mkOptHeadlessRule ty d l =>
      if bool_decide (ty = RuleTypeDefault) then writeDefaultRule d generateVersion
      else if bool_decide (ty = RuleTypeLogical) then writeLogicalRule (writeRule generateVersion) l
      else Panic ("unknown rule type: " +:+ ty)
  end.

(** [Read]: the header, then the compressed rules. *)
Definition Read (recover : bool) (file : list Z) : res (Z * list OptHeadlessRule) :=
  let! ' (magicBytes, b) := ReadFull 3 file in
  if negb (bool_decide (magicBytes = MagicBytes)) then Err (ENew "invalid sing-box rule-set file")
  else
    let! ' (version, b) := Read_uint8 b in
    if RuleSetVersionCurrent <? version then Err (ENew ("unsupported version: " +:+ Itoa version))
    else
      let! body := zlib_decompress b in
      let! ' (length, body) := ReadUvarint body in
      let! ' (rules, _) :=
        read_range length (rcause "read rule[" (readRule (S maxLogicalRuleDepth) recover)) body in
      Ok (version, rules).

Definition Write (rules : list OptHeadlessRule) (generateVersion : Z) : res (list Z) :=
  let! body := res_map (writeRule generateVersion) rules in
  Ok (MagicBytes ++ [generateVersion] ++ zlib_compress (WriteUvarint (zlen rules) ++ concat body)).

End Srs.
