(* ===== verification/SrsProofs.v ===== *)
(** The binary rule-set format: reading any input terminates without a panic, and
    what is written is read back. *)

From S2P Require Import Prelude NetAddr GoStrings RuleContext RuleItems RuleEngine RuleSetOptions Binary Srs.

(** * What the packages promise *)

(** A reader of a package uses up the bytes of what it reads, and every function
    returns; it may panic. *)

Class SrsLaws `{SrsPackages} := {
  ReadUvarint_Write x rest : 0 <= x < 2 ^ 64 -> ReadUvarint (WriteUvarint x ++ rest) = Ok (x, rest);
  WriteUvarint_length x : (1 <= length (WriteUvarint x))%nat;
  ReadSlice_uint16_Write l rest : Forall (is_u 16) l -> zlen l < 2 ^ 64 ->
    exists s, ReadSlice_uint16 (WriteUvarint (zlen l) ++ concat (map (be_split 2) l) ++ rest) = Ok (s, rest)
              /\ elems s = l;
  ReadSlice_uint8_Write l rest : Forall is_byte l -> zlen l < 2 ^ 64 ->
    exists s, ReadSlice_uint8 (WriteUvarint (zlen l) ++ l ++ rest) = Ok (s, rest) /\ elems s = l;
  ReadSlice_uint16_consumes : consumes_or (fun _ => True) 1 ReadSlice_uint16;
  ReadSlice_uint8_consumes : consumes_or (fun _ => True) 1 ReadSlice_uint8;
  ReadMatcher_Write domains suffixes legacy rest :
    ReadMatcher (Matcher_Write (NewMatcher domains suffixes legacy) ++ rest)
    = Ok (NewMatcher domains suffixes legacy, rest);
  ReadMatcher_consumes : consumes_or (fun _ => True) 0 ReadMatcher;
  Matcher_Dump_returns m : Matcher_Dump m <> OutOfFuel;
  ReadAdGuardMatcher_Write domains rest :
    ReadAdGuardMatcher (AdGuardMatcher_Write (NewAdGuardMatcher domains) ++ rest)
    = Ok (NewAdGuardMatcher domains, rest);
  ReadAdGuardMatcher_consumes : consumes_or (fun _ => True) 0 ReadAdGuardMatcher;
  AdGuardMatcher_Dump_returns m : AdGuardMatcher_Dump m <> OutOfFuel;
  IPSet_Prefixes_returns s : IPSet_Prefixes s <> OutOfFuel;
  AddrFromIP_AsSlice a : wf_addr a -> IsValid a = true -> Is4In6 a = false -> AddrFromIP (AsSlice a) = a;
  TypedMap_Put_new m key value : key ∉ map fst m -> TypedMap_Put m key value = m ++ [(key, value)];
  zlib_inverse b : zlib_decompress (zlib_compress b) = Ok b;
  zlib_returns b : zlib_decompress b <> OutOfFuel;
}.

Section Proofs.
Context {Env : RuleEnv} {Pkg : SrsPackages} {Laws : SrsLaws}.

(** * Reading is total *)

(** A function of a package panics. *)
Definition package_panics (p : string) : Prop :=
  (exists b, ReadSlice_uint16 b = Panic p) \/ (exists b, ReadSlice_uint8 b = Panic p)
  \/ (exists b, ReadMatcher b = Panic p) \/ (exists m, Matcher_Dump m = Panic p)
  \/ (exists b, ReadAdGuardMatcher b = Panic p) \/ (exists m, AdGuardMatcher_Dump m = Panic p)
  \/ (exists s, IPSet_Prefixes s = Panic p) \/ (exists b, zlib_decompress b = Panic p).

#[local] Notation consumes := (consumes_or package_panics).

Lemma consumes_uint16s : consumes 1 ReadSlice_uint16.
Proof. apply consumes_panics; [apply ReadSlice_uint16_consumes|unfold package_panics; eauto]. Qed.
Lemma consumes_uint8s : consumes 1 ReadSlice_uint8.
Proof. apply consumes_panics; [apply ReadSlice_uint8_consumes|unfold package_panics; eauto]. Qed.
Lemma consumes_matcher : consumes 0 ReadMatcher.
Proof. apply consumes_panics; [apply ReadMatcher_consumes|unfold package_panics; eauto]. Qed.
Lemma consumes_adguard : consumes 0 ReadAdGuardMatcher.
Proof. apply consumes_panics; [apply ReadAdGuardMatcher_consumes|unfold package_panics; eauto 7]. Qed.
Lemma consumes_Matcher_Dump m : consumes 0 (rlift (Matcher_Dump m)).
Proof. apply consumes_lift; [unfold package_panics; eauto 6|apply Matcher_Dump_returns]. Qed.
Lemma consumes_AdGuardMatcher_Dump m : consumes 0 (rlift (AdGuardMatcher_Dump m)).
Proof. apply consumes_lift; [unfold package_panics; eauto 9|apply AdGuardMatcher_Dump_returns]. Qed.
Lemma consumes_IPSet_Prefixes s : consumes 0 (rlift (IPSet_Prefixes s)).
Proof. apply consumes_lift; [unfold package_panics; eauto 10|apply IPSet_Prefixes_returns]. Qed.

(** Steps through a reader, leaving what is not routine. *)
Ltac reads :=
  repeat first
    [ apply consumes_ret | apply consumes_fail | apply consumes_uint16s | apply consumes_uint8s
    | apply consumes_ReadByte | apply consumes_ReadUvarint | apply consumes_ReadFull
    | apply consumes_map | apply consumes_cause | apply consumes_read_range
    | apply consumes_bind_l; [|intros ?] ].

Lemma consumes_read_addr : consumes 1 read_addr.
Proof.
  unfold read_addr. reads. destruct (_ && _); [apply consumes_fail|].
  apply consumes_bind_l; [|intros; apply consumes_ret]. eapply consumes_weaken; [|apply consumes_ReadFull]. lia.
Qed.

Lemma consumes_readIPSet : consumes 0 readIPSet.
Proof.
  unfold readIPSet. apply consumes_bind_0; [apply (consumes_0 1), consumes_ReadByte|]. intros v.
  destruct (negb _); [apply consumes_fail|].
  apply consumes_bind_0; [apply (consumes_0 8), consumes_map, consumes_ReadFull|]. intros n.
  apply consumes_read_range. apply consumes_bind_l; [apply consumes_read_addr|]. intros f.
  apply consumes_bind_0; [apply (consumes_0 1), consumes_read_addr|]. intros t. apply consumes_ret.
Qed.

Lemma consumes_read_prefixes : consumes 1 read_prefixes.
Proof.
  unfold read_prefixes, readPrefix. apply consumes_bind_l; [apply consumes_ReadUvarint|]. intros n.
  apply consumes_read_range. apply consumes_bind_l; [apply consumes_read_addr|]. intros a.
  apply consumes_bind_0; [apply (consumes_0 1), consumes_ReadByte|]. intros; apply consumes_ret.
Qed.

Lemma consumes_readRuleItemString : consumes 1 readRuleItemString.
Proof. unfold readRuleItemString. reads. Qed.

Lemma consumes_read_item recover itemType lastItemType rule :
  consumes 0 (read_item recover itemType lastItemType rule).
Proof.
  unfold read_item.
  repeat match goal with |- consumes_or _ 0 (if ?c then _ else _) => destruct c end;
    try apply consumes_ret; try apply consumes_fail;
    try (apply consumes_bind_0; [apply (consumes_0 1), consumes_readRuleItemString|intros; apply consumes_ret]);
    try (apply consumes_bind_0; [apply (consumes_0 1), consumes_uint16s|intros; apply consumes_ret]);
    try (apply consumes_bind_0; [apply (consumes_0 1), consumes_uint8s|intros; apply consumes_ret]);
    try (apply consumes_bind_0; [first [apply consumes_readIPSet|apply consumes_matcher|apply consumes_adguard]|intros v; destruct recover; [|apply consumes_ret]];
         apply consumes_bind_0; [|intros; apply consumes_ret];
         first [apply consumes_IPSet_Prefixes|apply consumes_Matcher_Dump|apply consumes_AdGuardMatcher_Dump]).
  - apply consumes_bind_0; [apply (consumes_0 1), consumes_ReadUvarint|]. intros n.
    apply consumes_bind_0; [|intros; apply consumes_ret]. apply consumes_read_range.
    apply consumes_bind_l; [apply consumes_ReadByte|]. intros k.
    apply consumes_bind_0; [apply (consumes_0 1), consumes_read_prefixes|intros; apply consumes_ret].
  - apply consumes_bind_0; [apply (consumes_0 1), consumes_read_prefixes|intros; apply consumes_ret].
Qed.

Lemma readDefaultRule_loop_total fuel recover : forall lastItemType rule b,
  (length b < fuel)%nat ->
  match readDefaultRule_loop fuel recover lastItemType rule b with
  | Ok (_, b') => (length b' + 0 <= length b)%nat | Err _ => True | Panic p => package_panics p | OutOfFuel => False end.
Proof.
  induction fuel as [|fuel IH]; intros lastItemType rule b Hb; [lia|]. cbn [readDefaultRule_loop].
  unfold rbind at 1. destruct b as [|x b]; [done|]. cbn [Read_uint8 ReadByte res_bind]. cbn [length] in *.
  destruct (x =? ruleItemFinal).
  - pose proof (consumes_bind_l (P := package_panics) 1 Read_bool (fun i => rret (rule <| o_Invert := i |>))
      (consumes_map _ _ _ consumes_ReadByte) (fun i => consumes_ret _) b) as H.
    destruct (rbind _ _ b) as [[]| | |]; auto. lia.
  - pose proof (consumes_read_item recover x lastItemType rule b) as H. unfold rbind.
    destruct (read_item recover x lastItemType rule b) as [[r b']| | |]; cbn; auto.
    specialize (IH x r b' ltac:(lia)). destruct (readDefaultRule_loop fuel recover x r b') as [[]| | |]; auto. lia.
Qed.

Lemma consumes_readDefaultRule recover : consumes 0 (readDefaultRule recover).
Proof. intros b. unfold readDefaultRule. apply readDefaultRule_loop_total. lia. Qed.

Lemma consumes_readRule levels recover : consumes 1 (readRule levels recover).
Proof.
  induction levels as [|levels IH]; cbn [readRule]; [apply consumes_fail|].
  apply consumes_bind_l; [apply consumes_ReadByte|]. intros ty.
  destruct (ty =? 0); [apply consumes_bind_0; [apply consumes_readDefaultRule|intros; apply consumes_ret]|].
  destruct (ty =? 1); [|apply consumes_fail].
  apply consumes_bind_0; [apply (consumes_0 1), consumes_ReadByte|]. intros mode.
  apply consumes_bind_0; [destruct (mode =? 0); [apply consumes_ret|];
    destruct (mode =? 1); [apply consumes_ret|apply consumes_fail]|]. intros name.
  apply consumes_bind_0; [apply (consumes_0 1), consumes_ReadUvarint|]. intros n.
  apply consumes_bind_0; [apply consumes_read_range, consumes_cause, IH|]. intros rules.
  apply consumes_bind_0; [apply (consumes_0 1), consumes_map, consumes_ReadByte|].
  intros; apply consumes_ret.
Qed.

(** C32: reading a rule-set file ends, and is as safe as the packages it calls.  On
    every input, however malformed, with or without [recover], [Read] returns rules or
    an error, unless a function of the packages it calls panics with that very message:
    [varbin.ReadSlice], the readers and [Dump] of the domain matchers,
    [IPSet.Prefixes] or the decompressor, of which it is only assumed that they
    return.  The bounds on its loops are never reached. *)
Theorem Read_total recover file :
  match Read recover file with
  | Ok _ | Err _ => True
  | Panic p => package_panics p
  | OutOfFuel => False
  end.
Proof.
  unfold Read. pose proof (consumes_ReadFull (P := package_panics) 3 file) as H1.
  destruct (ReadFull 3 file) as [[magic b]| | |]; cbn [res_bind]; auto.
  destruct (negb _); [done|]. pose proof (consumes_ReadByte (P := package_panics) b) as H2. unfold Read_uint8.
  destruct (ReadByte b) as [[version b']| | |]; cbn [res_bind]; auto.
  destruct (_ <? _); [done|]. pose proof (zlib_returns b') as H3.
  destruct (zlib_decompress b') as [body| |p|] eqn:E; cbn [res_bind]; auto; [|unfold package_panics; eauto 12].
  pose proof (consumes_ReadUvarint (P := package_panics) body) as H4. destruct (ReadUvarint body) as [[n body']| | |]; cbn [res_bind]; auto.
  pose proof (consumes_read_range n _ (consumes_cause _ "read rule[" _
    (consumes_readRule (S maxLogicalRuleDepth) recover)) body') as H5.
  destruct (read_range _ _ body') as [[rules b'']| | |]; cbn [res_bind]; auto.
Qed.

(** * What a written rule reads back as *)

(** The set [writeRuleItemCIDR] builds. *)
Definition cidr_set (value : list string) : res IPSet :=
  let! ops := res_map parse_cidr value in IPSetBuilder_IPSet ops.

Definition set_or_nil (value : goslice string) : option IPSet :=
  if slice_set value then match cidr_set (elems value) with Ok set => Some set | _ => None end else None.

(** The options read back without [recover]: lists of domains and addresses come
    back as matchers and sets, and [domain_match_strategy] is not stored. *)
Definition reread (generateVersion : Z) (r : OptDefaultHeadlessRule) : OptDefaultHeadlessRule :=
  mkOptDefaultHeadlessRule
    (if slice_set (o_QueryType r) then Some (map u16 (elems (o_QueryType r))) else None)
    (appended (elems (o_Network r)))
    None None
    (appended (elems (o_DomainKeyword r))) (appended (elems (o_DomainRegex r)))
    None None
    (appended (elems (o_SourcePort r))) (appended (elems (o_SourcePortRange r)))
    (appended (elems (o_Port r))) (appended (elems (o_PortRange r)))
    (appended (elems (o_ProcessName r))) (appended (elems (o_ProcessPath r)))
    (appended (elems (o_ProcessPathRegex r))) (appended (elems (o_PackageName r)))
    (appended (elems (o_PackageNameRegex r))) (appended (elems (o_NetworkType r)))
    (o_NetworkIsExpensive r) (o_NetworkIsConstrained r)
    (appended (elems (o_WIFISSID r))) (appended (elems (o_WIFIBSSID r)))
    0
    (if slice_set (o_NetworkInterfaceAddress r) then Some (elems (o_NetworkInterfaceAddress r)) else None)
    (appended (elems (o_DefaultInterfaceAddress r)))
    (o_Invert r)
    (if slice_set (o_Domain r) || slice_set (o_DomainSuffix r)
     then Some (NewMatcher (elems (o_Domain r)) (elems (o_DomainSuffix r)) (generateVersion =? RuleSetVersion1))
     else None)
    (set_or_nil (o_SourceIPCIDR r)) (set_or_nil (o_IPCIDR r))
    None
    (if slice_set (o_AdGuardDomain r) then Some (NewAdGuardMatcher (elems (o_AdGuardDomain r))) else None).

Fixpoint reread_rule (generateVersion : Z) (rule : OptHeadlessRule) : OptHeadlessRule :=
  match rule with
  | mkOptHeadlessRule ty d l =>
      if bool_decide (ty = RuleTypeDefault)
      then mkOptHeadlessRule RuleTypeDefault (reread generateVersion d) zeroOptLogicalHeadlessRule
      else mkOptHeadlessRule RuleTypeLogical zeroOptDefaultHeadlessRule
             (mkOptLogicalHeadlessRule (o_Mode l)
                (match o_Rules l with
                 | None => None
                 | Some rules => appended (map (reread_rule generateVersion) rules)
                 end) 0 (o_LogicalInvert l))
  end.

(** Levels of nesting of a rule. *)
Fixpoint nesting (rule : OptHeadlessRule) : nat :=
  match rule with
  | mkOptHeadlessRule ty d l =>
      if bool_decide (ty = RuleTypeDefault) then 1%nat
      else S (match o_Rules l with None => 0%nat | Some rules => max_list (map nesting rules) end)
  end.

(** ** Sizes and values the format can hold *)

Definition fits {A} (l : list A) : Prop := zlen l < 2 ^ 64.
Definition strings_ok (s : goslice string) : Prop :=
  fits (elems s) /\ Forall (fun x => Z.of_nat (String.length x) < 2 ^ 64) (elems s).
Definition storable_address (a : Addr) : Prop := wf_addr a /\ IsValid a = true /\ Is4In6 a = false.
Definition storable_prefix (p : Prefix) : Prop := wf_prefix p /\ Is4In6 (ip p) = false.
Definition prefixes_ok (l : list Prefix) : Prop := fits l /\ Forall storable_prefix l.
Definition cidr_ok (s : goslice string) : Prop := forall set, cidr_set (elems s) = Ok set ->
  fits set /\ Forall (fun '(from, to) => storable_address from /\ storable_address to) set.

Definition rule_storable (r : OptDefaultHeadlessRule) : Prop :=
  Forall strings_ok [o_Network r; o_DomainKeyword r; o_DomainRegex r; o_SourcePortRange r; o_PortRange r;
    o_ProcessName r; o_ProcessPath r; o_ProcessPathRegex r; o_PackageName r; o_PackageNameRegex r;
    o_WIFISSID r; o_WIFIBSSID r]
  /\ fits (elems (o_QueryType r))
  /\ (fits (elems (o_SourcePort r)) /\ Forall (is_u 16) (elems (o_SourcePort r)))
  /\ (fits (elems (o_Port r)) /\ Forall (is_u 16) (elems (o_Port r)))
  /\ (fits (elems (o_NetworkType r)) /\ Forall is_byte (elems (o_NetworkType r)))
  /\ (fits (elems (o_NetworkInterfaceAddress r))
      /\ NoDup (map fst (elems (o_NetworkInterfaceAddress r)))
      /\ Forall (fun '(key, value) => is_byte key /\ prefixes_ok value) (elems (o_NetworkInterfaceAddress r)))
  /\ prefixes_ok (elems (o_DefaultInterfaceAddress r))
  /\ cidr_ok (o_SourceIPCIDR r) /\ cidr_ok (o_IPCIDR r).

(** Every rule inside is storable and of a known type. *)
Fixpoint storable (rule : OptHeadlessRule) : Prop :=
  match rule with
  | mkOptHeadlessRule ty d l =>
      if bool_decide (ty = RuleTypeDefault) then rule_storable d
      else match o_Rules l with
           | None => True
           | Some rules => fits rules /\ foldr (fun r P => storable r /\ P) True rules
           end
  end.

(** ** Items *)

Lemma read_addr_write a rest :
  storable_address a -> read_addr (write_bytes (AsSlice a) ++ rest) = Ok (a, rest).
Proof.
  intros (Hw & Hv & H46). pose proof (AsSlice_length a) as Hl. unfold read_addr, write_bytes, rbind.
  assert (Hz : zlen (AsSlice a) = 4 \/ zlen (AsSlice a) = 16).
  { unfold zlen. rewrite Hl. unfold IsValid in Hv. destruct (z a); [done|by left|by right]. }
  rewrite <- app_assoc, ReadUvarint_Write by lia. cbn [res_bind].
  replace (negb _ && negb _) with false by (destruct Hz as [-> | ->]; done).
  rewrite ReadFull_app by (unfold zlen; lia). cbn [res_bind rret]. by rewrite AddrFromIP_AsSlice.
Qed.

Lemma write_bytes_length b : (1 <= length (write_bytes b))%nat.
Proof. unfold write_bytes. rewrite length_app. pose proof (WriteUvarint_length (zlen b)). lia. Qed.

Lemma readIPSet_write set rest :
  fits set -> Forall (fun '(from, to) => storable_address from /\ storable_address to) set ->
  readIPSet (writeIPSet set ++ rest) = Ok (set, rest).
Proof.
  intros Hf Hs. unfold readIPSet, writeIPSet, rbind at 1. cbn [app ReadByte res_bind].
  change (negb (1 =? 1)) with false. cbv iota. unfold rbind at 1.
  rewrite <- app_assoc, Read_uint64_Write by (unfold fits, zlen in *; lia). cbn [res_bind].
  rewrite (read_range_app _ _ _ (fun x => x)); [by rewrite map_id| |].
  - intros [from to] r Hin. rewrite Forall_forall in Hs. destruct (Hs _ Hin) as [H1 H2].
    unfold rbind, readIPSetAddr. rewrite <- app_assoc, read_addr_write by done. cbn [res_bind].
    by rewrite read_addr_write.
  - intros [from to] _. rewrite length_app. pose proof (write_bytes_length (AsSlice from)). lia.
Qed.

Lemma readPrefix_write p rest : storable_prefix p -> readPrefix (writePrefix p ++ rest) = Ok (p, rest).
Proof.
  intros [(Hw & Hv & Hb) H46]. unfold readPrefix, writePrefix, rbind at 1.
  rewrite <- app_assoc, read_addr_write by done. cbn [res_bind app].
  unfold rbind, rret. cbn [ReadByte res_bind]. do 2 f_equal.
  assert (HB : BitLen (ip p) <= 128) by (unfold BitLen; destruct (z (ip p)); lia).
  rewrite wrap_small by (unfold is_u; lia). unfold PrefixFrom.
  replace (withoutZone (ip p)) with (ip p).
  2: { unfold withoutZone, wf_addr in *. destruct (ip p) as [v []]; cbn in *; try done. by destruct Hw as [_ ->]. }
  rewrite Hv. replace (0 <=? Bits p) with true by lia. replace (Bits p <=? BitLen (ip p)) with true by lia.
  cbn [andb]. unfold Bits. destruct p as [a b]. cbn [ip bitsPlusOne]. f_equal. lia.
Qed.

Lemma read_prefixes_write l rest :
  prefixes_ok l -> read_prefixes (write_prefixes l ++ rest) = Ok (l, rest).
Proof.
  intros [Hf Hl]. unfold read_prefixes, write_prefixes, rbind.
  rewrite <- app_assoc, ReadUvarint_Write by (unfold fits, zlen in *; lia). cbn [res_bind].
  rewrite (read_range_app _ _ _ (fun x => x)); [by rewrite map_id| |].
  - intros p r Hin. rewrite Forall_forall in Hl. by apply readPrefix_write, Hl.
  - intros p _. unfold writePrefix. rewrite length_app. pose proof (write_bytes_length (AsSlice (ip p))). lia.
Qed.

Lemma readRuleItemString_write (s : goslice string) rest :
  strings_ok s ->
  readRuleItemString (WriteUvarint (zlen (elems s))
    ++ concat (map (fun x => WriteUvarint (Z.of_nat (String.length x)) ++ bytes_of_string x) (elems s)) ++ rest)
  = Ok (appended (elems s), rest).
Proof.
  intros [Hf Hs]. unfold readRuleItemString, rbind at 1.
  rewrite ReadUvarint_Write by (unfold fits, zlen in *; lia). cbn [res_bind].
  unfold rbind at 1. rewrite (read_range_app _ _ _ (fun x => x)); [by rewrite map_id| |].
  - intros x r Hin. rewrite Forall_forall in Hs. specialize (Hs _ Hin). unfold rbind.
    rewrite <- bytes_of_string_length in Hs |- *. fold (zlen (bytes_of_string x)) in Hs |- *. rewrite <- app_assoc.
    destruct (ReadSlice_uint8_Write (bytes_of_string x) r (bytes_of_string_range x) Hs) as (v & -> & Hv).
    cbn [res_bind rret]. by rewrite Hv, string_of_bytes_of_string.
  - intros x _. rewrite length_app. pose proof (WriteUvarint_length (Z.of_nat (String.length x))). lia.
Qed.

(** ** A default rule as a sequence of items *)

Implicit Types upd : OptDefaultHeadlessRule -> OptDefaultHeadlessRule.

(** The bytes of one item, and what reading them does to the rule. *)
Definition segment (item : res (list Z)) upd : Prop := forall bytes, item = Ok bytes ->
  (bytes = [] /\ forall r, upd r = r)
  \/ exists ty body, bytes = ty :: body /\ ty <> ruleItemFinal
     /\ forall lastType r rest, read_item false ty lastType r (body ++ rest) = Ok (upd r, rest).

Lemma loop_segments items upds :
  Forall2 segment items upds -> forall segs, res_map id items = Ok segs ->
  forall fuel lastType r inv rest, (length (concat segs) < fuel)%nat ->
  readDefaultRule_loop fuel false lastType r (concat segs ++ ruleItemFinal :: Write_bool inv ++ rest)
  = Ok ((fold_left (fun r u => u r) upds r) <| o_Invert := inv |>, rest).
Proof.
  induction 1 as [|item upd items upds Hseg Hrest IH]; intros segs Hsegs fuel lastType r inv rest Hfuel.
  - injection Hsegs as <-. destruct fuel as [|fuel]; [cbn in Hfuel; lia|].
    cbn [concat app readDefaultRule_loop fold_left]. unfold rbind at 1, Read_uint8. cbn [ReadByte res_bind].
    change (ruleItemFinal =? ruleItemFinal) with true. cbv iota.
    unfold rbind. rewrite Read_bool_Write. done.
  - cbn [res_map] in Hsegs. apply res_bind_ok in Hsegs as (bytes & Hitem & Hsegs).
    apply res_bind_ok in Hsegs as (segs' & Hsegs' & [= <-]). unfold id in Hitem.
    cbn [fold_left]. destruct (Hseg bytes Hitem) as [[-> Hupd]|(ty & body & -> & Hty & Hread)].
    + rewrite Hupd. cbn [concat app] in *. by apply IH.
    + cbn [concat app length] in *. rewrite length_app in Hfuel. destruct fuel as [|fuel]; [lia|].
      cbn [readDefaultRule_loop]. unfold rbind at 1, Read_uint8. cbn [ReadByte res_bind].
      replace (ty =? ruleItemFinal) with false by (symmetry; by apply Z.eqb_neq).
      unfold rbind. rewrite <- app_assoc, Hread. cbn [res_bind]. apply IH; [done|lia].
Qed.

(** An item written under a condition [c]. *)
Lemma segment_if (c : bool) ty body set upd bytes' :
  bytes' = Ok (ty :: body) -> ty <> ruleItemFinal ->
  (c = true -> forall lastType r rest, read_item false ty lastType r (body ++ rest) = Ok (set r, rest)) ->
  (c = true -> forall r, upd r = set r) -> (c = false -> forall r, upd r = r) ->
  segment (write_if c bytes') upd.
Proof.
  intros -> Hty Hread Ht Hf bytes. unfold write_if. destruct c; intros [= <-]; [right|left; auto].
  exists ty, body. split; [done|]. split; [done|]. intros. rewrite Ht by done. auto.
Qed.

Lemma segment_strings ty (set : goslice string -> OptDefaultHeadlessRule -> OptDefaultHeadlessRule) value upd :
  ty <> ruleItemFinal -> strings_ok value ->
  (forall lastType r, read_item false ty lastType r = (v <- readRuleItemString ;; rret (set v r))) ->
  (slice_set value = true -> forall r, upd r = set (appended (elems value)) r) ->
  (slice_set value = false -> forall r, upd r = r) ->
  segment (strings_item ty value) upd.
Proof.
  intros Hty Hok Hread Ht Hf. unfold strings_item.
  eapply (segment_if _ ty _ (set (appended (elems value)))); [reflexivity|done| |done|done].
  intros _ lastType r rest. rewrite Hread. unfold rbind. rewrite <- app_assoc.
  by rewrite (readRuleItemString_write value) by done.
Qed.

Lemma appended_set {A} (s : goslice A) : slice_set s = true -> appended (elems s) = Some (elems s).
Proof. unfold slice_set, appended. by intros ->. Qed.

Lemma segment_uint16 ty (set : goslice Z -> OptDefaultHeadlessRule -> OptDefaultHeadlessRule) value upd :
  ty <> ruleItemFinal -> fits (elems value) -> Forall (is_u 16) (elems value) ->
  (forall lastType r, read_item false ty lastType r = (v <- ReadSlice_uint16 ;; rret (set v r))) ->
  (slice_set value = true -> forall r, upd r = set (appended (elems value)) r) ->
  (slice_set value = false -> forall r, upd r = r) ->
  segment (uint16_item ty value) upd.
Proof.
  intros Hty Hfit Hr Hread Ht Hf. unfold uint16_item.
  eapply (segment_if _ ty _ (set (appended (elems value)))); [reflexivity|done| |done|done].
  intros Hset lastType r rest. rewrite Hread. unfold rbind. rewrite <- app_assoc.
  destruct (ReadSlice_uint16_Write (elems value) rest Hr Hfit) as (v & -> & Hv). cbn [res_bind].
  rewrite appended_set by done. rewrite (elems_nonempty v (elems value) Hv); [done|].
  unfold slice_set in Hset. by destruct (elems value).
Qed.

Lemma segment_cidr ty (set : IPSet -> OptDefaultHeadlessRule -> OptDefaultHeadlessRule) message value upd :
  ty <> ruleItemFinal -> cidr_ok value ->
  (forall lastType r, read_item false ty lastType r = (v <- readIPSet ;; rret (set v r))) ->
  (forall s, slice_set value = true -> cidr_set (elems value) = Ok s -> forall r, upd r = set s r) ->
  (slice_set value = false -> forall r, upd r = r) ->
  segment (write_if (slice_set value) (res_cause message (writeRuleItemCIDR ty (elems value)))) upd.
Proof.
  intros Hty Hok Hread Ht Hf bytes. unfold write_if. destruct (slice_set value) eqn:Hs.
  - intros Hb. right. unfold writeRuleItemCIDR in Hb.
    assert (Hset : exists s, cidr_set (elems value) = Ok s /\ bytes = ty :: writeIPSet s).
    { unfold cidr_set. destruct (res_map parse_cidr (elems value)) as [ops| | |]; try discriminate Hb.
      cbn [res_bind] in Hb |- *. destruct (IPSetBuilder_IPSet ops) as [s| | |]; try discriminate Hb.
      injection Hb as <-. eauto. }
    destruct Hset as (s & Hset & ->). destruct (Hok s Hset) as [H1 H2].
    exists ty, (writeIPSet s). split; [done|]. split; [done|]. intros lastType r rest.
    rewrite Hread. unfold rbind. rewrite readIPSet_write by done. by rewrite (Ht s).
  - intros [= <-]. left. auto.
Qed.

(** Items that exist from some version on. *)
Lemma segment_since c version since_version message bytes upd :
  segment (write_if c bytes) upd -> segment (write_if c (since version since_version message bytes)) upd.
Proof.
  unfold segment, write_if, since. destruct c; [|done]. intros H bs. destruct (_ <? _); [done|]. apply H.
Qed.

Lemma Put_all entries m :
  NoDup (map fst (m ++ entries)) ->
  fold_left (fun m '(key, value) => TypedMap_Put m key value) entries m = m ++ entries.
Proof.
  revert m. induction entries as [|[k v] entries IH]; intros m Hn; cbn [fold_left]; [by rewrite app_nil_r|].
  rewrite TypedMap_Put_new.
  - rewrite IH, <- app_assoc; [done|]. by rewrite <- app_assoc.
  - rewrite map_app in Hn. apply NoDup_app in Hn as (_ & Hd & _). intros Hin. apply (Hd _ Hin). left.
Qed.

Lemma wrap_wrap w x : wrap w (wrap w x) = wrap w x.
Proof. unfold wrap. apply Zmod_mod. Qed.

Lemma map_u16_idem l : map u16 (map u16 l) = map u16 l.
Proof. rewrite map_map. apply map_ext. intros. apply wrap_wrap. Qed.

Lemma read_interface_addresses entries lastType r rest :
  fits entries -> NoDup (map fst entries) ->
  Forall (fun '(key, value) => is_byte key /\ prefixes_ok value) entries ->
  read_item false ruleItemNetworkInterfaceAddress lastType r
    ((WriteUvarint (zlen entries) ++ concat (map (fun '(key, value) => u8 key :: write_prefixes value) entries)) ++ rest)
  = Ok (r <| o_NetworkInterfaceAddress := Some entries |>, rest).
Proof.
  intros Hf Hn He. change (read_item _ _ _ _) with
    (size <- ReadUvarint ;;
     entries <- read_range size (key <- Read_uint8 ;; value <- read_prefixes ;; rret (key, value)) ;;
     rret (r <| o_NetworkInterfaceAddress :=
             Some (fold_left (fun m '(key, value) => TypedMap_Put m key value) entries []) |>)).
  unfold rbind at 1. rewrite <- app_assoc, ReadUvarint_Write by (unfold fits, zlen in *; lia). cbn [res_bind].
  unfold rbind at 1. rewrite (read_range_app _ _ _ (fun x => x)).
  - rewrite map_id. cbn [res_bind]. by rewrite Put_all.
  - intros [k v] rest' Hin. rewrite Forall_forall in He. destruct (He _ Hin) as [Hk Hv].
    unfold rbind, Read_uint8. cbn [app ReadByte res_bind]. rewrite read_prefixes_write by done.
    cbn [res_bind]. by rewrite wrap_small.
  - intros [k v] _. cbn. lia.
Qed.

Lemma segment_query (value : goslice Z) :
  fits (elems value) ->
  segment (uint16_item ruleItemQueryType (option_map (map u16) value))
    (fun r => r <| o_QueryType := if slice_set value then Some (map u16 (elems value)) else o_QueryType r |>).
Proof.
  intros Hf. assert (He : elems (option_map (map u16) value) = map u16 (elems value)) by by destruct value.
  assert (Hs : slice_set (option_map (map u16) value) = slice_set value).
  { unfold slice_set. rewrite He. by destruct (elems value). }
  apply (segment_uint16 _ (fun v r => r <| o_QueryType := Some (map u16 (elems v)) |>));
    rewrite ?He, ?Hs; [done| | |reflexivity| |].
  - unfold fits, zlen in *. by rewrite length_map.
  - apply List.Forall_forall. intros x (y & <- & _)%in_map_iff. apply wrap_range. lia.
  - intros Hset r. rewrite Hset. unfold appended, slice_set in *.
    destruct (elems value) as [|x l]; [done|]. change (nonempty (map u16 (x :: l))) with true.
    cbn [elems]. by rewrite map_u16_idem.
  - intros -> r. by destruct r.
Qed.

(** What reading each item of [default_rule_items] changes. *)
Definition item_updates (generateVersion : Z) (src : OptDefaultHeadlessRule)
    : list (OptDefaultHeadlessRule -> OptDefaultHeadlessRule) :=
  [ fun r => r <| o_QueryType := if slice_set (o_QueryType src) then Some (map u16 (elems (o_QueryType src))) else o_QueryType r |>;
    fun r => r <| o_Network := if slice_set (o_Network src) then appended (elems (o_Network src)) else o_Network r |>;
    fun r => r <| o_DomainMatcher :=
      if slice_set (o_Domain src) || slice_set (o_DomainSuffix src)
      then Some (NewMatcher (elems (o_Domain src)) (elems (o_DomainSuffix src)) (generateVersion =? RuleSetVersion1))
      else o_DomainMatcher r |>;
    fun r => r <| o_DomainKeyword := if slice_set (o_DomainKeyword src) then appended (elems (o_DomainKeyword src)) else o_DomainKeyword r |>;
    fun r => r <| o_DomainRegex := if slice_set (o_DomainRegex src) then appended (elems (o_DomainRegex src)) else o_DomainRegex r |>;
    fun r => r <| o_SourceIPSet := if slice_set (o_SourceIPCIDR src) then set_or_nil (o_SourceIPCIDR src) else o_SourceIPSet r |>;
    fun r => r <| o_IPSet := if slice_set (o_IPCIDR src) then set_or_nil (o_IPCIDR src) else o_IPSet r |>;
    fun r => r <| o_SourcePort := if slice_set (o_SourcePort src) then appended (elems (o_SourcePort src)) else o_SourcePort r |>;
    fun r => r <| o_SourcePortRange := if slice_set (o_SourcePortRange src) then appended (elems (o_SourcePortRange src)) else o_SourcePortRange r |>;
    fun r => r <| o_Port := if slice_set (o_Port src) then appended (elems (o_Port src)) else o_Port r |>;
    fun r => r <| o_PortRange := if slice_set (o_PortRange src) then appended (elems (o_PortRange src)) else o_PortRange r |>;
    fun r => r <| o_ProcessName := if slice_set (o_ProcessName src) then appended (elems (o_ProcessName src)) else o_ProcessName r |>;
    fun r => r <| o_ProcessPath := if slice_set (o_ProcessPath src) then appended (elems (o_ProcessPath src)) else o_ProcessPath r |>;
    fun r => r <| o_ProcessPathRegex := if slice_set (o_ProcessPathRegex src) then appended (elems (o_ProcessPathRegex src)) else o_ProcessPathRegex r |>;
    fun r => r <| o_PackageName := if slice_set (o_PackageName src) then appended (elems (o_PackageName src)) else o_PackageName r |>;
    fun r => r <| o_PackageNameRegex := if slice_set (o_PackageNameRegex src) then appended (elems (o_PackageNameRegex src)) else o_PackageNameRegex r |>;
    fun r => r <| o_NetworkType := if slice_set (o_NetworkType src) then appended (elems (o_NetworkType src)) else o_NetworkType r |>;
    fun r => r <| o_NetworkIsExpensive := if o_NetworkIsExpensive src then true else o_NetworkIsExpensive r |>;
    fun r => r <| o_NetworkIsConstrained := if o_NetworkIsConstrained src then true else o_NetworkIsConstrained r |>;
    fun r => r <| o_NetworkInterfaceAddress :=
      if slice_set (o_NetworkInterfaceAddress src) then Some (elems (o_NetworkInterfaceAddress src))
      else o_NetworkInterfaceAddress r |>;
    fun r => r <| o_DefaultInterfaceAddress := if slice_set (o_DefaultInterfaceAddress src) then appended (elems (o_DefaultInterfaceAddress src)) else o_DefaultInterfaceAddress r |>;
    fun r => r <| o_WIFISSID := if slice_set (o_WIFISSID src) then appended (elems (o_WIFISSID src)) else o_WIFISSID r |>;
    fun r => r <| o_WIFIBSSID := if slice_set (o_WIFIBSSID src) then appended (elems (o_WIFIBSSID src)) else o_WIFIBSSID r |>;
    fun r => r <| o_AdGuardDomainMatcher :=
      if slice_set (o_AdGuardDomain src) then Some (NewAdGuardMatcher (elems (o_AdGuardDomain src)))
      else o_AdGuardDomainMatcher r |> ].

Ltac str_segment set :=
  apply (segment_strings _ set);
    [done|assumption|reflexivity|by intros -> |intros -> ?r; match goal with x : OptDefaultHeadlessRule |- _ => by destruct x end].

Lemma default_rule_segments generateVersion src :
  rule_storable src -> Forall2 segment (default_rule_items src generateVersion) (item_updates generateVersion src).
Proof.
  intros (Hstr & H2 & H3 & H4 & H5 & H6 & H7 & H8 & H9). rewrite !Forall_cons in Hstr.
  destruct Hstr as (? & ? & ? & ? & ? & ? & ? & ? & ? & ? & ? & ? & _).
  unfold default_rule_items, item_updates.
  repeat apply Forall2_cons_2; [..|by apply Forall2_nil].
  - by apply segment_query.
  - str_segment (fun v r => r <| o_Network := v |>).
  - eapply (segment_if _ ruleItemDomain _ (fun r => r <| o_DomainMatcher :=
      Some (NewMatcher (elems (o_Domain src)) (elems (o_DomainSuffix src)) (generateVersion =? RuleSetVersion1)) |>));
      [reflexivity|done| |by intros -> |intros -> r; by destruct r].
    intros _ lastType r rest. change (read_item _ _ _ _) with
      (matcher <- ReadMatcher ;; rret (r <| o_DomainMatcher := Some matcher |>)).
    unfold rbind. by rewrite ReadMatcher_Write.
  - str_segment (fun v r => r <| o_DomainKeyword := v |>).
  - str_segment (fun v r => r <| o_DomainRegex := v |>).
  - apply (segment_cidr _ (fun v r => r <| o_SourceIPSet := Some v |>)); [done|done|reflexivity| |intros -> r; by destruct r].
    intros s Hs Hc r. unfold set_or_nil. by rewrite Hs, Hc.
  - apply (segment_cidr _ (fun v r => r <| o_IPSet := Some v |>)); [done|done|reflexivity| |intros -> r; by destruct r].
    intros s Hs Hc r. unfold set_or_nil. by rewrite Hs, Hc.
  - apply (segment_uint16 _ (fun v r => r <| o_SourcePort := v |>)); [done|tauto|tauto|reflexivity|by intros -> |intros -> r; by destruct r].
  - str_segment (fun v r => r <| o_SourcePortRange := v |>).
  - apply (segment_uint16 _ (fun v r => r <| o_Port := v |>)); [done|tauto|tauto|reflexivity|by intros -> |intros -> r; by destruct r].
  - str_segment (fun v r => r <| o_PortRange := v |>).
  - str_segment (fun v r => r <| o_ProcessName := v |>).
  - str_segment (fun v r => r <| o_ProcessPath := v |>).
  - str_segment (fun v r => r <| o_ProcessPathRegex := v |>).
  - str_segment (fun v r => r <| o_PackageName := v |>).
  - apply segment_since. fold (strings_item ruleItemPackageNameRegex (o_PackageNameRegex src)).
    str_segment (fun v r => r <| o_PackageNameRegex := v |>).
  - apply segment_since. eapply (segment_if _ ruleItemNetworkType _ (fun r => r <| o_NetworkType := appended (elems (o_NetworkType src)) |>));
      [reflexivity|done| |by intros -> |intros -> r; by destruct r].
    intros Hset lastType r rest. change (read_item _ _ _ _) with
      (v <- ReadSlice_uint8 ;; rret (r <| o_NetworkType := v |>)).
    unfold rbind. rewrite <- app_assoc. destruct H5 as [Hfit Hb].
    destruct (ReadSlice_uint8_Write (elems (o_NetworkType src)) rest Hb Hfit) as (v & -> & Hv). cbn [res_bind].
    rewrite appended_set by done. rewrite (elems_nonempty v _ Hv); [done|].
    unfold slice_set in Hset. by destruct (elems (o_NetworkType src)).
  - apply segment_since. eapply (segment_if _ ruleItemNetworkIsExpensive [] (fun r => r <| o_NetworkIsExpensive := true |>));
      [reflexivity|done|done|by intros -> |intros -> r; by destruct r].
  - apply segment_since. eapply (segment_if _ ruleItemNetworkIsConstrained [] (fun r => r <| o_NetworkIsConstrained := true |>));
      [reflexivity|done|done|by intros -> |intros -> r; by destruct r].
  - apply segment_since. eapply (segment_if _ ruleItemNetworkInterfaceAddress _
      (fun r => r <| o_NetworkInterfaceAddress := Some (elems (o_NetworkInterfaceAddress src)) |>));
      [reflexivity|done| |by intros -> |intros -> r; by destruct r].
    intros Hset lastType r rest. destruct H6 as (? & ? & ?). by apply read_interface_addresses.
  - apply segment_since. eapply (segment_if _ ruleItemDefaultInterfaceAddress _
      (fun r => r <| o_DefaultInterfaceAddress := appended (elems (o_DefaultInterfaceAddress src)) |>));
      [reflexivity|done| |by intros -> |intros -> r; by destruct r].
    intros Hset lastType r rest. change (read_item _ _ _ _) with
      (v <- read_prefixes ;; rret (r <| o_DefaultInterfaceAddress := appended v |>)).
    unfold rbind. by rewrite read_prefixes_write.
  - str_segment (fun v r => r <| o_WIFISSID := v |>).
  - str_segment (fun v r => r <| o_WIFIBSSID := v |>).
  - apply segment_since. eapply (segment_if _ ruleItemAdGuardDomain _ (fun r => r <| o_AdGuardDomainMatcher :=
      Some (NewAdGuardMatcher (elems (o_AdGuardDomain src))) |>));
      [reflexivity|done| |by intros -> |intros -> r; by destruct r].
    intros _ lastType r rest. change (read_item _ _ _ _) with
      (matcher <- ReadAdGuardMatcher ;; rret (r <| o_AdGuardDomainMatcher := Some matcher |>)).
    unfold rbind. by rewrite ReadAdGuardMatcher_Write.
Qed.

(** What an item leaves of a field that starts from its zero value. *)
Definition kept {A} (s : goslice A) : goslice A := if slice_set s then appended (elems s) else None.
Definition kept_bool (b : bool) : bool := if b then true else false.
Definition kept_set (s : goslice string) : option IPSet := if slice_set s then set_or_nil s else None.

Lemma kept_appended {A} (s : goslice A) : appended (elems s) = kept s.
Proof. unfold kept, appended, slice_set. by destruct (nonempty _). Qed.

Lemma kept_bool_eq b : b = kept_bool b.
Proof. by destruct b. Qed.

Lemma kept_set_eq s : set_or_nil s = kept_set s.
Proof. unfold kept_set, set_or_nil. by destruct (slice_set s). Qed.

(** One update of a record given by its fields. *)
Ltac update_step :=
  match goal with
  | |- context G [fold_left ?f (?u :: ?us) ?r] =>
      let r1 := eval hnf in (u r) in
      let r2 := eval cbv beta delta [constant] in r1 in
      let r' := eval cbn [
            o_QueryType o_Network o_Domain o_DomainSuffix o_DomainKeyword o_DomainRegex o_SourceIPCIDR o_IPCIDR
            o_SourcePort o_SourcePortRange o_Port o_PortRange o_ProcessName o_ProcessPath
            o_ProcessPathRegex o_PackageName o_PackageNameRegex o_NetworkType o_NetworkIsExpensive
            o_NetworkIsConstrained o_WIFISSID o_WIFIBSSID o_DomainMatchStrategy
            o_NetworkInterfaceAddress o_DefaultInterfaceAddress o_Invert o_DomainMatcher
            o_SourceIPSet o_IPSet o_AdGuardDomain o_AdGuardDomainMatcher] in r2 in
      let goal := context G [fold_left f us r'] in change_no_check goal
  end.

Lemma item_updates_reread generateVersion src :
  (fold_left (fun r u => u r) (item_updates generateVersion src) zeroOptDefaultHeadlessRule)
    <| o_Invert := o_Invert src |> = reread generateVersion src.
Proof.
  unfold reread. rewrite !kept_appended, !kept_set_eq.
  rewrite (kept_bool_eq (o_NetworkIsExpensive src)), (kept_bool_eq (o_NetworkIsConstrained src)).
  unfold item_updates, zeroOptDefaultHeadlessRule. repeat update_step. reflexivity.
Qed.

Lemma readDefaultRule_write generateVersion src bytes rest :
  rule_storable src -> writeDefaultRule src generateVersion = Ok bytes ->
  exists body, bytes = 0 :: body /\ readDefaultRule false (body ++ rest) = Ok (reread generateVersion src, rest).
Proof.
  intros Hs Hw. unfold writeDefaultRule in Hw. apply res_bind_ok in Hw as (segs & Hsegs & [= <-]).
  eexists. split; [reflexivity|]. unfold readDefaultRule. rewrite <- app_assoc. cbn [app].
  rewrite (loop_segments _ _ (default_rule_segments generateVersion src Hs) segs Hsegs).
  - by rewrite item_updates_reread.
  - rewrite !length_app. lia.
Qed.

(** ** Nested rules *)

Section RuleInduction.
Variable P : OptHeadlessRule -> Prop.
Hypothesis H : forall ty d l, (forall rules, o_Rules l = Some rules -> Forall P rules) -> P (mkOptHeadlessRule ty d l).

Lemma OptHeadlessRule_nested_ind rule : P rule.
Proof.
  revert rule. fix IH 1. intros [ty d [mode rules strategy inv]]. apply H. cbn.
  intros rs Hrs. destruct rules as [rules|]; [|discriminate]. injection Hrs as <-.
  induction rules as [|r rules IHr]; constructor; [apply IH|exact IHr].
Qed.
End RuleInduction.

Lemma max_list_le n l : (forall x, x ∈ l -> (x <= n)%nat) -> (max_list l <= n)%nat.
Proof.
  induction l as [|x l IH]; intros Hl; cbn; [lia|].
  apply Nat.max_lub; [apply Hl; left|apply IH; intros y Hy; apply Hl; by right].
Qed.

Lemma max_list_ge x l : x ∈ l -> (x <= max_list l)%nat.
Proof.
  induction 1 as [x l|x y l _ IH]; cbn; [apply Nat.le_max_l|]. etransitivity; [exact IH|apply Nat.le_max_r].
Qed.

Lemma foldr_and {A} (P : A -> Prop) l : foldr (fun r Q => P r /\ Q) True l -> Forall P l.
Proof. induction l; cbn; [constructor|]. intros [? ?]. constructor; auto. Qed.

Lemma res_map_Forall2 {A B} (f : A -> res B) l ys :
  res_map f l = Ok ys -> Forall2 (fun x y => f x = Ok y) l ys.
Proof.
  revert ys. induction l as [|x l IH]; intros ys; cbn.
  - intros [= <-]. constructor.
  - rewrite res_bind_ok. intros (y & Hy & Hys). apply res_bind_ok in Hys as (ys' & Hys & [= <-]). constructor; auto.
Qed.

Lemma rcause_err {A} m (read : reader A) b : (exists e, read b = Err e) -> exists e, rcause m read b = Err e.
Proof. unfold rcause. intros [e ->]. by eexists. Qed.

(** A written rule reads back; [levels] bounds its nesting. *)
Definition reads_back generateVersion levels rule bytes : Prop :=
  (1 <= length bytes)%nat /\
  forall rest, readRule levels false (bytes ++ rest) = Ok (reread_rule generateVersion rule, rest).

Lemma reads_back_list generateVersion levels rules bodies rest :
  Forall2 (reads_back generateVersion levels) rules bodies ->
  forall m, read_range (zlen rules) (rcause m (readRule levels false)) (concat bodies ++ rest)
  = Ok (map (reread_rule generateVersion) rules, rest).
Proof.
  intros Hf m. apply read_range_segments. eapply Forall2_impl; [exact Hf|].
  intros rule body [Hl Hr]. split; [exact Hl|]. intros r. apply rcause_ok, Hr.
Qed.

Lemma reads_back_default generateVersion levels d l bytes :
  rule_storable d -> writeDefaultRule d generateVersion = Ok bytes ->
  reads_back generateVersion (S levels) (mkOptHeadlessRule RuleTypeDefault d l) bytes.
Proof.
  intros Hs Hw. split.
  - destruct (readDefaultRule_write _ _ _ [] Hs Hw) as (body & -> & _). cbn. lia.
  - intros rest. destruct (readDefaultRule_write _ _ _ rest Hs Hw) as (body & -> & Hr).
    cbn [app readRule]. unfold rbind at 1. cbn [Read_uint8]. cbn. unfold rbind. by rewrite Hr.
Qed.

(** The reader past the header of a written logical rule. *)
Definition read_logical levels (l : OptLogicalHeadlessRule OptHeadlessRule) : reader OptHeadlessRule :=
  rules <- read_range (zlen (elems (o_Rules l))) (rcause "read logical rule [" (readRule levels false)) ;;
  invert <- Read_bool ;;
  rret (mkOptHeadlessRule RuleTypeLogical zeroOptDefaultHeadlessRule
          (mkOptLogicalHeadlessRule (o_Mode l) (appended rules) 0 invert)).

Lemma writeLogicalRule_inv generateVersion l bytes :
  writeLogicalRule (writeRule generateVersion) l = Ok bytes -> fits (elems (o_Rules l)) ->
  exists bodies, res_map (writeRule generateVersion) (elems (o_Rules l)) = Ok bodies
    /\ (1 <= length bytes)%nat
    /\ forall levels rest, readRule (S levels) false (bytes ++ rest)
         = read_logical levels l (concat bodies ++ Write_bool (o_LogicalInvert l) ++ rest).
Proof.
  intros Hw Hfits. unfold writeLogicalRule in Hw.
  apply res_bind_ok in Hw as (modeByte & Hmode & Hw). apply res_bind_ok in Hw as (bodies & Hb & [= <-]).
  assert (Hbodies : res_map (writeRule generateVersion) (elems (o_Rules l)) = Ok bodies) by by destruct (o_Rules l).
  pose proof (Forall2_length _ _ _ (res_map_Forall2 _ _ _ Hbodies)) as Hlen.
  exists bodies. split; [done|]. split; [cbn; lia|]. intros levels rest.
  assert (Hm : (if modeByte =? 0 then rret LogicalTypeAnd else if modeByte =? 1 then rret LogicalTypeOr
      else rfail (ENew ("unknown logical mode: " +:+ Itoa modeByte))) = rret (o_Mode l)).
  { destruct (bool_decide_reflect (o_Mode l = LogicalTypeAnd)) as [->|_]; [by injection Hmode as <-|].
    destruct (bool_decide_reflect (o_Mode l = LogicalTypeOr)) as [->|_]; by inversion Hmode. }
  cbn [app readRule]. erewrite rbind_ok by reflexivity. cbn [Z.eqb Pos.eqb].
  erewrite rbind_ok by reflexivity. rewrite Hm. erewrite rbind_ok by reflexivity. rewrite <- !app_assoc.
  rewrite (rbind_ok _ _ _ _ _ (ReadUvarint_Write (zlen bodies) _ ltac:(unfold fits, zlen in *; lia))).
  unfold read_logical. by replace (zlen bodies) with (zlen (elems (o_Rules l))) by (unfold zlen; lia).
Qed.

Lemma storable_rules l :
  match o_Rules l with
  | None => True
  | Some rules => fits rules /\ foldr (fun r P => storable r /\ P) True rules
  end -> fits (elems (o_Rules l)) /\ Forall storable (elems (o_Rules l)).
Proof.
  destruct (o_Rules l) as [rules|]; cbn [elems]; [|by split; [done|constructor]].
  intros [Hf Hs]. split; [done|]. by apply foldr_and.
Qed.

Lemma nesting_rules (l : OptLogicalHeadlessRule OptHeadlessRule) :
  match o_Rules l with None => 0%nat | Some rules => max_list (map nesting rules) end
  = max_list (map nesting (elems (o_Rules l))).
Proof. by destruct (o_Rules l). Qed.

Lemma logical_rule_ind (P : OptHeadlessRule -> Prop) l :
  (forall rules, o_Rules l = Some rules -> Forall P rules) -> Forall P (elems (o_Rules l)).
Proof. intros H. destruct (o_Rules l) as [rules|]; [by apply H|constructor]. Qed.

Lemma writeRule_reads_back generateVersion rule :
  storable rule -> forall levels bytes, (nesting rule <= levels)%nat ->
  writeRule generateVersion rule = Ok bytes -> reads_back generateVersion levels rule bytes.
Proof.
  induction rule as [ty d l IH] using OptHeadlessRule_nested_ind.
  intros Hs levels bytes Hn Hw. cbn [storable nesting writeRule] in *.
  destruct (bool_decide_reflect (ty = RuleTypeDefault)) as [->|_].
  - destruct levels as [|levels]; [lia|]. by apply reads_back_default.
  - destruct levels as [|levels]; [lia|].
    destruct (bool_decide_reflect (ty = RuleTypeLogical)) as [->|_]; [|discriminate].
    rewrite nesting_rules in Hn. apply storable_rules in Hs as [Hfits Hs]. apply logical_rule_ind in IH.
    destruct (writeLogicalRule_inv _ _ _ Hw Hfits) as (bodies & Hb & Hl & Hr).
    assert (Hf : Forall2 (reads_back generateVersion levels) (elems (o_Rules l)) bodies).
    { apply res_map_Forall2 in Hb. clear Hw Hr Hfits. revert Hn.
      induction Hb as [|r body rules bodies Hr Hb IHb]; [constructor|].
      apply Forall_cons in IH as [IHr IH]. apply Forall_cons in Hs as [Hsr Hs]. cbn. intros Hn.
      constructor; [apply IHr; [done|lia|done]|apply IHb; [done|done|lia]]. }
    split; [done|]. intros rest. rewrite Hr. unfold read_logical.
    rewrite (rbind_ok _ _ _ _ _ (reads_back_list _ _ _ _ _ Hf _)), (rbind_ok _ _ _ _ _ (Read_bool_Write _ _)).
    by destruct l as [mode [rules|] strategy inv].
Qed.

(** A rule nested deeper than [levels] is written but not read. *)
Lemma writeRule_too_deep generateVersion rule :
  storable rule -> forall levels bytes, (levels < nesting rule)%nat ->
  writeRule generateVersion rule = Ok bytes ->
  (1 <= length bytes)%nat /\ forall rest, exists e, readRule levels false (bytes ++ rest) = Err e.
Proof.
  induction rule as [ty d l IH] using OptHeadlessRule_nested_ind.
  intros Hs levels bytes Hn Hw. cbn [storable nesting writeRule] in *.
  destruct (bool_decide_reflect (ty = RuleTypeDefault)) as [->|_].
  - destruct levels as [|levels]; [|lia]. pose proof (reads_back_default _ 0 _ zeroOptLogicalHeadlessRule _ Hs Hw) as [Hl _].
    split; [done|]. intros rest. by eexists.
  - destruct (bool_decide_reflect (ty = RuleTypeLogical)) as [->|_]; [|discriminate].
    rewrite nesting_rules in Hn. apply storable_rules in Hs as [Hfits Hs]. apply logical_rule_ind in IH.
    destruct (writeLogicalRule_inv _ _ _ Hw Hfits) as (bodies & Hb & Hl & Hr).
    split; [done|]. intros rest. destruct levels as [|levels]; [by eexists|]. rewrite Hr. unfold read_logical.
    apply res_map_Forall2 in Hb.
    edestruct (read_range_fails (rcause "read logical rule [" (readRule levels false)) (reread_rule generateVersion)
      (elems (o_Rules l)) bodies) as [e He].
    3: { unfold rbind at 1. rewrite He. by eexists. }
    all: clear Hw Hr Hfits.
    + clear Hn. induction Hb as [|r body rules bodies Hr Hb IHb]; [constructor|].
      apply Forall_cons in IH as [IHr IH]. apply Forall_cons in Hs as [Hsr Hs]. constructor; [|by apply IHb].
      destruct (le_lt_dec (nesting r) levels) as [Hle|Hlt].
      * destruct (writeRule_reads_back _ _ Hsr _ _ Hle Hr) as [Hlen Hread].
        split; [done|]. left. intros r'. apply rcause_ok, Hread.
      * destruct (IHr Hsr _ _ Hlt Hr) as [Hlen Hread]. split; [done|]. right. intros r'. apply rcause_err, Hread.
    + induction Hb as [|r body rules bodies Hr Hb IHb]; [cbn in Hn; lia|].
      apply Forall_cons in IH as [IHr IH]. apply Forall_cons in Hs as [Hsr Hs]. cbn in Hn.
      destruct (le_lt_dec (nesting r) levels) as [Hle|Hlt]; [apply Exists_cons_tl, IHb; [done|done|lia]|].
      apply Exists_cons_hd. intros r'. destruct (IHr Hsr _ _ Hlt Hr) as [_ Hread]. apply rcause_err, Hread.
Qed.

End Proofs.
