(* ===== verification/SrsTheorems.v ===== *)
(** The binary rule-set format: an instance of the packages the codec calls, and
    the properties of whole files. *)

From Stdlib Require Import Btauto.
From S2P Require Import Prelude NetAddr GoStrings RuleContext RuleItems RuleEngine RuleSpec RulePreMatch RuleExamples RuleSetOptions Binary Srs SrsProofs.

(** * An instance of the packages *)

(** Lists of strings as tokens: a byte of a string, the end of a string, the end
    of the list. *)
Definition write_tokens (l : list string) : list Z :=
  flat_map (fun s => flat_map (fun c => [1; c]) (bytes_of_string s) ++ [2]) l ++ [0].
Fixpoint read_tokens (current : list Z) (b : list Z) : res (list string * list Z) :=
  match b with
  | 0 :: b => Ok ([], b)
  | 1 :: c :: b => read_tokens (current ++ [c]) b
  | 2 :: b => let! ' (l, rest) := read_tokens [] b in Ok (string_of_bytes current :: l, rest)
  | _ => Err (ENew "unexpected token")
  end.

Lemma read_tokens_string s current b :
  read_tokens current (flat_map (fun c => [1; c]) (bytes_of_string s) ++ b)
  = read_tokens (current ++ bytes_of_string s) b.
Proof.
  revert current. induction s as [|c s IH]; intros current; cbn; [by rewrite app_nil_r|].
  rewrite IH. by rewrite <- app_assoc.
Qed.

Lemma read_tokens_write l rest : read_tokens [] (write_tokens l ++ rest) = Ok (l, rest).
Proof.
  unfold write_tokens. induction l as [|s l IH]; cbn [flat_map]; [done|].
  rewrite <- !app_assoc, read_tokens_string. cbn [app read_tokens]. rewrite <- app_assoc in IH. cbn [app] in IH.
  rewrite IH. cbn [res_bind].
  by rewrite string_of_bytes_of_string.
Qed.

Lemma read_tokens_consumes n : forall current b, (length b <= n)%nat ->
  match read_tokens current b with
  | Ok (_, b') => (length b' + 0 <= length b)%nat | Err _ => True | _ => False end.
Proof.
  induction n as [|n IH]; intros current [|x b] Hb; cbn [length] in *; try done; try lia.
  destruct x as [|[| [| |]|]|]; cbn [read_tokens]; try done; try lia.
  - specialize (IH [] b ltac:(lia)). destruct (read_tokens [] b) as [[l r]| | |]; cbn [res_bind]; auto; lia.
  - destruct b as [|c b]; [done|]. cbn [length] in *.
    specialize (IH (current ++ [c]) b ltac:(lia)). destruct (read_tokens _ b) as [[l r]| | |]; auto; lia.
Qed.

#[local] Existing Instance example_env.

(** Domain matchers as their lists, typed slices element by element, and the
    identity for the compressor. *)
Definition example_packages : SrsPackages := {|
  WriteUvarint := AppendUvarint;
  ReadSlice_uint16 := n <- ReadUvarint ;; l <- read_range n (rmap be_combine (ReadFull 2)) ;; rret (Some l);
  ReadSlice_uint8 := n <- ReadUvarint ;; l <- read_range n ReadByte ;; rret (Some l);
  Matcher_Write m := write_tokens (fst m) ++ write_tokens (snd m);
  ReadMatcher := domains <- read_tokens [] ;; suffixes <- read_tokens [] ;; rret (domains, suffixes);
  Matcher_Dump m := Ok m;
  AdGuardMatcher_Write := write_tokens;
  ReadAdGuardMatcher := read_tokens [];
  AdGuardMatcher_Dump m := Ok m;
  IPSet_Prefixes set := Ok (map (fun '(from, _) => PrefixFrom from (BitLen from)) set);
  TypedMap_Put m key value := filter (fun '(k, _) => k <> key) m ++ [(key, value)];
  zlib_compress b := b;
  zlib_decompress b := Ok b;
|}.

#[local] Existing Instance example_packages.

Lemma consumes_tokens P current : consumes_or P 0 (read_tokens current).
Proof. intros b. pose proof (read_tokens_consumes (length b) current b (le_n _)) as H. by destruct (read_tokens current b) as [[]| | |]. Qed.

Lemma example_laws : SrsLaws.
Proof.
  constructor.
  - apply ReadUvarint_Append.
  - intros x. cbn. destruct (x <? 128); cbn; lia.
  - intros l rest Hl Hlen. exists (Some l). split; [|done]. cbn [ReadSlice_uint16 example_packages WriteUvarint].
    erewrite rbind_ok by (apply ReadUvarint_Append; unfold zlen in *; lia).
    erewrite rbind_ok.
    2: { apply (read_range_app _ (be_split 2) l (fun x => x)); [|intros; rewrite be_split_length; lia].
      intros a r Ha. unfold rmap. erewrite rbind_ok by (apply ReadFull_app; apply be_split_length).
      rewrite be_combine_split. unfold rret. rewrite Forall_forall in Hl. apply Hl in Ha. unfold is_u in Ha. do 2 f_equal. apply Z.mod_small. lia. }
    by rewrite map_id.
  - intros l rest Hl Hlen. exists (Some l). split; [|done].  cbn [ReadSlice_uint8 example_packages WriteUvarint].
    erewrite rbind_ok by (apply ReadUvarint_Append; unfold zlen in *; lia).
    erewrite rbind_ok.
    2: { rewrite <- (concat_singletons l) at 2.
      apply (read_range_app _ (fun x => [x]) l (fun x => x)); [done|intros; cbn; lia]. }
    by rewrite map_id.
  - apply consumes_bind_l; [apply consumes_ReadUvarint|]. intros n.
    apply consumes_bind_0; [apply consumes_read_range|intros; apply consumes_ret].
    apply (consumes_weaken 1 2); [lia|]. apply consumes_map, consumes_ReadFull.
  - apply consumes_bind_l; [apply consumes_ReadUvarint|]. intros n.
    apply consumes_bind_0; [apply consumes_read_range, consumes_ReadByte|intros; apply consumes_ret].
  - intros domains suffixes legacy rest. cbn. rewrite <- app_assoc.
    erewrite rbind_ok by apply read_tokens_write. by erewrite rbind_ok by apply read_tokens_write.
  - apply consumes_bind_0; [apply consumes_tokens|]. intros d.
    apply consumes_bind_0; [apply consumes_tokens|]. intros s. apply consumes_ret.
  - done.
  - intros. apply read_tokens_write.
  - apply consumes_tokens.
  - done.
  - done.
  - intros a Hw Hv _. cbn. by rewrite AddrFromSlice_AsSlice.
  - intros m key value Hk. cbn. f_equal. induction m as [|[k v] m IH]; [done|]. cbn in Hk.
    rewrite filter_cons. apply not_elem_of_cons in Hk as [Hne Hk]. rewrite decide_True by done. by rewrite IH.
  - done.
  - done.
Qed.

(** * Versions *)

(** The items a version must have: [PlainRuleSetCompat]'s versions by item. *)
Definition item_versions `{RuleEnv} (r : OptDefaultHeadlessRule) : list (bool * Z) :=
  [ (slice_set (o_AdGuardDomain r), 2);
    (slice_set (o_NetworkType r), 3); (o_NetworkIsExpensive r, 3); (o_NetworkIsConstrained r, 3);
    (slice_set (o_NetworkInterfaceAddress r), 4); (slice_set (o_DefaultInterfaceAddress r), 4);
    (slice_set (o_PackageNameRegex r), 5) ].

Definition is_ok {A} (r : res A) : bool := match r with Ok _ => true | _ => false end.

(** A rule the writer accepts for a version: its items exist in it, its address
    lists parse, and its types and modes are known. *)
Definition writable_default `{RuleEnv} (version : Z) (r : OptDefaultHeadlessRule) : bool :=
  forallb (fun '(present, since) => negb present || (since <=? version)) (item_versions r)
  && (negb (slice_set (o_SourceIPCIDR r)) || is_ok (cidr_set (elems (o_SourceIPCIDR r))))
  && (negb (slice_set (o_IPCIDR r)) || is_ok (cidr_set (elems (o_IPCIDR r)))).

Fixpoint writable `{RuleEnv} (version : Z) (rule : OptHeadlessRule) : bool :=
  match rule with
  | mkOptHeadlessRule ty d l =>
      if bool_decide (ty = RuleTypeDefault) then writable_default version d
      else bool_decide (ty = RuleTypeLogical)
           && (bool_decide (o_Mode l = LogicalTypeAnd) || bool_decide (o_Mode l = LogicalTypeOr))
           && match o_Rules l with None => true | Some rules => forallb (writable version) rules end
  end.

Section Theorems.
Context {Env : RuleEnv} {Pkg : SrsPackages}.

Lemma is_ok_bind {A B} (m : res A) (k : A -> res B) :
  (forall a, is_ok (k a) = true) -> is_ok (res_bind m k) = is_ok m.
Proof. destruct m; cbn; auto. Qed.

Lemma is_ok_res_map {A B} (f : A -> res B) l : is_ok (res_map f l) = forallb (fun x => is_ok (f x)) l.
Proof.
  induction l as [|x l IH]; [done|]. cbn [res_map forallb]. rewrite <- IH.
  destruct (f x); cbn; [|done..]. by apply is_ok_bind.
Qed.

Lemma is_ok_write_if b m : is_ok (write_if b m) = negb b || is_ok m.
Proof. by destruct b. Qed.

Lemma is_ok_since v v' msg m : is_ok (since v v' msg (Ok m)) = (v' <=? v).
Proof. unfold since. rewrite Z.leb_antisym. by destruct (v <? v'). Qed.

Lemma is_ok_strings t s : is_ok (strings_item t s) = true.
Proof. unfold strings_item. by destruct (slice_set s). Qed.

Lemma is_ok_uint16 t s : is_ok (uint16_item t s) = true.
Proof. unfold uint16_item. by destruct (slice_set s). Qed.

Lemma is_ok_cidr m t s : is_ok (res_cause m (writeRuleItemCIDR t s)) = is_ok (cidr_set s).
Proof.
  unfold writeRuleItemCIDR, cidr_set. destruct (res_map parse_cidr s); cbn; [|done..]. by destruct (IPSetBuilder_IPSet a).
Qed.

Lemma is_ok_writeDefaultRule r v : is_ok (writeDefaultRule r v) = writable_default v r.
Proof.
  unfold writeDefaultRule. rewrite is_ok_bind by done. rewrite is_ok_res_map. unfold default_rule_items. cbn [forallb].
  unfold id. rewrite !is_ok_strings, !is_ok_uint16, !is_ok_write_if, !is_ok_since, !is_ok_cidr.
  unfold writable_default, item_versions. cbn [forallb is_ok].
  rewrite !orb_true_r. unfold RuleSetVersion2, RuleSetVersion3, RuleSetVersion4, RuleSetVersion5. btauto.
Qed.

Lemma is_ok_writeRule v rule : is_ok (writeRule v rule) = writable v rule.
Proof.
  induction rule as [ty d l IH] using OptHeadlessRule_nested_ind. cbn [writeRule writable].
  destruct (bool_decide (ty = RuleTypeDefault)); [apply is_ok_writeDefaultRule|].
  destruct (bool_decide (ty = RuleTypeLogical)); [|done]. unfold writeLogicalRule.
  assert (Hr : is_ok (match o_Rules l with None => Ok [] | Some rules => res_map (writeRule v) rules end)
    = match o_Rules l with None => true | Some rules => forallb (writable v) rules end).
  { destruct (o_Rules l) as [rules|]; [|done]. rewrite is_ok_res_map. specialize (IH _ eq_refl).
    induction IH as [|r rules Hr _ IH]; [done|]. cbn. by rewrite Hr, IH. }
  destruct (bool_decide (o_Mode l = LogicalTypeAnd)); [cbn; by rewrite is_ok_bind|].
  destruct (bool_decide (o_Mode l = LogicalTypeOr)); [cbn; by rewrite is_ok_bind|done].
Qed.

Lemma is_ok_Write rules v : is_ok (Write rules v) = forallb (writable v) rules.
Proof.
  unfold Write. rewrite is_ok_bind, is_ok_res_map by done. induction rules as [|r rules IH]; [done|].
  cbn. by rewrite is_ok_writeRule, IH.
Qed.

(** A rule set is written for a version of the format exactly when every
    rule in it, at any nesting, uses items of that version only (2 for AdGuard
    domains, 3 for network types and states, 4 for interface addresses, 5 for
    package expressions), its address lists parse and its rule types and logical
    modes are known; otherwise nothing is produced. *)
Theorem Write_version_gate rules generateVersion :
  (exists file, Write rules generateVersion = Ok file) <-> forallb (writable generateVersion) rules = true.
Proof.
  rewrite <- is_ok_Write. destruct (Write rules generateVersion) as [file| | |]; cbn; split; try done; [eauto|..];
    by intros [].
Qed.

Context {Laws : SrsLaws}.

(** The bytes of a file, after its header is read. *)
Lemma Read_Write_header rules generateVersion file :
  0 <= generateVersion <= RuleSetVersionCurrent -> fits rules -> Write rules generateVersion = Ok file ->
  exists bodies, Forall2 (fun r body => writeRule generateVersion r = Ok body) rules bodies
    /\ Read false file =
       let! ' (rules', _) := read_range (zlen rules) (rcause "read rule[" (readRule (S maxLogicalRuleDepth) false))
                               (concat bodies ++ []) in
       Ok (generateVersion, rules').
Proof.
  intros Hv Hfits Hw. unfold Write in Hw. apply res_bind_ok in Hw as (bodies & Hb & Hfile).
  match type of Hfile with Ok ?f = _ => assert (file = f) as -> by congruence end. clear Hfile.
  exists bodies. apply res_map_Forall2 in Hb. split; [done|]. rewrite app_nil_r. unfold Read, Read_uint8.
  rewrite (ReadFull_app MagicBytes) by done. cbn [res_bind].
  rewrite bool_decide_true by done. cbn [negb app ReadByte res_bind].
  replace (RuleSetVersionCurrent <? generateVersion) with false by (symmetry; apply Z.ltb_ge; lia).
  rewrite zlib_inverse. cbn [res_bind]. rewrite ReadUvarint_Write by (unfold fits, zlen in *; lia). done.
Qed.

Lemma Read_Write rules generateVersion file :
  0 <= generateVersion <= RuleSetVersionCurrent ->
  fits rules -> Forall storable rules -> Forall (fun r => (nesting r <= S maxLogicalRuleDepth)%nat) rules ->
  Write rules generateVersion = Ok file ->
  Read false file = Ok (generateVersion, map (reread_rule generateVersion) rules).
Proof.
  intros Hv Hfits Hs Hn Hw. destruct (Read_Write_header _ _ _ Hv Hfits Hw) as (bodies & Hb & ->).
  rewrite (reads_back_list generateVersion (S maxLogicalRuleDepth)); [done|]. clear Hw Hfits.
  induction Hb as [|r body rules bodies Hr Hb IH]; [constructor|].
  apply Forall_cons in Hs as [Hsr Hs]. apply Forall_cons in Hn as [Hnr Hn].
  constructor; [by apply writeRule_reads_back|by apply IH].
Qed.

(** C31: written rule sets read back.  Whatever [Write] produces for a version of
    the format from rules whose sizes fit it and that nest at most 101 deep,
    [Read] accepts: it returns that version and, rule by rule and in order, the
    same items with their values, domain and address lists in their compiled
    form. *)
Theorem srs_roundtrip rules generateVersion file :
  0 <= generateVersion <= RuleSetVersionCurrent ->
  fits rules -> Forall storable rules -> Forall (fun r => (nesting r <= S maxLogicalRuleDepth)%nat) rules ->
  Write rules generateVersion = Ok file ->
  Read false file = Ok (generateVersion, map (reread_rule generateVersion) rules).
Proof. apply Read_Write. Qed.

(** the writer does not check the nesting the reader enforces.  A rule set
    with a rule nested more than 101 deep is written without an error, and the
    file is then always rejected. *)
Theorem deep_rule_set_unreadable rule generateVersion file :
  0 <= generateVersion <= RuleSetVersionCurrent -> storable rule -> (S maxLogicalRuleDepth < nesting rule)%nat ->
  Write [rule] generateVersion = Ok file -> exists e, Read false file = Err e.
Proof.
  intros Hv Hs Hn Hw. assert (Hf : fits [rule]) by reflexivity.
  destruct (Read_Write_header _ _ _ Hv Hf Hw) as (bodies & Hb & ->).
  apply Forall2_cons_inv_l in Hb as (body & bodies' & Hr & Hb & ->). apply Forall2_nil_inv_l in Hb as ->.
  destruct (writeRule_too_deep _ _ Hs _ _ Hn Hr) as [Hl Hread].
  assert (Hbad : forall r, exists e, rcause "read rule[" (readRule (S maxLogicalRuleDepth) false) (body ++ r) = Err e)
    by (intros r; apply rcause_err, Hread).
  destruct (read_range_fails (rcause "read rule[" (readRule (S maxLogicalRuleDepth) false)) (reread_rule generateVersion)
    [rule] [body] []) as [e He].
  - constructor; [|constructor]. split; [done|by right].
  - by apply Exists_cons_hd.
  - rewrite He. by eexists.
Qed.

End Theorems.

(** * Witnesses *)

#[local] Existing Instance example_laws.

(** A rule with domains, ports and a network state, a rule with an AdGuard list,
    and a logical rule over both. *)
Definition example_options : OptDefaultHeadlessRule :=
  zeroOptDefaultHeadlessRule <| o_Domain := Some ["example.com"] |> <| o_DomainKeyword := Some ["ads"; "track"] |>
    <| o_Port := Some [443; 8443] |> <| o_NetworkIsExpensive := true |> <| o_IPCIDR := Some ["134744072"] |>
    <| o_Invert := true |>.
Definition example_rule : OptHeadlessRule :=
  mkOptHeadlessRule RuleTypeDefault example_options zeroOptLogicalHeadlessRule.
Definition example_logical (rules : list OptHeadlessRule) : OptHeadlessRule :=
  mkOptHeadlessRule RuleTypeLogical zeroOptDefaultHeadlessRule
    (mkOptLogicalHeadlessRule LogicalTypeAnd (Some rules) 0 false).

(** A rule under [n] logical rules. *)
Fixpoint example_nested (n : nat) : OptHeadlessRule :=
  match n with O => example_rule | S n => example_logical [example_nested n] end.

Lemma example_storable n : storable (example_nested n).
Proof.
  induction n as [|n IH].
  - unfold example_nested, example_rule. cbn [storable]. rewrite bool_decide_true by done.
    unfold rule_storable. split.
    { repeat (apply Forall_cons; split; [split; [reflexivity|cbn; repeat constructor]|]). constructor. }
    split_and!; try reflexivity; try (cbn; repeat constructor; unfold is_u; lia).
    + intros set [= <-]. by repeat constructor.
    + intros set [= <-]. split; [reflexivity|]. apply Forall_singleton. split; split_and!; vm_compute; done.
  - cbn [example_nested]. unfold example_logical. cbn [storable]. rewrite bool_decide_false by done. cbn. by repeat split.
Qed.

Definition written (r : res (list Z)) : list Z := match r with Ok b => b | _ => [] end.

Lemma Read_total_witness :
  match Read true (MagicBytes ++ [3; 1; 1; 2]) with Ok _ | Err _ => True | Panic _ | OutOfFuel => False end.
Proof. exact (Read_total true (MagicBytes ++ [3; 1; 1; 2])). Defined.

Lemma srs_roundtrip_witness :
  Read false (written (Write [example_rule; example_nested 2] 3))
  = Ok (3, [reread_rule 3 example_rule; reread_rule 3 (example_nested 2)]).
Proof.
  refine (srs_roundtrip [example_rule; example_nested 2] 3 _ _ _ _ _ _).
  - done.
  - reflexivity.
  - apply Forall_cons. split; [exact (example_storable 0)|apply Forall_singleton; exact (example_storable 2)].
  - apply Forall_cons. split; [|apply Forall_singleton]; vm_compute; lia.
  - vm_compute. reflexivity.
Defined.

Lemma deep_rule_set_unreadable_witness :
  exists e, Read false (written (Write [example_nested 101] 3)) = Err e.
Proof.
  refine (deep_rule_set_unreadable (example_nested 101) 3 _ _ _ _ _).
  - done.
  - exact (example_storable 101).
  - vm_compute. lia.
  - vm_compute. reflexivity.
Defined.
