(* ===== verification/RuleBuild.v ===== *)
(** Building the rules of a rule set from its options: [NewHeadlessRule] and what
    it calls (src/route/rule/rule_headless.go), and the metadata of a rule set
    (src/route/rule/rule_set.go). *)

From S2P Require Import Prelude NetAddr GoStrings RuleContext RuleItems RuleEngine RuleSetOptions.

(** What the constructors look up in the context: whether there is a network
    manager, and the default strategy of the router if there is one. *)
Record BuildContext := mkBuildContext {
  hasNetworkManager : bool;
  DefaultDomainMatchStrategy : option Z;
}.

Definition DomainMatchStrategyAsIS : Z := 0.

(** The item slices of a rule besides [allItems]. *)
Inductive slot :=
| slotItems | slotSourceAddress | slotSourcePort
| slotDestinationAddress | slotDestinationIPCIDR | slotDestinationPort.

Section Build.
Context {Env : RuleEnv}.

(** [rule.<slot> = append(rule.<slot>, item); rule.allItems = append(rule.allItems, item)] *)
Definition append_item {R} (s : slot) (item : RuleItem) (rule : abstractDefaultRule R) : abstractDefaultRule R :=
  let in_slot := fun s' l => match s, s' with
    | slotItems, slotItems | slotSourceAddress, slotSourceAddress | slotSourcePort, slotSourcePort
    | slotDestinationAddress, slotDestinationAddress | slotDestinationIPCIDR, slotDestinationIPCIDR
    | slotDestinationPort, slotDestinationPort => l ++ [item]
    | _, _ => l
    end in
  mkAbstractDefaultRule (in_slot slotItems (items rule)) (in_slot slotSourceAddress (sourceAddressItems rule))
    (in_slot slotSourcePort (sourcePortItems rule)) (in_slot slotDestinationAddress (destinationAddressItems rule))
    (in_slot slotDestinationIPCIDR (destinationIPCIDRItems rule)) (in_slot slotDestinationPort (destinationPortItems rule))
    (allItems rule ++ [AnyRuleItem item]) (ruleSetItem rule) (rule_domainMatchStrategy rule) (ruleCount rule) (invert rule).

(** One [if len(options.X) > 0 { item, err := ...; append }]. *)
Definition build_step : Type := res (option (slot * RuleItem)).
Definition when (present : bool) (s : slot) (item : res RuleItem) : build_step :=
  if present then let! i := item in Ok (Some (s, i)) else Ok None.

Fixpoint append_items {R} (steps : list build_step) (rule : abstractDefaultRule R) : res (abstractDefaultRule R) :=
  match steps with
  | [] => Ok rule
  | step :: steps' =>
      let! o := step in
      append_items steps' (match o with Some (s, item) => append_item s item rule | None => rule end)
  end.

(** [rule.domainMatchStrategy] after the default of the router is applied. *)
Definition buildStrategy (ctx : BuildContext) (strategy : Z) : Z :=
  match DefaultDomainMatchStrategy ctx with
  | Some d => if strategy =? DomainMatchStrategyAsIS then d else strategy
  | None => strategy
  end.

(** The compiled form of an option, when the list is empty. *)
Definition compiled {A} (s : slot) (matcher : option A) (item : A -> RuleItem) : build_step :=
  match matcher with Some m => Ok (Some (s, item m)) | None => Ok None end.

Definition headless_steps (ctx : BuildContext) (strategy : Z) (o : OptDefaultHeadlessRule) : list build_step :=
  let network := fun present item => when (hasNetworkManager ctx && present) slotItems (Ok item) in
  [ when (slice_set (o_QueryType o)) slotItems (Ok (I_QueryType (NewQueryTypeItem (elems (o_QueryType o)))));
    when (slice_set (o_Network o)) slotItems (Ok (I_Network (NewNetworkItem (elems (o_Network o)))));
    (if slice_set (o_Domain o) || slice_set (o_DomainSuffix o)
     then when true slotDestinationAddress
            (let! item := NewDomainItem (elems (o_Domain o)) (elems (o_DomainSuffix o)) strategy in Ok (I_Domain item))
     else compiled slotDestinationAddress (o_DomainMatcher o) (fun m => I_Domain (NewRawDomainItem m strategy)));
    when (slice_set (o_DomainKeyword o)) slotDestinationAddress
      (Ok (I_DomainKeyword (NewDomainKeywordItem (elems (o_DomainKeyword o)) strategy)));
    when (slice_set (o_DomainRegex o)) slotDestinationAddress
      (res_cause "domain_regex"
         (let! item := NewDomainRegexItem (elems (o_DomainRegex o)) strategy in Ok (I_DomainRegex item)));
    (if slice_set (o_SourceIPCIDR o)
     then when true slotSourceAddress
            (res_cause "source_ip_cidr" (let! item := NewIPCIDRItem true (elems (o_SourceIPCIDR o)) in Ok (I_IPCIDR item)))
     else compiled slotSourceAddress (o_SourceIPSet o) (fun set => I_IPCIDR (NewRawIPCIDRItem true set)));
    (if slice_set (o_IPCIDR o)
     then when true slotDestinationIPCIDR
            (res_cause "ipcidr" (let! item := NewIPCIDRItem false (elems (o_IPCIDR o)) in Ok (I_IPCIDR item)))
     else compiled slotDestinationIPCIDR (o_IPSet o) (fun set => I_IPCIDR (NewRawIPCIDRItem false set)));
    when (slice_set (o_SourcePort o)) slotSourcePort (Ok (I_Port (NewPortItem true (elems (o_SourcePort o)))));
    when (slice_set (o_SourcePortRange o)) slotSourcePort
      (res_cause "source_port_range"
         (let! item := NewPortRangeItem true (elems (o_SourcePortRange o)) in Ok (I_PortRange item)));
    when (slice_set (o_Port o)) slotDestinationPort (Ok (I_Port (NewPortItem false (elems (o_Port o)))));
    when (slice_set (o_PortRange o)) slotDestinationPort
      (res_cause "port_range" (let! item := NewPortRangeItem false (elems (o_PortRange o)) in Ok (I_PortRange item)));
    when (slice_set (o_ProcessName o)) slotItems (Ok (I_Process (NewProcessItem (elems (o_ProcessName o)))));
    when (slice_set (o_ProcessPath o)) slotItems (Ok (I_ProcessPath (NewProcessPathItem (elems (o_ProcessPath o)))));
    when (slice_set (o_ProcessPathRegex o)) slotItems
      (res_cause "process_path_regex"
         (let! item := NewProcessPathRegexItem (elems (o_ProcessPathRegex o)) in Ok (I_ProcessPathRegex item)));
    when (slice_set (o_PackageName o)) slotItems (Ok (I_PackageName (NewPackageNameItem (elems (o_PackageName o)))));
    when (slice_set (o_PackageNameRegex o)) slotItems
      (res_cause "package_name_regex"
         (let! item := NewPackageNameRegexItem (elems (o_PackageNameRegex o)) in Ok (I_PackageNameRegex item)));
    network (slice_set (o_NetworkType o)) (I_NetworkType (NewNetworkTypeItem (elems (o_NetworkType o))));
    network (o_NetworkIsExpensive o) (I_NetworkIsExpensive NewNetworkIsExpensiveItem);
    network (o_NetworkIsConstrained o) (I_NetworkIsConstrained NewNetworkIsConstrainedItem);
    network (slice_set (o_WIFISSID o)) (I_WIFISSID (NewWIFISSIDItem (elems (o_WIFISSID o))));
    network (slice_set (o_WIFIBSSID o)) (I_WIFIBSSID (NewWIFIBSSIDItem (elems (o_WIFIBSSID o))));
    network (slice_set (o_NetworkInterfaceAddress o))
      (I_NetworkInterfaceAddress (NewNetworkInterfaceAddressItem (elems (o_NetworkInterfaceAddress o))));
    network (slice_set (o_DefaultInterfaceAddress o))
      (I_DefaultInterfaceAddress (NewDefaultInterfaceAddressItem (elems (o_DefaultInterfaceAddress o))));
    (if slice_set (o_AdGuardDomain o)
     then when true slotDestinationAddress (Ok (I_AdGuardDomain (NewAdGuardDomainItem (elems (o_AdGuardDomain o)) strategy)))
     else compiled slotDestinationAddress (o_AdGuardDomainMatcher o)
            (fun m => I_AdGuardDomain (NewRawAdGuardDomainItem m strategy))) ].

(** The [switch] that sets [rule.ruleCount]. *)
Definition headlessRuleCount {R} (rule : abstractDefaultRule R) : Z :=
  let all := zlen (allItems rule) in
  let destination := zlen (destinationAddressItems rule) + zlen (destinationIPCIDRItems rule) in
  if all =? destination then u64 destination
  else if all =? zlen (sourceAddressItems rule) then u64 (zlen (sourceAddressItems rule))
  else if all =? zlen (sourcePortItems rule) then u64 (zlen (sourcePortItems rule))
  else if all =? zlen (destinationPortItems rule) then u64 (zlen (destinationPortItems rule))
  else 1.

Definition NewDefaultHeadlessRule (ctx : BuildContext) (o : OptDefaultHeadlessRule)
    : res (abstractDefaultRule HeadlessRule) :=
  let strategy := buildStrategy ctx (o_DomainMatchStrategy o) in
  let! rule := append_items (headless_steps ctx strategy o)
                 (mkAbstractDefaultRule [] [] [] [] [] [] [] None strategy 0 (o_Invert o)) in
  Ok (mkAbstractDefaultRule (items rule) (sourceAddressItems rule) (sourcePortItems rule)
        (destinationAddressItems rule) (destinationIPCIDRItems rule) (destinationPortItems rule) (allItems rule)
        (ruleSetItem rule) (rule_domainMatchStrategy rule) (headlessRuleCount rule) (invert rule)).

Fixpoint sub_rules {O R} (new : O -> res R) (i : Z) (rules : list O) : res (list R) :=
  match rules with
  | [] => Ok []
  | r :: rules' =>
      let! rule := res_cause ("sub rule[" +:+ Itoa i +:+ "]") (new r) in
      let! rest := sub_rules new (i + 1) rules' in
      Ok (rule :: rest)
  end.

Definition NewLogicalHeadlessRule (new : OptHeadlessRule -> res HeadlessRule) (ctx : BuildContext)
    (o : OptLogicalHeadlessRule OptHeadlessRule) : res (abstractLogicalRule HeadlessRule) :=
  let strategy := buildStrategy ctx (o_LogicalDomainMatchStrategy o) in
  let! mode :=
    if bool_decide (o_Mode o = LogicalTypeAnd) then Ok LogicalTypeAnd
    else if bool_decide (o_Mode o = LogicalTypeOr) then Ok LogicalTypeOr
    else Err (ENew ("unknown logical mode: " +:+ o_Mode o)) in
  let! rules := match o_Rules o with Some rules => sub_rules new 0 rules | None => Ok [] end in
  Ok (mkAbstractLogicalRule rules mode strategy (o_LogicalInvert o) 1).

Fixpoint NewHeadlessRule (ctx : BuildContext) (options : OptHeadlessRule) : res HeadlessRule :=
  match options with
  | mkOptHeadlessRule ty d l =>
      if bool_decide (ty = EmptyString) || bool_decide (ty = RuleTypeDefault) then
        if negb (OptDefaultHeadlessRule_IsValid d) then Err (ENew "missing conditions")
        else let! rule := NewDefaultHeadlessRule ctx d in Ok (DefaultHeadlessRule rule)
      else if bool_decide (ty = RuleTypeLogical) then
        let! valid := OptLogicalHeadlessRule_IsValid OptHeadlessRule_IsValid l in
        if negb valid then Err (ENew "missing conditions")
        else let! rule := NewLogicalHeadlessRule (NewHeadlessRule ctx) ctx l in Ok (LogicalHeadlessRule rule)
      else Err (ENew ("unknown rule type: " +:+ ty))
  end.

(** * The metadata of a rule set *)

Section Has.
Variable cond : OptDefaultHeadlessRule -> bool.

(** One turn of the loop of [HasHeadlessRule]. *)
Fixpoint has_rule (rule : OptHeadlessRule) : bool :=
  match rule with
  | mkOptHeadlessRule ty d l =>
      if bool_decide (ty = RuleTypeDefault) then cond d
      else if bool_decide (ty = RuleTypeLogical)
      then match o_Rules l with Some rules => existsb has_rule rules | None => false end
      else false
  end.
Definition HasHeadlessRule (rules : list OptHeadlessRule) : bool := existsb has_rule rules.
End Has.

Definition isProcessHeadlessRule (r : OptDefaultHeadlessRule) : bool :=
  slice_set (o_ProcessName r) || slice_set (o_ProcessPath r) || slice_set (o_ProcessPathRegex r)
  || slice_set (o_PackageName r) || slice_set (o_PackageNameRegex r).
Definition isWIFIHeadlessRule (r : OptDefaultHeadlessRule) : bool :=
  slice_set (o_WIFISSID r) || slice_set (o_WIFIBSSID r).
Definition isIPCIDRHeadlessRule (r : OptDefaultHeadlessRule) : bool :=
  slice_set (o_IPCIDR r) || negb (is_nil (o_IPSet r)).
Definition isDNSQueryTypeHeadlessRule (r : OptDefaultHeadlessRule) : bool := slice_set (o_QueryType r).

(** [!reflect.DeepEqual(rule, ipOnly)]: some field besides [IPCIDR], [IPSet] and
    [Invert] differs from its zero value. *)
Definition isNonIPCIDRHeadlessRule (r : OptDefaultHeadlessRule) : bool :=
  OptDefaultHeadlessRule_IsValid (r <| o_IPCIDR := None |> <| o_IPSet := None |>).

Definition buildRuleSetMetadata (rules : list OptHeadlessRule) : RuleSetMetadata :=
  mkRuleSetMetadata (HasHeadlessRule isProcessHeadlessRule rules) (HasHeadlessRule isWIFIHeadlessRule rules)
    (HasHeadlessRule isIPCIDRHeadlessRule rules) (HasHeadlessRule isDNSQueryTypeHeadlessRule rules)
    (HasHeadlessRule isNonIPCIDRHeadlessRule rules).

(** [extractIPSetFromRule]; only the rules of rule sets are headless. *)
Fixpoint extractIPSetFromRule (rule : HeadlessRule) : res (list IPSet) :=
  match rule with
  | DefaultHeadlessRule d =>
      Ok (omap (fun item => match item with I_IPCIDR i => Some (IPCIDRItem_ipSet i) | _ => None end)
            (destinationIPCIDRItems d))
  | LogicalHeadlessRule l =>
      let! sets := res_map extractIPSetFromRule (logical_rules l) in Ok (concat sets)
  | _ => Panic "unexpected rule type"
  end.

End Build.
