(* ===== verification/RuleBuildProofs.v ===== *)
(** A rule set loaded from its binary form behaves like the rule set it was
    compiled from, and the metadata of a rule set describes its rules. *)

From S2P Require Import Prelude NetAddr GoStrings RuleContext RuleItems RuleEngine RuleSpec RuleSetOptions Binary Srs SrsProofs RuleBuild.

Section Same.
Context {Env : RuleEnv}.

(** * Rules that match alike *)

Definition same_item (i j : RuleItem) : Prop := forall md, RuleItem_Match i md = RuleItem_Match j md.

Record same_rule (r r' : abstractDefaultRule HeadlessRule) : Prop := {
  same_items : Forall2 same_item (items r) (items r');
  same_sourceAddress : Forall2 same_item (sourceAddressItems r) (sourceAddressItems r');
  same_sourcePort : Forall2 same_item (sourcePortItems r) (sourcePortItems r');
  same_destinationAddress : Forall2 same_item (destinationAddressItems r) (destinationAddressItems r');
  same_destinationIPCIDR : Forall2 same_item (destinationIPCIDRItems r) (destinationIPCIDRItems r');
  same_destinationPort : Forall2 same_item (destinationPortItems r) (destinationPortItems r');
  same_allItems : length (allItems r) = length (allItems r');
  same_noSet : ruleSetItem r = None /\ ruleSetItem r' = None;
  same_invert : invert r = invert r';
}.

#[export] Instance same_item_refl : Reflexive same_item.
Proof. by intros i md. Qed.

Lemma same_matchAny l l' md : Forall2 same_item l l' -> matchAnyItem l md = matchAnyItem l' md.
Proof. induction 1 as [|i j l l' Hij _ IH]; [done|]. unfold matchAnyItem in *. cbn. by rewrite (Hij md), IH. Qed.

Lemma same_matchAll l l' md : Forall2 same_item l l' ->
  forallb (fun i => RuleItem_Match i md) l = forallb (fun i => RuleItem_Match i md) l'.
Proof. induction 1 as [|i j l l' Hij _ IH]; [done|]. cbn. by rewrite (Hij md), IH. Qed.

Lemma same_nonempty {A B} (R : A -> B -> Prop) l l' : Forall2 R l l' -> nonempty l = nonempty l'.
Proof. by destruct 1. Qed.

Lemma length_nonempty {A} (l l' : list A) : length l = length l' -> nonempty l = nonempty l'.
Proof. by destruct l, l'. Qed.

Lemma same_evaluateGroups r r' md : same_rule r r' -> evaluateGroups r md = evaluateGroups r' md.
Proof.
  intros []. unfold evaluateGroups, destinationIPCIDRMatchesSource, destinationIPCIDRMatchesDestination.
  by rewrite !(same_matchAny _ _ _ same_sourceAddress0), !(same_matchAny _ _ _ same_sourcePort0),
    !(same_matchAny _ _ _ same_destinationAddress0), !(same_matchAny _ _ _ same_destinationIPCIDR0),
    !(same_matchAny _ _ _ same_destinationPort0), !(same_nonempty _ _ _ same_sourceAddress0),
    !(same_nonempty _ _ _ same_sourcePort0), !(same_nonempty _ _ _ same_destinationAddress0),
    !(same_nonempty _ _ _ same_destinationIPCIDR0), !(same_nonempty _ _ _ same_destinationPort0).
Qed.

Lemma same_default_Match mergeable setMatch r r' md :
  same_rule r r' -> abstractDefaultRule_Match mergeable setMatch r md = abstractDefaultRule_Match mergeable setMatch r' md.
Proof.
  intros H. unfold abstractDefaultRule_Match, matchInner. rewrite (same_evaluateGroups _ _ _ H).
  destruct H as [Hi _ _ _ _ _ Ha [-> ->] ->]. rewrite (length_nonempty _ _ Ha).
  destruct (evaluateGroups r' md) as [groups md']. by rewrite (same_matchAll _ _ _ Hi).
Qed.

(** Headless rules of the same shape whose default rules match alike. *)
Inductive same_headless : HeadlessRule -> HeadlessRule -> Prop :=
| same_Default r r' : same_rule r r' -> same_headless (DefaultHeadlessRule r) (DefaultHeadlessRule r')
| same_Logical rules rules' mode strategy strategy' inv count count' :
    Forall2 same_headless rules rules' ->
    same_headless (LogicalHeadlessRule (mkAbstractLogicalRule rules mode strategy inv count))
      (LogicalHeadlessRule (mkAbstractLogicalRule rules' mode strategy' inv count')).

Lemma same_loops rules rules' md :
  Forall2 (fun h h' => forall md, Match h md = Match h' md) rules rules' ->
  (forall deferred, logical_and_loop Match md rules deferred = logical_and_loop Match md rules' deferred)
  /\ (forall m deferred, logical_or_loop Match md rules m deferred = logical_or_loop Match md rules' m deferred)
  /\ (forall m deferred, matchAny_loop Match md rules m deferred = matchAny_loop Match md rules' m deferred).
Proof.
  induction 1 as [|h h' rules rules' Hh _ (IH1 & IH2 & IH3)]; [done|]. split_and!; intros; cbn; rewrite Hh.
  - destruct (Match h' md) as [[] md']; cbn; auto.
  - destruct (Match h' md) as [[] md']; cbn; [|auto]. destruct (_ =? 0); auto.
  - destruct (Match h' _) as [[] md']; cbn; [|auto]. destruct (_ =? 0); auto.
Qed.

Lemma same_Match h : forall h' md, same_headless h h' -> Match h md = Match h' md.
Proof.
  induction h as [d _|d _|d m t race _|l IH|l IH|l t a race IH] using HeadlessRule_rules_ind;
    intros h' md Hs; inversion Hs as [r r' Hr|rules rules' mode st st' inv c c' Hl]; subst.
  - by apply same_default_Match.
  - cbn [Match]. unfold abstractLogicalRule_Match. cbn [logical_rules logical_mode logical_invert] in *.
    assert (Hf : Forall2 (fun h h' => forall md, Match h md = Match h' md) rules rules').
    { clear Hs. induction Hl as [|h h' rules rules' Hh Hl IHl]; constructor; apply Forall_cons in IH as [IHh IH]; auto. }
    destruct (same_loops rules rules' (ResetRuleCache md) Hf) as (Ha & Ho & _). by rewrite Ha, Ho.
Qed.

End Same.

(** * Building from options read back *)

Section Reread.
Context {Env : RuleEnv}.

Definition canonical {A} (s : goslice A) : Prop := s <> Some [].

(** Options as they come from JSON: no compiled form, no empty list given, query
    types in range, no strategy of their own. *)
Definition source_default (o : OptDefaultHeadlessRule) : Prop :=
  o_DomainMatchStrategy o = 0
  /\ (o_DomainMatcher o = None /\ o_SourceIPSet o = None /\ o_IPSet o = None /\ o_AdGuardDomainMatcher o = None)
  /\ Forall (is_u 16) (elems (o_QueryType o))
  /\ (canonical (o_QueryType o) /\ canonical (o_SourcePort o) /\ canonical (o_Port o) /\ canonical (o_NetworkType o)
      /\ canonical (o_NetworkInterfaceAddress o) /\ canonical (o_DefaultInterfaceAddress o))
  /\ Forall canonical [o_Network o; o_Domain o; o_DomainSuffix o; o_DomainKeyword o; o_DomainRegex o; o_SourceIPCIDR o;
       o_IPCIDR o; o_SourcePortRange o; o_PortRange o; o_ProcessName o; o_ProcessPath o; o_ProcessPathRegex o;
       o_PackageName o; o_PackageNameRegex o; o_WIFISSID o; o_WIFIBSSID o; o_AdGuardDomain o].

(** The outcome of a step, and of the step for the options read back. *)
Definition same_step (a b : build_step) : Prop := forall o, a = Ok o ->
  match o with
  | None => b = Ok None
  | Some (s, i) => exists j, b = Ok (Some (s, j)) /\ same_item i j
  end.

Lemma same_step_refl a : same_step a a.
Proof. intros [[s i]|] ->; [|done]. by exists i. Qed.

Lemma elems_appended {A} (l : list A) : elems (appended l) = l.
Proof. by destruct l. Qed.

Lemma slice_set_appended {A} (l : list A) : slice_set (appended l) = nonempty l.
Proof. by destruct l. Qed.

Lemma slice_set_elems {A} (s : goslice A) : slice_set s = nonempty (elems s).
Proof. done. Qed.

Lemma map_u16_id l : Forall (is_u 16) l -> map u16 l = l.
Proof. induction 1 as [|x l Hx _ IH]; cbn; [done|]. rewrite IH. f_equal. apply Z.mod_small. exact Hx. Qed.

Lemma same_step_domain strategy (domains suffixes : goslice string) v :
  v <> RuleSetVersion1 ->
  same_step
    (if slice_set domains || slice_set suffixes
     then when true slotDestinationAddress
            (let! item := NewDomainItem (elems domains) (elems suffixes) strategy in Ok (I_Domain item))
     else compiled slotDestinationAddress None (fun m => I_Domain (NewRawDomainItem m strategy)))
    (compiled slotDestinationAddress
       (if slice_set domains || slice_set suffixes
        then Some (NewMatcher (elems domains) (elems suffixes) (v =? RuleSetVersion1)) else None)
       (fun m => I_Domain (NewRawDomainItem m strategy))).
Proof.
  intros Hv. destruct (_ || _); [|apply same_step_refl]. replace (v =? _) with false by (symmetry; by apply Z.eqb_neq).
  intros o Ho. cbn in Ho. apply res_bind_ok in Ho as (i & Hi & [= <-]). apply res_bind_ok in Hi as (d & Hd & [= <-]).
  eexists. split; [reflexivity|]. unfold NewDomainItem in Hd. intros md.
  destruct (inb "" (elems domains)), (inb "" (elems suffixes)); try discriminate. injection Hd as <-. done.
Qed.

Lemma same_step_cidr s (source : bool) message (cidrs : goslice string) :
  (slice_set cidrs = true -> exists set, cidr_set (elems cidrs) = Ok set) ->
  same_step
    (if slice_set cidrs
     then when true s (res_cause message (let! item := NewIPCIDRItem source (elems cidrs) in Ok (I_IPCIDR item)))
     else compiled s None (fun set => I_IPCIDR (NewRawIPCIDRItem source set)))
    (compiled s (set_or_nil cidrs) (fun set => I_IPCIDR (NewRawIPCIDRItem source set))).
Proof.
  intros Hc. unfold set_or_nil. destruct (slice_set cidrs); [|apply same_step_refl].
  destruct (Hc eq_refl) as [set Hset]. rewrite Hset. unfold NewIPCIDRItem. unfold cidr_set in Hset.
  destruct (res_map parse_cidr (elems cidrs)) as [ops| | |]; try discriminate. cbn [res_bind] in *. rewrite Hset.
  intros o [= <-]. eexists. split; [reflexivity|]. done.
Qed.

Lemma headless_steps_reread ctx strategy o v :
  v <> RuleSetVersion1 -> source_default o ->
  (slice_set (o_SourceIPCIDR o) = true -> exists set, cidr_set (elems (o_SourceIPCIDR o)) = Ok set) ->
  (slice_set (o_IPCIDR o) = true -> exists set, cidr_set (elems (o_IPCIDR o)) = Ok set) ->
  Forall2 same_step (headless_steps ctx strategy o) (headless_steps ctx strategy (reread v o)).
Proof.
  intros Hv (_ & (Hdm & Hsi & Hi & Hag) & Hq & _ & _) Hs4 Hs6. unfold headless_steps, reread.
  cbn [o_QueryType o_Network o_Domain o_DomainSuffix o_DomainKeyword o_DomainRegex o_SourceIPCIDR o_IPCIDR o_SourcePort
    o_SourcePortRange o_Port o_PortRange o_ProcessName o_ProcessPath o_ProcessPathRegex o_PackageName o_PackageNameRegex
    o_NetworkType o_NetworkIsExpensive o_NetworkIsConstrained o_WIFISSID o_WIFIBSSID o_NetworkInterfaceAddress
    o_DefaultInterfaceAddress o_DomainMatcher o_SourceIPSet o_IPSet o_AdGuardDomain o_AdGuardDomainMatcher].
  rewrite !elems_appended, !slice_set_appended, <- !slice_set_elems, Hdm, Hsi, Hi, Hag.
  repeat (apply Forall2_cons; split; [|]); try apply Forall2_nil_2; try apply same_step_refl.
  - destruct (o_QueryType o) as [l|]; [|apply same_step_refl]. cbn in Hq |- *. rewrite map_u16_id by done.
    destruct l; apply same_step_refl.
  - by apply same_step_domain.
  - by apply same_step_cidr.
  - by apply same_step_cidr.
  - destruct (o_NetworkInterfaceAddress o) as [l|]; [|apply same_step_refl]. destruct l; apply same_step_refl.
  - destruct (slice_set (o_AdGuardDomain o)); [|apply same_step_refl].
    intros o' [= <-]. eexists. split; [reflexivity|]. done.
Qed.

Lemma same_append s i j r r' : same_item i j -> same_rule r r' -> same_rule (append_item s i r) (append_item s j r').
Proof.
  intros Hij []. destruct s; constructor; cbn; rewrite ?length_app; cbn; auto using Forall2_app.
Qed.

Lemma append_items_same steps steps' r r' x :
  Forall2 same_step steps steps' -> same_rule r r' -> append_items steps r = Ok x ->
  exists x', append_items steps' r' = Ok x' /\ same_rule x x'.
Proof.
  intros Hf. revert r r'. induction Hf as [|a b steps steps' Hab _ IH]; intros r r' Hr; cbn.
  - intros [= <-]. eauto.
  - rewrite res_bind_ok. intros (o & Ha & Hx). specialize (Hab o Ha). destruct o as [[s i]|].
    + destruct Hab as (j & -> & Hij). cbn. eapply IH; [|exact Hx]. by apply same_append.
    + rewrite Hab. cbn. by apply (IH r r').
Qed.

Lemma NewDefaultHeadlessRule_reread ctx o v r :
  v <> RuleSetVersion1 -> source_default o ->
  (slice_set (o_SourceIPCIDR o) = true -> exists set, cidr_set (elems (o_SourceIPCIDR o)) = Ok set) ->
  (slice_set (o_IPCIDR o) = true -> exists set, cidr_set (elems (o_IPCIDR o)) = Ok set) ->
  NewDefaultHeadlessRule ctx o = Ok r ->
  exists r', NewDefaultHeadlessRule ctx (reread v o) = Ok r' /\ same_rule r r'.
Proof.
  intros Hv Ho H4 H6. unfold NewDefaultHeadlessRule. change (o_DomainMatchStrategy (reread v o)) with 0.
  rewrite (proj1 Ho). change (o_Invert (reread v o)) with (o_Invert o). rewrite res_bind_ok. intros (x & Hx & [= <-]).
  edestruct append_items_same as (x' & Hx' & Hs);
    [by apply (headless_steps_reread ctx (buildStrategy ctx 0) o v)| |exact Hx|rewrite Hx'].
  - by constructor.
  - eexists. split; [reflexivity|]. destruct Hs. by constructor.
Qed.

(** ** Conditions of the options *)

Lemma canonical_nil {A} (s : goslice A) : canonical s -> is_nil s = negb (slice_set s).
Proof. by destruct s as [[]|]. Qed.

Lemma is_nil_appended {A} (l : list A) : is_nil (appended l) = negb (nonempty l).
Proof. by destruct l. Qed.

Lemma is_nil_if {A} (b : bool) (x : A) : is_nil (if b then Some x else None) = negb b.
Proof. by destruct b. Qed.

Lemma is_nil_set (s : goslice string) :
  (slice_set s = true -> exists set, cidr_set (elems s) = Ok set) -> is_nil (set_or_nil s) = negb (slice_set s).
Proof. unfold set_or_nil. destruct (slice_set s); [|done]. intros H. by destruct (H eq_refl) as [? ->]. Qed.

Ltac fields_in_hyps :=
  cbn [o_QueryType o_Network o_Domain o_DomainSuffix o_DomainKeyword o_DomainRegex o_SourceIPCIDR o_IPCIDR o_SourcePort
    o_SourcePortRange o_Port o_PortRange o_ProcessName o_ProcessPath o_ProcessPathRegex o_PackageName o_PackageNameRegex
    o_NetworkType o_NetworkIsExpensive o_NetworkIsConstrained o_WIFISSID o_WIFIBSSID o_DomainMatchStrategy
    o_NetworkInterfaceAddress o_DefaultInterfaceAddress o_DomainMatcher o_SourceIPSet o_IPSet o_AdGuardDomain
    o_AdGuardDomainMatcher] in *.

Ltac conditions :=
  unfold OptDefaultHeadlessRule_IsValid, reread;
  cbn [o_QueryType o_Network o_Domain o_DomainSuffix o_DomainKeyword o_DomainRegex o_SourceIPCIDR o_IPCIDR o_SourcePort
    o_SourcePortRange o_Port o_PortRange o_ProcessName o_ProcessPath o_ProcessPathRegex o_PackageName o_PackageNameRegex
    o_NetworkType o_NetworkIsExpensive o_NetworkIsConstrained o_WIFISSID o_WIFIBSSID o_DomainMatchStrategy
    o_NetworkInterfaceAddress o_DefaultInterfaceAddress o_DomainMatcher o_SourceIPSet o_IPSet o_AdGuardDomain
    o_AdGuardDomainMatcher apply_update constant];
  rewrite ?is_nil_appended, ?is_nil_if, ?is_nil_set, <- ?slice_set_elems by assumption;
  repeat match goal with Hc : canonical _ |- _ => apply canonical_nil in Hc; rewrite ?Hc; clear Hc end.

(** Conjunctions of the same conditions. *)
Ltac reorder :=
  cbn [is_nil Z.eqb]; f_equal; apply Bool.eq_true_iff_eq; rewrite !andb_true_iff, ?negb_true_iff, ?orb_false_iff;
  let Hand := fresh in split; intros Hand; decompose [and] Hand; repeat split; first [assumption | reflexivity].

Lemma reread_conditions o v :
  source_default o ->
  (slice_set (o_SourceIPCIDR o) = true -> exists set, cidr_set (elems (o_SourceIPCIDR o)) = Ok set) ->
  (slice_set (o_IPCIDR o) = true -> exists set, cidr_set (elems (o_IPCIDR o)) = Ok set) ->
  OptDefaultHeadlessRule_IsValid (reread v o) = OptDefaultHeadlessRule_IsValid o
  /\ isNonIPCIDRHeadlessRule (reread v o) = isNonIPCIDRHeadlessRule o
  /\ isIPCIDRHeadlessRule (reread v o) = isIPCIDRHeadlessRule o
  /\ isProcessHeadlessRule (reread v o) = isProcessHeadlessRule o
  /\ isWIFIHeadlessRule (reread v o) = isWIFIHeadlessRule o
  /\ isDNSQueryTypeHeadlessRule (reread v o) = isDNSQueryTypeHeadlessRule o.
Proof.
  intros (Hst & (Hdm & Hsi & Hi & Hag) & _ & (? & ? & ? & ? & ? & ?) & Hc) Hset4 Hset6.
  repeat (apply Forall_cons in Hc as [? Hc]). clear Hc. split_and!.
  - conditions. rewrite Hst, Hdm, Hsi, Hi, Hag. reorder.
  - unfold isNonIPCIDRHeadlessRule. destruct o. fields_in_hyps. subst. conditions. reorder.
  - unfold isIPCIDRHeadlessRule. conditions. rewrite Hi. cbn. by destruct (slice_set (o_IPCIDR o)).
  - unfold isProcessHeadlessRule. cbn. by rewrite !slice_set_appended.
  - unfold isWIFIHeadlessRule. cbn. by rewrite !slice_set_appended.
  - unfold isDNSQueryTypeHeadlessRule. cbn. destruct (o_QueryType o) as [[]|]; done.
Qed.

End Reread.
