(* ===== verification/RuleSetTheorems.v ===== *)
(** A rule set compiled to the binary format, loaded and built again. *)

From Stdlib Require Import Btauto.
From S2P Require Import Prelude NetAddr GoStrings RuleContext RuleItems RuleEngine RuleSpec RulePreMatch RuleExamples RuleSetOptions Binary Srs SrsProofs SrsTheorems RuleBuild RuleBuildProofs.

Section Compiled.
Context {Env : RuleEnv}.

(** [source_default] for every rule inside, and no strategy on logical rules. *)
Fixpoint source_rule (rule : OptHeadlessRule) : Prop :=
  match rule with
  | mkOptHeadlessRule ty d l =>
      if bool_decide (ty = RuleTypeDefault) then source_default d
      else o_LogicalDomainMatchStrategy l = 0
           /\ match o_Rules l with
              | None => True
              | Some rules => foldr (fun r P => source_rule r /\ P) True rules
              end
  end.

Lemma source_rules l :
  match o_Rules l with None => True | Some rules => foldr (fun r P => source_rule r /\ P) True rules end ->
  Forall source_rule (elems (o_Rules l)).
Proof. destruct (o_Rules l) as [rules|]; cbn [elems]; [apply foldr_and|constructor]. Qed.

Lemma writable_cidr v d :
  writable_default v d = true ->
  (slice_set (o_SourceIPCIDR d) = true -> exists set, cidr_set (elems (o_SourceIPCIDR d)) = Ok set)
  /\ (slice_set (o_IPCIDR d) = true -> exists set, cidr_set (elems (o_IPCIDR d)) = Ok set).
Proof.
  unfold writable_default. rewrite !andb_true_iff. intros [[_ H4] H6]. split; intros Hs.
  - rewrite Hs in H4. clear H6. destruct (cidr_set _); [eauto|done..].
  - rewrite Hs in H6. clear H4. destruct (cidr_set _); [eauto|done..].
Qed.

(** A condition of default rules that reading back keeps. *)
Definition kept_condition (v : Z) (cond : OptDefaultHeadlessRule -> bool) : Prop :=
  forall d, source_default d -> writable_default v d = true -> cond (reread v d) = cond d.

Lemma kept_conditions v :
  Forall (kept_condition v) [OptDefaultHeadlessRule_IsValid; isNonIPCIDRHeadlessRule; isIPCIDRHeadlessRule;
    isProcessHeadlessRule; isWIFIHeadlessRule; isDNSQueryTypeHeadlessRule].
Proof.
  repeat (apply Forall_cons; split); [..|apply Forall_nil_2]; intros d Hs Hw;
    destruct (writable_cidr v d Hw) as [H4 H6]; by destruct (reread_conditions d v Hs H4 H6) as (? & ? & ? & ? & ? & ?).
Qed.

(** The two cases of a rule the writer accepts. *)
Lemma writable_cases (P : OptHeadlessRule -> Prop) v :
  (forall d l, source_default d -> writable_default v d = true -> P (mkOptHeadlessRule RuleTypeDefault d l)) ->
  (forall d l, o_LogicalDomainMatchStrategy l = 0 -> (o_Mode l = LogicalTypeAnd \/ o_Mode l = LogicalTypeOr) ->
     Forall (fun r => source_rule r /\ writable v r = true) (elems (o_Rules l)) -> Forall P (elems (o_Rules l)) ->
     P (mkOptHeadlessRule RuleTypeLogical d l)) ->
  forall rule, source_rule rule -> writable v rule = true -> P rule.
Proof.
  intros HD HL rule. induction rule as [ty d l IH] using OptHeadlessRule_nested_ind. cbn [source_rule writable].
  destruct (bool_decide_reflect (ty = RuleTypeDefault)) as [->|_]; [by apply HD|].
  destruct (bool_decide_reflect (ty = RuleTypeLogical)) as [->|_]; [|done]. cbn [andb].
  intros [Hst Hs] Hw. apply andb_true_iff in Hw as [Hm Hw]. apply source_rules in Hs. apply logical_rule_ind in IH.
  apply orb_true_iff in Hm. rewrite !bool_decide_eq_true in Hm.
  assert (Hf : Forall (fun r => source_rule r /\ writable v r = true) (elems (o_Rules l))).
  { apply Forall_and. split; [done|]. destruct (o_Rules l); [|constructor].
    apply Forall_forall. intros r Hr. rewrite forallb_forall in Hw. by apply Hw, list_elem_of_In. }
  apply HL; try done. clear Hs Hw. induction Hf as [|r rules [] Hf IHf]; constructor; apply Forall_cons in IH as [? ?]; auto.
Qed.

Lemma reread_logical v d l :
  reread_rule v (mkOptHeadlessRule RuleTypeLogical d l)
  = mkOptHeadlessRule RuleTypeLogical zeroOptDefaultHeadlessRule
      (mkOptLogicalHeadlessRule (o_Mode l) (appended (map (reread_rule v) (elems (o_Rules l)))) 0 (o_LogicalInvert l)).
Proof. by destruct l as [mode [rules|] st inv]. Qed.

Lemma has_rule_reread cond v rule :
  kept_condition v cond -> source_rule rule -> writable v rule = true ->
  has_rule cond (reread_rule v rule) = has_rule cond rule.
Proof.
  intros Hk. revert rule. apply writable_cases.
  - intros d l Hs Hw. by apply Hk.
  - intros d l _ _ _ IH. rewrite reread_logical. cbn [has_rule o_Rules].
    rewrite bool_decide_false, bool_decide_true by done.
    transitivity (existsb (has_rule cond) (elems (o_Rules l))); [|by destruct (o_Rules l)].
    transitivity (existsb (has_rule cond) (map (reread_rule v) (elems (o_Rules l)))).
    { by destruct (elems (o_Rules l)). }
    induction IH as [|r rules Hr _ IH]; [done|]. cbn. by rewrite Hr, IH.
Qed.

Lemma IsValid_reread v rule :
  source_rule rule -> writable v rule = true ->
  OptHeadlessRule_IsValid (reread_rule v rule) = OptHeadlessRule_IsValid rule.
Proof.
  revert rule. apply writable_cases.
  - intros d l Hs Hw. change (Ok (OptDefaultHeadlessRule_IsValid (reread v d)) = Ok (OptDefaultHeadlessRule_IsValid d)).
    f_equal. pose proof (kept_conditions v) as Hk. apply Forall_cons in Hk as [Hk _]. by apply Hk.
  - intros d l _ _ _ IH. rewrite reread_logical. cbn [OptHeadlessRule_IsValid].
    rewrite !bool_decide_false, bool_decide_true by done. cbn [orb]. unfold OptLogicalHeadlessRule_IsValid. cbn [o_Rules].
    transitivity (if nonempty (elems (o_Rules l)) then all_valid OptHeadlessRule_IsValid (elems (o_Rules l)) else Ok false);
      [|by destruct (o_Rules l)].
    destruct (elems (o_Rules l)) as [|r rules] eqn:E; [done|]. cbn [map appended nonempty].
    change (reread_rule v r :: map (reread_rule v) rules) with (map (reread_rule v) (r :: rules)). clear E.
    induction IH as [|r' rules' Hr _ IH]; [done|]. cbn [map all_valid]. by rewrite Hr, IH.
Qed.

Lemma sub_rules_same {O R} (new : O -> res R) (g : O -> O) (same : R -> R -> Prop) rules : forall i i' hs,
  Forall (fun r => forall h, new r = Ok h -> exists h', new (g r) = Ok h' /\ same h h') rules ->
  sub_rules new i rules = Ok hs -> exists hs', sub_rules new i' (map g rules) = Ok hs' /\ Forall2 same hs hs'.
Proof.
  induction rules as [|r rules IH]; intros i i' hs Hf; cbn [sub_rules map].
  - intros [= <-]. eauto.
  - apply Forall_cons in Hf as [Hr Hf]. rewrite res_bind_ok. intros (h & Hh & Hs).
    apply res_bind_ok in Hs as (hs' & Hs & [= <-]).
    destruct (new r) as [h0| | |] eqn:E; try discriminate. injection Hh as ->.
    destruct (Hr h eq_refl) as (h' & -> & Hsame). cbn [res_cause res_bind].
    destruct (IH (i + 1) (i' + 1) hs' Hf Hs) as (hs'' & -> & Hf'). cbn [res_bind]. eauto.
Qed.

Lemma NewHeadlessRule_default ctx d l :
  NewHeadlessRule ctx (mkOptHeadlessRule RuleTypeDefault d l)
  = if negb (OptDefaultHeadlessRule_IsValid d) then Err (ENew "missing conditions")
    else let! rule := NewDefaultHeadlessRule ctx d in Ok (DefaultHeadlessRule rule).
Proof. reflexivity. Qed.

Lemma NewHeadlessRule_logical ctx d l :
  NewHeadlessRule ctx (mkOptHeadlessRule RuleTypeLogical d l)
  = let! valid := OptHeadlessRule_IsValid (mkOptHeadlessRule RuleTypeLogical d l) in
    if negb valid then Err (ENew "missing conditions")
    else let! rule := NewLogicalHeadlessRule (NewHeadlessRule ctx) ctx l in Ok (LogicalHeadlessRule rule).
Proof. reflexivity. Qed.

Lemma NewLogicalHeadlessRule_elems new ctx (l : OptLogicalHeadlessRule OptHeadlessRule) :
  (o_Mode l = LogicalTypeAnd \/ o_Mode l = LogicalTypeOr) ->
  NewLogicalHeadlessRule new ctx l
  = let! rules := sub_rules new 0 (elems (o_Rules l)) in
    Ok (mkAbstractLogicalRule rules (o_Mode l) (buildStrategy ctx (o_LogicalDomainMatchStrategy l)) (o_LogicalInvert l) 1).
Proof. unfold NewLogicalHeadlessRule. intros [-> | ->]; by destruct (o_Rules l). Qed.

Lemma NewHeadlessRule_reread ctx v rule h :
  v <> RuleSetVersion1 -> source_rule rule -> writable v rule = true -> NewHeadlessRule ctx rule = Ok h ->
  exists h', NewHeadlessRule ctx (reread_rule v rule) = Ok h' /\ same_headless h h'.
Proof.
  intros Hv Hs Hw. revert h. pose proof (IsValid_reread v rule Hs Hw) as Hvalid. revert Hvalid. revert rule Hs Hw.
  refine (writable_cases _ v _ _).
  - intros d l Hs Hw Hvalid h. destruct (writable_cidr v d Hw) as [H4 H6].
    change (reread_rule v (mkOptHeadlessRule RuleTypeDefault d l))
      with (mkOptHeadlessRule RuleTypeDefault (reread v d) zeroOptLogicalHeadlessRule) in *.
    change (Ok (OptDefaultHeadlessRule_IsValid (reread v d)) = Ok (OptDefaultHeadlessRule_IsValid d)) in Hvalid.
    rewrite !NewHeadlessRule_default. replace (OptDefaultHeadlessRule_IsValid (reread v d)) with (OptDefaultHeadlessRule_IsValid d) by congruence.
    destruct (negb _); [discriminate|]. rewrite res_bind_ok. intros (r & Hr & [= <-]).
    destruct (NewDefaultHeadlessRule_reread ctx d v r Hv Hs H4 H6 Hr) as (r' & -> & Hsame). cbn [res_bind].
    eexists. split; [reflexivity|]. by constructor.
  - intros d l Hst Hm Hf IH Hvalid h. rewrite reread_logical in *. rewrite !NewHeadlessRule_logical, Hvalid. clear Hvalid.
    destruct (OptHeadlessRule_IsValid _) as [[]| | |]; cbn [res_bind negb]; try discriminate.
    rewrite (NewLogicalHeadlessRule_elems _ _ l Hm), NewLogicalHeadlessRule_elems by done. cbn [o_Rules o_Mode o_LogicalDomainMatchStrategy o_LogicalInvert].
    rewrite elems_appended. rewrite res_bind_ok. intros (lr & Hlr & [= <-]). apply res_bind_ok in Hlr as (hs & Hhs & [= <-]).
    destruct (sub_rules_same (NewHeadlessRule ctx) (reread_rule v) same_headless (elems (o_Rules l)) 0 0 hs) as (hs' & -> & Hsame); [|done|].
    + clear -Hf IH. induction Hf as [|r rules [Hs Hw] Hf IHf]; constructor; apply Forall_cons in IH as [Hr IH]; [|auto].
      apply Hr. by apply IsValid_reread.
    + cbn [res_bind]. eexists. split; [reflexivity|]. by constructor.
Qed.

Lemma build_reread ctx v rules hs :
  v <> RuleSetVersion1 -> Forall source_rule rules -> forallb (writable v) rules = true ->
  res_map (NewHeadlessRule ctx) rules = Ok hs ->
  exists hs', res_map (NewHeadlessRule ctx) (map (reread_rule v) rules) = Ok hs' /\ Forall2 same_headless hs hs'.
Proof.
  intros Hv Hs. revert hs. induction Hs as [|r rules Hr _ IH]; intros hs Hw; cbn [res_map map].
  - intros [= <-]. eauto.
  - cbn [forallb] in Hw. apply andb_true_iff in Hw as [Hwr Hw]. rewrite res_bind_ok. intros (h & Hh & Hhs).
    apply res_bind_ok in Hhs as (hs0 & Hhs & [= <-]).
    destruct (NewHeadlessRule_reread ctx v r h Hv Hr Hwr Hh) as (h' & -> & Hsame). cbn [res_bind].
    destruct (IH hs0 Hw Hhs) as (hs' & -> & Hf). cbn [res_bind]. eauto.
Qed.

Lemma same_matchAnyHeadlessRule hs hs' md :
  Forall2 same_headless hs hs' -> matchAnyHeadlessRule Match hs md = matchAnyHeadlessRule Match hs' md.
Proof.
  intros Hf. unfold matchAnyHeadlessRule.
  assert (Hm : Forall2 (fun h h' => forall md, Match h md = Match h' md) hs hs').
  { eapply Forall2_impl; [exact Hf|]. intros h h' Hs m. by apply same_Match. }
  destruct (same_loops hs hs' (ResetRuleMatchCache md) Hm) as (_ & _ & ->). done.
Qed.

(** ** Referring to the set *)

(** A default rule that refers to a set, among others. *)
Definition refer (d : abstractDefaultRule HeadlessRule) (tags : list string) (before after : list (RuleSet HeadlessRule))
    (matchSource acceptEmpty : bool) (s : RuleSet HeadlessRule) : abstractDefaultRule HeadlessRule :=
  mkAbstractDefaultRule (items d) (sourceAddressItems d) (sourcePortItems d) (destinationAddressItems d)
    (destinationIPCIDRItems d) (destinationPortItems d) (allItems d)
    (Some (mkRuleSetItem tags (before ++ s :: after) matchSource acceptEmpty))
    (rule_domainMatchStrategy d) (ruleCount d) (invert d).

Definition same_set (s s' : RuleSet HeadlessRule) : Prop := Forall2 same_headless (RuleSet_rules s) (RuleSet_rules s').

Lemma same_mergeable s s' : same_set s s' ->
  match RuleSet_mergeableRule s, RuleSet_mergeableRule s' with
  | Some r, Some r' => same_rule r r'
  | None, None => True
  | _, _ => False
  end.
Proof.
  unfold same_set, RuleSet_mergeableRule, mergeableRuleIn. intros Hf.
  destruct Hf as [|h h' hs hs' Hh Hf]; [done|]. destruct Hf; [|by destruct Hh].
  destruct Hh as [r r' Hr|]; [|done]. pose proof Hr as [_ _ _ _ _ _ _ [-> ->] Hinv]. rewrite Hinv.
  by destruct (invert r').
Qed.

Lemma same_evaluateForMerge r r' md : same_rule r r' -> evaluateForMerge r md = evaluateForMerge r' md.
Proof.
  intros Hr. unfold evaluateForMerge. rewrite (same_evaluateGroups _ _ _ Hr).
  destruct (evaluateGroups r' md) as [g md']. by rewrite (same_matchAll _ _ _ (same_items _ _ Hr)).
Qed.

Lemma same_outerGroups_loop (setMatch : RuleSet HeadlessRule -> InboundContext -> bool * InboundContext)
    i i' md groups outerDone sets sets' :
  (forall s s' md, same_set s s' -> setMatch s md = setMatch s' md) ->
  nestedMetadata i md = nestedMetadata i' md -> Forall2 (fun s s' => s = s' \/ same_set s s') sets sets' ->
  forall matched deferred,
    outerGroups_loop RuleSet_mergeableRule setMatch i md groups outerDone sets matched deferred
    = outerGroups_loop RuleSet_mergeableRule setMatch i' md groups outerDone sets' matched deferred.
Proof.
  intros Hset Hn. induction 1 as [|s s' sets sets' Hs _ IH]; intros matched deferred; cbn [outerGroups_loop]; [done|].
  assert (Hm : setMatch s (nestedMetadata i md) = setMatch s' (nestedMetadata i' md)
    /\ match RuleSet_mergeableRule s, RuleSet_mergeableRule s' with
       | Some r, Some r' => evaluateForMerge r (nestedMetadata i md) = evaluateForMerge r' (nestedMetadata i' md)
       | None, None => True
       | _, _ => False
       end).
  { rewrite <- Hn. destruct Hs as [-> |Hs]; [by destruct (RuleSet_mergeableRule s')|].
    rewrite (Hset s s' _ Hs). split; [done|]. pose proof (same_mergeable _ _ Hs) as Hm.
    destruct (RuleSet_mergeableRule s), (RuleSet_mergeableRule s'); try done. by apply same_evaluateForMerge. }
  destruct Hm as [-> Hm]. destruct (RuleSet_mergeableRule s) as [r|], (RuleSet_mergeableRule s') as [r'|]; try done.
  - rewrite Hm. destruct (evaluateForMerge r' _) as [[bg|] nested]; [|apply IH].
    destruct (ruleGroupMatch_done _); [|apply IH]. destruct (_ =? 0); [done|apply IH].
  - destruct outerDone; [|apply IH]. destruct (setMatch s' _) as [[] nested]; [|apply IH].
    destruct (_ =? 0); [done|apply IH].
Qed.

Lemma same_refer d tags before after matchSource acceptEmpty s s' md :
  same_set s s' ->
  Match (DefaultRule (refer d tags before after matchSource acceptEmpty s)) md
  = Match (DefaultRule (refer d tags before after matchSource acceptEmpty s')) md.
Proof.
  intros Hs. cbn [Match]. unfold abstractDefaultRule_Match. cbn [allItems refer invert].
  destruct (nonempty (allItems d)); [|done]. cbn [negb].
  replace (matchInner RuleSet_mergeableRule _ (refer d tags before after matchSource acceptEmpty s) md)
    with (matchInner RuleSet_mergeableRule (fun s m => matchAnyHeadlessRule Match (RuleSet_rules s) m)
            (refer d tags before after matchSource acceptEmpty s') md); [done|].
  unfold matchInner. change (evaluateGroups (refer d tags before after matchSource acceptEmpty s) md)
    with (evaluateGroups (refer d tags before after matchSource acceptEmpty s') md).
  destruct (evaluateGroups _ md) as [groups md']. cbn [items refer ruleSetItem].
  destruct (forallb _ _); [|done]. cbn [negb].
  unfold matchWithOuterGroups. cbn [setList].
  symmetry. erewrite (same_outerGroups_loop _ _ _ md' groups _ (before ++ s :: after) (before ++ s' :: after)); [reflexivity| | |].
  - intros s1 s2 m H12. by apply same_matchAnyHeadlessRule.
  - done.
  - apply Forall2_app; [|constructor; [by right|]]; apply Forall_Forall2_diag, Forall_true; by left.
Qed.

Lemma metadata_reread v rules :
  Forall source_rule rules -> forallb (writable v) rules = true ->
  buildRuleSetMetadata (map (reread_rule v) rules) = buildRuleSetMetadata rules.
Proof.
  intros Hs Hw. pose proof (kept_conditions v) as Hk. repeat (apply Forall_cons in Hk as [? Hk]).
  assert (Hc : forall cond, kept_condition v cond -> HasHeadlessRule cond (map (reread_rule v) rules) = HasHeadlessRule cond rules).
  { intros cond Hcond. unfold HasHeadlessRule. induction Hs as [|r rules Hr _ IH]; [done|]. cbn in *.
    apply andb_true_iff in Hw as [Hwr Hw]. by rewrite has_rule_reread, IH. }
  unfold buildRuleSetMetadata. by rewrite !Hc.
Qed.

Context {Pkg : SrsPackages} {Laws : SrsLaws}.

(** C33: compiling a rule set does not change what it matches.  When the rules of
    a source rule set build, and the set is written in the binary format at
    version 2 or later, then reading the file and building its rules succeeds
    too; the set announces the same metadata, and every rule that refers to it,
    alone or among other sets, matches and defers as with the source set on every
    metadata, before or after a lookup. *)
Theorem compiled_rule_set_equivalent ctx rules hs generateVersion file :
  RuleSetVersion2 <= generateVersion <= RuleSetVersionCurrent ->
  fits rules -> Forall storable rules -> Forall source_rule rules ->
  Forall (fun r => (nesting r <= S maxLogicalRuleDepth)%nat) rules ->
  res_map (NewHeadlessRule ctx) rules = Ok hs ->
  Write rules generateVersion = Ok file ->
  exists rules' hs', Read false file = Ok (generateVersion, rules')
    /\ res_map (NewHeadlessRule ctx) rules' = Ok hs'
    /\ buildRuleSetMetadata rules' = buildRuleSetMetadata rules
    /\ (forall d tags before after matchSource acceptEmpty tag md,
         Match (DefaultRule (refer d tags before after matchSource acceptEmpty
                               (mkRuleSet tag hs' (buildRuleSetMetadata rules')))) md
         = Match (DefaultRule (refer d tags before after matchSource acceptEmpty
                                 (mkRuleSet tag hs (buildRuleSetMetadata rules)))) md).
Proof.
  intros Hv Hfits Hst Hs Hn Hb Hw.
  assert (Hok : forallb (writable generateVersion) rules = true) by by rewrite <- is_ok_Write, Hw.
  unfold RuleSetVersion2 in Hv.
  destruct (build_reread ctx generateVersion rules hs) as (hs' & Hb' & Hf); try done.
  { unfold RuleSetVersion1. lia. }
  exists (map (reread_rule generateVersion) rules), hs'. split_and!; try done.
  - apply Read_Write; try done. lia.
  - by apply metadata_reread.
  - intros. symmetry. by apply same_refer.
Qed.

End Compiled.

(** * The announced metadata *)

Section Metadata.
Context {Env : RuleEnv}.

(** Some default rule inside satisfies [p]. *)
Fixpoint any_default (p : abstractDefaultRule HeadlessRule -> bool) (h : HeadlessRule) : bool :=
  match h with
  | DefaultHeadlessRule d => p d
  | LogicalHeadlessRule l => existsb (any_default p) (logical_rules l)
  | _ => false
  end.

(** Some item of a rule, with the slice it is in, satisfies [q]. *)
Definition any_item {R} (q : slot -> RuleItem -> bool) (r : abstractDefaultRule R) : bool :=
  existsb (q slotItems) (items r) || existsb (q slotSourceAddress) (sourceAddressItems r)
  || existsb (q slotSourcePort) (sourcePortItems r) || existsb (q slotDestinationAddress) (destinationAddressItems r)
  || existsb (q slotDestinationIPCIDR) (destinationIPCIDRItems r) || existsb (q slotDestinationPort) (destinationPortItems r).

(** Types as [UnmarshalJSON] and [srs.Read] leave them. *)
Fixpoint typed (rule : OptHeadlessRule) : bool :=
  match rule with
  | mkOptHeadlessRule ty d l =>
      bool_decide (ty = RuleTypeDefault)
      || bool_decide (ty = RuleTypeLogical) && match o_Rules l with None => true | Some rules => forallb typed rules end
  end.

Definition step_any (q : slot -> RuleItem -> bool) (step : build_step) : bool :=
  match step with Ok (Some (s, i)) => q s i | _ => false end.

Lemma any_item_append {R} q s i (r : abstractDefaultRule R) :
  any_item q (append_item s i r) = any_item q r || q s i.
Proof. unfold any_item. destruct s; cbn; rewrite existsb_app; cbn; btauto. Qed.

Lemma any_item_steps {R} q steps : forall (r r' : abstractDefaultRule R),
  append_items steps r = Ok r' -> any_item q r' = any_item q r || existsb (step_any q) steps.
Proof.
  induction steps as [|step steps IH]; intros r r'; cbn [append_items existsb].
  - intros [= <-]. by rewrite orb_false_r.
  - rewrite res_bind_ok. intros (o & -> & Hr). rewrite (IH _ _ Hr). destruct o as [[s i]|]; cbn [step_any]; [|done].
    by rewrite any_item_append, orb_assoc.
Qed.

Lemma steps_ok {R} steps : forall (r r' : abstractDefaultRule R), append_items steps r = Ok r' -> Forall (fun a => is_ok a = true) steps.
Proof.
  induction steps as [|step steps IH]; intros r r'; cbn [append_items]; [constructor|].
  rewrite res_bind_ok. intros (o & -> & Hr). constructor; [done|by eapply IH].
Qed.

Lemma step_any_when q b s i : step_any q (when b s (Ok i)) = b && q s i.
Proof. by destruct b. Qed.

(** A constructor that can fail, once the step is known to succeed. *)
Lemma step_any_fallible {A} q b s (c : res A) (f : A -> RuleItem) message t :
  (forall x, q s (f x) = t) -> is_ok (when b s (res_cause message (let! x := c in Ok (f x)))) = true ->
  step_any q (when b s (res_cause message (let! x := c in Ok (f x)))) = b && t.
Proof. intros Ht Hok. destruct b; [|done]. destruct c; cbn in *; try discriminate. apply Ht. Qed.

(** A list compiled now, or the compiled form. *)
Lemma step_any_either {B} q (b : bool) s (c : res RuleItem) (m : option B) (g : B -> RuleItem) t :
  (forall y, q s (g y) = t) -> (forall i, c = Ok i -> q s i = t) ->
  is_ok (if b then when true s c else compiled s m g) = true ->
  step_any q (if b then when true s c else compiled s m g) = (b || negb (is_nil m)) && t.
Proof.
  intros Hg Ht Hok. destruct b; [|by destruct m; cbn]. destruct c; cbn in *; try discriminate. by apply Ht.
Qed.

Definition in_IPCIDR (s : slot) (i : RuleItem) : bool := match s with slotDestinationIPCIDR => true | _ => false end.
Definition is_process (s : slot) (i : RuleItem) : bool :=
  match i with
  | I_Process _ | I_ProcessPath _ | I_ProcessPathRegex _ | I_PackageName _ | I_PackageNameRegex _ => true
  | _ => false
  end.
Definition is_wifi (s : slot) (i : RuleItem) : bool :=
  match i with I_WIFISSID _ | I_WIFIBSSID _ => true | _ => false end.
Definition is_query_type (s : slot) (i : RuleItem) : bool :=
  match i with I_QueryType _ => true | _ => false end.

Lemma res_cause_ok {A} message (m : res A) a : res_cause message m = Ok a -> m = Ok a.
Proof. by destruct m. Qed.

Ltac item_kind He :=
  try apply res_cause_ok in He;
  first [apply res_bind_ok in He as (? & _ & [= <-]) | injection He as <-]; reflexivity.

(** Evaluates [step_any q] on each step, the steps being known to succeed. *)
Ltac any_value :=
  cbn [existsb]; rewrite !step_any_when;
  repeat match goal with
    | H : is_ok (when ?b ?s (res_cause ?m _)) = true |- context [step_any ?q (when ?b ?s (res_cause ?m _))] =>
        first [rewrite (fun Ht => step_any_fallible q _ _ _ _ _ false Ht H) by (intros; reflexivity)
              | rewrite (fun Ht => step_any_fallible q _ _ _ _ _ true Ht H) by (intros; reflexivity)]
    | H : is_ok (if ?b then _ else ?c) = true |- context [step_any ?q (if ?b then _ else ?c)] =>
        first [rewrite (fun Hg Hc => step_any_either q _ _ _ _ _ false Hg Hc H)
                by first [intros ? He; item_kind He | intros; reflexivity]
              | rewrite (fun Hg Hc => step_any_either q _ _ _ _ _ true Hg Hc H)
                by first [intros ? He; item_kind He | intros; reflexivity]]
    end.

Lemma headless_any ctx strategy o :
  Forall (fun a => is_ok a = true) (headless_steps ctx strategy o) ->
  existsb (step_any in_IPCIDR) (headless_steps ctx strategy o) = isIPCIDRHeadlessRule o
  /\ existsb (step_any is_process) (headless_steps ctx strategy o) = isProcessHeadlessRule o
  /\ existsb (step_any is_query_type) (headless_steps ctx strategy o) = isDNSQueryTypeHeadlessRule o
  /\ existsb (step_any is_wifi) (headless_steps ctx strategy o) = hasNetworkManager ctx && isWIFIHeadlessRule o.
Proof.
  unfold headless_steps. intros Hok. repeat (apply Forall_cons in Hok as [? Hok]). clear Hok. cbv beta in *.
  unfold isIPCIDRHeadlessRule, isProcessHeadlessRule, isDNSQueryTypeHeadlessRule, isWIFIHeadlessRule.
  split_and!; any_value; cbn [in_IPCIDR is_process is_query_type is_wifi]; rewrite ?andb_false_r, ?andb_true_r, ?orb_false_r;
    cbn [orb]; [done|by rewrite ?orb_assoc|done|by destruct (hasNetworkManager ctx)].
Qed.

(** A condition on options that describes the items built from them. *)
Definition describes ctx (cond : OptDefaultHeadlessRule -> bool) (q : slot -> RuleItem -> bool) : Prop :=
  forall o r, NewDefaultHeadlessRule ctx o = Ok r -> any_item q r = cond o.

Lemma built_any q ctx o r :
  NewDefaultHeadlessRule ctx o = Ok r ->
  let steps := headless_steps ctx (buildStrategy ctx (o_DomainMatchStrategy o)) o in
  Forall (fun a => is_ok a = true) steps /\ any_item q r = existsb (step_any q) steps.
Proof.
  unfold NewDefaultHeadlessRule. rewrite res_bind_ok. intros (x & Hx & Hr).
  assert (Hany : any_item q r = any_item q x) by (inversion Hr; reflexivity). split; [by eapply steps_ok|].
  rewrite Hany. by rewrite (any_item_steps q _ _ _ Hx).
Qed.

Lemma conditions_describe ctx :
  hasNetworkManager ctx = true ->
  describes ctx isIPCIDRHeadlessRule in_IPCIDR /\ describes ctx isProcessHeadlessRule is_process
  /\ describes ctx isDNSQueryTypeHeadlessRule is_query_type /\ describes ctx isWIFIHeadlessRule is_wifi.
Proof.
  intros Hnm. split_and!; intros o r Hr; destruct (built_any in_IPCIDR ctx o r Hr) as [Hok Hany];
    destruct (headless_any _ _ _ Hok) as (H1 & H2 & H3 & H4); rewrite Hnm in H4.
  - by rewrite Hany.
  - by rewrite (proj2 (built_any is_process ctx o r Hr)).
  - by rewrite (proj2 (built_any is_query_type ctx o r Hr)).
  - by rewrite (proj2 (built_any is_wifi ctx o r Hr)).
Qed.

Lemma sub_rules_Forall2 {O R} (new : O -> res R) rules : forall i hs,
  sub_rules new i rules = Ok hs -> Forall2 (fun r h => new r = Ok h) rules hs.
Proof.
  induction rules as [|r rules IH]; intros i hs; cbn [sub_rules].
  - intros [= <-]. constructor.
  - rewrite res_bind_ok. intros (h & Hh & Hs). apply res_bind_ok in Hs as (hs' & Hs & [= <-]).
    constructor; [by eapply res_cause_ok|by eapply IH].
Qed.

Lemma has_rule_built ctx cond q rule : describes ctx cond q -> forall h,
  typed rule = true -> NewHeadlessRule ctx rule = Ok h -> any_default (any_item q) h = has_rule cond rule.
Proof.
  intros Hd. induction rule as [ty d l IH] using OptHeadlessRule_nested_ind. intros h Ht. cbn [typed] in Ht.
  destruct (bool_decide_reflect (ty = RuleTypeDefault)) as [-> |_].
  - rewrite NewHeadlessRule_default. destruct (negb _); [discriminate|]. rewrite res_bind_ok. intros (r & Hr & [= <-]).
    by apply Hd.
  - destruct (bool_decide_reflect (ty = RuleTypeLogical)) as [-> |_]; [|done]. cbn [orb andb] in Ht.
    rewrite NewHeadlessRule_logical. destruct (OptHeadlessRule_IsValid _) as [[]| | |]; cbn [res_bind negb]; try discriminate.
    rewrite res_bind_ok. intros (lr & Hlr & [= <-]). unfold NewLogicalHeadlessRule in Hlr.
    apply res_bind_ok in Hlr as (mode & _ & Hlr). apply res_bind_ok in Hlr as (hs & Hhs & [= <-]).
    change (existsb (any_default (any_item q)) hs = match o_Rules l with Some rules => existsb (has_rule cond) rules | None => false end).
    destruct (o_Rules l) as [rules|]; [|by injection Hhs as <-]. specialize (IH _ eq_refl).
    apply sub_rules_Forall2 in Hhs. induction Hhs as [|r h rules hs Hr _ IHh]; [done|]. cbn in *.
    apply andb_true_iff in Ht as [Htr Ht]. apply Forall_cons in IH as [IHr IH]. by rewrite (IHr h Htr Hr), IHh.
Qed.

(** the announced metadata is exact.  When a network manager is present and
    the rules of a set build, [buildRuleSetMetadata] announces destination
    addresses, processes or packages, query types and Wi-Fi conditions exactly
    when some rule built for the set, at any nesting, has such an item. *)
Theorem metadata_describes_rules ctx rules hs :
  hasNetworkManager ctx = true -> forallb typed rules = true -> res_map (NewHeadlessRule ctx) rules = Ok hs ->
  let announced := buildRuleSetMetadata rules in
  ContainsIPCIDRRule announced = existsb (any_default (any_item in_IPCIDR)) hs
  /\ ContainsProcessRule announced = existsb (any_default (any_item is_process)) hs
  /\ ContainsDNSQueryTypeRule announced = existsb (any_default (any_item is_query_type)) hs
  /\ ContainsWIFIRule announced = existsb (any_default (any_item is_wifi)) hs.
Proof.
  intros Hnm Ht Hb. apply res_map_Forall2 in Hb.
  assert (H : forall cond q, describes ctx cond q -> HasHeadlessRule cond rules = existsb (any_default (any_item q)) hs).
  { intros cond q Hd. unfold HasHeadlessRule. induction Hb as [|r h rules hs Hr _ IH]; [done|]. cbn in *.
    apply andb_true_iff in Ht as [Htr Ht]. by rewrite IH, (has_rule_built ctx cond q r Hd h Htr Hr). }
  destruct (conditions_describe ctx Hnm) as (H1 & H2 & H3 & H4). cbn. by rewrite (H _ _ H1), (H _ _ H2), (H _ _ H3), (H _ _ H4).
Qed.

(** Without a network manager, a rule of network conditions only matches
    everything.  The items are dropped, the rule builds with none, and an empty
    rule accepts any metadata. *)
Example network_rule_matches_everything ssid md :
  exists rule,
    NewHeadlessRule (mkBuildContext false None)
      (mkOptHeadlessRule RuleTypeDefault (zeroOptDefaultHeadlessRule <| o_WIFISSID := Some [ssid] |>) zeroOptLogicalHeadlessRule)
    = Ok rule /\ Match rule md = (true, md).
Proof.
  exists (DefaultHeadlessRule (mkAbstractDefaultRule [] [] [] [] [] [] [] None 0 0 false)).
  split; [|done]. unfold NewHeadlessRule. rewrite bool_decide_false, bool_decide_true by done. reflexivity.
Qed.

End Metadata.

(** * Evaluations *)

#[local] Existing Instance example_env.
#[local] Existing Instance example_packages.
#[local] Existing Instance example_laws.

Definition example_context : BuildContext := mkBuildContext true (Some 2).

Lemma example_source n : source_rule (example_nested n).
Proof.
  induction n as [|n IH].
  - unfold example_nested, example_rule. cbn [source_rule]. rewrite bool_decide_true by done.
    split_and!; try done; repeat constructor; done.
  - cbn [example_nested]. unfold example_logical. cbn [source_rule]. rewrite bool_decide_false by done. by split_and!.
Qed.

Definition built (r : res (list HeadlessRule)) : list HeadlessRule := match r with Ok l => l | _ => [] end.
Lemma built_ok r : is_ok r = true -> r = Ok (built r).
Proof. by destruct r. Qed.

Definition example_rules : list OptHeadlessRule := [example_rule; example_nested 2].

Lemma compiled_rule_set_equivalent_witness :
  exists rules' hs', Read false (written (Write example_rules 3)) = Ok (3, rules')
    /\ res_map (NewHeadlessRule example_context) rules' = Ok hs'
    /\ buildRuleSetMetadata rules' = buildRuleSetMetadata example_rules
    /\ (forall d tags before after matchSource acceptEmpty tag md,
         Match (DefaultRule (refer d tags before after matchSource acceptEmpty
                               (mkRuleSet tag hs' (buildRuleSetMetadata rules')))) md
         = Match (DefaultRule (refer d tags before after matchSource acceptEmpty
                                 (mkRuleSet tag (built (res_map (NewHeadlessRule example_context) example_rules))
                                    (buildRuleSetMetadata example_rules)))) md).
Proof.
  refine (compiled_rule_set_equivalent example_context example_rules
            (built (res_map (NewHeadlessRule example_context) example_rules)) 3 (written (Write example_rules 3)) _ _ _ _ _ _ _).
  - done.
  - reflexivity.
  - apply Forall_cons. split; [exact (example_storable 0)|apply Forall_singleton; exact (example_storable 2)].
  - apply Forall_cons. split; [exact (example_source 0)|apply Forall_singleton; exact (example_source 2)].
  - apply Forall_cons. split; [|apply Forall_singleton]; vm_compute; lia.
  - apply built_ok. vm_compute. reflexivity.
  - vm_compute. reflexivity.
Defined.

Lemma metadata_describes_rules_witness :
  ContainsIPCIDRRule (buildRuleSetMetadata example_rules)
  = existsb (any_default (any_item in_IPCIDR)) (built (res_map (NewHeadlessRule example_context) example_rules)).
Proof.
  refine (proj1 (metadata_describes_rules example_context example_rules
                   (built (res_map (NewHeadlessRule example_context) example_rules)) _ _ _)); [reflexivity|reflexivity|].
  apply built_ok. vm_compute. reflexivity.
Defined.

(** A domain match strategy is not written: a rule for destination names only comes
    back as one that looks at sniffed names too. *)
Example strategy_lost :
  let rule := mkOptHeadlessRule RuleTypeDefault
    (zeroOptDefaultHeadlessRule <| o_DomainKeyword := Some ["example"] |> <| o_DomainMatchStrategy := DomainMatchStrategyFQDNOnly |>)
    zeroOptLogicalHeadlessRule in
  let matches rules md := existsb (fun h => fst (Match h md)) (built (res_map (NewHeadlessRule (mkBuildContext true None)) rules)) in
  let md := zeroInboundContext <| Destination := mkSocksaddr (AddrFrom4 0x01010101) 443 "" |> <| SniffHost := "example.org" |> in
  matches [rule] md = false
  /\ matches (match Read false (written (Write [rule] 3)) with Ok (_, rules) => rules | _ => [] end) md = true.
Proof. split; vm_compute; reflexivity. Qed.
