(* ===== verification/RuleSetStore.v ===== *)
(** The rule sets of the router as shared objects: reference counts, the release
    of unused rules and reloading.

    - [abstractRuleSet] of src/route/rule/rule_set_abstract.go: [IncRef],
      [DecRef], [Cleanup], [RegisterCallback], [UnregisterCallback],
      [reloadRules], [loadBytes];
    - [RuleSetItem.Start] and [Close] of src/route/rule/rule_item_rule_set.go,
      which hold pointers into the rule sets of the router. *)

From S2P Require Import Prelude NetAddr GoStrings RuleContext RuleItems RuleEngine RuleSetOptions Binary Srs RuleBuild.

Section Store.
Context {Env : RuleEnv}.

(** * One rule set *)

(** [callbacks] are named by the element [RegisterCallback] returned. *)
Record abstractRuleSet := mkAbstractRuleSet {
  set_format : string;
  set_rules : list HeadlessRule;
  set_ruleCount : Z;
  set_metadata : RuleSetMetadata;
  set_callbacks : list Z;
  set_refs : Z;
}.

Definition IncRef (s : abstractRuleSet) : abstractRuleSet := s <| set_refs := int32 (set_refs s + 1) |>.

Definition DecRef (s : abstractRuleSet) : res abstractRuleSet :=
  let refs := int32 (set_refs s - 1) in
  if refs <? 0 then Panic "rule-set: negative refs" else Ok (s <| set_refs := refs |>).

Definition Cleanup (s : abstractRuleSet) : abstractRuleSet :=
  if set_refs s =? 0 then s <| set_rules := [] |> else s.

Definition RegisterCallback (s : abstractRuleSet) (element : Z) : abstractRuleSet :=
  s <| set_callbacks := set_callbacks s ++ [element] |>.

(** [list.Remove] takes the element out if it is still in the list. *)
Definition UnregisterCallback (s : abstractRuleSet) (element : Z) : abstractRuleSet :=
  s <| set_callbacks := filter (fun e => e <> element) (set_callbacks s) |>.

(** [rule.RuleCount()] *)
Definition RuleCount (h : HeadlessRule) : Z :=
  match h with
  | DefaultHeadlessRule d | DefaultRule d | DefaultDNSRule d _ _ _ => ruleCount d
  | LogicalHeadlessRule l | LogicalRule l | LogicalDNSRule l _ _ _ => logical_ruleCount l
  end.

(** The loop of [reloadRules]. *)
Fixpoint build_rules (ctx : BuildContext) (i : Z) (rules : list OptHeadlessRule) : res (list HeadlessRule * Z) :=
  match rules with
  | [] => Ok ([], 0)
  | options :: rules' =>
      let! rule := res_cause ("parse rule_set.rules.[" +:+ Itoa i +:+ "]") (NewHeadlessRule ctx options) in
      let! ' (rest, count) := build_rules ctx (i + 1) rules' in
      Ok (rule :: rest, u64 (RuleCount rule + count))
  end.

(** [reloadRules]: the new state and the callbacks called, in order.  The
    validator of the DNS router is looked up in the context. *)
Definition reloadRules (ctx : BuildContext) (validator : option (RuleSetMetadata -> res unit))
    (s : abstractRuleSet) (headlessRules : list OptHeadlessRule) : res (abstractRuleSet * list Z) :=
  let! ' (rules, count) := build_rules ctx 0 headlessRules in
  let metadata := buildRuleSetMetadata headlessRules in
  let! _ := match validator with None => Ok tt | Some validate => validate metadata end in
  Ok (s <| set_rules := rules |> <| set_ruleCount := count |> <| set_metadata := metadata |>, set_callbacks s).

Definition RuleSetFormatSource : string := "source".
Definition RuleSetFormatBinary : string := "binary".

(** [PlainRuleSetCompat.Upgrade] *)
Definition Upgrade (ruleSet : Z * list OptHeadlessRule) : res (list OptHeadlessRule) :=
  let '(version, rules) := ruleSet in
  if inb version [RuleSetVersion1; RuleSetVersion2; RuleSetVersion3; RuleSetVersion4; RuleSetVersion5]
  then Ok rules
  else Err (ENew ("unknown rule-set version: " +:+ Itoa version)).

(** [loadBytes]; the JSON decoder of the source format is a parameter. *)
Definition loadBytes `{!SrsPackages} (UnmarshalExtended : list Z -> res (Z * list OptHeadlessRule))
    (ctx : BuildContext) (validator : option (RuleSetMetadata -> res unit))
    (s : abstractRuleSet) (content : list Z) : res (abstractRuleSet * list Z) :=
  let! ruleSet :=
    if bool_decide (set_format s = RuleSetFormatSource) then UnmarshalExtended content
    else if bool_decide (set_format s = RuleSetFormatBinary) then Read false content
    else Err (ENew ("unknown rule-set format: " +:+ set_format s)) in
  let! rules := Upgrade ruleSet in
  reloadRules ctx validator s rules.

(** * References *)

(** References into [Router.ruleSetMap]. *)

Record RuleSetRef := mkRuleSetRef {
  ref_tagList : list string;
  ref_setList : list string;
}.

Definition update_set (store : gmap string abstractRuleSet) (tag : string) (f : abstractRuleSet -> res abstractRuleSet) : res (gmap string abstractRuleSet) :=
  match store !! tag with
  | Some s => let! s' := f s in Ok (<[tag := s']> store)
  | None => Panic "invalid memory address or nil pointer dereference"
  end.

Fixpoint decRef_loop (store : gmap string abstractRuleSet) (setList : list string) : res (gmap string abstractRuleSet) :=
  match setList with
  | [] => Ok store
  | tag :: setList' => let! store := update_set store tag DecRef in decRef_loop store setList'
  end.

(** [RuleSetItem.Close] *)
Definition RuleSetRef_Close (store : gmap string abstractRuleSet) (r : RuleSetRef) : res ((gmap string abstractRuleSet) * RuleSetRef) :=
  let! store := decRef_loop store (ref_setList r) in
  Ok (store, r <| ref_setList := [] |>).

(** The loop of [RuleSetItem.Start]; the error is that of a missing tag, after
    what was acquired is released. *)
Fixpoint incRef_loop (store : gmap string abstractRuleSet) (r : RuleSetRef) (tags : list string) : res ((gmap string abstractRuleSet) * RuleSetRef * option error) :=
  match tags with
  | [] => Ok (store, r, None)
  | tag :: tags' =>
      match store !! tag with
      | None =>
          let! ' (store, r) := RuleSetRef_Close store r in
          Ok (store, r, Some (ENew ("rule-set not found: " +:+ tag)))
      | Some s =>
          incRef_loop (<[tag := IncRef s]> store) (r <| ref_setList := ref_setList r ++ [tag] |>) tags'
      end
  end.

(** [RuleSetItem.Start] *)
Definition RuleSetRef_Start (store : gmap string abstractRuleSet) (r : RuleSetRef) : res ((gmap string abstractRuleSet) * RuleSetRef * option error) :=
  let! ' (store, r) := RuleSetRef_Close store r in
  incRef_loop store r (ref_tagList r).

(** ** The router's rules starting and closing, sets being reloaded and released *)

Record world := mkWorld { world_sets : gmap string abstractRuleSet; world_refs : list RuleSetRef }.

Inductive world_op :=
| OpStart (i : nat)
| OpClose (i : nat)
| OpCleanup (tag : string)
| OpReload (tag : string) (ctx : BuildContext) (validator : option (RuleSetMetadata -> res unit))
    (rules : list OptHeadlessRule).

(** An operation on the [i]-th reference or a set; there is none out of range. *)
Definition world_run (w : world) (op : world_op) : res world :=
  match op with
  | OpStart i =>
      match world_refs w !! i with
      | None => Ok w
      | Some r =>
          let! ' (store, r, _) := RuleSetRef_Start (world_sets w) r in
          Ok (mkWorld store (<[i := r]> (world_refs w)))
      end
  | OpClose i =>
      match world_refs w !! i with
      | None => Ok w
      | Some r =>
          let! ' (store, r) := RuleSetRef_Close (world_sets w) r in
          Ok (mkWorld store (<[i := r]> (world_refs w)))
      end
  | OpCleanup tag =>
      Ok (mkWorld (alter Cleanup tag (world_sets w)) (world_refs w))
  | OpReload tag ctx validator rules =>
      match world_sets w !! tag with
      | None => Ok w
      | Some s =>
          match reloadRules ctx validator s rules with
          | Ok (s', _) => Ok (mkWorld (<[tag := s']> (world_sets w)) (world_refs w))
          | Err _ => Ok w
          | Panic p => Panic p
          | OutOfFuel => OutOfFuel
          end
      end
  end.

Fixpoint world_runs (w : world) (ops : list world_op) : res world :=
  match ops with
  | [] => Ok w
  | op :: ops' => let! w := world_run w op in world_runs w ops'
  end.

End Store.
