(* ===== verification/RuleSetStoreProofs.v ===== *)
(** Reference counts of rule sets: they equal the references held, so releasing
    never panics and the rules of a set in use are never dropped. *)

From S2P Require Import Prelude NetAddr GoStrings RuleContext RuleItems RuleEngine RulePreMatch RuleExamples RuleSetOptions Binary Srs RuleBuild RuleSetStore.

Section Proofs.
Context {Env : RuleEnv}.

(** * Counting *)

Definition uses (tag : string) (l : list string) : Z := Z.of_nat (length (filter (fun t => t = tag) l)).

Lemma uses_nil tag : uses tag [] = 0.
Proof. done. Qed.

Lemma uses_cons tag t l : uses tag (t :: l) = (if decide (t = tag) then 1 else 0) + uses tag l.
Proof. unfold uses. rewrite filter_cons. destruct (decide (t = tag)); cbn [length]; lia. Qed.

Lemma uses_app tag l1 l2 : uses tag (l1 ++ l2) = uses tag l1 + uses tag l2.
Proof. unfold uses. rewrite filter_app, length_app. lia. Qed.

Lemma uses_bound tag l : 0 <= uses tag l <= zlen l.
Proof. unfold uses, zlen. pose proof (length_filter (fun t => t = tag) l). lia. Qed.

Definition add_refs (n : Z) (s : abstractRuleSet) : abstractRuleSet := s <| set_refs := set_refs s + n |>.
#[local] Arguments add_refs : simpl never.

Lemma add_refs_refs n s : set_refs (add_refs n s) = set_refs s + n.
Proof. done. Qed.

Lemma add_refs_add m n s : add_refs m (add_refs n s) = add_refs (n + m) s.
Proof. unfold add_refs. destruct s. cbn. unfold constant. f_equal. lia. Qed.

Lemma add_refs_0 s : add_refs 0 s = s.
Proof. unfold add_refs. destruct s. cbn. unfold constant. f_equal. lia. Qed.

Lemma IncRef_add s : 0 <= set_refs s < 2 ^ 31 - 1 -> IncRef s = add_refs 1 s.
Proof. intros Hs. unfold IncRef, add_refs. by rewrite int32_small by lia. Qed.

Lemma DecRef_add s : 0 < set_refs s < 2 ^ 31 -> DecRef s = Ok (add_refs (-1) s).
Proof.
  intros Hs. unfold DecRef, add_refs. rewrite int32_small by lia.
  replace (_ <? 0) with false by (symmetry; apply Z.ltb_ge; lia). done.
Qed.

(** [held base l store]: the store holds one reference per element of [l] on top
    of [base]. *)
Definition held (base : gmap string abstractRuleSet) (l : list string) (store : gmap string abstractRuleSet) : Prop :=
  forall tag, store !! tag = add_refs (uses tag l) <$> base !! tag.
Definition present (base : gmap string abstractRuleSet) (l : list string) : Prop := forall tag, tag ∈ l -> is_Some (base !! tag).
(** Counts stay in range with [n] more references. *)
Definition bounded (n : Z) (base : gmap string abstractRuleSet) : Prop :=
  forall tag s, base !! tag = Some s -> 0 <= set_refs s /\ set_refs s + n < 2 ^ 31.

Lemma held_nil base store : held base [] store -> store = base.
Proof. intros H. apply (map_eq). intros tag. rewrite H. destruct (base !! tag); cbn; [|done]. f_equal. apply add_refs_0. Qed.

Lemma held_refl base : held base [] base.
Proof. intros tag. rewrite uses_nil. destruct (base !! tag) as [s|]; [|done]. cbn. by rewrite add_refs_0. Qed.

Lemma decRef_loop_held base l : forall store,
  present base l -> bounded (zlen l) base -> held base l store -> decRef_loop store l = Ok base.
Proof.
  induction l as [|t l IH]; intros store Hp Hb Hh; cbn [decRef_loop].
  - f_equal. by apply held_nil.
  - destruct (Hp t ltac:(left)) as [s Hs]. destruct (Hb t s Hs) as [Hs0 Hs1].
    pose proof (uses_bound t l) as Hu. unfold zlen in *. cbn [length] in *.
    unfold update_set. rewrite (Hh t), Hs. cbn [fmap option_fmap option_map]. rewrite uses_cons, decide_True by done.
    rewrite DecRef_add by (rewrite add_refs_refs; lia). cbn [res_bind]. rewrite add_refs_add.
    apply IH.
    + intros tag Htag. apply Hp. by right.
    + intros tag s' Hs'. destruct (Hb tag s' Hs'). lia.
    + intros tag. destruct (decide (tag = t)) as [->|Hne].
      * rewrite lookup_insert_eq, Hs. cbn. do 2 f_equal. lia.
      * rewrite lookup_insert_ne by done. rewrite (Hh tag), uses_cons, decide_False by congruence. done.
Qed.

Lemma Close_held base store r :
  present base (ref_setList r) -> bounded (zlen (ref_setList r)) base -> held base (ref_setList r) store ->
  RuleSetRef_Close store r = Ok (base, r <| ref_setList := [] |>).
Proof. intros Hp Hb Hh. unfold RuleSetRef_Close. by rewrite (decRef_loop_held base _ store Hp Hb Hh). Qed.

Lemma incRef_loop_held base tags : forall store r,
  present base (ref_setList r) -> bounded (zlen (ref_setList r) + zlen tags) base -> held base (ref_setList r) store ->
  exists store' r' err, incRef_loop store r tags = Ok (store', r', err)
    /\ ref_tagList r' = ref_tagList r
    /\ ((err = None /\ ref_setList r' = ref_setList r ++ tags)
        \/ (is_Some err /\ ref_setList r' = [] /\ exists tag, tag ∈ tags /\ base !! tag = None))
    /\ present base (ref_setList r') /\ held base (ref_setList r') store'.
Proof.
  induction tags as [|t tags IH]; intros store r Hp Hb Hh; cbn [incRef_loop].
  - exists store, r, None. rewrite app_nil_r. eauto 10.
  - unfold zlen in *. cbn [length] in *. destruct (base !! t) as [s|] eqn:Hs.
    + rewrite (Hh t), Hs. cbn [fmap option_fmap option_map]. destruct (Hb t s Hs) as [Hs0 Hs1].
      pose proof (uses_bound t (ref_setList r)) as Hu. unfold zlen in Hu.
      rewrite IncRef_add by (rewrite add_refs_refs; lia). rewrite add_refs_add.
      destruct (IH (<[t := add_refs (uses t (ref_setList r) + 1) s]> store) (r <| ref_setList := ref_setList r ++ [t] |>))
        as (store' & r' & err & Hrun & Htags & Hcase & Hp' & Hh').
      * intros tag. cbn. unfold constant. rewrite elem_of_app, list_elem_of_singleton. intros [Htag| ->]; [by apply Hp|eauto].
      * intros tag s' Hs'. cbn. unfold constant, zlen. rewrite length_app. cbn [length]. destruct (Hb tag s' Hs'). lia.
      * intros tag. cbn. unfold constant. rewrite uses_app, uses_cons, uses_nil. destruct (decide (t = tag)) as [<-|Hne].
        -- rewrite lookup_insert_eq, Hs. cbn. do 2 f_equal.
        -- rewrite lookup_insert_ne by done. rewrite (Hh tag). do 2 f_equal. lia.
      * exists store', r', err. split; [exact Hrun|]. split; [exact Htags|]. split; [|done].
        destruct Hcase as [[-> Hl]|(He & Hl & tag & Hin & Hnone)]; [left|right].
        -- split; [done|]. rewrite Hl. cbn. unfold constant. by rewrite <- app_assoc.
        -- split_and!; try done. exists tag. split; [by right|done].
    + rewrite (Hh t), Hs. cbn [fmap option_fmap option_map].
      rewrite (Close_held base store r Hp) by (try done; intros tag s' Hs'; destruct (Hb tag s' Hs'); unfold zlen; lia).
      cbn [res_bind]. eexists _, _, _. split; [reflexivity|]. split; [done|]. split.
      * right. split_and!; [eauto|done|]. exists t. split; [left|done].
      * split; [intros tag Htag; by inversion Htag|apply held_refl].
Qed.

(** * Worlds *)

(** References held to a set by all rules. *)
Definition references (tag : string) (refs : list RuleSetRef) : Z :=
  foldr (fun r n => uses tag (ref_setList r) + n) 0 refs.
(** References the rules may come to hold. *)
Definition capacity (refs : list RuleSetRef) : Z := foldr (fun r n => zlen (ref_tagList r) + n) 0 refs.

Definition ref_ok (sets : gmap string abstractRuleSet) (r : RuleSetRef) : Prop :=
  present sets (ref_setList r) /\ (ref_setList r = [] \/ ref_setList r = ref_tagList r).

Record world_ok (w : world) : Prop := {
  ok_counts : forall tag s, world_sets w !! tag = Some s -> set_refs s = references tag (world_refs w);
  ok_refs : Forall (ref_ok (world_sets w)) (world_refs w);
  ok_capacity : capacity (world_refs w) < 2 ^ 31;
}.

Lemma references_cons tag r refs : references tag (r :: refs) = uses tag (ref_setList r) + references tag refs.
Proof. done. Qed.

Lemma capacity_cons r refs : capacity (r :: refs) = zlen (ref_tagList r) + capacity refs.
Proof. done. Qed.

Lemma insert_S {A} (l : list A) i x y : <[S i := x]> (y :: l) = y :: <[i := x]> l.
Proof. done. Qed.

Lemma references_insert tag refs i r r' :
  refs !! i = Some r ->
  references tag (<[i := r']> refs) = references tag refs - uses tag (ref_setList r) + uses tag (ref_setList r').
Proof.
  revert i. induction refs as [|r0 refs IH]; intros [|i] Hi; try discriminate.
  - injection Hi as ->. cbn. lia.
  - rewrite insert_S, !references_cons, (IH i Hi). lia.
Qed.

Lemma capacity_insert refs i r r' :
  refs !! i = Some r -> ref_tagList r' = ref_tagList r -> capacity (<[i := r']> refs) = capacity refs.
Proof.
  revert i. induction refs as [|r0 refs IH]; intros [|i] Hi Ht; try discriminate.
  - injection Hi as ->. cbn. by rewrite Ht.
  - by rewrite insert_S, !capacity_cons, (IH i Hi Ht).
Qed.

Lemma references_bound tag refs i r sets :
  refs !! i = Some r -> Forall (ref_ok sets) refs ->
  0 <= references tag refs - uses tag (ref_setList r)
  /\ references tag refs - uses tag (ref_setList r) + zlen (ref_tagList r) <= capacity refs.
Proof.
  unfold references, capacity. intros Hi Hok.
  assert (Hr : forall r, ref_ok sets r -> 0 <= uses tag (ref_setList r) <= zlen (ref_tagList r)).
  { intros r' [_ [-> | ->]]; [rewrite uses_nil; unfold zlen; lia|apply uses_bound]. }
  assert (Hall : forall refs, Forall (ref_ok sets) refs ->
    0 <= foldr (fun r n => uses tag (ref_setList r) + n) 0 refs <= foldr (fun r n => zlen (ref_tagList r) + n) 0 refs).
  { induction 1 as [|r' refs' H' _ IH]; cbn; [lia|]. specialize (Hr _ H'). lia. }
  revert i Hi. induction Hok as [|r0 refs H0 Hok IH]; intros [|i] Hi; cbn in *; try discriminate.
  - injection Hi as ->. specialize (Hall refs Hok). lia.
  - specialize (IH i Hi). specialize (Hr _ H0). lia.
Qed.

(** The store without the references in [l]. *)
Definition release (sets : gmap string abstractRuleSet) (l : list string) : gmap string abstractRuleSet :=
  map_imap (fun tag s => Some (add_refs (- uses tag l) s)) sets.

Lemma lookup_release sets l tag : release sets l !! tag = add_refs (- uses tag l) <$> sets !! tag.
Proof. unfold release. rewrite map_lookup_imap. by destruct (sets !! tag). Qed.

Lemma held_release sets l : held (release sets l) l sets.
Proof.
  intros tag. rewrite lookup_release. destruct (sets !! tag) as [s|]; [|done]. cbn. rewrite add_refs_add.
  by replace (- uses tag l + uses tag l) with 0 by lia; rewrite add_refs_0.
Qed.

Lemma present_same (base base' : gmap string abstractRuleSet) l :
  (forall tag, is_Some (base !! tag) -> is_Some (base' !! tag)) -> present base l -> present base' l.
Proof. intros H Hp tag Htag. by apply H, Hp. Qed.

Lemma held_present base l store tag : held base l store -> is_Some (base !! tag) <-> is_Some (store !! tag).
Proof. intros Hh. rewrite (Hh tag), fmap_is_Some. done. Qed.

(** Replacing what one rule holds, over the store without it. *)
Lemma world_ok_replace w i r base r' store' :
  world_ok w -> world_refs w !! i = Some r -> base = release (world_sets w) (ref_setList r) ->
  ref_tagList r' = ref_tagList r -> (ref_setList r' = [] \/ ref_setList r' = ref_tagList r') ->
  present base (ref_setList r') -> held base (ref_setList r') store' ->
  world_ok (mkWorld store' (<[i := r']> (world_refs w))).
Proof.
  intros [Hc Hr Hcap] Hi -> Ht Hl Hp Hh.
  assert (Hdom : forall tag, is_Some (world_sets w !! tag) -> is_Some (store' !! tag)).
  { intros tag Htag. apply (held_present _ _ _ tag Hh). by apply (held_present _ _ _ tag (held_release _ (ref_setList r))). }
  constructor; cbn [world_sets world_refs].
  - intros tag s Hs. rewrite (references_insert _ _ _ _ _ Hi). rewrite (Hh tag), lookup_release in Hs.
    destruct (world_sets w !! tag) as [s0|] eqn:E; [|discriminate]. injection Hs as <-.
    rewrite !add_refs_refs, (Hc tag s0 E). lia.
  - apply Forall_insert; [eapply Forall_impl; [exact Hr|]|].
    + intros r0 [Hp0 Hl0]. split; [|done]. by eapply present_same.
    + split; [|done]. eapply present_same; [|exact Hp]. intros tag. apply (held_present _ _ _ tag Hh).
  - by rewrite (capacity_insert _ _ _ _ Hi Ht).
Qed.

Lemma bounded_release w i r :
  world_ok w -> world_refs w !! i = Some r -> bounded (zlen (ref_tagList r)) (release (world_sets w) (ref_setList r)).
Proof.
  intros [Hc Hr Hcap] Hi tag s Hs. rewrite lookup_release in Hs.
  destruct (world_sets w !! tag) as [s0|] eqn:E; [|discriminate]. injection Hs as <-.
  rewrite add_refs_refs, (Hc tag s0 E). pose proof (references_bound tag _ _ _ _ Hi Hr). lia.
Qed.

Lemma Close_world w i r :
  world_ok w -> world_refs w !! i = Some r ->
  RuleSetRef_Close (world_sets w) r = Ok (release (world_sets w) (ref_setList r), r <| ref_setList := [] |>).
Proof.
  intros Hw Hi. pose proof (bounded_release w i r Hw Hi) as Hb. destruct Hw as [Hc Hr Hcap].
  pose proof (Forall_lookup_1 _ _ _ _ Hr Hi) as [Hp Hl].
  apply Close_held; [|intros tag s Hs; destruct (Hb tag s Hs); destruct Hl as [-> | ->]; unfold zlen in *; cbn; lia|apply held_release].
  eapply present_same; [|exact Hp]. intros tag. apply (held_present _ _ _ tag (held_release _ (ref_setList r))).
Qed.

Lemma Close_run w i : world_ok w -> exists w', world_run w (OpClose i) = Ok w' /\ world_ok w'.
Proof.
  intros Hw. cbn [world_run]. destruct (world_refs w !! i) as [r|] eqn:Hi; [|eauto].
  rewrite (Close_world w i r Hw Hi). cbn [res_bind]. eexists. split; [reflexivity|].
  eapply world_ok_replace; try done; [by left| |apply held_refl]. intros tag Htag. by inversion Htag.
Qed.

Lemma Start_run w i : world_ok w -> exists w', world_run w (OpStart i) = Ok w' /\ world_ok w'.
Proof.
  intros Hw. cbn [world_run]. destruct (world_refs w !! i) as [r|] eqn:Hi; [|eauto].
  unfold RuleSetRef_Start. rewrite (Close_world w i r Hw Hi). cbn [res_bind].
  set (base := release (world_sets w) (ref_setList r)).
  destruct (incRef_loop_held base (ref_tagList r) base (r <| ref_setList := [] |>))
    as (store' & r' & err & Hrun & Htags & Hcase & Hp & Hh).
  - intros tag Htag. by inversion Htag.
  - exact (bounded_release w i r Hw Hi).
  - apply held_refl.
  - change (ref_tagList (r <| ref_setList := [] |>)) with (ref_tagList r). rewrite Hrun. cbn [res_bind].
    eexists. split; [reflexivity|]. change (ref_tagList (r <| ref_setList := [] |>)) with (ref_tagList r) in Htags.
    eapply world_ok_replace; try done. destruct Hcase as [[_ Hl]|(_ & Hl & _)]; [right|left]; [|done].
    rewrite Hl, Htags. done.
Qed.

(** Changing a set without its count. *)
Lemma world_ok_update w tag s s' :
  world_ok w -> world_sets w !! tag = Some s -> set_refs s' = set_refs s ->
  world_ok (mkWorld (<[tag := s']> (world_sets w)) (world_refs w)).
Proof.
  intros [Hc Hr Hcap] Hs Hrefs. constructor; cbn [world_sets world_refs]; [|eapply Forall_impl; [exact Hr|]|done].
  - intros tag' s0. destruct (decide (tag = tag')) as [<-|Hne].
    + rewrite lookup_insert_eq. intros [= <-]. rewrite Hrefs. by apply Hc.
    + rewrite lookup_insert_ne by done. apply Hc.
  - intros r [Hp Hl]. split; [|done]. eapply present_same; [|exact Hp]. intros tag' Htag'.
    destruct (decide (tag = tag')) as [<-|Hne]; [rewrite lookup_insert_eq; eauto|by rewrite lookup_insert_ne].
Qed.

Lemma alter_as_insert {A} (f : A -> A) (m : gmap string A) tag s : m !! tag = Some s -> alter f tag m = <[tag := f s]> m.
Proof.
  intros Hs. apply map_eq. intros t. destruct (decide (tag = t)) as [<-|Hne].
  - by rewrite lookup_alter_eq, lookup_insert_eq, Hs.
  - by rewrite lookup_alter_ne, lookup_insert_ne.
Qed.

Lemma world_run_ok w op w' : world_ok w -> world_run w op = Ok w' -> world_ok w'.
Proof.
  intros Hw. destruct op as [i|i|tag|tag ctx validator rules].
  - destruct (Start_run w i Hw) as (w1 & -> & Hok). by intros [= <-].
  - destruct (Close_run w i Hw) as (w1 & -> & Hok). by intros [= <-].
  - cbn [world_run]. intros [= <-]. destruct (world_sets w !! tag) as [s|] eqn:Hs.
    + rewrite (alter_as_insert _ _ _ _ Hs). eapply world_ok_update; [done|exact Hs|]. unfold Cleanup. by destruct (_ =? 0).
    + rewrite alter_id by (intros ? E; by rewrite Hs in E). by destruct w.
  - cbn [world_run]. destruct (world_sets w !! tag) as [s|] eqn:Hs; [|by intros [= <-]].
    destruct (reloadRules ctx validator s rules) as [[s' called]| | |] eqn:Hr; try discriminate; intros [= <-]; [|done].
    eapply world_ok_update; [done|exact Hs|]. unfold reloadRules in Hr.
    apply res_bind_ok in Hr as ([built count] & _ & Hr). apply res_bind_ok in Hr as (? & _ & Hr). by injection Hr as <- <-.
Qed.

Lemma world_runs_ok ops : forall w w', world_ok w -> world_runs w ops = Ok w' -> world_ok w'.
Proof.
  induction ops as [|op ops IH]; intros w w' Hw; cbn [world_runs]; [by intros [= <-]|].
  rewrite res_bind_ok. intros (w1 & H1 & H2). eapply IH; [|exact H2]. by eapply world_run_ok.
Qed.

(** Before anything starts. *)
Definition world_initial (w : world) : Prop :=
  (forall tag s, world_sets w !! tag = Some s -> set_refs s = 0)
  /\ Forall (fun r => ref_setList r = []) (world_refs w) /\ capacity (world_refs w) < 2 ^ 31.

Lemma world_initial_ok w : world_initial w -> world_ok w.
Proof.
  intros (Hc & Hr & Hcap). constructor; [|eapply Forall_impl; [exact Hr|]|done].
  - intros tag s Hs. rewrite (Hc tag s Hs). induction Hr as [|r refs Hr0 _ IH] in Hcap |- *; [done|].
    rewrite references_cons, Hr0. rewrite capacity_cons in Hcap. unfold zlen in Hcap. rewrite <- IH by lia. done.
  - intros r Hr0. split; [|by left]. rewrite Hr0. intros tag Htag. by inversion Htag.
Qed.

(** C36: references to rule sets are counted exactly.  Whatever sequence of
    starts, restarts, failed starts and closes of rules, reloads and clean-ups
    runs, the count of each rule set equals the references the rules hold to it.
    Starting or closing any rule then never panics on a negative count, and
    cleaning up never drops the rules of a set that is referred to. *)
Theorem rule_set_references w ops w' :
  world_initial w -> world_runs w ops = Ok w' ->
  (forall tag s, world_sets w' !! tag = Some s -> set_refs s = references tag (world_refs w'))
  /\ (forall i, exists w'', world_run w' (OpStart i) = Ok w'')
  /\ (forall i, exists w'', world_run w' (OpClose i) = Ok w'')
  /\ (forall tag s, world_sets w' !! tag = Some s -> 0 < references tag (world_refs w') -> Cleanup s = s).
Proof.
  intros Hi Hr. pose proof (world_runs_ok ops w w' (world_initial_ok w Hi) Hr) as Hw. split_and!.
  - apply Hw.
  - intros i. destruct (Start_run w' i Hw) as (w'' & H & _). eauto.
  - intros i. destruct (Close_run w' i Hw) as (w'' & H & _). eauto.
  - intros tag s Hs Hpos. rewrite <- (ok_counts _ Hw tag s Hs) in Hpos. unfold Cleanup.
    by replace (set_refs s =? 0) with false by (symmetry; apply Z.eqb_neq; lia).
Qed.

End Proofs.

(** * Evaluations *)

#[local] Existing Instance example_env.

(** Two sets, two rules referring to them, one of which names a missing set. *)
Definition example_world : world :=
  mkWorld (<["a" := mkAbstractRuleSet RuleSetFormatBinary [] 0 (mkRuleSetMetadata false false false false false) [] 0]>
             (<["b" := mkAbstractRuleSet RuleSetFormatBinary [] 0 (mkRuleSetMetadata false false false false false) [] 0]> ∅))
    [mkRuleSetRef ["a"; "b"; "a"] []; mkRuleSetRef ["b"; "missing"] []].

Lemma rule_set_references_witness :
  exists w', world_runs example_world [OpStart 0; OpStart 1; OpStart 0; OpCleanup "a"; OpClose 1] = Ok w'
    /\ (forall tag s, world_sets w' !! tag = Some s -> set_refs s = references tag (world_refs w')).
Proof.
  eexists. split; [reflexivity|].
  refine (proj1 (rule_set_references example_world [OpStart 0; OpStart 1; OpStart 0; OpCleanup "a"; OpClose 1] _ _ _)).
  - split_and!; [|by repeat constructor|done]. intros tag s. cbn.
    rewrite !lookup_insert_Some, lookup_empty. intros [[_ <-]|[_ [[_ <-]|[_ [=]]]]]; done.
  - reflexivity.
Defined.
