(* ===== verification/Managers.v ===== *)
(** The managers of inbounds, endpoints, services and outbounds:
    src/adapter/inbound/manager.go, src/adapter/endpoint/manager.go,
    src/adapter/service/manager.go and src/adapter/outbound/manager.go, with the
    start stages of src/adapter/lifecycle.go.

    A managed object is a pointer to something that starts and closes.  An
    operation returns its result, the new state of the manager and the calls it
    made on the objects, in order; locks only serialise operations. *)

From S2P Require Import Prelude GoStrings.

(** * Stages and objects *)

Inductive StartStage := StartStateInitialize | StartStateStart | StartStatePostStart | StartStateStarted.

Definition stage_rank (s : StartStage) : Z :=
  match s with
  | StartStateInitialize => 0 | StartStateStart => 1 | StartStatePostStart => 2 | StartStateStarted => 3
  end.

Definition ListStartStages : list StartStage :=
  [StartStateInitialize; StartStateStart; StartStatePostStart; StartStateStarted].

Definition StartStage_String (s : StartStage) : string :=
  match s with
  | StartStateInitialize => "initialize"
  | StartStateStart => "start"
  | StartStatePostStart => "post-start"
  | StartStateStarted => "finish-start"
  end.

(** [object_id] is the identity of the pointer; [object_start] and [object_close]
    say how its [Start] and [Close] end; an object without the method is one whose
    call does nothing. *)
Record object := mkObject {
  object_id : Z;
  object_Type : string;
  object_Tag : string;
  object_Dependencies : list string;
  object_start : StartStage -> option error;
  object_close : option error;
}.

Inductive call := Started (id : Z) (stage : StartStage) | Closed (id : Z).

Definition object_name (kind : string) (o : object) : string :=
  kind +:+ "/" +:+ object_Type o +:+ "[" +:+ object_Tag o +:+ "]".

(** [common.Index(list, it == o)] *)
Fixpoint object_index (o : object) (l : list object) : option nat :=
  match l with
  | [] => None
  | o' :: l' => if object_id o' =? object_id o then Some 0%nat else S <$> object_index o l'
  end.

(** [append(l[:i], l[i+1:]...)] *)
Definition remove_at {A} (i : nat) (l : list A) : list A := take i l ++ drop (S i) l.

(** The loop that starts objects for one stage, up to the first error. *)
Fixpoint start_all (kind : string) (stage : StartStage) (l : list object) : list call * res unit :=
  match l with
  | [] => ([], Ok tt)
  | o :: l' =>
      match object_start o stage with
      | Some err => ([Started (object_id o) stage], Err (ECause err (StartStage_String stage +:+ " " +:+ object_name kind o)))
      | None => let '(calls, r) := start_all kind stage l' in (Started (object_id o) stage :: calls, r)
      end
  end.

(** The loop that takes a new object through the stages. *)
Fixpoint start_stages (kind : string) (o : object) (stages : list StartStage) : list call * res unit :=
  match stages with
  | [] => ([], Ok tt)
  | stage :: stages' =>
      match object_start o stage with
      | Some err => ([Started (object_id o) stage], Err (ECause err (StartStage_String stage +:+ " " +:+ object_name kind o)))
      | None => let '(calls, r) := start_stages kind o stages' in (Started (object_id o) stage :: calls, r)
      end
  end.

Definition close_result (o : object) : res unit :=
  match object_close o with None => Ok tt | Some err => Err err end.

(** * Inbounds, endpoints and services *)

Record Manager := mkManager {
  started : bool;
  stage : StartStage;
  objects : list object;
  objectByTag : gmap string object;
}.

Definition NewManager : Manager := mkManager false StartStateInitialize [] ∅.

(** [Start] of the inbound and service managers; [skip] is the stage the endpoint
    manager leaves to the outbound manager. *)
Definition Manager_Start (kind : string) (skip : option StartStage) (m : Manager) (s : StartStage)
    : res unit * Manager * list call :=
  if started m && (stage_rank s <=? stage_rank (stage m)) then (Panic "already started", m, [])
  else
    let m := m <| started := true |> <| stage := s |> in
    if match skip with Some s' => stage_rank s =? stage_rank s' | None => false end then (Ok tt, m, [])
    else let '(calls, r) := start_all kind s (objects m) in (r, m, calls).

Definition Inbound_Start : Manager -> StartStage -> res unit * Manager * list call := Manager_Start "inbound" None.
Definition Service_Start : Manager -> StartStage -> res unit * Manager * list call := Manager_Start "service" None.
Definition Endpoint_Start : Manager -> StartStage -> res unit * Manager * list call :=
  Manager_Start "endpoint" (Some StartStateStart).

(** [Close]: the errors are collected and dropped. *)
Definition Manager_Close (m : Manager) : res unit * Manager * list call :=
  if negb (started m) then (Ok tt, m, [])
  else (Ok tt, m <| started := false |> <| objects := [] |>, map (fun o => Closed (object_id o)) (objects m)).

Definition Manager_Get (m : Manager) (tag : string) : option object := objectByTag m !! tag.

(** [Get] of the inbound manager looks among the endpoints next. *)
Definition Inbound_Get (m endpoints : Manager) (tag : string) : option object :=
  match objectByTag m !! tag with
  | Some o => Some o
  | None => Manager_Get endpoints tag
  end.

Definition ErrInvalid' : error := ENew "invalid argument".

Definition Manager_Remove (kind : string) (m : Manager) (tag : string) : res unit * Manager * list call :=
  match objectByTag m !! tag with
  | None => (Err ErrInvalid', m, [])
  | Some o =>
      let m' := m <| objectByTag := delete tag (objectByTag m) |> in
      match object_index o (objects m) with
      | None => (Panic ("invalid " +:+ kind +:+ " index"), m', [])
      | Some i =>
          let m' := m' <| objects := remove_at i (objects m) |> in
          if started m then (close_result o, m', [Closed (object_id o)]) else (Ok tt, m', [])
      end
  end.

(** [Create]; [created] is what the registry made of the options. *)
Definition Manager_Create (kind : string) (m : Manager) (tag : string) (created : res object)
    : res unit * Manager * list call :=
  match created with
  | Err e => (Err e, m, [])
  | Panic s => (Panic s, m, [])
  | OutOfFuel => (OutOfFuel, m, [])
  | Ok o =>
      let '(calls, r) := if started m then start_stages kind o ListStartStages else ([], Ok tt) in
      match r with
      | Ok _ =>
          let add := fun objs => m <| objects := objs ++ [o] |> <| objectByTag := <[tag := o]> (objectByTag m) |> in
          match objectByTag m !! tag with
          | None => (Ok tt, add (objects m), calls)
          | Some exists_ =>
              let '(calls, r) :=
                if started m
                then (calls ++ [Closed (object_id exists_)],
                      res_cause ("close " +:+ object_name kind exists_) (close_result exists_))
                else (calls, Ok tt) in
              match r with
              | Ok _ =>
                  match object_index exists_ (objects m) with
                  | None => (Panic ("invalid " +:+ kind +:+ " index"), m, calls)
                  | Some i => (Ok tt, add (remove_at i (objects m)), calls)
                  end
              | _ => (r, m, calls)
              end
          end
      | _ => (r, m, calls)
      end
  end.

Definition Inbound_Remove : Manager -> string -> res unit * Manager * list call := Manager_Remove "inbound".
Definition Endpoint_Remove : Manager -> string -> res unit * Manager * list call := Manager_Remove "endpoint".
Definition Service_Remove : Manager -> string -> res unit * Manager * list call := Manager_Remove "service".

Definition Inbound_Create : Manager -> string -> res object -> res unit * Manager * list call := Manager_Create "inbound".
Definition Endpoint_Create : Manager -> string -> res object -> res unit * Manager * list call := Manager_Create "endpoint".
Definition Service_Create : Manager -> string -> res object -> res unit * Manager * list call := Manager_Create "service".

(** * Outbounds *)

Record OutboundManager := mkOutboundManager {
  out_started : bool;
  out_stage : StartStage;
  out_defaultTag : string;
  outbounds : list object;
  outboundByTag : gmap string object;
  dependByTag : gmap string (list string);
  defaultOutbound : option object;
}.

Definition NewOutboundManager (defaultTag : string) : OutboundManager :=
  mkOutboundManager false StartStateInitialize defaultTag [] ∅ ∅ None.

(** ** Starting in the order of dependencies *)

(** One turn of the [startOne] loop; [inl] is an early return with an error. *)
Fixpoint start_pass (started : gset string) (canContinue : bool) (l : list object) (calls : list call)
    : (list call * error) + (gset string * bool * list call) :=
  match l with
  | [] => inr (started, canContinue, calls)
  | o :: l' =>
      if bool_decide (object_Tag o ∈ started) then start_pass started canContinue l' calls
      else if forallb (fun d => bool_decide (d ∈ started)) (object_Dependencies o) then
        let calls := calls ++ [Started (object_id o) StartStateStart] in
        match object_start o StartStateStart with
        | Some err => inl (calls, ECause err ("start " +:+ object_name "outbound" o))
        | None => start_pass ({[object_Tag o]} ∪ started) true l' calls
        end
      else start_pass started canContinue l' calls
  end.

(** [lintOutbound]: follows the first missing dependency of each outbound; a
    chain without repetition is no longer than the number of outbounds. *)
Fixpoint lintOutbound (fuel : nat) (started : gset string) (byTag : gmap string object)
    (oTree : list string) (oCurrent : object) : res unit :=
  match fuel with
  | O => OutOfFuel
  | S fuel =>
      let problem := default "" (find (fun d => negb (bool_decide (d ∈ started))) (object_Dependencies oCurrent)) in
      if inb problem oTree
      then Err (ENew ("circular outbound dependency: " +:+ Join oTree " -> " +:+ " -> " +:+ problem))
      else match byTag !! problem with
           | None => Err (ENew ("dependency[" +:+ problem +:+ "] not found for outbound[" +:+ object_Tag oCurrent +:+ "]"))
           | Some o => lintOutbound fuel started byTag (oTree ++ [problem]) o
           end
  end.

(** The [for] loop: each turn that continues starts at least one outbound. *)
Fixpoint start_loop (fuel : nat) (byTag : gmap string object) (started : gset string) (l : list object) (calls : list call)
    : res unit * list call :=
  match fuel with
  | O => (OutOfFuel, calls)
  | S fuel =>
      match start_pass started false l calls with
      | inl (calls, err) => (Err err, calls)
      | inr (started, canContinue, calls) =>
          if (size started =? length l)%nat then (Ok tt, calls)
          else if canContinue then start_loop fuel byTag started l calls
          else match find (fun o => negb (bool_decide (object_Tag o ∈ started))) l with
               | None => (Panic "invalid memory address or nil pointer dereference", calls)
               | Some o => (lintOutbound (S (size byTag)) started byTag [object_Tag o] o, calls)
               end
      end
  end.

Definition startOutbounds (byTag : gmap string object) (l : list object) : res unit * list call :=
  start_loop (S (length l)) byTag ∅ l [].

(** ** Operations *)

(** [Start]; [endpoints] is the endpoint manager, [fallback] what
    [defaultOutboundFallback] returns. *)
Definition Outbound_Start (endpoints : Manager) (fallback : res object) (m : OutboundManager) (s : StartStage)
    : res unit * OutboundManager * list call :=
  if out_started m && (stage_rank s <=? stage_rank (out_stage m)) then (Panic "already started", m, [])
  else
    let m := m <| out_started := true |> <| out_stage := s |> in
    match s with
    | StartStateStart =>
        let chosen : res OutboundManager :=
          match defaultOutbound m with
          | Some _ => Ok m
          | None =>
              if negb (bool_decide (out_defaultTag m = "")) then
                match Manager_Get endpoints (out_defaultTag m) with
                | None => Err (ENew ("default outbound not found: " +:+ out_defaultTag m))
                | Some e => Ok (m <| defaultOutbound := Some e |>)
                end
              else
                let! direct := res_cause "create direct outbound for fallback" fallback in
                Ok (m <| outbounds := outbounds m ++ [direct] |>
                      <| outboundByTag := <[object_Tag direct := direct]> (outboundByTag m) |>
                      <| defaultOutbound := Some direct |>)
          end in
        match chosen with
        | Ok m => let '(r, calls) := startOutbounds (outboundByTag m) (outbounds m ++ objects endpoints) in (r, m, calls)
        | Err e => (Err e, m, [])
        | Panic p => (Panic p, m, [])
        | OutOfFuel => (OutOfFuel, m, [])
        end
    | _ => let '(calls, r) := start_all "outbound" s (outbounds m) in (r, m, calls)
    end.

Definition Outbound_Close (m : OutboundManager) : res unit * OutboundManager * list call :=
  if negb (out_started m) then (Ok tt, m, [])
  else (Ok tt, m <| out_started := false |> <| outbounds := [] |>, map (fun o => Closed (object_id o)) (outbounds m)).

Definition Outbound_Outbound (m : OutboundManager) (endpoints : Manager) (tag : string) : option object :=
  match outboundByTag m !! tag with
  | Some o => Some o
  | None => Manager_Get endpoints tag
  end.

Definition same_object (a : option object) (b : object) : bool :=
  match a with Some a => object_id a =? object_id b | None => false end.

(** The loop over the dependencies of a removed outbound. *)
Fixpoint drop_dependencies (tag : string) (deps : list string) (by_tag : gmap string (list string)) : gmap string (list string) :=
  match deps with
  | [] => by_tag
  | d :: deps' =>
      let l := default [] (by_tag !! d) in
      drop_dependencies tag deps'
        (if (length l =? 1)%nat then delete d by_tag else <[d := filter (fun it => it <> tag) l]> by_tag)
  end.

Definition Outbound_Remove (m : OutboundManager) (tag : string) : res unit * OutboundManager * list call :=
  match outboundByTag m !! tag with
  | None => (Err ErrInvalid', m, [])
  | Some o =>
      let m' := m <| outboundByTag := delete tag (outboundByTag m) |> in
      match object_index o (outbounds m) with
      | None => (Panic "invalid inbound index", m', [])
      | Some i =>
          let m' := m' <| outbounds := remove_at i (outbounds m) |> in
          let m' := if same_object (defaultOutbound m) o then m' <| defaultOutbound := head (outbounds m') |> else m' in
          let dependBy := default [] (dependByTag m !! tag) in
          if negb (length dependBy =? 0)%nat
          then (Err (ENew ("outbound[" +:+ tag +:+ "] is depended by " +:+ Join dependBy ", ")), m', [])
          else
            let m' := m' <| dependByTag := drop_dependencies tag (object_Dependencies o) (dependByTag m') |> in
            if out_started m then (close_result o, m', [Closed (object_id o)]) else (Ok tt, m', [])
      end
  end.

Definition add_dependencies (tag : string) (deps : list string) (by_tag : gmap string (list string)) : gmap string (list string) :=
  fold_left (fun m d => <[d := default [] (m !! d) ++ [tag]]> m) deps by_tag.

(** The end of [Create]: the outbound goes last, under its tag. *)
Definition register_outbound (m : OutboundManager) (tag : string) (o : object) (rest : list object) : OutboundManager :=
  let m := m <| outbounds := rest ++ [o] |> <| outboundByTag := <[tag := o]> (outboundByTag m) |>
             <| dependByTag := add_dependencies tag (object_Dependencies o) (dependByTag m) |> in
  if bool_decide (tag = out_defaultTag m)
     || bool_decide (out_defaultTag m = "") && match defaultOutbound m with None => true | Some _ => false end
  then m <| defaultOutbound := Some o |> else m.

Definition Outbound_Create (m : OutboundManager) (tag : string) (created : res object) : res unit * OutboundManager * list call :=
  if bool_decide (tag = "") then (Err ErrInvalid', m, [])
  else match created with
  | Err e => (Err e, m, [])
  | Panic s => (Panic s, m, [])
  | OutOfFuel => (OutOfFuel, m, [])
  | Ok o =>
      let '(calls, r) := if out_started m then start_stages "outbound" o ListStartStages else ([], Ok tt) in
      match r with
      | Ok _ =>
          match outboundByTag m !! tag with
          | None => (Ok tt, register_outbound m tag o (outbounds m), calls)
          | Some exists_ =>
              let '(calls, r) :=
                if out_started m
                then (calls ++ [Closed (object_id exists_)],
                      res_cause ("close " +:+ object_name "outbound" exists_) (close_result exists_))
                else (calls, Ok tt) in
              match r with
              | Ok _ =>
                  match object_index exists_ (outbounds m) with
                  | None => (Panic "invalid inbound index", m, calls)
                  | Some i => (Ok tt, register_outbound m tag o (remove_at i (outbounds m)), calls)
                  end
              | _ => (r, m, calls)
              end
          end
      | _ => (r, m, calls)
      end
  end.
