(* ===== verification/ManagersProofs.v ===== *)
(** The managers: outbounds start in the order of their dependencies whenever
    there is one, and registration keeps its list and its map in agreement. *)

From S2P Require Import Prelude GoStrings Managers.

(** * The start order *)

Definition tags (l : list object) : list string := map object_Tag l.

(** Every outbound comes after its dependencies. *)
Inductive ordered : list object -> Prop :=
| ordered_nil : ordered []
| ordered_snoc order o :
    ordered order -> (forall d, d ∈ object_Dependencies o -> d ∈ tags order) -> ordered (order ++ [o]).

Definition start_calls (order : list object) : list call := map (fun o => Started (object_id o) StartStateStart) order.

(** What has been started after some turns of the loop. *)
Record start_ok (l : list object) (started : gset string) (order : list object) (calls : list call) : Prop := {
  start_calls_eq : calls = start_calls order;
  start_set : forall tag, tag ∈ started <-> tag ∈ tags order;
  start_nodup : NoDup (tags order);
  start_incl : order ⊆ l;
  start_ordered : ordered order;
}.

Lemma tags_app l1 l2 : tags (l1 ++ l2) = tags l1 ++ tags l2.
Proof. apply map_app. Qed.

Lemma start_ok_init l : start_ok l ∅ [] [].
Proof. split; try constructor; try set_solver. Qed.

Lemma start_ok_step l started order calls o :
  start_ok l started order calls -> o ∈ l -> object_Tag o ∉ started ->
  (forall d, d ∈ object_Dependencies o -> d ∈ started) ->
  start_ok l ({[object_Tag o]} ∪ started) (order ++ [o]) (calls ++ [Started (object_id o) StartStateStart]).
Proof.
  intros [-> Hset Hnd Hincl Hord] Hin Hnot Hdeps. constructor.
  - unfold start_calls. by rewrite map_app.
  - intros tag. rewrite tags_app, elem_of_union, elem_of_app, elem_of_singleton, Hset. cbn. rewrite list_elem_of_singleton. tauto.
  - rewrite tags_app. apply NoDup_app. split; [done|]. split; [|apply NoDup_singleton].
    intros tag Htag. cbn. rewrite list_elem_of_singleton. intros ->. by apply Hnot, Hset.
  - intros x. rewrite elem_of_app, list_elem_of_singleton. intros [Hx| ->]; auto.
  - constructor; [done|]. intros d Hd. by apply Hset, Hdeps.
Qed.

Lemma start_ok_size l started order calls : start_ok l started order calls -> size started = length order.
Proof.
  intros [_ Hset Hnd _ _]. transitivity (size (list_to_set (tags order) : gset string)).
  - f_equal. apply set_eq. intros tag. by rewrite Hset, elem_of_list_to_set.
  - rewrite size_list_to_set by done. unfold tags. apply length_map.
Qed.

(** An outbound that cannot be started: it is, or some dependency is not. *)
Definition blocked (started : gset string) (o : object) : Prop :=
  object_Tag o ∈ started \/ exists d, d ∈ object_Dependencies o /\ d ∉ started.

Lemma forallb_false {A} (f : A -> bool) l : forallb f l = false -> exists x, x ∈ l /\ f x = false.
Proof.
  induction l as [|x l IH]; cbn; [discriminate|]. rewrite andb_false_iff.
  intros [H|H]; [exists x; split; [left|done]|]. destruct (IH H) as (y & Hy & Hf). exists y. split; [by right|done].
Qed.

Lemma start_pass_spec l l0 : forall started order calls can,
  l0 ⊆ l -> start_ok l started order calls ->
  match start_pass started can l0 calls with
  | inl _ => exists o, o ∈ l0 /\ object_start o StartStateStart <> None
  | inr (started', can', calls') => exists new, start_ok l started' (order ++ new) calls'
      /\ can' = can || nonempty new
      /\ (new = [] -> started' = started /\ Forall (blocked started) l0)
  end.
Proof.
  induction l0 as [|o l0 IH]; intros started order calls can Hl Hok; cbn [start_pass].
  - exists []. rewrite app_nil_r, orb_false_r. eauto using Forall_nil_2.
  - assert (Hl0 : l0 ⊆ l) by (intros x Hx; apply Hl; by right).
    assert (Hskip : blocked started o -> match start_pass started can l0 calls with
      | inl _ => exists o', o' ∈ o :: l0 /\ object_start o' StartStateStart <> None
      | inr (started', can', calls') => exists new, start_ok l started' (order ++ new) calls'
          /\ can' = can || nonempty new /\ (new = [] -> started' = started /\ Forall (blocked started) (o :: l0)) end).
    { intros Hb. specialize (IH started order calls can Hl0 Hok).
      destruct (start_pass started can l0 calls) as [?|[[s' c'] k']].
      - destruct IH as (o' & Ho' & He). exists o'. split; [by right|done].
      - destruct IH as (new & Hok' & Hc & Hn). exists new. split_and!; try done. intros Hnew.
        destruct (Hn Hnew) as [-> Hf]. split; [done|]. by constructor. }
    destruct (bool_decide_reflect (object_Tag o ∈ started)) as [Hin|Hnot]; [apply Hskip; by left|].
    destruct (forallb _ _) eqn:Hdeps.
    + rewrite forallb_forall in Hdeps.
      assert (Hd : forall d, d ∈ object_Dependencies o -> d ∈ started).
      { intros d Hd. apply list_elem_of_In, Hdeps in Hd. by apply bool_decide_eq_true in Hd. }
      destruct (object_start o StartStateStart) as [err|] eqn:Hs; [exists o; split; [left|by rewrite Hs]|].
      pose proof (start_ok_step l started order calls o Hok (Hl o ltac:(left)) Hnot Hd) as Hok'.
      specialize (IH _ _ _ true Hl0 Hok').
      destruct (start_pass _ true l0 _) as [?|[[s' c'] k']].
      * destruct IH as (o' & Ho' & He). exists o'. split; [by right|done].
      * destruct IH as (new & Hok'' & -> & _). exists (o :: new). rewrite <- app_assoc in Hok''.
        split_and!; [done|by rewrite orb_true_r|discriminate].
    + apply Hskip. right. destruct (forallb_false _ _ Hdeps) as (d & Hd & Hb). exists d.
      by apply bool_decide_eq_false in Hb.
Qed.

(** ** The loop ends *)

Lemma tags_elem o l : o ∈ l -> object_Tag o ∈ tags l.
Proof. intros Ho. unfold tags. apply list_elem_of_fmap. eauto. Qed.

Lemma start_ok_length l started order calls : start_ok l started order calls -> (length order <= length l)%nat.
Proof. intros [_ _ Hnd Hincl _]. apply submseteq_length, NoDup_submseteq; [by eapply NoDup_fmap_1|done]. Qed.

(** All started: the order is a permutation of the outbounds. *)
Lemma start_ok_full l started order calls :
  start_ok l started order calls -> length order = length l -> order ≡ₚ l.
Proof.
  intros [_ _ Hnd Hincl _] Hlen. apply submseteq_length_Permutation; [|lia].
  apply NoDup_submseteq; [by eapply NoDup_fmap_1|done].
Qed.

(** Some not started, when the tags differ. *)
Lemma start_ok_missing l started order calls :
  NoDup (tags l) -> start_ok l started order calls -> length order <> length l ->
  exists o, o ∈ l /\ object_Tag o ∉ started.
Proof.
  intros Hnd Hok Hlen. destruct (decide (Exists (fun o => object_Tag o ∉ started) l)) as [He|He].
  - apply Exists_exists in He as (o & Ho & Hn). eauto.
  - exfalso. rewrite <- Forall_not_Exists in He || apply not_Exists_Forall in He; [|intros; apply _].
    apply Hlen. pose proof (start_ok_length _ _ _ _ Hok).
    assert (length (tags l) <= length (tags order))%nat; [|unfold tags in *; rewrite !length_map in *; lia].
    apply submseteq_length, NoDup_submseteq; [done|]. intros tag Htag. apply list_elem_of_fmap in Htag as (o & -> & Ho).
    rewrite Forall_forall in He. specialize (He o Ho). apply dec_stable in He. by apply (start_set _ _ _ _ Hok).
Qed.

(** The map and the list of a manager agree on what can be reached by tag. *)
Definition reachable_by_tag (byTag : gmap string object) (l : list object) : Prop :=
  forall tag o, byTag !! tag = Some o -> o ∈ l /\ object_Tag o = tag.

(** [lintOutbound] reports an error: each outbound on the way misses a dependency. *)
Lemma lintOutbound_fails byTag l started fuel : forall oTree o,
  reachable_by_tag byTag l -> Forall (blocked started) l -> o ∈ l -> object_Tag o ∉ started ->
  NoDup oTree -> (forall tag, tag ∈ tail oTree -> is_Some (byTag !! tag)) -> oTree <> [] ->
  (size byTag < fuel + length (tail oTree))%nat ->
  exists e, lintOutbound fuel started byTag oTree o = Err e.
Proof.
  induction fuel as [|fuel IH]; intros oTree o Hby Hbl Ho Hn Hnd Htail Hne Hfuel.
  - exfalso. assert (length (tail oTree) <= size byTag)%nat; [|lia].
    rewrite <- size_dom, <- (size_list_to_set (C := gset string) (tail oTree)) by (destruct oTree; [done|by apply NoDup_cons in Hnd as []]).
    apply subseteq_size. intros tag. rewrite elem_of_list_to_set. intros Htag. by apply elem_of_dom, Htail.
  - cbn [lintOutbound]. rewrite Forall_forall in Hbl. destruct (Hbl o Ho) as [|(d & Hd & Hdn)]; [done|].
    destruct (find _ (object_Dependencies o)) as [p|] eqn:Hf.
    2: { exfalso. apply find_none with (x := d) in Hf; [|by apply list_elem_of_In].
         apply negb_false_iff, bool_decide_eq_true in Hf. done. }
    cbn [default from_option id]. apply find_some in Hf as [_ Hp]. apply negb_true_iff, bool_decide_eq_false in Hp.
    destruct (inb p oTree) eqn:Hin; [eauto|]. destruct (byTag !! p) as [o'|] eqn:Hb; [|eauto].
    destruct (Hby p o' Hb) as [Ho' Htag]. apply IH; try done.
    + by rewrite Forall_forall.
    + by rewrite Htag.
    + apply NoDup_app. split; [done|]. split; [|apply NoDup_singleton]. intros x Hx. rewrite list_elem_of_singleton. intros ->.
      apply not_true_iff_false in Hin. apply Hin. by apply bool_decide_eq_true.
    + intros tag. destruct oTree as [|t0 oTree]; [done|]. cbn. rewrite elem_of_app, list_elem_of_singleton.
      intros [Ht| ->]; [by apply Htail|by eauto].
    + by destruct oTree.
    + destruct oTree as [|t0 oTree]; [done|]. cbn in *. rewrite length_app. cbn. lia.
Qed.

(** How the loop ends. *)
Lemma start_loop_spec byTag l : forall fuel started order calls,
  NoDup (tags l) -> reachable_by_tag byTag l -> start_ok l started order calls ->
  (length l < fuel + length order)%nat ->
  exists r calls', start_loop fuel byTag started l calls = (r, calls')
    /\ ((r = Ok tt /\ exists order', start_ok l (list_to_set (tags order')) order' calls' /\ order' ≡ₚ l)
        \/ (exists e, r = Err e)
           /\ ((exists o, o ∈ l /\ object_start o StartStateStart <> None)
               \/ exists stuck o, Forall (blocked stuck) l /\ o ∈ l /\ object_Tag o ∉ stuck)).
Proof.
  induction fuel as [|fuel IH]; intros started order calls Hnd Hby Hok Hfuel.
  { pose proof (start_ok_length _ _ _ _ Hok). lia. }
  cbn [start_loop]. pose proof (start_pass_spec l l started order calls false ltac:(done) Hok) as Hp.
  destruct (start_pass started false l calls) as [[calls' e]|[[started' can] calls']].
  { eexists _, _. split; [reflexivity|]. right. split; [eauto|by left]. }
  destruct Hp as (new & Hok' & -> & Hnew). rewrite (start_ok_size _ _ _ _ Hok').
  destruct (Nat.eqb_spec (length (order ++ new)) (length l)) as [Hfull|Hnot].
  { eexists _, _. split; [reflexivity|]. left. split; [done|]. exists (order ++ new). split; [|by eapply start_ok_full].
    destruct Hok' as [? Hset ? ? ?]. constructor; try done. intros tag. by rewrite elem_of_list_to_set. }
  destruct new as [|o0 new]; cbn [nonempty orb].
  - destruct (Hnew eq_refl) as [-> Hbl]. rewrite app_nil_r in *.
    destruct (start_ok_missing l started order calls' Hnd Hok' Hnot) as (o & Ho & Ho').
    destruct (find _ l) as [o1|] eqn:Hf.
    2: { exfalso. apply find_none with (x := o) in Hf; [|by apply list_elem_of_In].
         apply negb_false_iff, bool_decide_eq_true in Hf. done. }
    apply find_some in Hf as [Hin Hn]. apply list_elem_of_In in Hin. apply negb_true_iff, bool_decide_eq_false in Hn.
    destruct (lintOutbound_fails byTag l started (S (size byTag)) [object_Tag o1] o1) as [e He]; try done; try lia.
    { apply NoDup_singleton. }
    { intros tag Htag. by inversion Htag. }
    rewrite He. eexists _, _. split; [reflexivity|]. right. split; [eauto|]. right. eauto.
  - apply (IH started' (order ++ o0 :: new)); try done. rewrite length_app. cbn. lia.
Qed.

(** C37: outbounds start in the order of their dependencies.  When [startOutbounds]
    succeeds on outbounds with distinct tags, every outbound was started exactly
    once, after all its dependencies. *)
Theorem outbounds_start_in_order byTag l calls :
  NoDup (tags l) -> reachable_by_tag byTag l -> startOutbounds byTag l = (Ok tt, calls) ->
  exists order, order ≡ₚ l /\ calls = start_calls order /\ ordered order.
Proof.
  intros Hnd Hby Hrun.
  destruct (start_loop_spec byTag l (S (length l)) ∅ [] [] Hnd Hby (start_ok_init l)) as (r & calls' & Heq & Hcase).
  { cbn. lia. }
  unfold startOutbounds in Hrun. rewrite Heq in Hrun. injection Hrun as -> ->.
  destruct Hcase as [(_ & order & [Hc _ _ _ Hord] & Hperm)|[[e He] _]]; [eauto|discriminate].
Qed.

(** When the dependencies can be ordered, everything starts.  If no [Start]
    fails and the dependencies of every outbound exist and come earlier in some
    ranking, [startOutbounds] terminates with success; without such a ranking it
    terminates with an error or success, never in a panic or without end. *)
Theorem outbounds_start_succeeds byTag l :
  NoDup (tags l) -> reachable_by_tag byTag l ->
  (exists calls, startOutbounds byTag l = (Ok tt, calls))
  \/ (exists e calls, startOutbounds byTag l = (Err e, calls)
      /\ ((exists o, o ∈ l /\ object_start o StartStateStart <> None)
          \/ ~ exists rank : string -> nat, forall o, o ∈ l -> forall d, d ∈ object_Dependencies o ->
                 d ∈ tags l /\ (rank d < rank (object_Tag o))%nat)).
Proof.
  intros Hnd Hby.
  destruct (start_loop_spec byTag l (S (length l)) ∅ [] [] Hnd Hby (start_ok_init l)) as (r & calls & Heq & Hcase).
  { cbn. lia. }
  unfold startOutbounds. rewrite Heq. destruct Hcase as [[-> _]|[[e ->] Hwhy]]; [left; eauto|right].
  exists e, calls. split; [done|]. destruct Hwhy as [Hf|(stuck & o & Hbl & Ho & Hn)]; [by left|right].
  intros [rank Hrank]. rewrite Forall_forall in Hbl.
  assert (Hall : forall n o, o ∈ l -> (rank (object_Tag o) < n)%nat -> object_Tag o ∈ stuck).
  { induction n as [|n IH]; intros o' Ho' Hlt; [lia|]. destruct (Hbl o' Ho') as [|(d & Hd & Hdn)]; [done|].
    destruct (Hrank o' Ho' d Hd) as [Hin Hr]. apply list_elem_of_fmap in Hin as (o2 & -> & Ho2).
    exfalso. apply Hdn, IH; [done|lia]. }
  apply Hn, (Hall (S (rank (object_Tag o)))); [done|lia].
Qed.

(** * Registration *)

(** The list and the map hold the same objects, each under its tag. *)
Record registered (l : list object) (byTag : gmap string object) : Prop := {
  reg_ids : NoDup (map object_id l);
  reg_list : forall o, o ∈ l -> byTag !! object_Tag o = Some o;
  reg_map : reachable_by_tag byTag l;
}.

Lemma registered_nil : registered [] ∅.
Proof. split; [constructor|intros o Ho; by inversion Ho|intros tag o]. by rewrite lookup_empty. Qed.

Lemma registered_tags l byTag : registered l byTag -> NoDup (tags l).
Proof.
  intros [Hid Hl _]. induction l as [|o l IH]; [constructor|]. cbn in Hid |- *. apply NoDup_cons in Hid as [Hno Hid].
  constructor.
  - intros Hin. apply list_elem_of_fmap in Hin as (o' & Ht & Ho'). apply Hno.
    pose proof (Hl o ltac:(left)) as H1. pose proof (Hl o' ltac:(by right)) as H2. rewrite <- Ht, H1 in H2. injection H2 as ->.
    apply list_elem_of_fmap. eauto.
  - apply IH; [done|]. intros o' Ho'. apply Hl. by right.
Qed.

Lemma object_index_in l : forall o, o ∈ l -> NoDup (map object_id l) -> exists i, object_index o l = Some i /\ l !! i = Some o.
Proof.
  induction l as [|o' l IH]; intros o Ho Hnd; [by inversion Ho|]. cbn in *. apply NoDup_cons in Hnd as [Hno Hnd].
  destruct (Z.eqb_spec (object_id o') (object_id o)) as [Heq|Hne].
  - exists 0%nat. split; [done|]. apply elem_of_cons in Ho as [-> |Ho]; [done|]. exfalso. apply Hno. rewrite Heq.
    apply list_elem_of_fmap. eauto.
  - apply elem_of_cons in Ho as [-> |Ho]; [done|]. destruct (IH o Ho Hnd) as (i & -> & Hi). exists (S i). done.
Qed.

Lemma remove_at_perm {A} (l : list A) i x : l !! i = Some x -> l ≡ₚ x :: remove_at i l.
Proof. intros Hi. unfold remove_at. rewrite <- (take_drop_middle l i x Hi) at 1. by rewrite Permutation_middle. Qed.

Lemma registered_perm l l' byTag : l ≡ₚ l' -> registered l byTag -> registered l' byTag.
Proof.
  intros Hp [Hid Hl Hm]. split.
  - by rewrite <- Hp.
  - intros o Ho. apply Hl. by rewrite Hp.
  - intros tag o Ho. destruct (Hm tag o Ho). by rewrite <- Hp.
Qed.

Lemma registered_cons_inv o l byTag : registered (o :: l) byTag -> registered l (delete (object_Tag o) byTag).
Proof.
  intros Hr. pose proof (registered_tags _ _ Hr) as Ht. destruct Hr as [Hid Hl Hm]. cbn in *.
  apply NoDup_cons in Hid as [_ Hid]. apply NoDup_cons in Ht as [Ht _]. split; [done| |].
  - intros o' Ho'. rewrite lookup_delete_ne; [apply Hl; by right|]. intros Heq. apply Ht. rewrite Heq. by apply tags_elem.
  - intros tag o'. rewrite lookup_delete_Some. intros [Hne Ho']. destruct (Hm tag o' Ho') as [Hin Htag]. split; [|done].
    apply elem_of_cons in Hin as [-> |Hin]; [congruence|done].
Qed.

(** A new object under a free tag. *)
Lemma registered_snoc l byTag o :
  registered l byTag -> object_id o ∉ map object_id l -> byTag !! object_Tag o = None ->
  registered (l ++ [o]) (<[object_Tag o := o]> byTag).
Proof.
  intros [Hid Hl Hm] Hfresh Hnone. split.
  - rewrite map_app. apply NoDup_app. split; [done|]. split; [|apply NoDup_singleton].
    intros x Hx. cbn. rewrite list_elem_of_singleton. by intros ->.
  - intros o'. rewrite elem_of_app, list_elem_of_singleton. intros [Ho'| ->]; [|apply lookup_insert_eq].
    rewrite lookup_insert_ne; [by apply Hl|]. intros Heq. pose proof (Hl o' Ho') as H'. rewrite <- Heq, Hnone in H'. done.
  - intros tag o'. rewrite lookup_insert_Some, elem_of_app, list_elem_of_singleton.
    intros [[<- <-]|[Hne Ho']]; [by split; [right|]|]. destruct (Hm tag o' Ho'). by split; [left|].
Qed.

(** Taking an object out, and putting another in its place. *)
Lemma registered_remove l byTag tag o :
  registered l byTag -> byTag !! tag = Some o ->
  exists i, object_index o l = Some i /\ l ≡ₚ o :: remove_at i l /\ object_Tag o = tag
    /\ registered (remove_at i l) (delete tag byTag).
Proof.
  intros Hr Ho. destruct (reg_map _ _ Hr tag o Ho) as [Hin Htag].
  destruct (object_index_in l o Hin (reg_ids _ _ Hr)) as (i & Hi & Hl). exists i. pose proof (remove_at_perm l i o Hl) as Hp.
  split_and!; try done. rewrite <- Htag. eapply registered_cons_inv, registered_perm; [exact Hp|done].
Qed.

(** * Outbound registration *)

Inductive reg_op := RegCreate (o : object) | RegRemove (tag : string).

Definition reg_run (m : OutboundManager) (op : reg_op) : res unit * OutboundManager * list call :=
  match op with
  | RegCreate o => Outbound_Create m (object_Tag o) (Ok o)
  | RegRemove tag => Outbound_Remove m tag
  end.

Fixpoint reg_runs (m : OutboundManager) (ops : list reg_op) : OutboundManager :=
  match ops with
  | [] => m
  | op :: ops' => reg_runs (snd (fst (reg_run m op))) ops'
  end.

Definition created_ids (ops : list reg_op) : list Z :=
  omap (fun op => match op with RegCreate o => Some (object_id o) | RegRemove _ => None end) ops.

Definition no_panic (r : res unit) : Prop := match r with Ok _ | Err _ => True | _ => False end.

Lemma start_stages_no_panic kind o stages : no_panic (snd (start_stages kind o stages)).
Proof.
  induction stages as [|s stages IH]; cbn; [done|]. destruct (object_start o s); [done|].
  by destruct (start_stages kind o stages).
Qed.

Definition manager_ok (m : OutboundManager) : Prop := registered (outbounds m) (outboundByTag m).

(** What [Create] does to the list and the map. *)
Lemma Outbound_Create_ok m o :
  manager_ok m -> object_id o ∉ map object_id (outbounds m) ->
  let '(r, m', _) := Outbound_Create m (object_Tag o) (Ok o) in
  no_panic r /\ manager_ok m'
  /\ (forall x, x ∈ map object_id (outbounds m') -> x = object_id o \/ x ∈ map object_id (outbounds m)).
Proof.
  intros Hm Hfresh. unfold Outbound_Create. destruct (bool_decide (object_Tag o = "")); [by split_and!; auto|].
  pose proof (start_stages_no_panic "outbound" o ListStartStages) as Hst.
  set (starting := if out_started m then _ else _).
  assert (Hsp : no_panic (snd starting)) by (unfold starting; by destruct (out_started m)).
  destruct starting as [calls r]. cbn [snd] in Hsp. clear Hst.
  destruct r as [[]| | |]; try by split_and!; auto.
  assert (Hadd : forall objs byTag', registered objs byTag' -> byTag' !! object_Tag o = None ->
      <[object_Tag o := o]> byTag' = <[object_Tag o := o]> (outboundByTag m) ->
      (forall x, x ∈ map object_id objs -> x ∈ map object_id (outbounds m)) ->
      manager_ok (register_outbound m (object_Tag o) o objs) /\ (forall x, x ∈ map object_id (outbounds (register_outbound m (object_Tag o) o objs)) -> x = object_id o \/ x ∈ map object_id (outbounds m))).
  { intros objs byTag' Hreg Hnone Heq Hids.
    assert (Hpair : outbounds (register_outbound m (object_Tag o) o objs) = objs ++ [o] /\ outboundByTag (register_outbound m (object_Tag o) o objs) = <[object_Tag o := o]> (outboundByTag m))
      by (unfold register_outbound; by destruct (_ || _)).
    destruct Hpair as [Hlist Hmap]. unfold manager_ok. rewrite Hlist, Hmap, <- Heq. split.
    - apply registered_snoc; [done| |done]. intros Hin. by apply Hfresh, Hids.
    - intros x. rewrite map_app, elem_of_app. cbn. rewrite list_elem_of_singleton. intros [Hx| ->]; auto. }
  destruct (outboundByTag m !! object_Tag o) as [old|] eqn:Hold.
  - set (closing := if out_started m then _ else _).
    assert (Hcp : no_panic (snd closing)).
    { unfold closing, close_result. destruct (out_started m); [|done]. by destruct (object_close old). }
    destruct closing as [calls' r]. cbn [snd] in Hcp. destruct r as [[]| | |]; try by split_and!; auto.
    destruct (registered_remove _ _ _ _ Hm Hold) as (i & -> & Hp & _ & Hreg).
    split; [done|]. apply (Hadd _ _ Hreg); [by rewrite lookup_delete_eq|by rewrite insert_delete_eq|].
    intros x Hx. rewrite Hp. cbn. by right.
  - split; [done|]. by apply (Hadd _ _ Hm).
Qed.

Lemma Outbound_Remove_ok m tag :
  manager_ok m ->
  let '(r, m', _) := Outbound_Remove m tag in
  no_panic r /\ manager_ok m' /\ (forall x, x ∈ map object_id (outbounds m') -> x ∈ map object_id (outbounds m)).
Proof.
  intros Hm. unfold Outbound_Remove. destruct (outboundByTag m !! tag) as [o|] eqn:Ho; [|by split_and!; auto]. cbv zeta.
  destruct (registered_remove _ _ _ _ Hm Ho) as (i & -> & Hp & _ & Hreg).
  set (m1 := if same_object _ _ then _ else _).
  assert (Hm1 : outbounds m1 = remove_at i (outbounds m) /\ outboundByTag m1 = delete tag (outboundByTag m))
    by (unfold m1; by destruct (same_object _ _)).
  destruct Hm1 as [Hl1 Hb1].
  assert (Hids : forall x, x ∈ map object_id (remove_at i (outbounds m)) -> x ∈ map object_id (outbounds m)).
  { intros x Hx. rewrite Hp. cbn. by right. }
  destruct (negb _).
  - split; [done|]. unfold manager_ok. by rewrite Hl1, Hb1.
  - set (m2 := m1 <| dependByTag := _ |>).
    assert (Hm2 : outbounds m2 = remove_at i (outbounds m) /\ outboundByTag m2 = delete tag (outboundByTag m))
      by (unfold m2; by rewrite <- Hl1, <- Hb1).
    destruct Hm2 as [Hl2 Hb2]. unfold manager_ok, close_result.
    destruct (out_started m); [destruct (object_close o)|]; rewrite Hl2, Hb2; done.
Qed.

Lemma reg_runs_ok ops : forall m,
  manager_ok m -> NoDup (created_ids ops) -> (forall x, x ∈ created_ids ops -> x ∉ map object_id (outbounds m)) ->
  manager_ok (reg_runs m ops)
  /\ forall x, x ∈ map object_id (outbounds (reg_runs m ops)) -> x ∈ map object_id (outbounds m) \/ x ∈ created_ids ops.
Proof.
  induction ops as [|op ops IH]; intros m Hm Hnd Hfresh; cbn [reg_runs]; [by split; [|left]|]. destruct op as [o|tag]; cbn [reg_run].
  - cbn in Hnd, Hfresh. apply NoDup_cons in Hnd as [Hno Hnd].
    pose proof (Outbound_Create_ok m o Hm (Hfresh _ ltac:(left))) as Hc.
    destruct (Outbound_Create m (object_Tag o) (Ok o)) as [[r m'] calls]. destruct Hc as (_ & Hm' & Hids). cbn [fst snd].
    destruct (IH m' Hm' Hnd) as [Hok Hin].
    { intros x Hx Hin. apply Hids in Hin as [-> |Hin]; [done|]. by eapply Hfresh; [right|]. }
    split; [done|]. intros x Hx. apply Hin in Hx as [Hx|Hx]; [|by right; right].
    apply Hids in Hx as [-> |Hx]; [right; left|by left].
  - pose proof (Outbound_Remove_ok m tag Hm) as Hc.
    destruct (Outbound_Remove m tag) as [[r m'] calls]. destruct Hc as (_ & Hm' & Hids). cbn [fst snd].
    destruct (IH m' Hm' Hnd) as [Hok Hin]; [intros x Hx Hin; eapply Hfresh; [exact Hx|by apply Hids]|].
    split; [done|]. intros x Hx. apply Hin in Hx as [Hx|Hx]; [left; by apply Hids|by right].
Qed.

(** Registration stays consistent.  After any sequence of [Create] and
    [Remove] on the outbound manager, failed ones included, the list and the map
    hold the same outbounds, each once and under its tag; so no later [Create] or
    [Remove] panics, and the tags passed to [startOutbounds] are distinct. *)
Theorem outbound_registration_consistent defaultTag ops o tag :
  NoDup (created_ids (ops ++ [RegCreate o])) ->
  let m := reg_runs (NewOutboundManager defaultTag) ops in
  (forall t x, outboundByTag m !! t = Some x <-> x ∈ outbounds m /\ object_Tag x = t)
  /\ NoDup (tags (outbounds m))
  /\ no_panic (fst (fst (Outbound_Create m (object_Tag o) (Ok o)))) /\ no_panic (fst (fst (Outbound_Remove m tag))).
Proof.
  intros Hnd. unfold created_ids in Hnd. rewrite omap_app in Hnd. apply NoDup_app in Hnd as (Hnd & Hdis & _). cbn in Hdis.
  cbn zeta. set (m := reg_runs _ ops).
  destruct (reg_runs_ok ops (NewOutboundManager defaultTag) registered_nil Hnd) as [Hm Hids];
    [intros x _ Hx; by inversion Hx|]. fold m in Hm, Hids. split_and!.
  - intros t x. split; [apply (reg_map _ _ Hm)|]. intros [Hin <-]. by apply (reg_list _ _ Hm).
  - by eapply registered_tags.
  - pose proof (Outbound_Create_ok m o Hm) as Hc. destruct (Outbound_Create m (object_Tag o) (Ok o)) as [[r m'] calls]. apply Hc.
    intros Hin. apply Hids in Hin as [Hin|Hin]; [by inversion Hin|]. eapply Hdis; [exact Hin|left].
  - pose proof (Outbound_Remove_ok m tag Hm) as Hc. destruct (Outbound_Remove m tag) as [[r m'] calls]. apply Hc.
Qed.

(** * Evaluations *)

Definition example_object (id : Z) (tag : string) (deps : list string) : object :=
  mkObject id "direct" tag deps (fun _ => None) None.

(** A selector over two outbounds, one of which dials through the other. *)
Definition example_objects : list object :=
  [example_object 1 "select" ["a"; "b"]; example_object 2 "b" ["a"]; example_object 3 "a" []].

Definition by_tag (l : list object) : gmap string object := list_to_map (map (fun o => (object_Tag o, o)) l).

Lemma example_reachable : reachable_by_tag (by_tag example_objects) example_objects.
Proof.
  intros tag o. unfold by_tag. cbn. rewrite !lookup_insert_Some, lookup_empty.
  intros [[<- <-]|[_ [[<- <-]|[_ [[<- <-]|[_ [=]]]]]]]; (split; [set_solver|done]).
Qed.

Lemma example_tags_nodup : NoDup (tags example_objects).
Proof. apply (bool_decide_eq_true_1 _). vm_compute. reflexivity. Qed.

Lemma outbounds_start_in_order_witness :
  exists order, order ≡ₚ example_objects
    /\ [Started 3 StartStateStart; Started 2 StartStateStart; Started 1 StartStateStart] = start_calls order /\ ordered order.
Proof.
  refine (outbounds_start_in_order (by_tag example_objects) example_objects _ _ _ _).
  - exact example_tags_nodup.
  - exact example_reachable.
  - vm_compute. reflexivity.
Defined.

Lemma outbounds_start_succeeds_witness :
  (exists calls, startOutbounds (by_tag example_objects) example_objects = (Ok tt, calls))
  \/ (exists e calls, startOutbounds (by_tag example_objects) example_objects = (Err e, calls)
      /\ ((exists o, o ∈ example_objects /\ object_start o StartStateStart <> None)
          \/ ~ exists rank : string -> nat, forall o, o ∈ example_objects -> forall d, d ∈ object_Dependencies o ->
                 d ∈ tags example_objects /\ (rank d < rank (object_Tag o))%nat)).
Proof. exact (outbounds_start_succeeds (by_tag example_objects) example_objects example_tags_nodup example_reachable). Defined.

Lemma outbound_registration_consistent_witness :
  let m := reg_runs (NewOutboundManager "") (map RegCreate example_objects ++ [RegRemove "a"; RegRemove "select"]) in
  NoDup (tags (outbounds m)).
Proof.
  refine (proj1 (proj2 (outbound_registration_consistent "" (map RegCreate example_objects ++ [RegRemove "a"; RegRemove "select"])
                          (example_object 4 "a" []) "b" _))).
  apply (bool_decide_eq_true_1 _). vm_compute. reflexivity.
Defined.

(** A depended outbound is removed although [Remove] reports an error.  The
    call fails because another outbound depends on it, yet the outbound is no
    longer registered and was not closed. *)
Example depended_outbound_removed :
  let m := (reg_runs (NewOutboundManager "") [RegCreate (example_object 3 "a" []); RegCreate (example_object 2 "b" ["a"])])
             <| out_started := true |> in
  let '(r, m', calls) := Outbound_Remove m "a" in
  r = Err (ENew "outbound[a] is depended by b") /\ outboundByTag m' !! "a" = None
  /\ tags (outbounds m') = ["b"] /\ calls = [].
Proof. vm_compute. auto. Qed.

(** Replacing the default outbound leaves the old one as default.  Without a
    configured default tag the first outbound is the default; creating another
    under its tag closes it and registers the new one, but the default stays the
    closed outbound. *)
Example replaced_default_outbound_stays :
  let m := (reg_runs (NewOutboundManager "") [RegCreate (example_object 1 "a" [])]) <| out_started := true |> in
  let '(r, m', calls) := Outbound_Create m "a" (Ok (example_object 2 "a" [])) in
  r = Ok tt /\ map object_id (outbounds m') = [2] /\ (object_id <$> defaultOutbound m') = Some 1 /\ last calls = Some (Closed 1).
Proof. vm_compute. auto. Qed.

(** Removing after closing panics.  [Close] empties the list of a manager but
    not its map, so a later [Remove] of a known tag finds no index for it. *)
Example remove_after_close_panics :
  let '(_, m, _) := Inbound_Create NewManager "in" (Ok (example_object 1 "in" [])) in
  let '(_, m, _) := Inbound_Start m StartStateInitialize in
  let '(_, m, _) := Manager_Close m in
  fst (fst (Inbound_Remove m "in")) = Panic "invalid inbound index".
Proof. vm_compute. reflexivity. Qed.
