(* ===== verification/Groups.v ===== *)
(** Outbound groups: the selector and the URL test group of
    src/protocol/group/selector.go and urltest.go, the members they collect from
    providers (provider_members.go), the delays they choose by
    (src/common/urltest/urltest.go) and the connections they interrupt
    (src/common/interrupt/group.go).

    A group runs among other components: the outbound manager, the providers and
    the members themselves.  What an operation asks of them is a [View], the
    answers they give while it runs.  Locks serialise operations and are not
    modelled; times are in nanoseconds. *)

From S2P Require Import Prelude GoStrings.

(** * Outbounds and providers *)

(** A pointer to an outbound; equal records are equal pointers. *)
Record Outbound := mkOutbound { Outbound_id : Z; Outbound_Tag : string }.
#[export] Instance Outbound_eq_dec : EqDecision Outbound.
Proof. solve_decision. Defined.

Record Provider := mkProvider { Provider_id : Z; Provider_Tag : string }.

(** [view_Now] is [None] for an outbound that is not a group. *)
Record View := mkView {
  view_Outbound : string -> option Outbound;
  view_Network : Outbound -> list string;
  view_Now : Outbound -> option string;
  view_Providers : list Provider;
  view_Provider : string -> option Provider;
  view_Outbounds : Provider -> list Outbound;
}.

Definition NetworkTCP : string := "tcp".
Definition NetworkUDP : string := "udp".
Definition NetworkICMP : string := "icmp".

Definition RealTag (v : View) (detour : Outbound) : string :=
  match view_Now v detour with
  | Some now => if bool_decide (now = "") then Outbound_Tag detour else now
  | None => Outbound_Tag detour
  end.

(** * Test history *)

Record URLTestHistory := mkURLTestHistory { Time : Z; Delay : Z }.

Record HistoryStorage := mkHistoryStorage {
  delayHistory : gmap string URLTestHistory;
  updateHooks : list Z;
}.

Definition NewHistoryStorage : HistoryStorage := mkHistoryStorage ∅ [].
Definition AddUpdateHook (s : HistoryStorage) (hook : Z) : HistoryStorage := s <| updateHooks := updateHooks s ++ [hook] |>.
Definition LoadURLTestHistory (s : HistoryStorage) (tag : string) : option URLTestHistory := delayHistory s !! tag.
(** Storing and deleting also emit to every hook. *)
Definition DeleteURLTestHistory (s : HistoryStorage) (tag : string) : HistoryStorage * list Z :=
  (s <| delayHistory := delete tag (delayHistory s) |>, updateHooks s).
Definition StoreURLTestHistory (s : HistoryStorage) (tag : string) (history : URLTestHistory) : HistoryStorage * list Z :=
  (s <| delayHistory := <[tag := history]> (delayHistory s) |>, updateHooks s).
Definition History_Close (s : HistoryStorage) : HistoryStorage := s <| updateHooks := [] |>.

(** * Interruption *)

Record groupConnItem := mkGroupConnItem { conn : Z; isExternal : bool; isProvider : bool }.

Definition NewConn (g : list groupConnItem) (conn : Z) (isExternal isProvider : bool) : list groupConnItem :=
  g ++ [mkGroupConnItem conn isExternal isProvider].

Definition Conn_Close (g : list groupConnItem) (c : Z) : list groupConnItem :=
  List.filter (fun i => negb (conn i =? c)) g.

Definition interrupted (interruptExternalConnections : bool) (i : groupConnItem) : bool :=
  negb (isProvider i) && (negb (isExternal i) || interruptExternalConnections).

(** The remaining connections and the ones closed. *)
Definition Interrupt (g : list groupConnItem) (interruptExternalConnections : bool) : list groupConnItem * list Z :=
  (List.filter (fun i => negb (interrupted interruptExternalConnections i)) g,
   map conn (List.filter (interrupted interruptExternalConnections) g)).

(** * Members from providers *)

Fixpoint lookup_tags (v : View) (i : Z) (tags : list string) : res (list Outbound) :=
  match tags with
  | [] => Ok []
  | tag :: tags' =>
      match view_Outbound v tag with
      | None => Err (ENew ("outbound " +:+ Itoa i +:+ " not found: " +:+ tag))
      | Some detour => let! rest := lookup_tags v (i + 1) tags' in Ok (detour :: rest)
      end
  end.

(** A missing expression does not filter. *)
Definition kept (exclude include : option (string -> bool)) (detour : Outbound) : bool :=
  negb (match exclude with Some f => f (Outbound_Tag detour) | None => false end)
  && match include with Some f => f (Outbound_Tag detour) | None => true end.

(** The loop over [providerTags]. *)
Fixpoint collect_providers (v : View) (updatedTag : string) (providers : gmap string Provider)
    (exclude include : option (string -> bool)) (providerTags : list string)
    (tags : list string) (outbounds : list Outbound) (newCache : gmap string (list Outbound))
    : res (list string * list Outbound * gmap string (list Outbound)) :=
  match providerTags with
  | [] => Ok (tags, outbounds, newCache)
  | providerTag :: providerTags' =>
      let continue := collect_providers v updatedTag providers exclude include providerTags' in
      match (if bool_decide (providerTag = updatedTag) then None else newCache !! providerTag) with
      | Some cached => continue (tags ++ map Outbound_Tag cached) (outbounds ++ cached) newCache
      | None =>
          match providers !! providerTag with
          | None => Err (ENew ("outbound provider not found: " +:+ providerTag))
          | Some provider =>
              let cached := List.filter (kept exclude include) (view_Outbounds v provider) in
              continue (tags ++ map Outbound_Tag cached) (outbounds ++ cached) (<[providerTag := cached]> newCache)
          end
      end
  end.

Definition collectProviderOutbounds (v : View) (updatedTag : string) (directTags : list string)
    (providers : gmap string Provider) (providerTags : list string) (outboundsCache : gmap string (list Outbound))
    (exclude include : option (string -> bool)) : res (list string * list Outbound * gmap string (list Outbound)) :=
  match providers !! updatedTag with
  | None => Err (ENew ("outbound provider not found: " +:+ updatedTag))
  | Some _ =>
      let! direct := lookup_tags v 0 directTags in
      let! ' (tags, outbounds, newCache) :=
        collect_providers v updatedTag providers exclude include providerTags directTags direct outboundsCache in
      match tags with
      | [] =>
          match view_Outbound v "Compatible" with
          | None => Err (ENew "fallback outbound not found: Compatible")
          | Some detour => Ok (tags ++ [Outbound_Tag detour], outbounds ++ [detour], newCache)
          end
      | _ => Ok (tags, outbounds, newCache)
      end
  end.

(** The provider part of the three [Start] methods. *)
Fixpoint lookup_providers (v : View) (i : Z) (tags : list string) (providers : gmap string Provider) : res (gmap string Provider) :=
  match tags with
  | [] => Ok providers
  | tag :: tags' =>
      match view_Provider v tag with
      | None => Err (ENew ("outbound provider " +:+ Itoa i +:+ " not found: " +:+ tag))
      | Some provider => lookup_providers v (i + 1) tags' (<[tag := provider]> providers)
      end
  end.

Definition resolve_providers (v : View) (useAllProviders : bool) (providerTags : list string) (providers : gmap string Provider)
    : res (list string * gmap string Provider) :=
  if useAllProviders
  then Ok (map Provider_Tag (view_Providers v),
           fold_left (fun m p => <[Provider_Tag p := p]> m) (view_Providers v) providers)
  else let! providers := lookup_providers v 0 providerTags providers in Ok (providerTags, providers).

(** * Scheduling of checks after provider updates

    [Schedule] and the goroutine it starts, as the steps between lock
    operations.  [Worker] is the goroutine's position. *)

Inductive Worker := Idle | Starting | Checking | Finished.

Record providerUpdateCheckScheduler := mkScheduler { running : bool; pending : bool }.

(** Whether a goroutine is started. *)
Definition Schedule (c : providerUpdateCheckScheduler) : providerUpdateCheckScheduler * bool :=
  if running c then (mkScheduler true true, false) else (mkScheduler true true, true).

(** One critical section or call of the goroutine's loop. *)
Definition worker_step (c : providerUpdateCheckScheduler) (w : Worker) : providerUpdateCheckScheduler * Worker :=
  match w with
  | Idle => (c, Idle)
  | Starting => (c <| pending := false |>, Checking)
  | Checking => (c, Finished)
  | Finished => if pending c then (c, Starting) else (c <| running := false |>, Idle)
  end.

(** * Selector *)

(** The bucket of the cache file that holds selections; [stored] says whether
    the database transaction succeeds. *)
Definition LoadSelected (cacheFile : gmap string string) (group : string) : string := default "" (cacheFile !! group).
Definition StoreSelected (stored : bool) (cacheFile : gmap string string) (group selected : string) : gmap string string :=
  if stored then <[group := selected]> cacheFile else cacheFile.

Record Selector := mkSelector {
  sel_Tag : string;
  sel_Dependencies : list string;
  sel_tags : list string;
  sel_defaultTag : string;
  sel_outbounds : gmap string Outbound;
  sel_selected : option Outbound;
  sel_interruptGroup : list groupConnItem;
  sel_interruptExternal : bool;
  sel_providers : gmap string Provider;
  sel_outboundsCache : gmap string (list Outbound);
  sel_providerTags : list string;
  sel_exclude : option (string -> bool);
  sel_include : option (string -> bool);
  sel_useAllProviders : bool;
}.

(** The options of the groups that the model reads. *)
Definition NewSelector (tag : string) (outbounds : list string) (default : string) (interruptExist : bool)
    (providers : list string) (exclude include : option (string -> bool)) (useAllProviders : bool) : Selector :=
  mkSelector tag outbounds outbounds default ∅ None [] interruptExist ∅ ∅ providers exclude include useAllProviders.

Definition Selector_Network (v : View) (s : Selector) : list string :=
  match sel_selected s with
  | None => [NetworkTCP; NetworkUDP]
  | Some selected => view_Network v selected
  end.

(** The cache file is [None] when there is none in the context. *)
Definition outboundSelect (cacheFile : option (gmap string string)) (s : Selector) (outbounds : gmap string Outbound)
    (tags : list string) : res (option Outbound) :=
  let remembered :=
    if bool_decide (sel_Tag s = "") then None
    else match cacheFile with
         | None => None
         | Some file =>
             let selected := LoadSelected file (sel_Tag s) in
             if bool_decide (selected = "") then None else outbounds !! selected
         end in
  match remembered with
  | Some detour => Ok (Some detour)
  | None =>
      if bool_decide (sel_defaultTag s = "") then
        match tags with
        | [] => Panic "index out of range"
        | tag :: _ => Ok (outbounds !! tag)
        end
      else match outbounds !! sel_defaultTag s with
           | None => Err (ENew ("default outbound not found: " +:+ sel_defaultTag s))
           | Some detour => Ok (Some detour)
           end
  end.

(** [outboundByTag] filled from tags and outbounds; a later entry overwrites. *)
Definition by_tags (tags : list string) (outbounds : list Outbound) : gmap string Outbound :=
  fold_left (fun m p => <[fst p := snd p]> m) (zip tags outbounds) ∅.

(** [Start]: the new state and the provider tags a callback is registered for. *)
Definition Selector_Start (v : View) (cacheFile : option (gmap string string)) (s : Selector) : res (Selector * list string) :=
  let! ' (providerTags, providers) := resolve_providers v (sel_useAllProviders s) (sel_providerTags s) (sel_providers s) in
  let s := s <| sel_providerTags := providerTags |> <| sel_providers := providers |> in
  let tags := sel_Dependencies s in
  if (length tags + length (sel_providerTags s) =? 0)%nat then Err (ENew "missing outbound and provider tags")
  else
    let! outbounds := lookup_tags v 0 tags in
    let! ' (tags, outbounds) :=
      match tags with
      | [] => match view_Outbound v "Compatible" with
              | None => Err (ENew "fallback outbound not found: Compatible")
              | Some detour => Ok ([Outbound_Tag detour], [detour])
              end
      | _ => Ok (tags, outbounds)
      end in
    let outboundByTag := by_tags tags outbounds in
    let! selected := outboundSelect cacheFile s outboundByTag tags in
    Ok (s <| sel_tags := tags |> <| sel_outbounds := outboundByTag |> <| sel_selected := selected |>, providerTags).

Definition Selector_Now (s : Selector) : res string :=
  match sel_selected s with
  | None => match sel_tags s with [] => Panic "index out of range" | tag :: _ => Ok tag end
  | Some selected => Ok (Outbound_Tag selected)
  end.

Definition Selector_All (s : Selector) : list string := sel_tags s.

Definition Selector_interrupt (s : Selector) : Selector * list Z :=
  let '(g, closed) := Interrupt (sel_interruptGroup s) (sel_interruptExternal s) in
  (s <| sel_interruptGroup := g |>, closed).

(** The result, the new state, the cache file and the connections closed. *)
Definition SelectOutbound (stored : bool) (cacheFile : option (gmap string string)) (s : Selector) (tag : string)
    : bool * Selector * option (gmap string string) * list Z :=
  match sel_outbounds s !! tag with
  | None => (false, s, cacheFile, [])
  | Some detour =>
      if bool_decide (sel_selected s = Some detour) then (true, s, cacheFile, [])
      else
        let s := s <| sel_selected := Some detour |> in
        let cacheFile :=
          if bool_decide (sel_Tag s = "") then cacheFile
          else (fun file => StoreSelected stored file (sel_Tag s) tag) <$> cacheFile in
        let '(s, closed) := Selector_interrupt s in
        (true, s, cacheFile, closed)
  end.

Definition Selector_onProviderUpdated (v : View) (cacheFile : option (gmap string string)) (s : Selector) (tag : string)
    : res (Selector * list Z) :=
  let! ' (tags, outbounds, outboundsCache) :=
    res_cause (sel_Tag s)
      (collectProviderOutbounds v tag (sel_Dependencies s) (sel_providers s) (sel_providerTags s) (sel_outboundsCache s)
         (sel_exclude s) (sel_include s)) in
  let outboundByTag := by_tags (map Outbound_Tag outbounds) outbounds in
  let! detour := outboundSelect cacheFile s outboundByTag tags in
  let previous := sel_selected s in
  let s := s <| sel_tags := tags |> <| sel_outbounds := outboundByTag |> <| sel_outboundsCache := outboundsCache |>
             <| sel_selected := detour |> in
  if bool_decide (previous = detour) then Ok (s, []) else Ok (Selector_interrupt s).

(** [DialContext]; [dial] says which connection the selected outbound opens.
    [ListenPacket] is the same. *)
Definition Selector_DialContext (dial : Outbound -> res Z) (isExternal isProvider : bool) (s : Selector) : res (Selector * Z) :=
  match sel_selected s with
  | None => Panic "invalid memory address or nil pointer dereference"
  | Some selected =>
      let! c := dial selected in
      Ok (s <| sel_interruptGroup := NewConn (sel_interruptGroup s) c isExternal isProvider |>, c)
  end.

(** * URL test *)

Record URLTestFallback := mkURLTestFallback { enabled : bool; maxDelay : Z }.

(** The ticker is known by a number; [g_closed] is the closed channel. *)
Record URLTestGroup := mkURLTestGroup {
  g_outbounds : list Outbound;
  g_interval : Z;
  g_tolerance : Z;
  g_idleTimeout : Z;
  g_tcp : option Outbound;
  g_udp : option Outbound;
  g_interruptGroup : list groupConnItem;
  g_interruptExternal : bool;
  g_ticker : option Z;
  g_closed : bool;
  g_started : bool;
  g_lastActive : Z;
  g_fallback : URLTestFallback;
}.

Definition DefaultURLTestInterval : Z := 3 * 60 * 1000000000.
Definition DefaultURLTestIdleTimeout : Z := 30 * 60 * 1000000000.

Definition NewURLTestGroup (hasHistory : bool) (outbounds : list Outbound) (interval tolerance idleTimeout : Z)
    (fallback : URLTestFallback) (interruptExternal : bool) : res URLTestGroup :=
  let interval := if interval =? 0 then DefaultURLTestInterval else interval in
  let tolerance := if tolerance =? 0 then 50 else tolerance in
  let idleTimeout := if idleTimeout =? 0 then DefaultURLTestIdleTimeout else idleTimeout in
  if idleTimeout <? interval then Err (ENew "interval must be less or equal than idle_timeout")
  else if negb hasHistory then Err (ENew "missing URL test history storage")
  else Ok (mkURLTestGroup outbounds interval tolerance idleTimeout None None [] interruptExternal None false false 0 fallback).

Definition PostStart (now : Z) (g : URLTestGroup) : URLTestGroup := g <| g_started := true |> <| g_lastActive := now |>.

(** [Touch]: also whether [loopCheck] is started for a new ticker. *)
Definition Touch (now ticker : Z) (g : URLTestGroup) : URLTestGroup * bool :=
  if negb (g_started g) then (g, false)
  else match g_ticker g with
       | Some _ => (g <| g_lastActive := now |>, false)
       | None => (g <| g_ticker := Some ticker |>, true)
       end.

Definition URLTestGroup_Close (g : URLTestGroup) : res URLTestGroup :=
  match g_ticker g with
  | None => Ok g
  | Some _ =>
      if g_closed g then Panic "close of closed channel"
      else Ok (g <| g_ticker := None |> <| g_closed := true |>)
  end.

(** The loop of [Select]; the accumulators are [minDelay], [minOutbound],
    [fallbackIgnoreOutboundDelay] and [fallbackIgnoreOutbound]. *)
Fixpoint select_loop (v : View) (h : HistoryStorage) (g : URLTestGroup) (network : string)
    (minDelay : Z) (minOutbound : option Outbound) (ignoreDelay : Z) (ignoreOutbound : option Outbound)
    (outbounds : list Outbound) : option Outbound * option Outbound :=
  match outbounds with
  | [] => (minOutbound, ignoreOutbound)
  | detour :: outbounds' =>
      let continue minDelay minOutbound ignoreDelay ignoreOutbound :=
        select_loop v h g network minDelay minOutbound ignoreDelay ignoreOutbound outbounds' in
      if negb (inb network (view_Network v detour)) then continue minDelay minOutbound ignoreDelay ignoreOutbound
      else match LoadURLTestHistory h (RealTag v detour) with
      | None => continue minDelay minOutbound ignoreDelay ignoreOutbound
      | Some history =>
          if enabled (g_fallback g) && (0 <? maxDelay (g_fallback g)) && (maxDelay (g_fallback g) <? Delay history) then
            if (ignoreDelay =? 0) || (Delay history <? ignoreDelay)
            then continue minDelay minOutbound (Delay history) (Some detour)
            else continue minDelay minOutbound ignoreDelay ignoreOutbound
          else if enabled (g_fallback g) then
            if Delay history =? 0 then continue (Delay history) (Some detour) ignoreDelay ignoreOutbound
            else (Some detour, ignoreOutbound)
          else if (minDelay =? 0) || (u16 (Delay history + g_tolerance g) <? minDelay)
            then continue (Delay history) (Some detour) ignoreDelay ignoreOutbound
            else continue minDelay minOutbound ignoreDelay ignoreOutbound
      end
  end.

Definition selectedFor (g : URLTestGroup) (network : string) : option Outbound :=
  if bool_decide (network = NetworkTCP) then g_tcp g
  else if bool_decide (network = NetworkUDP) then g_udp g else None.

Definition Select (v : View) (h : HistoryStorage) (g : URLTestGroup) (network : string) : option Outbound * bool :=
  let '(minDelay, minOutbound) :=
    match selectedFor g network with
    | None => (0, None)
    | Some selected =>
        match LoadURLTestHistory h (RealTag v selected) with
        | None => (0, None)
        | Some history => (Delay history, Some selected)
        end
    end in
  match select_loop v h g network minDelay minOutbound 0 None (g_outbounds g) with
  | (Some detour, _) => (Some detour, true)
  | (None, Some detour) => (Some detour, true)
  | (None, None) =>
      (List.find (fun detour => inb network (view_Network v detour)) (g_outbounds g), false)
  end.

Definition group_interrupt (updated : bool) (g : URLTestGroup) : URLTestGroup * list Z :=
  if updated
  then let '(conns, closed) := Interrupt (g_interruptGroup g) (g_interruptExternal g) in
       (g <| g_interruptGroup := conns |>, closed)
  else (g, []).

(** One half of [performUpdateCheck]: what to store for a network, and whether
    that replaces a previous choice. *)
Definition update_choice (selected : option Outbound) (choice : option Outbound * bool) : option (Outbound * bool) :=
  match choice with
  | (None, _) => None
  | (Some outbound, exists_) =>
      match selected with
      | None => Some (outbound, false)
      | Some _ => if exists_ && negb (bool_decide (selected = Some outbound)) then Some (outbound, true) else None
      end
  end.

(** The connections closed are returned with the new state. *)
Definition performUpdateCheck (v : View) (h : HistoryStorage) (g : URLTestGroup) : URLTestGroup * list Z :=
  let '(g, updatedTCP) :=
    match update_choice (g_tcp g) (Select v h g NetworkTCP) with
    | Some (outbound, updated) => (g <| g_tcp := Some outbound |>, updated)
    | None => (g, false)
    end in
  let '(g, updatedUDP) :=
    match update_choice (g_udp g) (Select v h g NetworkUDP) with
    | Some (outbound, updated) => (g <| g_udp := Some outbound |>, updated)
    | None => (g, false)
    end in
  group_interrupt (updatedTCP || updatedUDP) g.

Definition containsOutbound (outbounds : list Outbound) (selected : option Outbound) : bool :=
  match selected with
  | None => true
  | Some selected => inb selected outbounds
  end.

Definition replaceOutbounds (v : View) (h : HistoryStorage) (g : URLTestGroup) (outbounds : list Outbound)
    : URLTestGroup * list Z :=
  let selectedTCP := g_tcp g in
  let selectedUDP := g_udp g in
  let g := g <| g_outbounds := outbounds |> in
  let g := if containsOutbound outbounds selectedTCP then g else g <| g_tcp := None |> in
  let g := if containsOutbound outbounds selectedUDP then g else g <| g_udp := None |> in
  let g := match g_tcp g with
           | Some _ => g
           | None => match Select v h g NetworkTCP with (Some o, _) => g <| g_tcp := Some o |> | (None, _) => g end
           end in
  let g := match g_udp g with
           | Some _ => g
           | None => match Select v h g NetworkUDP with (Some o, _) => g <| g_udp := Some o |> | (None, _) => g end
           end in
  group_interrupt
    ((negb (bool_decide (selectedTCP = None)) && negb (bool_decide (g_tcp g = selectedTCP)))
     || (negb (bool_decide (selectedUDP = None)) && negb (bool_decide (g_udp g = selectedUDP)))) g.

(** The outbounds [urlTestLocked] tests, with the tag the history is kept under.
    Tests run concurrently; each concerns a different real tag, so the outcome
    does not depend on their order. *)
Fixpoint tests (v : View) (h : HistoryStorage) (now interval : Z) (force : bool) (checked : gset string)
    (outbounds : list Outbound) : list (Outbound * string * Outbound) :=
  match outbounds with
  | [] => []
  | detour :: outbounds' =>
      let realTag := RealTag v detour in
      if bool_decide (realTag ∈ checked) then tests v h now interval force checked outbounds'
      else if negb force
              && match LoadURLTestHistory h realTag with Some history => now - Time history <? interval | None => false end
      then tests v h now interval force checked outbounds'
      else match view_Outbound v realTag with
           | None => tests v h now interval force ({[realTag]} ∪ checked) outbounds'
           | Some p => (detour, realTag, p) :: tests v h now interval force ({[realTag]} ∪ checked) outbounds'
           end
  end.

(** [test] gives the time of completion and the delay, or nothing on failure. *)
Definition record_test (test : Outbound -> option (Z * Z)) (acc : HistoryStorage * gmap string Z) (t : Outbound * string * Outbound)
    : HistoryStorage * gmap string Z :=
  let '(h, result) := acc in
  let '(detour, realTag, p) := t in
  match test p with
  | None => (fst (DeleteURLTestHistory h realTag), result)
  | Some (time, delay) =>
      (fst (StoreURLTestHistory h realTag (mkURLTestHistory time delay)), <[Outbound_Tag detour := delay]> result)
  end.

(** [cancelled] says whether the context is done by the time the tests are. *)
Definition urlTestLocked (v : View) (test : Outbound -> option (Z * Z)) (now : Z) (cancelled force : bool)
    (h : HistoryStorage) (g : URLTestGroup) : gmap string Z * HistoryStorage * URLTestGroup * list Z :=
  let '(h, result) := fold_left (record_test test) (tests v h now (g_interval g) force ∅ (g_outbounds g)) (h, ∅) in
  if cancelled then (result, h, g, [])
  else let '(g, closed) := performUpdateCheck v h g in (result, h, g, closed).

(** [loopCheck] before its loop, and on a tick; the second component says
    whether the outbounds are checked, the third whether the loop ends. *)
Definition loopCheck_enter (now : Z) (g : URLTestGroup) : URLTestGroup * bool :=
  if g_interval g <? now - g_lastActive g then (g <| g_lastActive := now |>, true) else (g, false).

Definition loopCheck_tick (now ticker : Z) (g : URLTestGroup) : URLTestGroup * bool * bool :=
  if g_idleTimeout g <? now - g_lastActive g
  then (if bool_decide (g_ticker g = Some ticker) then g <| g_ticker := None |> else g, false, true)
  else (g, true, false).

Definition isGroupActive (now : Z) (g : URLTestGroup) : bool :=
  g_started g && (now - g_lastActive g <=? g_idleTimeout g).

(** ** The outbound around the group *)

Record URLTest := mkURLTest {
  ut_Tag : string;
  ut_Dependencies : list string;
  ut_tags : list string;
  ut_interval : Z;
  ut_tolerance : Z;
  ut_idleTimeout : Z;
  ut_fallback : URLTestFallback;
  ut_interruptExternal : bool;
  ut_providers : gmap string Provider;
  ut_outboundsCache : gmap string (list Outbound);
  ut_providerTags : list string;
  ut_exclude : option (string -> bool);
  ut_include : option (string -> bool);
  ut_useAllProviders : bool;
}.

(** [fallbackEnabled] and [fallbackMaxDelay], a duration, are options. *)
Definition NewURLTest (tag : string) (outbounds : list string) (interval tolerance idleTimeout : Z)
    (fallbackEnabled : bool) (fallbackMaxDelay : Z) (interruptExist : bool) (providers : list string)
    (exclude include : option (string -> bool)) (useAllProviders : bool) : URLTest :=
  let fallback := if fallbackEnabled then mkURLTestFallback true (u16 (Z.quot fallbackMaxDelay 1000000))
                  else mkURLTestFallback false 0 in
  mkURLTest tag outbounds outbounds interval tolerance idleTimeout fallback interruptExist ∅ ∅ providers exclude include useAllProviders.

(** The members a URL test or load balance group starts with. *)
Definition start_members (v : View) (tags providerTags : list string) : res (list string * list Outbound) :=
  if (length tags + length providerTags =? 0)%nat then Err (ENew "missing outbound and provider tags")
  else
    let! outbounds := lookup_tags v 0 tags in
    match tags with
    | [] => match view_Outbound v "Compatible" with
            | None => Panic "invalid memory address or nil pointer dereference"
            | Some detour => Ok ([Outbound_Tag detour], [detour])
            end
    | _ => Ok (tags, outbounds)
    end.

Definition URLTest_Start (v : View) (hasHistory : bool) (s : URLTest) : res (URLTest * URLTestGroup * list string) :=
  let! ' (providerTags, providers) := resolve_providers v (ut_useAllProviders s) (ut_providerTags s) (ut_providers s) in
  let s := s <| ut_providerTags := providerTags |> <| ut_providers := providers |> in
  let! ' (tags, outbounds) := start_members v (ut_tags s) (ut_providerTags s) in
  let s := s <| ut_tags := tags |> in
  let! group := NewURLTestGroup hasHistory outbounds (ut_interval s) (ut_tolerance s) (ut_idleTimeout s) (ut_fallback s)
                  (ut_interruptExternal s) in
  Ok (s, group, providerTags).

Definition URLTest_Now (g : URLTestGroup) : string :=
  match g_tcp g with
  | Some o => Outbound_Tag o
  | None => match g_udp g with Some o => Outbound_Tag o | None => "" end
  end.

Definition URLTest_All (g : URLTestGroup) : list string := map Outbound_Tag (g_outbounds g).

(** The outbound [DialContext] uses; [NetworkName] is that of the network
    package, [ListenPacket] is the case of UDP. *)
Definition dial_choice (v : View) (h : HistoryStorage) (g : URLTestGroup) (NetworkName : string -> string) (network : string)
    : res Outbound :=
  let name := NetworkName network in
  if negb (bool_decide (name = NetworkTCP) || bool_decide (name = NetworkUDP))
  then Err (ECause (ENew "unknown network") network)
  else
    match (match selectedFor g name with Some o => Some o | None => fst (Select v h g network) end) with
    | None => Err (ENew "missing supported outbound")
    | Some o => Ok o
    end.

(** [DialContext]; a failure forgets the history kept under the outbound's own
    tag. *)
Definition URLTest_DialContext (v : View) (h : HistoryStorage) (g : URLTestGroup) (NetworkName : string -> string)
    (now ticker : Z) (dial : Outbound -> res Z) (network : string) (isExternal isProvider : bool)
    : res Z * HistoryStorage * URLTestGroup :=
  let '(g, _) := Touch now ticker g in
  match dial_choice v h g NetworkName network with
  | Ok outbound =>
      match dial outbound with
      | Ok c => (Ok c, h, g <| g_interruptGroup := NewConn (g_interruptGroup g) c isExternal isProvider |>)
      | Err e => (Err e, fst (DeleteURLTestHistory h (Outbound_Tag outbound)), g)
      | Panic p => (Panic p, h, g)
      | OutOfFuel => (OutOfFuel, h, g)
      end
  | Err e => (Err e, h, g)
  | Panic p => (Panic p, h, g)
  | OutOfFuel => (OutOfFuel, h, g)
  end.

(** [SelectPreMatchOutbound] up to the continuation. *)
Definition URLTest_SelectPreMatchOutbound (v : View) (h : HistoryStorage) (g : URLTestGroup) (now ticker : Z) (network : string)
    : URLTestGroup * option Outbound :=
  let '(g, _) := Touch now ticker g in
  let network := if bool_decide (network = NetworkICMP) then NetworkTCP else network in
  (g, match selectedFor g network with Some o => Some o | None => fst (Select v h g network) end).

(** [onProviderUpdated]: the last component says whether a check is scheduled. *)
Definition URLTest_onProviderUpdated (v : View) (h : HistoryStorage) (now : Z) (s : URLTest) (g : URLTestGroup) (tag : string)
    : res (URLTest * URLTestGroup * list Z * bool) :=
  let! ' (_, outbounds, outboundsCache) :=
    res_cause (ut_Tag s)
      (collectProviderOutbounds v tag (ut_Dependencies s) (ut_providers s) (ut_providerTags s) (ut_outboundsCache s)
         (ut_exclude s) (ut_include s)) in
  let s := s <| ut_outboundsCache := outboundsCache |> in
  let '(g, closed) := replaceOutbounds v h g outbounds in
  Ok (s, g, closed, isGroupActive now g).
