(* ===== verification/GroupsProofs.v ===== *)
(** What the selector and the URL test group guarantee: the choice by delay and
    tolerance, the fallback order, membership of what is selected, the memory of a
    selection, and that no provider update goes unchecked. *)

From S2P Require Import Prelude GoStrings Groups.

(** * Choosing by delay *)

(** The delay last measured for an outbound, and the members a network can be
    routed to whose delay is known. *)
Definition delay_of (v : View) (h : HistoryStorage) (o : Outbound) : option Z :=
  Delay <$> LoadURLTestHistory h (RealTag v o).

Definition supports (v : View) (network : string) (o : Outbound) : Prop := network ∈ view_Network v o.

Definition candidate (v : View) (h : HistoryStorage) (l : list Outbound) (network : string) (o : Outbound) (d : Z) : Prop :=
  o ∈ l /\ supports v network o /\ delay_of v h o = Some d.

Lemma candidate_cons v h x l network o d :
  candidate v h (x :: l) network o d <-> (o = x /\ supports v network x /\ delay_of v h x = Some d) \/ candidate v h l network o d.
Proof. unfold candidate. rewrite elem_of_cons. naive_solver. Qed.

Lemma candidate_nil v h network o d : ~ candidate v h [] network o d.
Proof. intros [H _]. by inversion H. Qed.

Section Tolerance.
Context (v : View) (h : HistoryStorage) (g : URLTestGroup) (network : string).
Hypothesis no_fallback : enabled (g_fallback g) = false.

(** The loop without fallback from a known minimum. *)
Lemma select_loop_from l : forall m o,
  delay_of v h o = Some m -> 0 < m ->
  (forall c d, candidate v h l network c d -> 0 < d /\ is_u 16 (d + g_tolerance g)) -> 0 <= g_tolerance g ->
  exists o' m', select_loop v h g network m (Some o) 0 None l = (Some o', None)
    /\ delay_of v h o' = Some m' /\ 0 < m'
    /\ (o' = o \/ (candidate v h l network o' m' /\ m' + g_tolerance g < m))
    /\ m' <= m
    /\ (forall c d, candidate v h l network c d -> m' <= d + g_tolerance g).
Proof.
  induction l as [|x l IH]; intros m o Hm Hpos Hc Ht; cbn [select_loop].
  { exists o, m. split_and!; try done; try lia; [by left|]. intros c d Hn. by apply candidate_nil in Hn. }
  assert (Hc' : forall c d, candidate v h l network c d -> 0 < d /\ is_u 16 (d + g_tolerance g)).
  { intros c d Hn. apply (Hc c). apply candidate_cons. by right. }
  assert (Hskip : ~ (exists d, supports v network x /\ delay_of v h x = Some d) ->
    exists o' m', select_loop v h g network m (Some o) 0 None l = (Some o', None)
      /\ delay_of v h o' = Some m' /\ 0 < m'
      /\ (o' = o \/ (candidate v h (x :: l) network o' m' /\ m' + g_tolerance g < m))
      /\ m' <= m /\ (forall c d, candidate v h (x :: l) network c d -> m' <= d + g_tolerance g)).
  { intros Hno. destruct (IH m o Hm Hpos Hc' Ht) as (o' & m' & He & Hd & Hp & Ho & Hle & Hall).
    exists o', m'. split_and!; try done.
    - destruct Ho as [->|[Ho Hlt]]; [by left|right]. split; [|done]. apply candidate_cons. by right.
    - intros c d Hn. apply candidate_cons in Hn as [(-> & H1 & H2)|Hn]; [exfalso; eauto|by apply (Hall c)]. }
  unfold inb. case_bool_decide as Hnet; cbn [negb]; [|by apply Hskip; intros (d & Hs & _)].
  destruct (LoadURLTestHistory h (RealTag v x)) as [hist|] eqn:Hh.
  2: { apply Hskip. intros (d & _ & Hd). unfold delay_of in Hd. by rewrite Hh in Hd. }
  assert (Hx : delay_of v h x = Some (Delay hist)) by (unfold delay_of; by rewrite Hh).
  destruct (Hc x (Delay hist)) as [Hxp Hxu]; [apply candidate_cons; by left|].
  rewrite no_fallback. cbn [andb]. rewrite (wrap_small 16 _ Hxu).
  replace (m =? 0) with false by (symmetry; apply Z.eqb_neq; lia). cbn [orb].
  destruct (Delay hist + g_tolerance g <? m) eqn:Hlt; bsimpl.
  - destruct (IH (Delay hist) x Hx Hxp Hc' Ht) as (o' & m' & He & Hd & Hp & Ho & Hle & Hall).
    exists o', m'. split_and!; try done; try lia.
    + right. split; [|lia]. apply candidate_cons. destruct Ho as [->|[Ho _]]; [left; split_and!; try done; congruence|by right].
    + intros c d Hn. apply candidate_cons in Hn as [(-> & _ & H2)|Hn]; [|by apply (Hall c)].
      rewrite Hx in H2. injection H2 as <-. lia.
  - destruct (IH m o Hm Hpos Hc' Ht) as (o' & m' & He & Hd & Hp & Ho & Hle & Hall).
    exists o', m'. split_and!; try done.
    + destruct Ho as [->|[Ho Hlt']]; [by left|right]. split; [|done]. apply candidate_cons. by right.
    + intros c d Hn. apply candidate_cons in Hn as [(-> & _ & H2)|Hn]; [|by apply (Hall c)].
      rewrite Hx in H2. injection H2 as <-. lia.
Qed.

(** The loop without fallback and without a previous choice. *)
Lemma select_loop_fresh l :
  (forall c d, candidate v h l network c d -> 0 < d /\ is_u 16 (d + g_tolerance g)) -> 0 <= g_tolerance g ->
  (select_loop v h g network 0 None 0 None l = (None, None) /\ forall c d, ~ candidate v h l network c d)
  \/ exists o' m', select_loop v h g network 0 None 0 None l = (Some o', None)
      /\ candidate v h l network o' m' /\ (forall c d, candidate v h l network c d -> m' <= d + g_tolerance g).
Proof.
  induction l as [|x l IH]; intros Hc Ht; cbn [select_loop]; [left; by split; [|intros c d Hn; apply candidate_nil in Hn]|].
  assert (Hc' : forall c d, candidate v h l network c d -> 0 < d /\ is_u 16 (d + g_tolerance g)).
  { intros c d Hn. apply (Hc c). apply candidate_cons. by right. }
  assert (Hno : ~ (exists d, supports v network x /\ delay_of v h x = Some d) ->
    forall c d, candidate v h (x :: l) network c d <-> candidate v h l network c d).
  { intros Hno c d. rewrite candidate_cons. naive_solver. }
  unfold inb. case_bool_decide as Hnet; cbn [negb].
  2: { assert (Hn := Hno ltac:(by intros (d & Hs & _))). setoid_rewrite Hn. auto. }
  destruct (LoadURLTestHistory h (RealTag v x)) as [hist|] eqn:Hh.
  2: { assert (Hn := Hno ltac:(intros (d & _ & Hd); unfold delay_of in Hd; by rewrite Hh in Hd)). setoid_rewrite Hn. auto. }
  assert (Hx : delay_of v h x = Some (Delay hist)) by (unfold delay_of; by rewrite Hh).
  destruct (Hc x (Delay hist)) as [Hxp Hxu]; [apply candidate_cons; by left|].
  rewrite no_fallback. cbn [andb orb Z.eqb]. right.
  destruct (select_loop_from l (Delay hist) x Hx Hxp Hc' Ht) as (o' & m' & He & Hd & Hp & Ho & Hle & Hall).
  exists o', m'. split_and!; [done| |].
  - apply candidate_cons. destruct Ho as [->|[Ho _]]; [left; split_and!; try done; congruence|by right].
  - intros c d Hn. apply candidate_cons in Hn as [(-> & _ & H2)|Hn]; [|by apply (Hall c)].
    rewrite Hx in H2. injection H2 as <-. lia.
Qed.

End Tolerance.

Lemma find_supporting v network l :
  match List.find (fun detour => inb network (view_Network v detour)) l with
  | Some o => o ∈ l /\ supports v network o
  | None => forall o, o ∈ l -> ~ supports v network o
  end.
Proof.
  destruct (List.find _ l) as [o|] eqn:Hf.
  - apply List.find_some in Hf as [Hin Hs]. split; [by apply list_elem_of_In|]. by apply inb_true.
  - intros o Ho Hs. apply list_elem_of_In in Ho. eapply List.find_none in Hf; [|exact Ho]. cbn in Hf.
    apply bool_decide_eq_false in Hf. done.
Qed.

(** The URL test group selects within the tolerance and does not flap.  Without
    fallback, while delays are positive and fit 16 bits with the tolerance added,
    the chosen outbound is the current one or a member for the network, and no
    member is faster by more than the tolerance; the current one is given up only
    for a member faster by more than the tolerance.  If no delay is known the
    first member for the network is taken, and nothing only if there is none. *)
Theorem Select_within_tolerance v h g network :
  enabled (g_fallback g) = false -> 0 <= g_tolerance g ->
  (forall c d, candidate v h (g_outbounds g) network c d -> 0 < d /\ is_u 16 (d + g_tolerance g)) ->
  (forall s d, selectedFor g network = Some s -> delay_of v h s = Some d -> 0 < d) ->
  match Select v h g network with
  | (Some o, true) =>
      exists d, delay_of v h o = Some d
        /\ (selectedFor g network = Some o \/ candidate v h (g_outbounds g) network o d)
        /\ (forall c dc, candidate v h (g_outbounds g) network c dc -> d <= dc + g_tolerance g)
        /\ (forall s ds, selectedFor g network = Some s -> delay_of v h s = Some ds -> o = s \/ d + g_tolerance g < ds)
  | (r, false) =>
      (forall c d, ~ candidate v h (g_outbounds g) network c d)
      /\ (forall s, selectedFor g network = Some s -> delay_of v h s = None)
      /\ match r with
         | Some o => o ∈ g_outbounds g /\ supports v network o
         | None => forall o, o ∈ g_outbounds g -> ~ supports v network o
         end
  | (None, true) => False
  end.
Proof.
  intros Hf Ht Hc Hs. unfold Select.
  destruct (selectedFor g network) as [s|] eqn:Hsel.
  1: destruct (LoadURLTestHistory h (RealTag v s)) as [hist|] eqn:Hh.
  1: { assert (Hd : delay_of v h s = Some (Delay hist)) by (unfold delay_of; by rewrite Hh).
       destruct (select_loop_from v h g network Hf _ _ s Hd (Hs _ _ eq_refl Hd) Hc Ht) as (o & m & -> & Hm & _ & Ho & _ & Hall).
       exists m. split_and!; [done| |done|].
       - destruct Ho as [->|[Ho _]]; [by left|by right].
       - intros s' ds [= <-] Hds. rewrite Hd in Hds. injection Hds as <-. destruct Ho as [->|[_ Ho]]; [by left|by right]. }
  all: destruct (select_loop_fresh v h g network Hf (g_outbounds g) Hc Ht) as [[-> Hn]|(o & m & -> & Ho & Hall)].
  1,3: pose proof (find_supporting v network (g_outbounds g)) as Hfind; destruct (List.find _ _);
    (split; [done|split; [|exact Hfind]]); intros s' [= <-]; unfold delay_of; by rewrite Hh.
  all: exists m; split_and!; [apply Ho|by right|done|]; intros s' ds [= <-]; unfold delay_of; by rewrite Hh.
Qed.

(** ** With fallback *)

(** A delay over the limit. *)
Definition slow (g : URLTestGroup) (d : Z) : Prop := 0 < maxDelay (g_fallback g) < d.

Section Fallback.
Context (v : View) (h : HistoryStorage) (g : URLTestGroup) (network : string).
Hypothesis fallback : enabled (g_fallback g) = true.

(** The best of the slow members seen so far. *)
Definition ignored_ok (seen : list Outbound) (ig : option Outbound) (d : Z) : Prop :=
  match ig with
  | None => d = 0 /\ forall c dc, ~ candidate v h seen network c dc
  | Some o => 0 < d /\ candidate v h seen network o d /\ forall c dc, candidate v h seen network c dc -> d <= dc
  end.

(** The first member that is not slow. *)
Definition first_fast (l : list Outbound) (o : Outbound) : Prop :=
  exists l1 l2 d, l = l1 ++ o :: l2 /\ supports v network o /\ delay_of v h o = Some d /\ ~ slow g d
    /\ forall c dc, candidate v h l1 network c dc -> slow g dc.

Lemma candidate_app l1 l2 c d :
  candidate v h (l1 ++ l2) network c d <-> candidate v h l1 network c d \/ candidate v h l2 network c d.
Proof. unfold candidate. rewrite elem_of_app. tauto. Qed.

Lemma candidate_one x c d : candidate v h [x] network c d <-> c = x /\ supports v network x /\ delay_of v h x = Some d.
Proof. rewrite candidate_cons. split; [intros [H|H]; [done|by apply candidate_nil in H]|by left]. Qed.

Lemma ignored_ok_skip seen x ig d :
  (forall dx, supports v network x -> delay_of v h x <> Some dx) -> ignored_ok seen ig d -> ignored_ok (seen ++ [x]) ig d.
Proof.
  intros Hx. assert (Heq : forall c dc, candidate v h (seen ++ [x]) network c dc <-> candidate v h seen network c dc).
  { intros c dc. rewrite candidate_app, candidate_one. split; [intros [H|(-> & H1 & H2)]; [done|by destruct (Hx dc)]|by left]. }
  unfold ignored_ok. destruct ig; setoid_rewrite Heq; done.
Qed.

Lemma select_loop_fallback l : forall seen m o igD ig,
  (forall c d, candidate v h (seen ++ l) network c d -> 0 < d) ->
  (forall c d, candidate v h seen network c d -> slow g d) -> ignored_ok seen ig igD ->
  (exists o' ig', select_loop v h g network m o igD ig l = (Some o', ig') /\ first_fast (seen ++ l) o')
  \/ (exists ig' igD', select_loop v h g network m o igD ig l = (o, ig') /\ ignored_ok (seen ++ l) ig' igD'
       /\ forall c d, candidate v h (seen ++ l) network c d -> slow g d).
Proof.
  induction l as [|x l IH]; intros seen m o igD ig Hpos Hslow Hig; cbn [select_loop].
  { right. exists ig, igD. by rewrite app_nil_r. }
  assert (Hnext : forall igD ig, ignored_ok (seen ++ [x]) ig igD ->
    (forall dx, supports v network x -> delay_of v h x = Some dx -> slow g dx) ->
    (exists o' ig', select_loop v h g network m o igD ig l = (Some o', ig') /\ first_fast (seen ++ x :: l) o')
    \/ (exists ig' igD', select_loop v h g network m o igD ig l = (o, ig') /\ ignored_ok (seen ++ x :: l) ig' igD'
         /\ forall c d, candidate v h (seen ++ x :: l) network c d -> slow g d)).
  { intros igD' ig' Hig' Hx. replace (seen ++ x :: l) with ((seen ++ [x]) ++ l) in * by (by rewrite <- app_assoc).
    apply IH; [done| |done]. intros c d Hcd. apply candidate_app in Hcd as [Hcd|Hcd]; [by eapply Hslow|].
    apply candidate_one in Hcd as (-> & H1 & H2). eauto. }
  unfold inb. case_bool_decide as Hnet; cbn [negb].
  2: { apply Hnext; [|by intros dx H]. apply ignored_ok_skip; [by intros dx H|done]. }
  destruct (LoadURLTestHistory h (RealTag v x)) as [hist|] eqn:Hh.
  2: { assert (Hx : delay_of v h x = None) by (unfold delay_of; by rewrite Hh).
       apply Hnext; [|intros dx _; by rewrite Hx]. apply ignored_ok_skip; [intros dx _; by rewrite Hx|done]. }
  assert (Hx : delay_of v h x = Some (Delay hist)) by (unfold delay_of; by rewrite Hh).
  assert (Hxp : 0 < Delay hist) by (apply (Hpos x); apply candidate_app; right; apply candidate_cons; by left).
  rewrite fallback. cbn [andb].
  destruct ((0 <? maxDelay (g_fallback g)) && (maxDelay (g_fallback g) <? Delay hist)) eqn:Hsl.
  - bsimpl. destruct ((igD =? 0) || (Delay hist <? igD)) eqn:Hb; (apply Hnext; [|intros dx _ Hd; rewrite Hx in Hd; injection Hd as <-; unfold slow; lia]).
    + split_and!; [done|apply candidate_app; right; by apply candidate_one|]. intros c dc Hc.
      apply candidate_app in Hc as [Hc|Hc]; [|apply candidate_one in Hc as (_ & _ & Hd); rewrite Hx in Hd; by injection Hd as <-].
      unfold ignored_ok in Hig. destruct ig as [o0|]; [|by destruct (proj2 Hig c dc)]. destruct Hig as (Higp & _ & Hmin).
      apply Hmin in Hc. apply orb_true_iff in Hb as [Hb|Hb]; bsimpl; lia.
    + bsimpl. unfold ignored_ok in *. destruct ig as [o0|]; [|lia]. destruct Hig as (Higp & Higc & Hmin).
      split_and!; [done|apply candidate_app; by left|]. intros c dc Hc.
      apply candidate_app in Hc as [Hc|Hc]; [eauto|apply candidate_one in Hc as (_ & _ & Hd); rewrite Hx in Hd; injection Hd as <-; lia].
  - left. replace (Delay hist =? 0) with false by (symmetry; apply Z.eqb_neq; lia). eexists _, _. split; [done|].
    exists seen, l, (Delay hist). split_and!; try done.
    intros [Hs1 Hs2]. apply andb_false_iff in Hsl as [Hsl|Hsl]; bsimpl; lia.
Qed.

End Fallback.

(** With fallback the group takes the first member that is fast enough.  While
    delays are positive, the choice is the first member for the network whose
    delay is known and within the limit; when all known ones are over the limit,
    the current choice is kept if its delay is known, otherwise the member of
    least delay is taken. *)
Theorem Select_fallback v h g network :
  enabled (g_fallback g) = true ->
  (forall c d, candidate v h (g_outbounds g) network c d -> 0 < d) ->
  (exists o, Select v h g network = (Some o, true) /\ first_fast v h g network (g_outbounds g) o)
  \/ ((forall c d, candidate v h (g_outbounds g) network c d -> slow g d)
      /\ ((exists s d, selectedFor g network = Some s /\ delay_of v h s = Some d /\ Select v h g network = (Some s, true))
          \/ (exists o d, Select v h g network = (Some o, true) /\ candidate v h (g_outbounds g) network o d
                /\ forall c dc, candidate v h (g_outbounds g) network c dc -> d <= dc)
          \/ ((forall c d, ~ candidate v h (g_outbounds g) network c d) /\ snd (Select v h g network) = false))).
Proof.
  intros Hf Hpos. unfold Select.
  assert (Hinit : ignored_ok v h network [] None 0) by (split; [done|intros c d; apply candidate_nil]).
  assert (Hloop := fun m o => select_loop_fallback v h g network Hf (g_outbounds g) [] m o 0 None Hpos
                     ltac:(intros c d Hc; by apply candidate_nil in Hc) Hinit).
  cbn [app] in Hloop.
  assert (Hnone : forall ig d, ignored_ok v h network (g_outbounds g) ig d ->
    (exists o d, match ig with
       | Some detour => (Some detour, true)
       | None => (List.find (fun detour => inb network (view_Network v detour)) (g_outbounds g), false) end = (Some o, true)
       /\ candidate v h (g_outbounds g) network o d /\ forall c dc, candidate v h (g_outbounds g) network c dc -> d <= dc)
    \/ ((forall c d, ~ candidate v h (g_outbounds g) network c d) /\ snd (match ig with
       | Some detour => (Some detour, true)
       | None => (List.find (fun detour => inb network (view_Network v detour)) (g_outbounds g), false) end) = false)).
  { intros [o|] d Hig; [left; exists o, d; naive_solver|right; split; [apply Hig|done]]. }
  destruct (selectedFor g network) as [s|] eqn:Hsel.
  1: destruct (LoadURLTestHistory h (RealTag v s)) as [hist|] eqn:Hh.
  all: match goal with |- context [select_loop _ _ _ _ ?m ?o _ _ _] => destruct (Hloop m o) as [(o' & ig' & -> & Ho)|(ig' & d' & -> & Hig & Hall)] end.
  1,3,5: left; eauto.
  all: right; split; [done|].
  - left. exists s, (Delay hist). split_and!; try done. unfold delay_of. by rewrite Hh.
  - right. by apply (Hnone _ d').
  - right. by apply (Hnone _ d').
Qed.

(** * Members *)

Lemma select_loop_member v h g network l : forall m o d ig,
  (forall x, fst (select_loop v h g network m o d ig l) = Some x -> o = Some x \/ x ∈ l)
  /\ (forall x, snd (select_loop v h g network m o d ig l) = Some x -> ig = Some x \/ x ∈ l).
Proof.
  induction l as [|y l IH]; intros m o d ig; cbn [select_loop]; [by split; left|].
  assert (Hnext : forall m' o' d' ig', (o' = o \/ o' = Some y) -> (ig' = ig \/ ig' = Some y) ->
    (forall x, fst (select_loop v h g network m' o' d' ig' l) = Some x -> o = Some x \/ x ∈ y :: l)
    /\ (forall x, snd (select_loop v h g network m' o' d' ig' l) = Some x -> ig = Some x \/ x ∈ y :: l)).
  { intros m' o' d' ig' Ho Hig. destruct (IH m' o' d' ig') as [H1 H2]. split; intros x Hx.
    - apply H1 in Hx as [Hx|Hx]; [|right; by right]. destruct Ho as [-> | ->]; [by left|injection Hx as <-; right; left].
    - apply H2 in Hx as [Hx|Hx]; [|right; by right]. destruct Hig as [-> | ->]; [by left|injection Hx as <-; right; left]. }
  repeat case_match; auto. cbn. split; [intros x [= <-]; right; left|by left].
Qed.

Lemma Select_member v h g network o b :
  Select v h g network = (Some o, b) -> selectedFor g network = Some o \/ o ∈ g_outbounds g.
Proof.
  unfold Select. intros Hsel.
  assert (Hinit : forall m s, (s = None \/ s = selectedFor g network) ->
    match select_loop v h g network m s 0 None (g_outbounds g) with
    | (Some detour, _) => (Some detour, true)
    | (None, Some detour) => (Some detour, true)
    | (None, None) => (List.find (fun detour => inb network (view_Network v detour)) (g_outbounds g), false)
    end = (Some o, b) -> selectedFor g network = Some o \/ o ∈ g_outbounds g).
  { intros m s Hs Hrun. destruct (select_loop_member v h g network (g_outbounds g) m s 0 None) as [H1 H2].
    destruct (select_loop _ _ _ _ _ _ _ _ _) as [[x|] ig].
    - injection Hrun as -> _. destruct (H1 o eq_refl) as [-> |]; [|by right]. destruct Hs as [|<-]; [done|by left].
    - destruct ig as [x|].
      + injection Hrun as -> _. destruct (H2 o eq_refl) as [|]; [done|by right].
      + injection Hrun as Hfind _. right. apply List.find_some in Hfind as [Hin _]. by apply list_elem_of_In. }
  destruct (selectedFor g network) as [s|] eqn:Hs; [|apply (Hinit 0 None); [by left|exact Hsel]].
  destruct (LoadURLTestHistory h (RealTag v s)) as [hist|]; [apply (Hinit (Delay hist) (Some s))|apply (Hinit 0 None)]; auto.
Qed.

Record members (g : URLTestGroup) : Prop := {
  tcp_member : forall o, g_tcp g = Some o -> o ∈ g_outbounds g;
  udp_member : forall o, g_udp g = Some o -> o ∈ g_outbounds g;
}.

Lemma selectedFor_member g network o : members g -> selectedFor g network = Some o -> o ∈ g_outbounds g.
Proof. intros [H1 H2]. unfold selectedFor. repeat case_bool_decide; auto. done. Qed.

Lemma Select_in v h g network o b : members g -> Select v h g network = (Some o, b) -> o ∈ g_outbounds g.
Proof. intros Hm Hs. apply Select_member in Hs as [Hs|Hs]; [by eapply selectedFor_member|done]. Qed.

(** Operations that run on a started group, with what they see of the rest. *)
Inductive group_op :=
| UpdateCheck (v : View) (h : HistoryStorage)
| TestAll (v : View) (test : Outbound -> option (Z * Z)) (now : Z) (cancelled force : bool) (h : HistoryStorage)
| Replace (v : View) (h : HistoryStorage) (outbounds : list Outbound)
| TouchAt (now ticker : Z)
| TickAt (now ticker : Z)
| Dialed (conn : Z) (isExternal isProvider : bool)
| Undialed (conn : Z).

(** The new state and the connections closed. *)
Definition group_run (g : URLTestGroup) (op : group_op) : URLTestGroup * list Z :=
  match op with
  | UpdateCheck v h => performUpdateCheck v h g
  | TestAll v test now cancelled force h =>
      let '(_, _, g, closed) := urlTestLocked v test now cancelled force h g in (g, closed)
  | Replace v h outbounds => replaceOutbounds v h g outbounds
  | TouchAt now ticker => (fst (Touch now ticker g), [])
  | TickAt now ticker => (fst (fst (loopCheck_tick now ticker g)), [])
  | Dialed c isExternal isProvider => (g <| g_interruptGroup := NewConn (g_interruptGroup g) c isExternal isProvider |>, [])
  | Undialed c => (g <| g_interruptGroup := Conn_Close (g_interruptGroup g) c |>, [])
  end.

(** A choice was given up. *)
Definition changed (g g' : URLTestGroup) : Prop :=
  (exists o, g_tcp g = Some o /\ g_tcp g' <> Some o) \/ (exists o, g_udp g = Some o /\ g_udp g' <> Some o).

(** No connection is left that a change interrupts. *)
Definition drained (g : URLTestGroup) : Prop := Forall (fun i => interrupted (g_interruptExternal g) i = false) (g_interruptGroup g).

Lemma group_interrupt_spec u g :
  let '(g', closed) := group_interrupt u g in
  g_tcp g' = g_tcp g /\ g_udp g' = g_udp g /\ g_outbounds g' = g_outbounds g /\ (u = true -> drained g') /\ (u = false -> closed = [] /\ g' = g).
Proof.
  unfold group_interrupt, drained. destruct u; cbn; split_and!; try done. intros _. apply List.Forall_forall.
  intros i Hi. apply List.filter_In in Hi as [_ Hi]. by apply negb_true_iff in Hi.
Qed.

Lemma update_choice_spec v h g network o updated :
  members g -> update_choice (selectedFor g network) (Select v h g network) = Some (o, updated) ->
  o ∈ g_outbounds g /\ (updated = true <-> exists s, selectedFor g network = Some s /\ s <> o)
  /\ (updated = false -> selectedFor g network = None).
Proof.
  intros Hm. destruct (Select v h g network) as [[x|] b] eqn:Hs; cbn; [|done].
  apply Select_in in Hs; [|done]. destruct (selectedFor g network) as [s|]; [|intros [= -> <-]; naive_solver].
  destruct b; cbn; [|done]. case_bool_decide as Hd; cbn; intros [= -> <-]. split_and!; try done.
  split; [|done]. intros _. exists s. split; [done|]. congruence.
Qed.

Lemma performUpdateCheck_spec v h g :
  members g ->
  let '(g', closed) := performUpdateCheck v h g in
  members g' /\ (changed g g' -> drained g') /\ (closed <> [] -> changed g g').
Proof.
  intros Hm. unfold performUpdateCheck.
  assert (Htcp : g_tcp g = selectedFor g NetworkTCP) by done.
  set (a := match update_choice (g_tcp g) _ with Some _ => _ | None => _ end).
  assert (Ha : members (fst a) /\ g_udp (fst a) = g_udp g /\ (snd a = true <-> exists o, g_tcp g = Some o /\ g_tcp (fst a) <> Some o)).
  { unfold a. destruct (update_choice (g_tcp g) _) as [[o u]|] eqn:Hu; cbn.
    - destruct (update_choice_spec v h g NetworkTCP o u Hm Hu) as (H1 & H2 & _). split_and!; [|done|].
      + split; cbn; [by intros x [= <-]|apply Hm].
      + rewrite H2, Htcp. unfold constant. split; intros (s & Hs & Hne); exists s; split; congruence.
    - split_and!; [done|done|]. split; [done|]. intros (o & H1 & H2). congruence. }
  clearbody a. destruct a as [g1 u1]. cbn [fst snd] in Ha. destruct Ha as (Hm1 & Hudp & Hu1).
  assert (Hudp1 : g_udp g1 = selectedFor g1 NetworkUDP) by done.
  set (b := match update_choice (g_udp g1) _ with Some _ => _ | None => _ end).
  assert (Hb : members (fst b) /\ g_tcp (fst b) = g_tcp g1 /\ (snd b = true <-> exists o, g_udp g1 = Some o /\ g_udp (fst b) <> Some o)).
  { unfold b. destruct (update_choice (g_udp g1) _) as [[o u]|] eqn:Hu; cbn.
    - destruct (update_choice_spec v h g1 NetworkUDP o u Hm1 Hu) as (H1 & H2 & _). split_and!; [|done|].
      + split; cbn; [apply Hm1|by intros x [= <-]].
      + rewrite H2, Hudp1. unfold constant. split; intros (s & Hs & Hne); exists s; split; congruence.
    - split_and!; [done|done|]. split; [done|]. intros (o & H1 & H2). congruence. }
  clearbody b. destruct b as [g2 u2]. cbn [fst snd] in Hb. destruct Hb as (Hm2 & Htcp2 & Hu2).
  pose proof (group_interrupt_spec (u1 || u2) g2) as Hi. destruct (group_interrupt (u1 || u2) g2) as [g' closed].
  destruct Hi as (E1 & E2 & E3 & E4 & E5).
  assert (Hch : changed g g' <-> u1 || u2 = true).
  { unfold changed. rewrite E1, E2, Htcp2, orb_true_iff, Hu1, Hu2, Hudp. done. }
  split_and!.
  - destruct Hm2. split; rewrite ?E1, ?E2, E3; auto.
  - intros Hc. by apply E4, Hch.
  - intros Hc. apply Hch. destruct (u1 || u2); [done|]. by destruct (E5 eq_refl).
Qed.

Lemma replaceOutbounds_spec v h g outbounds :
  let '(g', closed) := replaceOutbounds v h g outbounds in
  members g' /\ g_outbounds g' = outbounds /\ (changed g g' -> drained g') /\ (closed <> [] -> changed g g').
Proof.
  unfold replaceOutbounds.
  set (g0 := g <| g_outbounds := outbounds |>).
  set (g1 := if containsOutbound outbounds (g_tcp g) then g0 else g0 <| g_tcp := None |>).
  set (g2 := if containsOutbound outbounds (g_udp g) then g1 else g1 <| g_udp := None |>).
  assert (Hm2 : members g2 /\ g_outbounds g2 = outbounds).
  { assert (Hin : forall s o, containsOutbound outbounds s = true -> s = Some o -> o ∈ outbounds).
    { intros s o Hc ->. by apply inb_true. }
    unfold g2, g1. destruct (containsOutbound outbounds (g_tcp g)) eqn:H1, (containsOutbound outbounds (g_udp g)) eqn:H2;
      split; try done; split; cbn; intros o Ho; unfold constant in *; try discriminate; eauto. }
  destruct Hm2 as [Hm2 Ho2]. clearbody g2. clear g0 g1.
  set (g3 := match g_tcp g2 with Some _ => g2 | None => _ end).
  assert (Hm3 : members g3 /\ g_outbounds g3 = outbounds).
  { unfold g3. destruct (g_tcp g2); [done|]. destruct (Select v h g2 NetworkTCP) as [[o|] b] eqn:Hs; [|done].
    split; [|done]. split; cbn; [unfold constant; intros x [= <-]; by eapply Select_in|apply Hm2]. }
  destruct Hm3 as [Hm3 Ho3]. clearbody g3.
  set (g4 := match g_udp g3 with Some _ => g3 | None => _ end).
  assert (Hm4 : members g4 /\ g_outbounds g4 = outbounds).
  { unfold g4. destruct (g_udp g3); [done|]. destruct (Select v h g3 NetworkUDP) as [[o|] b] eqn:Hs; [|done].
    split; [|done]. split; cbn; [apply Hm3|unfold constant; intros x [= <-]; by eapply Select_in]. }
  destruct Hm4 as [Hm4 Ho4]. clearbody g4.
  set (u := _ || _). pose proof (group_interrupt_spec u g4) as Hi. destruct (group_interrupt u g4) as [g' closed].
  destruct Hi as (E1 & E2 & E3 & E4 & E5).
  assert (Hch : changed g g' <-> u = true).
  { unfold changed, u. rewrite E1, E2, orb_true_iff, !andb_true_iff, !negb_true_iff, !bool_decide_eq_false.
    assert (Hiff : forall a b : option Outbound, (exists o, a = Some o /\ b <> Some o) <-> a <> None /\ b <> a).
    { intros a b. split; [intros (o & -> & Hb); done|]. intros [Ha Hb]. destruct a as [o|]; [eauto|done]. }
    by rewrite !Hiff. }
  split_and!.
  - destruct Hm4. split; rewrite ?E1, ?E2, E3; auto.
  - congruence.
  - intros Hc. by apply E4, Hch.
  - intros Hc. apply Hch. destruct u; [done|]. by destruct (E5 eq_refl).
Qed.

Lemma group_run_spec g op :
  members g ->
  let '(g', closed) := group_run g op in
  members g' /\ (changed g g' -> drained g') /\ (closed <> [] -> changed g g').
Proof.
  assert (Hsame : forall g', g_outbounds g' = g_outbounds g -> g_tcp g' = g_tcp g -> g_udp g' = g_udp g -> members g ->
    members g' /\ (changed g g' -> drained g') /\ (([] : list Z) <> [] -> changed g g')).
  { intros g' E1 E2 E3 [H1 H2]. split_and!; [split; rewrite E1; intros o Ho; [apply H1|apply H2]; congruence| |done].
    unfold changed. rewrite E2, E3. intros [(o & Ho & Hn)|(o & Ho & Hn)]; congruence. }
  intros Hm. destruct op; cbn [group_run].
  - by apply performUpdateCheck_spec.
  - unfold urlTestLocked. destruct (fold_left _ _ _) as [h' result]. destruct cancelled; [by apply Hsame|].
    pose proof (performUpdateCheck_spec v h' g Hm) as Hs. destruct (performUpdateCheck v h' g). apply Hs.
  - pose proof (replaceOutbounds_spec v h g outbounds) as Hs. destruct (replaceOutbounds v h g outbounds). naive_solver.
  - unfold Touch. destruct (g_started g), (g_ticker g); by apply Hsame.
  - unfold loopCheck_tick. repeat case_match; by apply Hsame.
  - by apply Hsame.
  - by apply Hsame.
Qed.

Definition group_runs (g : URLTestGroup) (ops : list group_op) : URLTestGroup := fold_left (fun g op => fst (group_run g op)) ops g.

Lemma group_runs_members ops : forall g, members g -> members (group_runs g ops).
Proof.
  induction ops as [|op ops IH]; intros g Hm; [done|]. apply IH. pose proof (group_run_spec g op Hm) as Hs.
  destruct (group_run g op). apply Hs.
Qed.

Lemma NewURLTestGroup_members b outbounds interval tolerance idle fallback ext g :
  NewURLTestGroup b outbounds interval tolerance idle fallback ext = Ok g -> members g /\ g_outbounds g = outbounds.
Proof. unfold NewURLTestGroup. repeat case_match; intros [= <-]; by repeat split. Qed.

(** C38: a URL test group only ever uses its members.  Whatever sequence of tests,
    update checks, provider updates, ticks and connections runs on a new group,
    with whatever the rest of the program answers, the selected outbounds and the
    outbound a connection is dialed through are among the current members; a
    choice given up leaves no interruptible connection open, and connections are
    closed only when a choice is given up. *)
Theorem url_test_uses_members outbounds interval tolerance idle fallback ext g ops :
  NewURLTestGroup true outbounds interval tolerance idle fallback ext = Ok g ->
  let g' := group_runs g ops in
  members g'
  /\ (forall v h NetworkName network o, dial_choice v h g' NetworkName network = Ok o -> o ∈ g_outbounds g')
  /\ (forall op, let '(g'', closed) := group_run g' op in
        (changed g' g'' -> drained g'') /\ (closed <> [] -> changed g' g'')).
Proof.
  intros Hnew. cbn zeta. assert (Hm : members (group_runs g ops)).
  { apply group_runs_members. by eapply NewURLTestGroup_members. }
  split_and!; [done| |].
  - intros v h NetworkName network o. unfold dial_choice. destruct (negb _); [done|].
    destruct (selectedFor _ _) as [x|] eqn:Hsel; [intros [= <-]; by eapply selectedFor_member|].
    destruct (Select v h _ network) as [[x|] b] eqn:Hs; [|done]. intros [= <-]. by eapply Select_in.
  - intros op. pose proof (group_run_spec _ op Hm) as Hs. destruct (group_run _ op). apply Hs.
Qed.

(** * The selector *)

(** The outbound manager answers with the outbound of the tag. *)
Definition view_ok (v : View) : Prop := forall tag o, view_Outbound v tag = Some o -> Outbound_Tag o = tag.

Lemma lookup_tags_spec v tags : forall i outbounds,
  view_ok v -> lookup_tags v i tags = Ok outbounds -> map Outbound_Tag outbounds = tags.
Proof.
  induction tags as [|tag tags IH]; intros i outbounds Hv; cbn; [by intros [= <-]|].
  destruct (view_Outbound v tag) as [o|] eqn:Ho; [|done]. intros H. res_inv. cbn. f_equal; [by apply Hv|eauto].
Qed.

Lemma by_tags_snoc l x : by_tags (map Outbound_Tag (l ++ [x])) (l ++ [x]) = <[Outbound_Tag x := x]> (by_tags (map Outbound_Tag l) l).
Proof.
  unfold by_tags. rewrite map_app. cbn [map]. rewrite zip_with_app by (by rewrite length_map). by rewrite fold_left_app.
Qed.

(** The map filled from a list of outbounds has exactly their tags. *)
Lemma by_tags_spec l tag :
  match by_tags (map Outbound_Tag l) l !! tag with
  | Some o => o ∈ l /\ Outbound_Tag o = tag
  | None => tag ∉ map Outbound_Tag l
  end.
Proof.
  induction l as [|x l IH] using rev_ind; [cbn; rewrite lookup_empty; by inversion 1|].
  rewrite by_tags_snoc. destruct (decide (Outbound_Tag x = tag)) as [<-|Hne].
  - rewrite lookup_insert_eq. split; [|done]. apply elem_of_app. right. left.
  - rewrite lookup_insert_ne by done. destruct (_ !! tag).
    + split; [|apply IH]. apply elem_of_app. left. apply IH.
    + rewrite map_app, elem_of_app. cbn [map]. rewrite list_elem_of_singleton. naive_solver.
Qed.

(** The members are in the map under their tags, and one is selected. *)
Record selector_ok (s : Selector) : Prop := {
  sel_map : forall tag o, sel_outbounds s !! tag = Some o -> Outbound_Tag o = tag;
  sel_dom : forall tag, tag ∈ sel_tags s <-> is_Some (sel_outbounds s !! tag);
  sel_chosen : exists o, sel_selected s = Some o /\ sel_outbounds s !! Outbound_Tag o = Some o;
}.

Lemma by_tags_ok l : (forall tag o, by_tags (map Outbound_Tag l) l !! tag = Some o -> Outbound_Tag o = tag)
  /\ (forall tag, tag ∈ map Outbound_Tag l <-> is_Some (by_tags (map Outbound_Tag l) l !! tag)).
Proof.
  split; [intros tag o Ho|intros tag]; pose proof (by_tags_spec l tag) as Hs.
  - rewrite Ho in Hs. apply Hs.
  - destruct (_ !! tag) as [o|].
    + split; [eauto|]. intros _. destruct Hs as [Hin <-]. by apply list_elem_of_fmap_2.
    + split; [done|]. by intros [? ?].
Qed.

Lemma outboundSelect_spec cacheFile s l r :
  l <> [] -> outboundSelect cacheFile s (by_tags (map Outbound_Tag l) l) (map Outbound_Tag l) = Ok r ->
  exists o, r = Some o /\ by_tags (map Outbound_Tag l) l !! Outbound_Tag o = Some o.
Proof.
  intros Hl. destruct (by_tags_ok l) as [Hmap Hdom]. unfold outboundSelect.
  set (m := by_tags _ _) in *. assert (Hsel : forall tag o, m !! tag = Some o -> exists o', Some o = Some o' /\ m !! Outbound_Tag o' = Some o').
  { intros tag o Ho. exists o. split; [done|]. by rewrite (Hmap tag o Ho). }
  match goal with |- match ?x with _ => _ end = _ -> _ => set (remembered := x) end.
  assert (Hr : forall o, remembered = Some o -> exists tag, m !! tag = Some o).
  { intros o. unfold remembered. repeat case_match; eauto; done. }
  clearbody remembered. destruct remembered as [o|].
  - intros [= <-]. destruct (Hr o eq_refl) as [tag Ho]. eauto.
  - case_bool_decide as Hd.
    + destruct l as [|x l]; [done|]. cbn [map]. intros [= <-].
      destruct (proj1 (Hdom (Outbound_Tag x)) ltac:(left)) as [o Ho]. rewrite Ho. eauto.
    + destruct (m !! sel_defaultTag s) as [o|] eqn:Ho; [|done]. intros [= <-]. eauto.
Qed.

(** Storing members [l] with the outbound selected among them. *)
Lemma selector_stored s s' l r cacheFile :
  l <> [] -> outboundSelect cacheFile s (by_tags (map Outbound_Tag l) l) (map Outbound_Tag l) = Ok r ->
  sel_tags s' = map Outbound_Tag l -> sel_outbounds s' = by_tags (map Outbound_Tag l) l -> sel_selected s' = r -> selector_ok s'.
Proof.
  intros Hl Hr Ht Ho Hs. destruct (by_tags_ok l) as [Hmap Hdom]. split; rewrite ?Ht, ?Ho, ?Hs; auto.
  by apply outboundSelect_spec in Hr.
Qed.

(** [Start] stores the members it found. *)
Lemma Selector_Start_inv v cacheFile s s' callbacks :
  view_ok v -> Selector_Start v cacheFile s = Ok (s', callbacks) ->
  exists l s1, l <> [] /\ sel_Tag s1 = sel_Tag s /\ sel_Tag s' = sel_Tag s /\ sel_tags s' = map Outbound_Tag l
    /\ sel_outbounds s' = by_tags (map Outbound_Tag l) l
    /\ outboundSelect cacheFile s1 (by_tags (map Outbound_Tag l) l) (map Outbound_Tag l) = Ok (sel_selected s').
Proof.
  intros Hv H. unfold Selector_Start in H. res_inv. destruct v0 as [providerTags providers].
  destruct (_ =? 0)%nat; [done|]. res_inv. destruct v1 as [tags outbounds]. res_inv.
  assert (Htags : map Outbound_Tag outbounds = tags /\ outbounds <> []).
  { apply lookup_tags_spec in E0; [|done]. destruct (sel_Dependencies _) as [|t ts] eqn:Hdep.
    - destruct (view_Outbound v "Compatible") as [o|] eqn:Hc; [|done]. injection E1 as <- <-. done.
    - injection E1 as <- <-. split; [done|]. intros ->. done. }
  destruct Htags as [<- Hne].
  eexists outbounds, _. split_and!; [done| | | | |exact E2]; done.
Qed.

(** ** Members from providers *)

(** What a provider contributes. *)
Definition contribution (v : View) (exclude include : option (string -> bool)) (p : Provider) : list Outbound :=
  List.filter (kept exclude include) (view_Outbounds v p).

(** The cache holds what the providers other than [updatedTag] contribute now. *)
Definition cache_fresh (v : View) (exclude include : option (string -> bool)) (providers : gmap string Provider)
    (stale : string -> Prop) (cache : gmap string (list Outbound)) : Prop :=
  forall tag cached, cache !! tag = Some cached -> ~ stale tag ->
    exists p, providers !! tag = Some p /\ cached = contribution v exclude include p.

Lemma collect_providers_spec v updatedTag providers exclude include l : forall tags outbounds cache (stale : string -> Prop),
  tags = map Outbound_Tag outbounds -> (forall tag, stale tag -> tag = updatedTag) ->
  cache_fresh v exclude include providers stale cache ->
  match collect_providers v updatedTag providers exclude include l tags outbounds cache with
  | Ok (tags', outbounds', cache') =>
      exists ps, Forall2 (fun tag p => providers !! tag = Some p) l ps
        /\ outbounds' = outbounds ++ concat (map (contribution v exclude include) ps)
        /\ tags' = map Outbound_Tag outbounds'
        /\ cache_fresh v exclude include providers (fun tag => stale tag /\ tag ∉ l) cache'
  | Err _ => exists tag, tag ∈ l /\ providers !! tag = None
  | _ => False
  end.
Proof.
  induction l as [|tag l IH]; intros tags outbounds cache stale Ht Hst Hc; cbn [collect_providers].
  { exists []. split_and!; [done|by rewrite app_nil_r|done|]. intros t cached Hl Hn. apply (Hc t); [done|].
    intros Hs. apply Hn. split; [done|]. by inversion 1. }
  assert (Hstep : forall cached p cache1 (stale1 : string -> Prop), providers !! tag = Some p -> cached = contribution v exclude include p ->
    (forall t, stale1 t <-> stale t /\ t <> tag) -> cache_fresh v exclude include providers stale1 cache1 ->
    match collect_providers v updatedTag providers exclude include l (tags ++ map Outbound_Tag cached) (outbounds ++ cached) cache1 with
    | Ok (tags', outbounds', cache') =>
        exists ps, Forall2 (fun tag p => providers !! tag = Some p) (tag :: l) ps
          /\ outbounds' = outbounds ++ concat (map (contribution v exclude include) ps)
          /\ tags' = map Outbound_Tag outbounds'
          /\ cache_fresh v exclude include providers (fun t => stale t /\ t ∉ tag :: l) cache'
    | Err _ => exists t, t ∈ tag :: l /\ providers !! t = None
    | _ => False
    end).
  { intros cached p cache1 stale1 Hp Hcached Hs1 Hc1.
    specialize (IH (tags ++ map Outbound_Tag cached) (outbounds ++ cached) cache1 stale1).
    rewrite Ht, map_app in IH. specialize (IH eq_refl ltac:(intros t Hs; apply Hst, Hs1, Hs) Hc1). subst tags.
    destruct (collect_providers _ _ _ _ _ _ _ _ _) as [[[tags' outbounds'] cache']|e| |]; try done.
    - destruct IH as (ps & Hps & Ho & Ht' & Hc'). exists (p :: ps). cbn. split_and!; [by constructor| |done|].
      + by rewrite Ho, <- app_assoc, Hcached.
      + intros t cd Hl Hn. apply (Hc' t cd Hl). intros [H1 H2]. apply Hn. apply Hs1 in H1 as [H1 H3]. split; [done|].
        intros Hin. apply elem_of_cons in Hin as [|]; done.
    - destruct IH as (t & Hin & Hn). exists t. split; [by right|done]. }
  case_bool_decide as Hup.
  - destruct (providers !! tag) as [p|] eqn:Hp; [|exists tag; split; [left|done]].
    eapply (Hstep _ p _ (fun t => stale t /\ t <> tag)); [done|done|done|].
    intros t cached Hl Hn. destruct (decide (t = tag)) as [->|Hne].
    + rewrite lookup_insert_eq in Hl. injection Hl as <-. eauto.
    + rewrite lookup_insert_ne in Hl by done. apply (Hc t cached Hl). intros Hs. by apply Hn.
  - assert (Hns : ~ stale tag) by (intros Hs; by apply Hup, Hst).
    destruct (cache !! tag) as [cached|] eqn:Hl.
    + destruct (Hc tag cached Hl Hns) as (p & Hp & Heq). apply (Hstep _ p _ stale); try done.
      intros t. split; [|tauto]. intros Hs. split; [done|]. by intros ->.
    + destruct (providers !! tag) as [p|] eqn:Hp; [|exists tag; split; [left|done]].
      eapply (Hstep _ p _ stale); [done|done| |].
      * intros t. split; [|tauto]. intros Hs. split; [done|]. by intros ->.
      * intros t cd Hl' Hn. destruct (decide (t = tag)) as [->|Hne].
        -- rewrite lookup_insert_eq in Hl'. injection Hl' as <-. eauto.
        -- rewrite lookup_insert_ne in Hl' by done. by apply (Hc t cd Hl').
Qed.

(** Tags and outbounds collected agree, and there is at least one. *)
Lemma collect_aligned v updatedTag directTags providers providerTags cache exclude include tags outbounds cache' :
  view_ok v ->
  collectProviderOutbounds v updatedTag directTags providers providerTags cache exclude include = Ok (tags, outbounds, cache') ->
  tags = map Outbound_Tag outbounds /\ outbounds <> [].
Proof.
  intros Hv. unfold collectProviderOutbounds. destruct (providers !! updatedTag); [|done]. intros H. res_inv.
  apply lookup_tags_spec in E; [|done]. destruct v1 as [[tags1 outbounds1] cache1].
  assert (Ht : tags1 = map Outbound_Tag outbounds1).
  { clear H. revert E0. rewrite <- E. generalize v0 as l0. clear. intros l0.
    revert l0 cache. induction providerTags as [|t ts IH]; intros l0 cache; cbn [collect_providers]; [by intros [= <- <- <-]|].
    repeat case_match; try done; rewrite <- map_app; apply IH. }
  subst tags1. destruct outbounds1 as [|o outbounds1]; cbn [map] in H.
  - destruct (view_Outbound v "Compatible"); [|done]. injection H as <- <- <-. done.
  - injection H as <- <- <-. done.
Qed.

(** A provider update recomputes exactly what changed.  When the cache holds
    what the other providers contribute, collecting after an update of one
    provider gives the direct outbounds followed by the filtered outbounds of every
    provider in order, as recomputing all of them would, or the compatible
    outbound if that is empty; and the new cache holds what all of them contribute. *)
Theorem provider_update_refreshes v updatedTag directTags direct providers providerTags cache exclude include :
  view_ok v -> is_Some (providers !! updatedTag) -> updatedTag ∈ providerTags ->
  lookup_tags v 0 directTags = Ok direct ->
  cache_fresh v exclude include providers (fun tag => tag = updatedTag) cache ->
  match collectProviderOutbounds v updatedTag directTags providers providerTags cache exclude include with
  | Ok (tags, outbounds, cache') =>
      tags = map Outbound_Tag outbounds
      /\ cache_fresh v exclude include providers (fun _ => False) cache'
      /\ exists ps, Forall2 (fun tag p => providers !! tag = Some p) providerTags ps
           /\ (outbounds = direct ++ concat (map (contribution v exclude include) ps)
               \/ (direct ++ concat (map (contribution v exclude include) ps) = []
                   /\ exists o, view_Outbound v "Compatible" = Some o /\ outbounds = [o]))
  | Err _ => (exists tag, tag ∈ providerTags /\ providers !! tag = None) \/ view_Outbound v "Compatible" = None
  | _ => False
  end.
Proof.
  intros Hv [p0 Hp0] Hin Hd Hc. unfold collectProviderOutbounds. rewrite Hp0, Hd. cbn [res_bind].
  assert (Hdt := lookup_tags_spec v directTags 0 direct Hv Hd).
  pose proof (collect_providers_spec v updatedTag providers exclude include providerTags directTags direct cache
                (fun tag => tag = updatedTag) (eq_sym Hdt) (fun tag H => H) Hc) as Hs.
  destruct (collect_providers _ _ _ _ _ _ _ _ _) as [[[tags outbounds] cache']|e| |]; cbn [res_bind]; try done; [|by left].
  destruct Hs as (ps & Hps & Ho & Ht & Hc').
  assert (Hfresh : cache_fresh v exclude include providers (fun _ => False) cache').
  { intros tag cached Hl _. apply (Hc' tag cached Hl). intros [-> Hn]. done. }
  destruct outbounds as [|o outbounds]; subst tags; cbn [map].
  - destruct (view_Outbound v "Compatible") as [o|] eqn:Hcomp; [|by right].
    split_and!; [done|done|]. exists ps. split; [done|]. right. split; [done|]. by exists o.
  - split_and!; [done|done|]. exists ps. split; [done|]. by left.
Qed.

(** ** What is selected *)

Lemma Selector_onProviderUpdated_inv v cacheFile s tag s' closed :
  view_ok v -> Selector_onProviderUpdated v cacheFile s tag = Ok (s', closed) ->
  exists l, l <> [] /\ sel_Tag s' = sel_Tag s /\ sel_tags s' = map Outbound_Tag l
    /\ sel_outbounds s' = by_tags (map Outbound_Tag l) l
    /\ outboundSelect cacheFile s (by_tags (map Outbound_Tag l) l) (map Outbound_Tag l) = Ok (sel_selected s').
Proof.
  intros Hv. unfold Selector_onProviderUpdated.
  destruct (collectProviderOutbounds _ _ _ _ _ _ _ _) as [[[tags outbounds] cache]|e| |] eqn:Hcol; cbn; try done.
  apply collect_aligned in Hcol as [-> Hne]; [|done]. intros H. res_inv. exists outbounds.
  case_bool_decide; injection H as <- _; done.
Qed.

(** A selector that starts, has outbounds selected and providers updated; a
    failed update leaves it as it was. *)
Inductive selector_op :=
| SelectTag (stored : bool) (tag : string)
| ProviderUpdated (v : View) (tag : string).

Definition selector_run (st : Selector * option (gmap string string)) (op : selector_op) : Selector * option (gmap string string) :=
  let '(s, cacheFile) := st in
  match op with
  | SelectTag stored tag => let '(_, s, cacheFile, _) := SelectOutbound stored cacheFile s tag in (s, cacheFile)
  | ProviderUpdated v tag =>
      match Selector_onProviderUpdated v cacheFile s tag with
      | Ok (s, _) => (s, cacheFile)
      | _ => (s, cacheFile)
      end
  end.

Definition op_ok (op : selector_op) : Prop :=
  match op with SelectTag _ _ => True | ProviderUpdated v _ => view_ok v end.

Lemma SelectOutbound_ok stored cacheFile s tag :
  selector_ok s -> let '(_, s', _, _) := SelectOutbound stored cacheFile s tag in selector_ok s'.
Proof.
  intros [Hmap Hdom Hsel]. unfold SelectOutbound, Selector_interrupt.
  destruct (sel_outbounds s !! tag) as [o|] eqn:Ho; [|done]. case_bool_decide; [done|].
  destruct (Interrupt _ _) as [conns closed]. split; cbn; auto. unfold constant. exists o. split; [done|].
  by rewrite (Hmap tag o Ho).
Qed.

Lemma selector_run_ok st op : op_ok op -> selector_ok (fst st) -> selector_ok (fst (selector_run st op)).
Proof.
  destruct st as [s cacheFile], op as [stored tag|v tag]; cbn [op_ok selector_run fst]; intros Hop Hs.
  - pose proof (SelectOutbound_ok stored cacheFile s tag Hs) as H.
    by destruct (SelectOutbound stored cacheFile s tag) as [[[b s'] c'] cl].
  - destruct (Selector_onProviderUpdated v cacheFile s tag) as [[s' closed]|e| |] eqn:Hu; try done.
    apply Selector_onProviderUpdated_inv in Hu as (l & Hl & _ & Ht & Ho & Hsel); [|done]. by eapply selector_stored.
Qed.

Lemma selector_runs_ok ops st : Forall op_ok ops -> selector_ok (fst st) -> selector_ok (fst (fold_left selector_run ops st)).
Proof.
  intros Hops. revert st. induction Hops as [|op ops Hop _ IH]; intros st Hs; [done|]. apply IH. by apply selector_run_ok.
Qed.

(** A started selector always has a member selected.  Whatever is selected and
    however the providers change afterwards, failed updates included, [Now] is one
    of the tags of [All], connections are dialed through that member and dialing
    does not dereference a missing selection. *)
Theorem selector_has_member v cacheFile s s0 callbacks ops :
  view_ok v -> Selector_Start v cacheFile s = Ok (s0, callbacks) -> Forall op_ok ops ->
  let s' := fst (fold_left selector_run ops (s0, cacheFile)) in
  exists o, sel_outbounds s' !! Outbound_Tag o = Some o /\ Selector_Now s' = Ok (Outbound_Tag o)
    /\ Outbound_Tag o ∈ Selector_All s'
    /\ forall dial isExternal isProvider c, dial o = Ok c ->
         exists s'', Selector_DialContext dial isExternal isProvider s' = Ok (s'', c).
Proof.
  intros Hv Hstart Hops s'. assert (Hok : selector_ok s').
  { apply selector_runs_ok; [done|]. apply Selector_Start_inv in Hstart as (l & s1 & Hl & _ & _ & Ht & Ho & Hsel); [|done].
    cbn. by eapply selector_stored. }
  destruct Hok as [Hmap Hdom (o & Hsel & Ho)]. exists o. unfold Selector_Now, Selector_DialContext. rewrite Hsel. split_and!; try done.
  - apply Hdom. by rewrite Ho.
  - intros dial ext prov c Hd. rewrite Hd. cbn. eauto.
Qed.

(** A stored tag among the members is what is selected. *)
Lemma outboundSelect_stored file s l tag r :
  sel_Tag s <> "" -> tag <> "" -> file !! sel_Tag s = Some tag -> tag ∈ map Outbound_Tag l ->
  outboundSelect (Some file) s (by_tags (map Outbound_Tag l) l) (map Outbound_Tag l) = Ok r ->
  exists o, r = Some o /\ Outbound_Tag o = tag.
Proof.
  intros Hs Ht Hf Hin. destruct (by_tags_ok l) as [Hmap Hdom]. apply Hdom in Hin as [o Ho]. unfold outboundSelect, LoadSelected.
  rewrite bool_decide_false by done. rewrite Hf. change (default "" (Some tag)) with tag. rewrite bool_decide_false by done. rewrite Ho.
  intros [= <-]. exists o. split; [done|]. by apply Hmap.
Qed.

(** A selection is remembered.  Once [SelectOutbound] has changed the selection
    of a selector and stored it, the selector has that outbound selected, every
    later provider update that keeps a member of that tag keeps it selected, and
    so does every restart of a selector of the same tag with the same cache file. *)
Theorem selection_remembered file s tag s' file' closed :
  SelectOutbound true (Some file) s tag = (true, s', Some file', closed) ->
  sel_selected s <> sel_selected s' -> sel_Tag s <> "" -> tag <> "" -> selector_ok s ->
  Selector_Now s' = Ok tag
  /\ (forall v provider s1 closed1, view_ok v -> Selector_onProviderUpdated v (Some file') s' provider = Ok (s1, closed1) ->
        tag ∈ Selector_All s1 -> Selector_Now s1 = Ok tag)
  /\ (forall v s0 s1 callbacks, view_ok v -> sel_Tag s0 = sel_Tag s -> Selector_Start v (Some file') s0 = Ok (s1, callbacks) ->
        tag ∈ Selector_All s1 -> Selector_Now s1 = Ok tag).
Proof.
  intros Hsel Hch Hs Ht Hok. unfold SelectOutbound, Selector_interrupt in Hsel.
  destruct (sel_outbounds s !! tag) as [o|] eqn:Ho; [|done]. case_bool_decide as Hsame; [by injection Hsel as <- <- <-|].
  cbn in Hsel. rewrite bool_decide_false in Hsel by done. cbn in Hsel. injection Hsel as <- <- _.
  assert (Hf : <[sel_Tag s := tag]> file !! sel_Tag s = Some tag) by apply lookup_insert_eq.
  assert (Hnow : forall s1 r, sel_selected s1 = r -> (exists o, r = Some o /\ Outbound_Tag o = tag) -> Selector_Now s1 = Ok tag).
  { intros s1 r Hr (x & -> & Hx). unfold Selector_Now. by rewrite Hr, Hx. }
  split_and!.
  - cbn. unfold constant. f_equal. by apply (sel_map _ Hok).
  - intros v provider s1 closed1 Hv Hu Hin. apply Selector_onProviderUpdated_inv in Hu as (l & _ & _ & Htags & _ & Hr); [|done].
    unfold Selector_All in Hin. rewrite Htags in Hin. eapply Hnow; [done|]. eapply outboundSelect_stored; [| | | |exact Hr]; try done.
  - intros v s0 s1 callbacks Hv Htag Hst Hin. apply Selector_Start_inv in Hst as (l & s2 & _ & Hs2 & _ & Htags & _ & Hr); [|done].
    unfold Selector_All in Hin. rewrite Htags in Hin. eapply Hnow; [done|].
    eapply outboundSelect_stored; [| | | |exact Hr]; try done; rewrite Hs2, Htag; done.
Qed.

(** * Checks after provider updates *)

(** The scheduler with every goroutine it ever started, the number of requests
    made and the number made before the last check began. *)
Record system := mkSystem {
  sys_sched : providerUpdateCheckScheduler;
  sys_workers : list Worker;
  sys_requested : Z;
  sys_served : Z;
}.

Inductive sched_op := Request | Work (i : nat).

Definition is_starting (w : Worker) : bool := match w with Starting => true | _ => false end.

(** A call of [Schedule], or the next step of one goroutine. *)
Definition sched_run (s : system) (op : sched_op) : system :=
  match op with
  | Request =>
      let '(c, spawn) := Schedule (sys_sched s) in
      mkSystem c (if spawn then sys_workers s ++ [Starting] else sys_workers s) (sys_requested s + 1) (sys_served s)
  | Work i =>
      match sys_workers s !! i with
      | None => s
      | Some w =>
          let '(c, w') := worker_step (sys_sched s) w in
          mkSystem c (<[i := w']> (sys_workers s)) (sys_requested s)
            (if is_starting w then sys_requested s else sys_served s)
      end
  end.

Definition sched_runs (s : system) (ops : list sched_op) : system := fold_left sched_run ops s.
Definition sched_initial : system := mkSystem (mkScheduler false false) [] 0 0.

Definition active (w : Worker) : Prop := w <> Idle.

Record sched_ok (s : system) : Prop := {
  ok_served : sys_served s = sys_requested s \/ pending (sys_sched s) = true;
  ok_running : pending (sys_sched s) = true -> running (sys_sched s) = true;
  ok_worker : running (sys_sched s) = true <-> exists i w, sys_workers s !! i = Some w /\ active w;
  ok_single : forall i j w w', sys_workers s !! i = Some w -> sys_workers s !! j = Some w' -> active w -> active w' -> i = j;
}.

Lemma sched_ok_request s : sched_ok s -> sched_ok (sched_run s Request).
Proof.
  intros [H1 H2 H3 H4]. cbn [sched_run]. unfold Schedule. destruct (running (sys_sched s)) eqn:Hr; split; cbn; try done; auto.
  - split; [|done]. intros _. exists (length (sys_workers s)), Starting. split; [|done]. by apply list_lookup_middle.
  - assert (Hno : forall i w, sys_workers s !! i = Some w -> ~ active w).
    { intros i w Hi Ha. assert (false = true) by (apply H3; eauto). done. }
    intros i j w w' Hi Hj Ha Ha'. apply lookup_app_Some in Hi as [Hi|[Hi1 Hi2]]; [by destruct (Hno i w Hi)|].
    apply lookup_app_Some in Hj as [Hj|[Hj1 Hj2]]; [by destruct (Hno j w' Hj)|].
    apply list_lookup_singleton_Some in Hi2 as [Hi2 _]. apply list_lookup_singleton_Some in Hj2 as [Hj2 _]. lia.
Qed.

Lemma sched_ok_work s i : sched_ok s -> sched_ok (sched_run s (Work i)).
Proof.
  intros Hok. cbn [sched_run]. destruct (sys_workers s !! i) as [w|] eqn:Hi; [|done].
  assert (Hlen := lookup_lt_Some _ _ _ Hi). destruct Hok as [H1 H2 H3 H4].
  assert (Hsingle : forall w', active w -> forall j k x y, <[i := w']> (sys_workers s) !! j = Some x -> <[i := w']> (sys_workers s) !! k = Some y ->
    active x -> active y -> j = k).
  { intros w' Hw j k x y Hj Hk Hx Hy. assert (Hall : forall j x, <[i := w']> (sys_workers s) !! j = Some x -> active x -> j = i).
    { intros j' x' Hj' Hx'. destruct (decide (j' = i)) as [|Hne]; [done|]. rewrite list_lookup_insert_ne in Hj' by done.
      by apply (H4 j' i x' w). }
    by rewrite (Hall j x), (Hall k y). }
  assert (Hsame : forall w', active w -> active w' -> running (sys_sched s) = true ->
    exists j x, <[i := w']> (sys_workers s) !! j = Some x /\ active x).
  { intros w' _ Hw' _. exists i, w'. split; [|done]. by apply list_lookup_insert_eq. }
  assert (Hrun : active w -> running (sys_sched s) = true) by (intros Hw; apply H3; eauto).
  destruct w; cbn [worker_step is_starting].
  - rewrite list_insert_id by done. by split.
  - split; cbn; [by left|done| |by apply Hsingle]. split; [by apply Hsame|intros _; by apply Hrun].
  - split; cbn; [done|done| |by apply Hsingle]. split; [by apply Hsame|intros _; by apply Hrun].
  - destruct (pending (sys_sched s)) eqn:Hp; cbn.
    + split; cbn; [by right|intros _; by apply Hrun| |by apply Hsingle]. split; [by apply Hsame|intros _; by apply Hrun].
    + split; cbn; [destruct H1 as [H1|H1]; [by left|done]|destruct (sys_sched s); cbn in *; by subst| |by apply Hsingle].
      split; [done|]. intros (j & x & Hj & Hx). destruct (decide (j = i)) as [->|Hne].
      * rewrite list_lookup_insert_eq in Hj by done. by injection Hj as <-.
      * rewrite list_lookup_insert_ne in Hj by done. by destruct Hne; apply (H4 j i x Finished).
Qed.

Lemma sched_runs_ok ops : forall s, sched_ok s -> sched_ok (sched_runs s ops).
Proof.
  induction ops as [|[|i] ops IH]; intros s Hs; [done| |]; apply IH; [by apply sched_ok_request|by apply sched_ok_work].
Qed.

Lemma sched_initial_ok : sched_ok sched_initial.
Proof. split; cbn; [by left|done| |done]. split; [done|]. intros (i & w & Hi & _). done. Qed.

(** A step of a running goroutine. *)
Lemma sched_run_work c ws req srv i w :
  (i < length ws)%nat ->
  sched_run (mkSystem c (<[i := w]> ws) req srv) (Work i)
  = mkSystem (fst (worker_step c w)) (<[i := snd (worker_step c w)]> ws) req (if is_starting w then req else srv).
Proof.
  intros Hi. cbn [sched_run sys_workers sys_sched sys_requested sys_served]. rewrite list_lookup_insert_eq by done.
  destruct (worker_step c w) as [c' w']. by rewrite list_insert_insert_eq.
Qed.

Lemma sched_drain s i w :
  sched_ok s -> sys_workers s !! i = Some w -> active w ->
  let s' := sched_runs s (replicate 5 (Work i)) in
  sys_served s' = sys_requested s /\ sys_requested s' = sys_requested s /\ running (sys_sched s') = false.
Proof.
  intros [H1 H2 H3 H4] Hi Ha. assert (Hlen := lookup_lt_Some _ _ _ Hi).
  assert (Hr : running (sys_sched s) = true) by (apply H3; eauto).
  destruct s as [[r p] ws req srv]. cbn [sys_sched sys_workers sys_requested sys_served running pending] in *. subst r.
  rewrite <- (list_insert_id ws i w Hi). cbn zeta. unfold sched_runs. cbn [replicate fold_left].
  rewrite !sched_run_work by done. cbn [sys_served sys_requested sys_sched].
  destruct w; [done| | |]; [|destruct p|destruct p]; split_and!; try done; by destruct H1.
Qed.

(** C39: no provider update is lost.  However calls of [Schedule] and the steps of
    the goroutines interleave, at most one goroutine runs; when a request was made
    after the last check began, a goroutine is still running and the request
    pending, and once no more requests come at most five of its steps later a check
    that began after every request has run and the goroutine has ended. *)
Theorem scheduled_checks_not_lost ops :
  let s := sched_runs sched_initial ops in
  (forall i j w w', sys_workers s !! i = Some w -> sys_workers s !! j = Some w' -> active w -> active w' -> i = j)
  /\ (sys_served s = sys_requested s \/ (pending (sys_sched s) = true /\ exists i w, sys_workers s !! i = Some w /\ active w))
  /\ (forall i w, sys_workers s !! i = Some w -> active w ->
        let s' := sched_runs s (replicate 5 (Work i)) in
        sys_served s' = sys_requested s /\ sys_requested s' = sys_requested s /\ running (sys_sched s') = false).
Proof.
  cbn zeta. assert (Hok := sched_runs_ok ops sched_initial sched_initial_ok). split_and!.
  - apply Hok.
  - destruct (ok_served _ Hok) as [H|H]; [by left|right]. split; [done|]. by apply (ok_worker _ Hok), (ok_running _ Hok).
  - intros i w Hi Ha. by eapply sched_drain.
Qed.

(** * Evaluations *)

Definition example_a : Outbound := mkOutbound 1 "a".
Definition example_b : Outbound := mkOutbound 2 "b".
Definition example_c : Outbound := mkOutbound 3 "c".
Definition example_provider : Provider := mkProvider 1 "p".

Definition example_lookup (tag : string) : option Outbound :=
  List.find (fun o => bool_decide (Outbound_Tag o = tag)) [example_a; example_b; example_c].

(** Three outbounds, the last from a provider. *)
Definition example_view : View :=
  mkView example_lookup (fun _ => [NetworkTCP; NetworkUDP]) (fun _ => None) [example_provider] (fun _ => Some example_provider)
    (fun _ => [example_c]).

Lemma example_view_ok : view_ok example_view.
Proof.
  intros tag o Ho. apply List.find_some in Ho as [_ Ho]. by apply bool_decide_eq_true in Ho.
Qed.

Definition example_history : HistoryStorage :=
  mkHistoryStorage (list_to_map [("a", mkURLTestHistory 0 120); ("b", mkURLTestHistory 0 60); ("c", mkURLTestHistory 0 100)]) [].

Definition example_group (fallback : URLTestFallback) (tcp : option Outbound) : URLTestGroup :=
  mkURLTestGroup [example_a; example_b; example_c] 1 50 1 tcp None [] false None false true 0 fallback.

Lemma example_delays l c d : l ⊆ [example_a; example_b; example_c] ->
  candidate example_view example_history l NetworkTCP c d -> d = 120 \/ d = 60 \/ d = 100.
Proof.
  intros Hl (Hin & _ & Hd). apply Hl in Hin. rewrite !elem_of_cons in Hin.
  destruct Hin as [-> |[-> |[-> |Hin]]]; [..|by inversion Hin]; vm_compute in Hd; injection Hd as <-; auto.
Qed.

Lemma Select_within_tolerance_witness :
  Select example_view example_history (example_group (mkURLTestFallback false 0) (Some example_a)) NetworkTCP = (Some example_b, true)
  /\ Select example_view example_history (example_group (mkURLTestFallback false 0) (Some example_c)) NetworkTCP = (Some example_c, true)
  /\ exists d, delay_of example_view example_history example_b = Some d
      /\ forall c dc, candidate example_view example_history [example_a; example_b; example_c] NetworkTCP c dc -> d <= dc + 50.
Proof.
  split; [vm_compute; reflexivity|]. split; [vm_compute; reflexivity|].
  pose proof (Select_within_tolerance example_view example_history (example_group (mkURLTestFallback false 0) (Some example_a)) NetworkTCP
    eq_refl ltac:(cbn; lia)) as H.
  destruct H as (d & Hd & _ & Hall & _).
  - intros c d Hc. apply example_delays in Hc; [|done]. unfold is_u. cbn. lia.
  - intros s d [= <-] Hd. vm_compute in Hd. injection Hd as <-. lia.
  - exists d. split; [exact Hd|exact Hall].
Defined.

Lemma Select_fallback_witness :
  Select example_view example_history (example_group (mkURLTestFallback true 110) None) NetworkTCP = (Some example_b, true)
  /\ Select example_view example_history (example_group (mkURLTestFallback true 50) None) NetworkTCP = (Some example_b, true)
  /\ exists o, Select example_view example_history (example_group (mkURLTestFallback true 110) None) NetworkTCP = (Some o, true)
       /\ first_fast example_view example_history (example_group (mkURLTestFallback true 110) None) NetworkTCP
            [example_a; example_b; example_c] o.
Proof.
  split; [vm_compute; reflexivity|]. split; [vm_compute; reflexivity|].
  destruct (Select_fallback example_view example_history (example_group (mkURLTestFallback true 110) None) NetworkTCP eq_refl) as [H|[H _]].
  - intros c d Hc. apply example_delays in Hc; [|done]. lia.
  - exact H.
  - destruct (H example_b 60) as [_ Hs]; [|cbn in Hs; lia]. split; [right; left|]. split; [left|vm_compute; reflexivity].
Defined.

Definition example_ops : list group_op :=
  [UpdateCheck example_view NewHistoryStorage; Dialed 7 false false; UpdateCheck example_view example_history;
   Replace example_view example_history [example_a; example_c]].

Lemma url_test_uses_members_witness :
  exists g, NewURLTestGroup true [example_a; example_b; example_c] 0 0 0 (mkURLTestFallback false 0) false = Ok g
    /\ members (group_runs g example_ops) /\ g_tcp (group_runs g example_ops) = Some example_a.
Proof.
  eexists. split; [reflexivity|]. split; [|vm_compute; reflexivity].
  apply (url_test_uses_members [example_a; example_b; example_c] 0 0 0 (mkURLTestFallback false 0) false _ example_ops eq_refl).
Defined.

Definition example_providers : gmap string Provider := {["p" := example_provider]}.

Lemma provider_update_refreshes_witness :
  exists cache', collectProviderOutbounds example_view "p" ["a"] example_providers ["p"] ∅ None None
    = Ok (["a"; "c"], [example_a; example_c], cache')
    /\ cache_fresh example_view None None example_providers (fun _ => False) cache'.
Proof.
  pose proof (provider_update_refreshes example_view "p" ["a"] [example_a] example_providers ["p"] ∅ None None
    example_view_ok ltac:(eexists; vm_compute; reflexivity) ltac:(left) eq_refl ltac:(intros tag cached H; by rewrite lookup_empty in H)) as H.
  eexists. split; [reflexivity|]. exact (proj1 (proj2 H)).
Defined.

(** An empty cache file. *)
Definition example_file : option (gmap string string) := Some ∅.

Definition example_selector : Selector := NewSelector "select" ["a"; "b"] "b" false ["p"] None None false.
Definition example_selector_ops : list selector_op :=
  [ProviderUpdated example_view "p"; SelectTag true "c"; ProviderUpdated example_view "p"].

Definition started_selector : Selector :=
  match Selector_Start example_view example_file example_selector with Ok (s, _) => s | _ => example_selector end.

Lemma selector_has_member_witness :
  Selector_Now (fst (fold_left selector_run example_selector_ops (started_selector, example_file))) = Ok "c"
  /\ exists o, Selector_Now (fst (fold_left selector_run example_selector_ops (started_selector, example_file))) = Ok (Outbound_Tag o).
Proof.
  split; [vm_compute; reflexivity|].
  destruct (selector_has_member example_view example_file example_selector started_selector ["p"] example_selector_ops
    example_view_ok ltac:(vm_compute; reflexivity)) as (o & _ & Hn & _).
  - repeat constructor; apply example_view_ok.
  - exists o. exact Hn.
Defined.

Lemma started_selector_ok : selector_ok started_selector.
Proof.
  eapply (selector_stored started_selector started_selector [example_a; example_b] (Some example_b) None); [done|vm_compute; reflexivity| | |].
  all: vm_compute; reflexivity.
Qed.

Lemma selection_remembered_witness :
  let '(_, s', file', _) := SelectOutbound true example_file started_selector "a" in
  Selector_Now s' = Ok "a" /\ file' = Some {["select" := "a"]}.
Proof.
  destruct (SelectOutbound true example_file started_selector "a") as [[[b s'] file'] closed] eqn:H.
  assert (Hs : SelectOutbound true example_file started_selector "a"
    = (true, started_selector <| sel_selected := Some example_a |>, Some {["select" := "a"]}, [])) by (vm_compute; reflexivity).
  rewrite Hs in H. injection H as <- <- <- <-. split; [|reflexivity].
  apply (selection_remembered ∅ started_selector "a" _ _ _ Hs); try done. exact started_selector_ok.
Defined.
