(* ===== verification/LoadBalance.v ===== *)
(** The load balance group: src/protocol/group/loadbalance.go.  The strategies
    keep their own state between calls; tests of the members fill the history
    shared with the URL test group. *)

From S2P Require Import Prelude NetAddr GoStrings RuleContext Groups.

(** * Keys *)

(** [net.ParseIP] succeeding, the public suffix list, the text form of an
    address, the seeded hash of a string, and the cache of sticky sessions with
    the time of each call. *)
Class BalanceEnv := {
  lb_metadata :: MetadataPkg;
  net_ParseIP : string -> bool;
  EffectiveTLDPlusOne : string -> option string;
  Addr_String : Addr -> string;
  Hash : string -> Z;
  Cache : Type;
  Cache_New : Z -> Cache;
  Cache_Get : Cache -> Z -> Z -> option Z * Cache;
  Cache_Peek : Cache -> Z -> Z -> option Z;
  Cache_Add : Cache -> Z -> Z -> Z -> Cache;
}.

(** * Jump hash

    The loop computes with [float64].  A positive double is a pair [(m, e)] of
    value [m * 2 ^ e]; [round53] rounds to 53 bits, ties to even. *)

Definition round_shift (n s : Z) : Z :=
  if s <=? 0 then n * 2 ^ (- s)
  else
    let q := n / 2 ^ s in
    let r := n mod 2 ^ s in
    if 2 * r <? 2 ^ s then q
    else if 2 ^ s <? 2 * r then q + 1
    else if Z.even q then q else q + 1.

Definition round53 (n e : Z) : Z * Z :=
  let s := Z.log2 n - 52 in (round_shift n s, e + s).

(** [float64(a) / float64(b)] of positive integers of at most 53 bits: enough
    bits of the quotient, then one that is set if more follow. *)
Definition float_div (a b : Z) : Z * Z :=
  let k := 64 + Z.log2 b in
  let q := a * 2 ^ k / b in
  let sticky := if a * 2 ^ k mod b =? 0 then 0 else 1 in
  round53 (2 * q + sticky) (- k - 1).

(** [float64(a) * x] *)
Definition float_mul (a : Z) (x : Z * Z) : Z * Z := round53 (a * fst x) (snd x).

(** [int64(x)] *)
Definition float_trunc (x : Z * Z) : Z :=
  if 0 <=? snd x then fst x * 2 ^ snd x else fst x / 2 ^ (- snd x).

(** [key*2862933555777941757 + 1] and the next [j] *)
Definition jump_key (key : Z) : Z := u64 (key * 2862933555777941757 + 1).
Definition jump_next (key b : Z) : Z :=
  float_trunc (float_mul (b + 1) (float_div (2 ^ 31) (Z.shiftr key 33 + 1))).

Fixpoint jump_loop (fuel : nat) (key b j buckets : Z) : res Z :=
  match fuel with
  | O => OutOfFuel
  | S fuel =>
      if j <? buckets
      then let key := jump_key key in jump_loop fuel key j (jump_next key j) buckets
      else Ok b
  end.

(** Each turn increases [j], so the number of buckets bounds the turns. *)
Definition jumpHash (key buckets : Z) : res Z := jump_loop (S (Z.to_nat buckets)) key 0 0 buckets.

Section Balance.
Context {Env : BalanceEnv}.

Definition getKey (metadata : option InboundContext) : string :=
  match metadata with
  | None => ""
  | Some md =>
      let metadataHost :=
        if IsDomain (Destination md) then Fqdn (Destination md)
        else if bool_decide (SniffHost md = "") then Domain md else SniffHost md in
      let byAddress :=
        let destinationAddr :=
          match DestinationAddresses md with
          | a :: _ => a
          | [] => Socksaddr_Addr (Destination md)
          end in
        if IsValid destinationAddr then Addr_String destinationAddr else "" in
      if bool_decide (metadataHost = "") then byAddress
      else if net_ParseIP metadataHost then metadataHost
      else match EffectiveTLDPlusOne metadataHost with
           | Some etld => etld
           | None => byAddress
           end
  end.

Definition getKeyWithSrcAndDst (metadata : option InboundContext) : string :=
  let src := match metadata with Some md => Addr_String (Socksaddr_Addr (Source md)) | None => "" end in
  src +:+ getKey metadata.

(** * The group *)

Inductive strategy := RoundRobin (idx : Z) | ConsistentHashing | StickySessions (lruCache : Cache).

Record LoadBalanceGroup := mkLoadBalanceGroup {
  lb_outbounds : list Groups.Outbound;
  lb_interval : Z;
  lb_idleTimeout : Z;
  lb_ttl : Z;
  lb_fallbackIdx : Z;
  lb_interruptGroup : list groupConnItem;
  lb_ticker : option Z;
  lb_closed : bool;
  lb_started : bool;
  lb_lastActive : Z;
  lb_strategy : strategy;
}.

Definition StrategyRoundRobin : string := "round-robin".
Definition StrategyConsistentHashing : string := "consistent-hashing".
Definition StrategyStickySessions : string := "sticky-sessions".

(** The part of [NewLoadBalance] that can fail. *)
Definition checkStrategy (strategy : string) : res string :=
  let strategy := if bool_decide (strategy = "") then StrategyRoundRobin else strategy in
  if inb strategy [StrategyRoundRobin; StrategyConsistentHashing; StrategyStickySessions] then Ok strategy
  else Err (ENew ("load-balance strategy not found: " +:+ strategy)).

Definition NewLoadBalanceGroup (hasHistory : bool) (outbounds : list Groups.Outbound) (interval idleTimeout ttl : Z) (strategy : string)
    : res LoadBalanceGroup :=
  let interval := if interval =? 0 then DefaultURLTestInterval else interval in
  let idleTimeout := if idleTimeout =? 0 then DefaultURLTestIdleTimeout else idleTimeout in
  if idleTimeout <? interval then Err (ENew "interval must be less or equal than idle_timeout")
  else
    let ttl := if ttl =? 0 then 10 * 60 * 1000000000 else ttl in
    if negb hasHistory then Err (ENew "missing URL test history storage")
    else
      let fn :=
        if bool_decide (strategy = StrategyConsistentHashing) then ConsistentHashing
        else if bool_decide (strategy = StrategyStickySessions) then StickySessions (Cache_New ttl)
        else RoundRobin 0 in
      Ok (mkLoadBalanceGroup outbounds interval idleTimeout ttl 0 [] None false false 0 fn).

Definition AliveForTestUrl (v : View) (h : HistoryStorage) (proxy : Groups.Outbound) : bool :=
  match LoadURLTestHistory h (RealTag v proxy) with Some _ => true | None => false end.

(** A [nil] matcher accepts. *)
Definition accepts (matcher : option (Groups.Outbound -> bool)) (proxy : Groups.Outbound) : bool :=
  match matcher with Some f => f proxy | None => true end.

Definition is_nil_matcher (matcher : option (Groups.Outbound -> bool)) : bool :=
  match matcher with None => true | Some _ => false end.

(** [int] has 64 bits, so the index is not negative. *)
Definition nextFallback (g : LoadBalanceGroup) (outbounds : list Groups.Outbound) (touch : bool)
    (matcher : option (Groups.Outbound -> bool)) : res (option Groups.Outbound * LoadBalanceGroup) :=
  if zlen outbounds =? 0 then Ok (None, g)
  else
    let nextIndex := u32 (lb_fallbackIdx g + 1) in
    let! outbound := index outbounds (nextIndex mod zlen outbounds) in
    if negb (accepts matcher outbound) then Ok (None, g)
    else Ok (Some outbound, if is_nil_matcher matcher || touch then g <| lb_fallbackIdx := nextIndex |> else g).

(** * Strategies *)

(** The loop of the round-robin strategy from [i] on: the next [i] and the first
    outbound alive. *)
Fixpoint rr_find (v : View) (h : HistoryStorage) (outbounds : list Groups.Outbound) (idx i : Z) (n : nat)
    : res (option (Z * Groups.Outbound)) :=
  match n with
  | O => Ok None
  | S n =>
      let! proxy := index outbounds ((idx + i) mod zlen outbounds) in
      if AliveForTestUrl v h proxy then Ok (Some (i + 1, proxy)) else rr_find v h outbounds idx (i + 1) n
  end.

Definition strategyRoundRobin (v : View) (h : HistoryStorage) (g : LoadBalanceGroup) (idx : Z) (touch : bool)
    (matcher : option (Groups.Outbound -> bool)) : res (option Groups.Outbound * LoadBalanceGroup) :=
  let outbounds := lb_outbounds g in
  let! found := rr_find v h outbounds idx 0 (length outbounds) in
  match found with
  | Some (i, proxy) =>
      if negb (accepts matcher proxy) then Ok (None, g)
      else Ok (Some proxy, if touch then g <| lb_strategy := RoundRobin ((idx + i) mod zlen outbounds) |> else g)
  | None => nextFallback g outbounds touch matcher
  end.

(** The retries of consistent hashing. *)
Fixpoint ch_find (v : View) (h : HistoryStorage) (outbounds : list Groups.Outbound) (key : Z) (retries : nat)
    : res (option Groups.Outbound) :=
  match retries with
  | O => Ok (List.find (AliveForTestUrl v h) outbounds)
  | S retries =>
      let! idx := jumpHash key (int32 (zlen outbounds)) in
      let! proxy := index outbounds idx in
      if AliveForTestUrl v h proxy then Ok (Some proxy) else ch_find v h outbounds (u64 (key + 1)) retries
  end.

Definition strategyConsistentHashing (v : View) (h : HistoryStorage) (g : LoadBalanceGroup) (metadata : option InboundContext)
    (touch : bool) (matcher : option (Groups.Outbound -> bool)) : res (option Groups.Outbound * LoadBalanceGroup) :=
  let outbounds := lb_outbounds g in
  let! found := ch_find v h outbounds (Hash (getKey metadata)) 5 in
  match found with
  | Some proxy => if negb (accepts matcher proxy) then Ok (None, g) else Ok (Some proxy, g)
  | None => nextFallback g outbounds touch matcher
  end.

(** The loop of sticky sessions; [clock] is the time of each [selectIndex]. *)
Definition selectIndex (nanos key length : Z) : res Z := jumpHash (u64 (key + u64 nanos)) (int32 length).

Fixpoint ss_find (v : View) (h : HistoryStorage) (outbounds : list Groups.Outbound) (clock : nat -> Z) (key nowIdx : Z) (retries : nat)
    : res (option (Z * Groups.Outbound)) :=
  match retries with
  | O => Ok None
  | S retries =>
      let! proxy := index outbounds nowIdx in
      if AliveForTestUrl v h proxy then Ok (Some (nowIdx, proxy))
      else let! nowIdx := selectIndex (clock retries) key (zlen outbounds) in
           ss_find v h outbounds clock key nowIdx retries
  end.

Definition strategyStickySessions (v : View) (h : HistoryStorage) (g : LoadBalanceGroup) (lruCache : Cache) (now : Z) (clock : nat -> Z)
    (metadata : option InboundContext) (matcher : option (Groups.Outbound -> bool)) : res (option Groups.Outbound * LoadBalanceGroup) :=
  let outbounds := lb_outbounds g in
  let key := Hash (getKeyWithSrcAndDst metadata) in
  let length := zlen outbounds in
  let '(cached, lruCache) :=
    if is_nil_matcher matcher then Cache_Get lruCache now key else (Cache_Peek lruCache now key, lruCache) in
  let valid := match cached with Some idx => idx <? length | None => false end in
  let! idx := match cached with
              | Some idx => if idx <? length then Ok idx else selectIndex (clock 4%nat) key length
              | None => selectIndex (clock 4%nat) key length
              end in
  let finish cache proxy :=
    (if accepts matcher proxy then Some proxy else None, g <| lb_strategy := StickySessions cache |>) in
  let! found := ss_find v h outbounds clock key idx 4 in
  match found with
  | Some (nowIdx, proxy) =>
      let lruCache :=
        if negb valid || negb (nowIdx =? idx) then Cache_Add lruCache now key nowIdx
        else if is_nil_matcher matcher then lruCache else snd (Cache_Get lruCache now key) in
      Ok (finish lruCache proxy)
  | None =>
      let! fbIdx := jumpHash key (int32 length) in
      let! proxy := index outbounds fbIdx in
      Ok (finish (Cache_Add lruCache now key fbIdx) proxy)
  end.

(** [strategyFn] of the group, with the time of the call. *)
Definition strategyFn (v : View) (h : HistoryStorage) (now : Z) (clock : nat -> Z) (g : LoadBalanceGroup)
    (metadata : option InboundContext) (touch : bool) (matcher : option (Groups.Outbound -> bool))
    : res (option Groups.Outbound * LoadBalanceGroup) :=
  match lb_strategy g with
  | RoundRobin idx => strategyRoundRobin v h g idx touch matcher
  | ConsistentHashing => strategyConsistentHashing v h g metadata touch matcher
  | StickySessions lruCache => strategyStickySessions v h g lruCache now clock metadata matcher
  end.

Definition Unwrap (v : View) (h : HistoryStorage) (now : Z) (clock : nat -> Z) (g : LoadBalanceGroup)
    (metadata : option InboundContext) (touch : bool) : res (option Groups.Outbound * LoadBalanceGroup) :=
  strategyFn v h now clock g metadata touch None.

Definition UnwrapPreMatch (v : View) (h : HistoryStorage) (now : Z) (clock : nat -> Z) (g : LoadBalanceGroup)
    (metadata : option InboundContext) (matcher : Groups.Outbound -> bool) : res (option Groups.Outbound * LoadBalanceGroup) :=
  strategyFn v h now clock g metadata true (Some matcher).

(** * Life cycle and connections *)

Definition LoadBalance_PostStart (now : Z) (g : LoadBalanceGroup) : LoadBalanceGroup :=
  g <| lb_started := true |> <| lb_lastActive := now |>.

Definition LoadBalance_Touch (now ticker : Z) (g : LoadBalanceGroup) : LoadBalanceGroup * bool :=
  if negb (lb_started g) then (g, false)
  else match lb_ticker g with
       | Some _ => (g <| lb_lastActive := now |>, false)
       | None => (g <| lb_ticker := Some ticker |>, true)
       end.

(** The ticker is stopped but kept. *)
Definition LoadBalance_Close (g : LoadBalanceGroup) : res LoadBalanceGroup :=
  match lb_ticker g with
  | None => Ok g
  | Some _ => if lb_closed g then Panic "close of closed channel" else Ok (g <| lb_closed := true |>)
  end.

(** [loopCheck] on a tick: whether the outbounds are checked and whether the loop
    ends. *)
Definition LoadBalance_tick (now : Z) (g : LoadBalanceGroup) : LoadBalanceGroup * bool * bool :=
  if lb_idleTimeout g <? now - lb_lastActive g
  then (g <| lb_ticker := None |>, false, true) else (g, true, false).

Definition LoadBalance_urlTestLocked (v : View) (test : Groups.Outbound -> option (Z * Z)) (now : Z) (force : bool)
    (h : HistoryStorage) (g : LoadBalanceGroup) : gmap string Z * HistoryStorage :=
  let '(h, result) := fold_left (record_test test) (tests v h now (lb_interval g) force ∅ (lb_outbounds g)) (h, ∅) in
  (result, h).

(** [DialContext] and, with UDP, [ListenPacket]; the third component says whether
    all outbounds are tested again. *)
Definition LoadBalance_DialContext (v : View) (h : HistoryStorage) (now ticker : Z) (clock : nat -> Z) (g : LoadBalanceGroup)
    (metadata : option InboundContext) (network : string) (dial : Groups.Outbound -> res Z) (isExternal isProvider : bool)
    : res Z * LoadBalanceGroup * bool :=
  let '(g, _) := LoadBalance_Touch now ticker g in
  match Unwrap v h now clock g metadata true with
  | Ok (outbound, g) =>
      match outbound with
      | None => (Err (ENew "missing supported outbound"), g, false)
      | Some outbound =>
          if negb (inb network (view_Network v outbound)) then (Err (ENew "missing supported outbound"), g, false)
          else match dial outbound with
               | Ok c => (Ok c, g <| lb_interruptGroup := NewConn (lb_interruptGroup g) c isExternal isProvider |>, false)
               | Err e => (Err e, g, true)
               | Panic p => (Panic p, g, false)
               | OutOfFuel => (OutOfFuel, g, false)
               end
      end
  | Err e => (Err e, g, false)
  | Panic p => (Panic p, g, false)
  | OutOfFuel => (OutOfFuel, g, false)
  end.

End Balance.
