(* ===== verification/LoadBalanceProofs.v ===== *)
(** What the load balance group guarantees: jump hashing is consistent, round
    robin is fair, and dead members are avoided. *)

From Stdlib Require SpecFloat.
From S2P Require Import Prelude NetAddr GoStrings RuleContext Groups LoadBalance.

(** * Jump hash *)

Lemma round_shift_ge n s : 0 <= n -> 0 <= s -> n / 2 ^ s <= round_shift n s.
Proof.
  intros Hn Hs. unfold round_shift. destruct (s <=? 0) eqn:H; bsimpl.
  - replace s with 0 by lia. cbn. rewrite Z.div_1_r. lia.
  - repeat case_match; lia.
Qed.

(** Rounding keeps 53 bits, and does not go below the integer part. *)
Lemma round53_spec n e :
  2 ^ 52 <= n ->
  exists m s, round53 n e = (m, e + s) /\ 0 <= s /\ s = Z.log2 n - 52 /\ n / 2 ^ s <= m /\ 2 ^ 52 <= m.
Proof.
  intros Hn. assert (Hl : 52 <= Z.log2 n) by (apply Z.log2_le_pow2; lia).
  exists (round_shift n (Z.log2 n - 52)), (Z.log2 n - 52). unfold round53. split_and!; try done; try lia.
  - apply round_shift_ge; lia.
  - etransitivity; [|apply round_shift_ge; lia]. apply Z.div_le_lower_bound; [apply Z.pow_pos_nonneg; lia|].
    rewrite <- Z.pow_add_r by lia. replace (Z.log2 n - 52 + 52) with (Z.log2 n) by lia. apply Z.log2_spec. lia.
Qed.

(** The quotient of [2^31] and a divisor up to it is at least one and has its
    lowest bit at [2^-52] or above. *)
Lemma float_div_spec d : 1 <= d <= 2 ^ 31 -> exists m e, float_div (2 ^ 31) d = (m, e) /\ 2 ^ 52 <= m /\ - 52 <= e.
Proof.
  intros Hd. unfold float_div. set (k := 64 + Z.log2 d). set (sticky := if _ =? 0 then 0 else 1).
  assert (Hk : 64 <= k) by (unfold k; pose proof (Z.log2_nonneg d); lia).
  assert (Hq : 2 ^ k <= 2 ^ 31 * 2 ^ k / d).
  { apply Z.div_le_lower_bound; [lia|]. apply Z.mul_le_mono_nonneg_r; [apply Z.pow_nonneg; lia|lia]. }
  assert (Hst : 0 <= sticky) by (unfold sticky; destruct (_ =? 0); lia).
  set (n := 2 * (2 ^ 31 * 2 ^ k / d) + sticky).
  assert (Hn : 2 ^ (k + 1) <= n) by (unfold n; rewrite Z.pow_add_r by lia; lia).
  assert (Hlog : k + 1 <= Z.log2 n).
  { apply Z.log2_le_pow2; [|done]. eapply Z.lt_le_trans; [|exact Hn]. apply Z.pow_pos_nonneg; lia. }
  destruct (round53_spec n (- k - 1)) as (m & s & -> & Hs & Hseq & _ & Hm).
  { etransitivity; [|exact Hn]. apply Z.pow_le_mono_r; lia. }
  exists m, (- k - 1 + s). split_and!; [done|done|lia].
Qed.

Lemma float_mul_trunc_ge a m e :
  1 <= a <= 2 ^ 52 -> 2 ^ 52 <= m -> - 52 <= e -> a <= float_trunc (float_mul a (m, e)).
Proof.
  intros Ha Hm He. unfold float_mul. cbn [fst snd].
  destruct (round53_spec (a * m) e) as (m' & s & -> & Hs & _ & Hge & Hm'); [nia|]. unfold float_trunc. cbn [fst snd].
  destruct (0 <=? e + s) eqn:Hes; bsimpl.
  - assert (0 < 2 ^ (e + s)) by (apply Z.pow_pos_nonneg; lia). nia.
  - apply Z.div_le_lower_bound; [apply Z.pow_pos_nonneg; lia|]. etransitivity; [|exact Hge].
    apply Z.div_le_lower_bound; [apply Z.pow_pos_nonneg; lia|]. rewrite Z.mul_assoc, <- Z.pow_add_r by lia.
    replace (s + - (e + s)) with (- e) by lia.
    assert (2 ^ (- e) <= 2 ^ 52) by (apply Z.pow_le_mono_r; lia). nia.
Qed.

(** The next bucket is a later one. *)
Lemma jump_next_gt key b : is_u 64 key -> 0 <= b < 2 ^ 31 -> b < jump_next key b.
Proof.
  intros Hk Hb. unfold jump_next.
  assert (Hd : 1 <= Z.shiftr key 33 + 1 <= 2 ^ 31).
  { rewrite Z.shiftr_div_pow2 by lia. unfold is_u in Hk.
    assert (0 <= key / 2 ^ 33 < 2 ^ 31); [|lia]. split; [apply Z.div_pos; lia|]. apply Z.div_lt_upper_bound; lia. }
  destruct (float_div_spec _ Hd) as (m & e & -> & Hm & He).
  assert (b + 1 <= float_trunc (float_mul (b + 1) (m, e))); [|lia]. apply float_mul_trunc_ge; lia.
Qed.

Lemma jump_key_u key : is_u 64 (jump_key key).
Proof. by apply wrap_range. Qed.

(** With enough fuel the loop ends, and one more bucket changes the result only
    to that bucket. *)
Lemma jump_loop_spec n fuel : forall fuel' key b j,
  0 <= j -> n < 2 ^ 31 - 1 -> n - j < Z.of_nat fuel -> n + 1 - j < Z.of_nat fuel' -> (0 < fuel')%nat -> (0 < fuel)%nat ->
  exists r, jump_loop fuel key b j n = Ok r /\ (r = b \/ j <= r < n)
    /\ (jump_loop fuel' key b j (n + 1) = Ok r \/ jump_loop fuel' key b j (n + 1) = Ok n).
Proof.
  induction fuel as [|fuel IH]; intros fuel' key b j Hj Hn Hf Hf' Hp' Hp; [lia|]. destruct fuel' as [|fuel']; [lia|].
  cbn [jump_loop]. assert (Hkey := jump_key_u key). destruct (j <? n) eqn:Hlt; bsimpl.
  - rewrite (proj2 (Z.ltb_lt j (n + 1))) by lia. cbn zeta.
    pose proof (jump_next_gt (jump_key key) j Hkey ltac:(lia)) as Hnext.
    destruct (IH fuel' (jump_key key) j (jump_next (jump_key key) j)) as (r & -> & Hr & Hr'); try lia.
    exists r. split_and!; [done|lia|done].
  - exists b. split_and!; [done|by left|]. destruct (j <? n + 1) eqn:Hlt'; bsimpl; [|by left]. right.
    assert (j = n) as -> by lia. cbn zeta. pose proof (jump_next_gt (jump_key key) n Hkey ltac:(lia)) as Hnext.
    destruct fuel' as [|fuel']; [lia|]. cbn [jump_loop]. rewrite (proj2 (Z.ltb_ge _ _)) by lia. done.
Qed.

(** C40: jump hashing is consistent.  For a positive number of buckets [jumpHash]
    ends with a bucket below it, for the double-precision arithmetic it uses; with
    one more bucket a key either keeps its bucket or moves to the new one. *)
Theorem jumpHash_consistent key n :
  0 < n < 2 ^ 31 - 1 ->
  exists b, jumpHash key n = Ok b /\ 0 <= b < n /\ (jumpHash key (n + 1) = Ok b \/ jumpHash key (n + 1) = Ok n).
Proof.
  intros Hn. unfold jumpHash.
  destruct (jump_loop_spec n (S (Z.to_nat n)) (S (Z.to_nat (n + 1))) key 0 0) as (r & Hr & Hcase & Hr'); try lia.
  exists r. split_and!; [done|lia|lia|done].
Qed.

Lemma jumpHash_range key n : 0 < n < 2 ^ 31 - 1 -> exists b, jumpHash key n = Ok b /\ 0 <= b < n.
Proof.
  intros Hn. unfold jumpHash.
  destruct (jump_loop_spec n (S (Z.to_nat n)) (S (Z.to_nat (n + 1))) key 0 0) as (r & Hr & Hcase & _); try lia.
  exists r. split; [done|lia].
Qed.

(** The arithmetic above is that of the binary64 format. *)
Definition sf (n : Z) : SpecFloat.spec_float := SpecFloat.binary_normalize 53 1024 n 0 false.
Definition sf_next (key b : Z) : Z :=
  match SpecFloat.SFmul 53 1024 (sf (b + 1)) (SpecFloat.SFdiv 53 1024 (sf (2 ^ 31)) (sf (Z.shiftr key 33 + 1))) with
  | SpecFloat.S754_finite false m e => float_trunc (Zpos m, e)
  | _ => -1
  end.

Example jump_next_binary64 :
  forallb (fun p => jump_next (fst p) (snd p) =? sf_next (fst p) (snd p))
    [(0, 0); (1, 5); (2 ^ 63 + 12345678901234567, 41); (2 ^ 64 - 1, 2 ^ 31 - 2); (0xcafebabedeadbeef, 1000003);
     (2 ^ 33 * 3, 2); (2 ^ 33 * 6, 6); (2 ^ 33 * (2 ^ 31 - 1), 2 ^ 30 - 1); (2 ^ 33 * 48, 2 ^ 31 - 3); (17 * 2 ^ 50 + 99, 77)] = true.
Proof. vm_compute. reflexivity. Qed.

(** Published values of the algorithm. *)
Example jumpHash_vectors :
  [jumpHash 1 1; jumpHash 42 57; jumpHash 0xDEAD10CC 1; jumpHash 0xDEAD10CC 666; jumpHash 256 1024]
  = [Ok 0; Ok 43; Ok 0; Ok 361; Ok 520].
Proof. vm_compute. reflexivity. Qed.

(** * Round robin *)

(** The members in the order the strategy tries them. *)
Definition tries (idx : Z) (l : list Groups.Outbound) : list Groups.Outbound :=
  rotate (Z.to_nat (idx mod zlen l)) l.

Lemma index_lookup {A} (l : list A) i x : 0 <= i -> index l i = Ok x <-> l !! Z.to_nat i = Some x.
Proof.
  intros Hi. unfold index. rewrite (proj2 (Z.leb_le 0 i)) by lia. destruct (l !! Z.to_nat i); split; intros H; congruence.
Qed.

Lemma tries_lookup idx l k :
  0 <= k < zlen l -> tries idx l !! Z.to_nat k = l !! Z.to_nat ((idx + k) mod zlen l).
Proof.
  intros Hk. unfold tries, zlen in *. pose proof (Z.mod_pos_bound idx (Z.of_nat (length l)) ltac:(lia)) as Hb.
  rewrite lookup_rotate_r by lia. f_equal. unfold rotate_nat_add. rewrite !Z2Nat.id by lia. f_equal.
  by rewrite Z.add_mod_idemp_l by lia.
Qed.

Lemma tries_length idx l : length (tries idx l) = length l.
Proof. apply length_rotate. Qed.

Lemma tries_perm idx l : tries idx l ≡ₚ l.
Proof. unfold tries, rotate. rewrite Permutation_app_comm. by rewrite take_drop. Qed.

(** Continuing after [k] of them. *)
Lemma tries_add idx l k :
  0 <= k <= zlen l -> tries (idx + k) l = drop (Z.to_nat k) (tries idx l) ++ take (Z.to_nat k) (tries idx l).
Proof.
  intros Hk. apply list_eq_same_length with (length l); [by rewrite length_app, length_drop, length_take, tries_length; unfold zlen in Hk; lia|apply tries_length|].
  intros i x y Hi Hx Hy. assert (Hzi : 0 <= Z.of_nat i < zlen l) by (unfold zlen; lia).
  rewrite <- (Nat2Z.id i), tries_lookup in Hx by done.
  destruct (decide (i < length l - Z.to_nat k)%nat) as [Hlt|Hge].
  - rewrite lookup_app_l, lookup_drop in Hy by (rewrite length_drop, tries_length; lia).
    replace (Z.to_nat k + i)%nat with (Z.to_nat (k + Z.of_nat i)) in Hy by lia.
    rewrite tries_lookup in Hy by (unfold zlen in *; lia). rewrite Z.add_assoc in Hy. congruence.
  - rewrite lookup_app_r in Hy by (rewrite length_drop, tries_length; lia).
    rewrite length_drop, tries_length, lookup_take_lt in Hy by (unfold zlen in *; lia).
    replace (i - (length l - Z.to_nat k))%nat with (Z.to_nat (Z.of_nat i + k - zlen l)) in Hy by (unfold zlen in *; lia).
    rewrite tries_lookup in Hy by (unfold zlen in *; lia).
    replace (idx + (Z.of_nat i + k - zlen l)) with (idx + k + Z.of_nat i + (-1) * zlen l) in Hy by lia.
    rewrite Z.mod_add in Hy by (unfold zlen in *; lia). congruence.
Qed.


Section Strategies.
Context {Env : BalanceEnv} (v : View) (h : HistoryStorage).

Definition alive (o : Groups.Outbound) : bool := AliveForTestUrl v h o.
Definition dead (o : Groups.Outbound) : Prop := AliveForTestUrl v h o = false.

(** The loop returns the first one alive in the order of tries. *)
Lemma rr_find_spec l idx n : forall i,
  0 <= i -> i + Z.of_nat n = zlen l ->
  match rr_find v h l idx i n with
  | Ok None => Forall dead (drop (Z.to_nat i) (tries idx l))
  | Ok (Some (i', p)) =>
      exists pre suf, drop (Z.to_nat i) (tries idx l) = pre ++ p :: suf /\ Forall dead pre /\ alive p = true /\ i' = i + zlen pre + 1
  | _ => False
  end.
Proof.
  induction n as [|n IH]; intros i Hi Hn; cbn [rr_find].
  { rewrite drop_ge by (rewrite tries_length; unfold zlen in *; lia). constructor. }
  assert (Hlook := tries_lookup idx l i ltac:(lia)).
  assert (Hlt : (Z.to_nat i < length (tries idx l))%nat) by (rewrite tries_length; unfold zlen in *; lia).
  apply lookup_lt_is_Some in Hlt as [p Hp]. rewrite Hp in Hlook. symmetry in Hlook.
  apply index_lookup in Hlook; [|apply Z.mod_pos_bound; lia]. rewrite Hlook. cbn [res_bind].
  rewrite (drop_S _ _ _ Hp). replace (S (Z.to_nat i)) with (Z.to_nat (i + 1)) by lia.
  destruct (AliveForTestUrl v h p) eqn:Ha.
  - exists [], (drop (Z.to_nat (i + 1)) (tries idx l)). split_and!; try done. unfold zlen. cbn. lia.
  - specialize (IH (i + 1) ltac:(lia) ltac:(lia)). destruct (rr_find v h l idx (i + 1) n) as [[[i' q]|]|e| |]; try done.
    + destruct IH as (pre & suf & Heq & Hd & Hq & ->). exists (p :: pre), suf. rewrite Heq. split_and!; [done|by constructor|done|].
      unfold zlen. cbn. lia.
    + by constructor.
Qed.

Lemma filter_alive_dead pre : Forall dead pre -> List.filter alive pre = [].
Proof. induction 1 as [|x l Hx _ IH]; [done|]. cbn. unfold alive at 1. rewrite Hx. done. Qed.

(** One call: the first of the members alive moves to the end. *)
Lemma round_robin_step g idx now clock metadata :
  lb_strategy g = RoundRobin idx ->
  match List.filter alive (tries idx (lb_outbounds g)) with
  | [] => True
  | p :: rest =>
      exists idx', Unwrap v h now clock g metadata true = Ok (Some p, g <| lb_strategy := RoundRobin idx' |>)
        /\ List.filter alive (tries idx' (lb_outbounds g)) = rest ++ [p]
  end.
Proof.
  intros Hs. set (l := lb_outbounds g). pose proof (rr_find_spec l idx (length l) 0 ltac:(lia) eq_refl) as Hf.
  unfold Unwrap, strategyFn. rewrite Hs. unfold strategyRoundRobin. fold l.
  destruct (rr_find v h l idx 0 (length l)) as [[[i p]|]|e| |]; try done; cbn [res_bind]; rewrite drop_0 in Hf.
  - destruct Hf as (pre & suf & Heq & Hd & Hp & ->). rewrite Heq, List.filter_app, (filter_alive_dead pre Hd). cbn [List.filter app].
    unfold alive at 1. unfold alive in Hp. rewrite Hp. cbn [accepts negb]. eexists. split; [reflexivity|].
    assert (Hk : 0 <= 0 + zlen pre + 1 <= zlen l).
    { pose proof (f_equal (@length _) Heq) as Hlen. rewrite tries_length, length_app in Hlen. cbn in Hlen. unfold zlen. lia. }
    assert (Hmod : tries ((idx + (0 + zlen pre + 1)) mod zlen l) l = tries (idx + (0 + zlen pre + 1)) l).
    { unfold tries. by rewrite Z.mod_mod by (unfold zlen in *; lia). }
    rewrite Hmod, tries_add, Heq by done. replace (Z.to_nat (0 + zlen pre + 1)) with (length (pre ++ [p])) by (rewrite length_app; unfold zlen; cbn; lia).
    replace (pre ++ p :: suf) with ((pre ++ [p]) ++ suf) by (by rewrite <- app_assoc).
    rewrite drop_app_length, take_app_length, !List.filter_app, (filter_alive_dead pre Hd). cbn. unfold alive. by rewrite Hp.
  - by rewrite (filter_alive_dead _ Hf).
Qed.

(** [k] calls in a row. *)
Fixpoint unwraps (k : nat) (g : LoadBalanceGroup) : res (list Groups.Outbound) :=
  match k with
  | O => Ok []
  | S k =>
      let! ' (o, g) := Unwrap v h 0 (fun _ => 0) g None true in
      let! rest := unwraps k g in
      Ok (match o with Some o => o :: rest | None => rest end)
  end.

Lemma unwraps_rotation k : forall g idx p q,
  lb_strategy g = RoundRobin idx -> List.filter alive (tries idx (lb_outbounds g)) = p ++ q -> length p = k -> unwraps k g = Ok p.
Proof.
  induction k as [|k IH]; intros g idx p q Hs Hf Hk; [by destruct p|]. destruct p as [|x p]; [done|]. cbn [unwraps].
  pose proof (round_robin_step g idx 0 (fun _ => 0) None Hs) as Hstep. rewrite Hf in Hstep. cbn [app] in Hstep.
  destruct Hstep as (idx' & -> & Hf'). cbn [res_bind].
  rewrite (IH _ idx' p (q ++ [x])); [done|done| |by injection Hk].
  transitivity (List.filter alive (tries idx' (lb_outbounds g))); [done|]. by rewrite Hf', <- app_assoc.
Qed.

(** Round robin is fair.  From any position, as many calls in a row as there are
    members alive return each of them exactly once, while the members and their
    state do not change. *)
Theorem round_robin_fair g idx :
  lb_strategy g = RoundRobin idx ->
  exists l, unwraps (length (List.filter alive (lb_outbounds g))) g = Ok l /\ l ≡ₚ List.filter alive (lb_outbounds g).
Proof.
  intros Hs. set (l := List.filter alive (tries idx (lb_outbounds g))).
  assert (Hperm : l ≡ₚ List.filter alive (lb_outbounds g)).
  { apply filter_perm, tries_perm. }
  exists l. split; [|done]. rewrite <- Hperm. apply (unwraps_rotation _ g idx l []); [done|by rewrite app_nil_r|done].
Qed.

(** ** Dead members *)

Lemma index_in {A} (l : list A) i : 0 <= i < zlen l -> exists x, index l i = Ok x /\ x ∈ l.
Proof.
  intros Hi. assert (Hlt : (Z.to_nat i < length l)%nat) by (unfold zlen in Hi; lia).
  apply lookup_lt_is_Some in Hlt as [x Hx]. exists x. split; [apply index_lookup; [lia|done]|by eapply list_elem_of_lookup_2].
Qed.

Lemma int32_zlen {A} (l : list A) : zlen l < 2 ^ 31 - 1 -> int32 (zlen l) = zlen l.
Proof. intros H. apply int32_small. unfold zlen in *. lia. Qed.

Lemma ch_find_spec l n : forall key,
  0 < zlen l < 2 ^ 31 - 1 ->
  exists r, ch_find v h l key n = Ok r
    /\ match r with Some p => p ∈ l /\ alive p = true | None => forall x, x ∈ l -> alive x = false end.
Proof.
  induction n as [|n IH]; intros key Hl; cbn [ch_find].
  - eexists. split; [reflexivity|]. destruct (List.find _ l) as [p|] eqn:Hf.
    + apply List.find_some in Hf as [Hin Hp]. split; [by apply list_elem_of_In|done].
    + intros x Hx. apply list_elem_of_In in Hx. unfold alive. by eapply List.find_none in Hf.
  - rewrite int32_zlen by lia. destruct (jumpHash_range key (zlen l) ltac:(lia)) as (b & -> & Hb). cbn [res_bind].
    destruct (index_in l b Hb) as (p & -> & Hp). cbn [res_bind].
    destruct (AliveForTestUrl v h p) eqn:Ha; [|by apply IH]. eexists. split; [reflexivity|done].
Qed.

Lemma nextFallback_spec g l touch :
  0 < zlen l -> exists o g', nextFallback g l touch None = Ok (Some o, g') /\ o ∈ l.
Proof.
  intros Hl. unfold nextFallback. rewrite (proj2 (Z.eqb_neq _ _)) by lia. cbn zeta.
  destruct (index_in l (u32 (lb_fallbackIdx g + 1) mod zlen l)) as (o & -> & Ho); [apply Z.mod_pos_bound; lia|].
  cbn [res_bind accepts negb is_nil_matcher orb]. eauto.
Qed.

(** Round robin and consistent hashing avoid dead members.  With members, a
    call always returns one of them, without panic; and one whose last test
    succeeded whenever there is such a member. *)
Theorem balance_avoids_dead g now clock metadata :
  (exists idx, lb_strategy g = RoundRobin idx) \/ lb_strategy g = ConsistentHashing ->
  0 < zlen (lb_outbounds g) < 2 ^ 31 - 1 ->
  exists o g', Unwrap v h now clock g metadata true = Ok (Some o, g') /\ o ∈ lb_outbounds g
    /\ ((exists x, x ∈ lb_outbounds g /\ alive x = true) -> alive o = true).
Proof.
  intros Hs Hl. assert (Hfall : forall r, r = nextFallback g (lb_outbounds g) true None ->
    (forall x, x ∈ lb_outbounds g -> alive x = false) ->
    exists o g', r = Ok (Some o, g') /\ o ∈ lb_outbounds g /\ ((exists x, x ∈ lb_outbounds g /\ alive x = true) -> alive o = true)).
  { intros r -> Hd. destruct (nextFallback_spec g (lb_outbounds g) true ltac:(lia)) as (o & g' & -> & Ho).
    exists o, g'. split_and!; try done. intros (x & Hx & Ha). by rewrite (Hd x Hx) in Ha. }
  unfold Unwrap, strategyFn. destruct Hs as [[idx ->] | ->].
  - unfold strategyRoundRobin. pose proof (rr_find_spec (lb_outbounds g) idx (length (lb_outbounds g)) 0 ltac:(lia) eq_refl) as Hf.
    destruct (rr_find _ _ _ _ _ _) as [[[i p]|]|e| |]; try done; cbn [res_bind]; rewrite drop_0 in Hf.
    + destruct Hf as (pre & suf & Heq & _ & Hp & _). eexists _, _. split; [reflexivity|]. split; [|done].
      rewrite <- (tries_perm idx (lb_outbounds g)), Heq. apply elem_of_app. right. left.
    + apply Hfall; [done|]. intros x Hx. rewrite Forall_forall in Hf. apply Hf. by rewrite tries_perm.
  - unfold strategyConsistentHashing. destruct (ch_find_spec (lb_outbounds g) 5 (Hash (getKey metadata)) Hl) as (r & -> & Hr).
    cbn [res_bind]. destruct r as [p|]; [|by apply Hfall]. eexists _, _. split; [reflexivity|]. by destruct Hr.
Qed.

(** ** Sticky sessions *)

(** What the cache documents: an entry is found until its lifetime is over. *)
Definition cache_keeps (ttl : Z) : Prop :=
  forall c t k i t', t <= t' -> t' - t < ttl -> fst (Cache_Get (Cache_Add c t k i) t' k) = Some i.

Lemma ss_find_spec l clock key n : forall i,
  0 < zlen l < 2 ^ 31 - 1 -> 0 <= i < zlen l ->
  exists r, ss_find v h l clock key i n = Ok r
    /\ match r with Some (j, p) => 0 <= j < zlen l /\ index l j = Ok p /\ alive p = true | None => True end.
Proof.
  induction n as [|n IH]; intros i Hl Hi; cbn [ss_find]; [eexists; split; [reflexivity|done]|].
  destruct (index_in l i Hi) as (p & Hp & _). rewrite Hp. cbn [res_bind].
  destruct (AliveForTestUrl v h p) eqn:Ha; [eexists; split; [reflexivity|done]|].
  unfold selectIndex. rewrite int32_zlen by lia.
  destruct (jumpHash_range (u64 (key + u64 (clock n))) (zlen l) ltac:(lia)) as (b & -> & Hb). cbn [res_bind]. by apply IH.
Qed.

(** A call on a cache that has no entry: an entry for what is returned is added. *)
Lemma sticky_miss g c now clock metadata :
  lb_strategy g = StickySessions c -> 0 < zlen (lb_outbounds g) < 2 ^ 31 - 1 ->
  fst (Cache_Get c now (Hash (getKeyWithSrcAndDst metadata))) = None ->
  exists i o c', 0 <= i < zlen (lb_outbounds g) /\ index (lb_outbounds g) i = Ok o
    /\ Unwrap v h now clock g metadata true
       = Ok (Some o, g <| lb_strategy := StickySessions (Cache_Add c' now (Hash (getKeyWithSrcAndDst metadata)) i) |>).
Proof.
  intros Hs Hl Hmiss. unfold Unwrap, strategyFn. rewrite Hs. unfold strategyStickySessions. cbn [is_nil_matcher].
  set (key := Hash _) in *. destruct (Cache_Get c now key) as [cached c1]. cbn [fst] in Hmiss. subst cached.
  unfold selectIndex. rewrite int32_zlen by lia.
  destruct (jumpHash_range (u64 (key + u64 (clock 4%nat))) (zlen (lb_outbounds g)) ltac:(lia)) as (b & -> & Hb). cbn [res_bind].
  destruct (ss_find_spec (lb_outbounds g) clock key 4 b Hl Hb) as (r & -> & Hr). cbn [res_bind].
  destruct r as [[j p]|]; [destruct Hr as (Hj & Hp & _); by exists j, p, c1|].
  destruct (jumpHash_range key (zlen (lb_outbounds g)) ltac:(lia)) as (b' & -> & Hb'). cbn [res_bind].
  destruct (index_in (lb_outbounds g) b' Hb') as (p & Hp & _). rewrite Hp. cbn [res_bind]. by exists b', p, c1.
Qed.

(** A call on a cache with an entry for a member alive returns that member. *)
Lemma sticky_hit g c now clock metadata i o :
  lb_strategy g = StickySessions c -> fst (Cache_Get c now (Hash (getKeyWithSrcAndDst metadata))) = Some i ->
  0 <= i < zlen (lb_outbounds g) -> index (lb_outbounds g) i = Ok o -> alive o = true ->
  exists g', Unwrap v h now clock g metadata true = Ok (Some o, g').
Proof.
  intros Hs Hhit Hi Ho Ha. unfold Unwrap, strategyFn. rewrite Hs. unfold strategyStickySessions. cbn [is_nil_matcher].
  set (key := Hash _) in *. destruct (Cache_Get c now key) as [cached c1]. cbn [fst] in Hhit. subst cached.
  rewrite (proj2 (Z.ltb_lt _ _)) by lia. cbn [res_bind ss_find]. rewrite Ho. cbn [res_bind]. unfold alive in Ha. rewrite Ha.
  cbn [res_bind]. eauto.
Qed.

(** A session sticks to its outbound.  The first call for a source and
    destination returns some member; while the lifetime of the entry lasts and
    that member is alive, a later call for the same source and destination
    returns the same member, whatever the clock reads. *)
Theorem sticky_session_kept g c now clock now' clock' metadata :
  cache_keeps (lb_ttl g) -> lb_strategy g = StickySessions c -> 0 < zlen (lb_outbounds g) < 2 ^ 31 - 1 ->
  fst (Cache_Get c now (Hash (getKeyWithSrcAndDst metadata))) = None -> now <= now' -> now' - now < lb_ttl g ->
  exists o g', Unwrap v h now clock g metadata true = Ok (Some o, g') /\ o ∈ lb_outbounds g
    /\ (alive o = true -> exists g'', Unwrap v h now' clock' g' metadata true = Ok (Some o, g'')).
Proof.
  intros Hlaw Hs Hl Hmiss Hle Httl. destruct (sticky_miss g c now clock metadata Hs Hl Hmiss) as (i & o & c' & Hi & Ho & Hrun).
  eexists o, _. split; [exact Hrun|]. split; [apply index_lookup in Ho; [by eapply list_elem_of_lookup_2|lia]|].
  intros Ha. eapply sticky_hit; [reflexivity| |exact Hi|exact Ho|exact Ha]. by apply Hlaw.
Qed.

End Strategies.

(** * Evaluations *)

(** A hash that is the length of the key, and a cache that never evicts. *)
#[local] Instance example_balance : BalanceEnv := {|
  lb_metadata := metadata_pkg;
  net_ParseIP _ := false;
  EffectiveTLDPlusOne s := Some s;
  Addr_String a := Itoa (addr a);
  Hash s := Z.of_nat (String.length s);
  Cache := gmap Z Z;
  Cache_New _ := ∅;
  Cache_Get c _ k := (c !! k, c);
  Cache_Peek c _ k := c !! k;
  Cache_Add c _ k i := <[k := i]> c;
|}.

Definition example_members : list Groups.Outbound := [mkOutbound 1 "a"; mkOutbound 2 "b"; mkOutbound 3 "c"; mkOutbound 4 "d"].
Definition balance_view : View :=
  mkView (fun _ => None) (fun _ => [NetworkTCP]) (fun _ => None) [] (fun _ => None) (fun _ => []).
(** [b] is dead. *)
Definition balance_history : HistoryStorage :=
  mkHistoryStorage (list_to_map [("a", mkURLTestHistory 0 1); ("c", mkURLTestHistory 0 1); ("d", mkURLTestHistory 0 1)]) [].
Definition balance_group (strategy : strategy) : LoadBalanceGroup :=
  mkLoadBalanceGroup example_members 1 1 60 0 [] None false true 0 strategy.

Lemma jumpHash_consistent_witness :
  jumpHash 0xcafebabe 7 = Ok 5 /\ exists b, jumpHash 0xcafebabe 7 = Ok b /\ 0 <= b < 7.
Proof.
  split; [vm_compute; reflexivity|]. destruct (jumpHash_consistent 0xcafebabe 7) as (b & Hb & Hr & _); [lia|].
  exists b. split; [exact Hb|exact Hr].
Defined.

Lemma round_robin_fair_witness :
  unwraps balance_view balance_history 3 (balance_group (RoundRobin 1)) = Ok [mkOutbound 3 "c"; mkOutbound 4 "d"; mkOutbound 1 "a"]
  /\ exists l, unwraps balance_view balance_history 3 (balance_group (RoundRobin 1)) = Ok l
       /\ l ≡ₚ [mkOutbound 1 "a"; mkOutbound 3 "c"; mkOutbound 4 "d"].
Proof.
  split; [vm_compute; reflexivity|].
  exact (round_robin_fair balance_view balance_history (balance_group (RoundRobin 1)) 1 eq_refl).
Defined.

Lemma balance_avoids_dead_witness :
  exists o g', Unwrap balance_view balance_history 0 (fun _ => 0) (balance_group ConsistentHashing) None true = Ok (Some o, g')
    /\ alive balance_view balance_history o = true.
Proof.
  destruct (balance_avoids_dead balance_view balance_history (balance_group ConsistentHashing) 0 (fun _ => 0) None
    (or_intror eq_refl)) as (o & g' & Hrun & _ & Ha); [vm_compute; split; reflexivity|].
  exists o, g'. split; [exact Hrun|]. apply Ha. exists (mkOutbound 1 "a"). split; [left|vm_compute; reflexivity].
Defined.

Lemma sticky_session_kept_witness :
  exists o g', Unwrap balance_view balance_history 0 (fun _ => 5) (balance_group (StickySessions ∅)) None true = Ok (Some o, g')
    /\ o ∈ example_members.
Proof.
  destruct (sticky_session_kept balance_view balance_history (balance_group (StickySessions ∅)) ∅ 0 (fun _ => 5) 30 (fun _ => 9) None)
    as (o & g' & Hrun & Ho & _); [|reflexivity|vm_compute; split; reflexivity|reflexivity|lia|vm_compute; reflexivity|].
  - intros c t k i t' _ _. apply lookup_insert_eq.
  - exists o, g'. split; [exact Hrun|exact Ho].
Defined.
