(* ===== verification/RuleAction.v ===== *)
(** The actions of route rules: src/route/rule/rule_action.go.  Each action type is
    a constructor of [RuleAction]; a reject action counts its recent rejections,
    which is state the caller passes. *)

From S2P Require Import Prelude NetAddr GoStrings RuleContext.

(** * Constants of src/constant/rule.go and protocol.go *)

Definition RuleActionTypeRoute : string := "route".
Definition RuleActionTypeRouteOptions : string := "route-options".
Definition RuleActionTypeDirect : string := "direct".
Definition RuleActionTypeBypass : string := "bypass".
Definition RuleActionTypeReject : string := "reject".
Definition RuleActionTypeHijackDNS : string := "hijack-dns".
Definition RuleActionTypeSniff : string := "sniff".
Definition RuleActionTypeSniffOverrideDestination : string := "sniff-override-destination".
Definition RuleActionTypeResolve : string := "resolve".

Definition RuleActionRejectMethodDefault : string := "default".
Definition RuleActionRejectMethodDrop : string := "drop".
Definition RuleActionRejectMethodReply : string := "reply".

Definition ProtocolTLS : string := "tls".
Definition ProtocolHTTP : string := "http".
Definition ProtocolQUIC : string := "quic".
Definition ProtocolDNS : string := "dns".
Definition ProtocolSTUN : string := "stun".
Definition ProtocolBitTorrent : string := "bittorrent".
Definition ProtocolDTLS : string := "dtls".
Definition ProtocolSSH : string := "ssh".
Definition ProtocolRDP : string := "rdp".
Definition ProtocolNTP : string := "ntp".

(** * Actions *)

(** Durations are in nanoseconds; strategies and interface types are numbers. *)
Record RuleActionRouteOptions := mkRouteOptions {
  OverrideAddress : Socksaddr;
  OverridePort : Z;
  NetworkStrategy : option Z;
  NetworkType : list Z;
  FallbackNetworkType : list Z;
  FallbackDelay : Z;
  UDPDisableDomainUnmapping : bool;
  UDPConnect : bool;
  UDPTimeout : Z;
  TLSFragment : bool;
  TLSFragmentFallbackDelay : Z;
  TLSRecordFragment : bool;
  TLSSpoof : string;
  TLSSpoofMethod : Z;
}.

(** The sniffers of src/common/sniff, by name. *)
Inductive StreamSniffer := TLSClientHello | HTTPHost | StreamDomainNameQuery | BitTorrent | SSH | RDP.
Inductive PacketSniffer :=
| DomainNameQuery | QUICClientHello | QUICShortHeader | STUNMessage | UTP | UDPTracker | DTLSRecord | NTP.

Record RuleActionSniff := mkRuleActionSniff {
  Sniff_SnifferNames : list string;
  StreamSniffers : list StreamSniffer;
  PacketSniffers : list PacketSniffer;
  Sniff_Timeout : Z;
}.

(** What one name adds. *)
Definition sniffers_of (name : string) : option (list StreamSniffer * list PacketSniffer) :=
  if bool_decide (name = ProtocolTLS) then Some ([TLSClientHello], [])
  else if bool_decide (name = ProtocolHTTP) then Some ([HTTPHost], [])
  else if bool_decide (name = ProtocolQUIC) then Some ([], [QUICClientHello; QUICShortHeader])
  else if bool_decide (name = ProtocolDNS) then Some ([StreamDomainNameQuery], [DomainNameQuery])
  else if bool_decide (name = ProtocolSTUN) then Some ([], [STUNMessage])
  else if bool_decide (name = ProtocolBitTorrent) then Some ([BitTorrent], [UTP; UDPTracker])
  else if bool_decide (name = ProtocolDTLS) then Some ([], [DTLSRecord])
  else if bool_decide (name = ProtocolSSH) then Some ([SSH], [])
  else if bool_decide (name = ProtocolRDP) then Some ([RDP], [])
  else if bool_decide (name = ProtocolNTP) then Some ([], [NTP])
  else None.

(** [RuleActionSniff.build] *)
Fixpoint build_sniffers (names : list string) : res (list StreamSniffer * list PacketSniffer) :=
  match names with
  | [] => Ok ([], [])
  | name :: names' =>
      match sniffers_of name with
      | None => Err (ENew ("unknown sniffer: " +:+ name))
      | Some (ss, ps) => let! ' (ss', ps') := build_sniffers names' in Ok (ss ++ ss', ps ++ ps')
      end
  end.

Definition RuleActionSniff_build (names : list string) (timeout : Z) : res RuleActionSniff :=
  let! ' (ss, ps) := build_sniffers names in Ok (mkRuleActionSniff names ss ps timeout).

Record RuleActionResolve := mkRuleActionResolve {
  Resolve_Server : string;
  Resolve_Timeout : Z;
  Resolve_Strategy : Z;
  Resolve_DisableCache : bool;
  Resolve_DisableOptimisticCache : bool;
  Resolve_RewriteTTL : option Z;
  Resolve_ClientSubnet : Prefix;
  Resolve_MatchOnly : bool;
}.

(** [reject_id] names the action's own counter. *)
Record RuleActionReject := mkRuleActionReject { Reject_Rcode : Z; Method : string; NoDrop : bool; reject_id : Z }.

Inductive RuleAction :=
| RuleActionRoute (Outbound : string) (options : RuleActionRouteOptions)
| RuleActionBypass (Outbound : string) (options : RuleActionRouteOptions)
| RuleActionRouteOptions_ (options : RuleActionRouteOptions)
| RuleActionDirect
| RuleActionReject_ (reject : RuleActionReject)
| RuleActionHijackDNS
| RuleActionSniff_ (sniff : RuleActionSniff)
| RuleActionSniffOverrideDestination
| RuleActionResolve_ (resolve : RuleActionResolve).

Definition RuleAction_Type (a : RuleAction) : string :=
  match a with
  | RuleActionRoute _ _ => RuleActionTypeRoute
  | RuleActionBypass _ _ => RuleActionTypeBypass
  | RuleActionRouteOptions_ _ => RuleActionTypeRouteOptions
  | RuleActionDirect => RuleActionTypeDirect
  | RuleActionReject_ _ => RuleActionTypeReject
  | RuleActionHijackDNS => RuleActionTypeHijackDNS
  | RuleActionSniff_ _ => RuleActionTypeSniff
  | RuleActionSniffOverrideDestination => RuleActionTypeSniffOverrideDestination
  | RuleActionResolve_ _ => RuleActionTypeResolve
  end.

(** * Rejections *)

Inductive RejectedError := RejectedReset | RejectedDrop.

Definition flood_window : Z := 30 * 1000000000.
Definition flood_limit : Z := 50.

(** [RuleActionReject.Error]: the error, [None] for the reply method, and the
    times counted. *)
Definition RuleActionReject_Error (r : RuleActionReject) (now : Z) (dropCounter : list Z) : res (option RejectedError) * list Z :=
  if bool_decide (Method r = RuleActionRejectMethodDrop) then (Ok (Some RejectedDrop), dropCounter)
  else if bool_decide (Method r = RuleActionRejectMethodReply) then (Ok None, dropCounter)
  else if negb (bool_decide (Method r = RuleActionRejectMethodDefault))
  then (Panic ("unknown reject method: " +:+ Method r), dropCounter)
  else if NoDrop r then (Ok (Some RejectedReset), dropCounter)
  else
    let dropCounter := List.filter (fun t => now - t <=? flood_window) dropCounter ++ [now] in
    (Ok (Some (if flood_limit <? zlen dropCounter then RejectedDrop else RejectedReset)), dropCounter).
