(* ===== verification/Ja3.v ===== *)
(** The TLS client hello parser of src/common/ja3: [Compute] reads one record and
    the client hello in it.  Slices and indexes have Go's bounds checks, so that
    reading past the data is a [Panic]. *)

From S2P Require Import Prelude.

(** The exported fields of [ClientHello]; bytes of a name as they are sent. *)
Record ClientHello := mkClientHello {
  ch_Version : Z;
  ch_CipherSuites : list Z;
  ch_Extensions : list Z;
  ch_EllipticCurves : list Z;
  ch_EllipticCurvePF : list Z;
  ch_Versions : list Z;
  ch_SignatureAlgorithms : list Z;
  ch_ServerName : list Z;
}.
Definition emptyClientHello : ClientHello := mkClientHello 0 [] [] [] [] [] [] [].

(** [ParseError] with its type and check *)
Definition LengthErr (check : string) : error := ENew ("length check " +:+ check +:+ " failed").
Definition VersionErr (check : string) : error := ENew ("version check " +:+ check +:+ " failed").
Definition ContentTypeErr : error := ENew "content type not matching".
Definition HandshakeTypeErr : error := ENew "handshake type not matching".
Definition SNITypeErr : error := ENew "SNI type not supported".

Definition recordLayerHeaderLen : Z := 5.
Definition handshakeHeaderLen : Z := 6.
Definition randomDataLen : Z := 32.
Definition sessionIDHeaderLen : Z := 1.
Definition cipherSuiteHeaderLen : Z := 2.
Definition compressMethodHeaderLen : Z := 1.
Definition extensionsHeaderLen : Z := 2.
Definition extensionHeaderLen : Z := 4.
Definition sniExtensionHeaderLen : Z := 5.
Definition ecExtensionHeaderLen : Z := 2.
Definition ecpfExtensionHeaderLen : Z := 1.
Definition versionExtensionHeaderLen : Z := 1.
Definition signatureAlgorithmsExtensionHeaderLen : Z := 2.
Definition tlsVersionBitmask : Z := 0xFFFC.
Definition tls13 : Z := 0x0304.
Definition GreaseBitmask : Z := 0x0F0F.

Definition sniExtensionType : Z := 0.
Definition ecExtensionType : Z := 10.
Definition ecpfExtensionType : Z := 11.
Definition versionExtensionType : Z := 43.
Definition signatureAlgorithmsExtensionType : Z := 13.

(** [uint16(b[i])<<8 | uint16(b[i+1])] *)
Definition uint16_at (b : list Z) (i : Z) : res Z :=
  let! x := index b i in let! y := index b (i + 1) in Ok (Z.lor (Z.shiftl x 8) y).

(** [for i := range n]: the pairs of bytes from position [at] on. *)
Fixpoint uint16s (n : nat) (b : list Z) (at_ : Z) : res (list Z) :=
  match n with
  | O => Ok []
  | S n' => let! x := uint16_at b at_ in let! xs := uint16s n' b (at_ + 2) in Ok (x :: xs)
  end.

(** [for i := 0; i < n; i += 2 { binary.BigEndian.Uint16(b[i:]) }] *)
Fixpoint uint16s_upto (fuel : nat) (b : list Z) (i n : Z) : res (list Z) :=
  if i <? n then
    match fuel with
    | O => OutOfFuel
    | S fuel' =>
        let! s := slice_from b i in let! x := uint16_at s 0 in
        let! xs := uint16s_upto fuel' b (i + 2) n in Ok (x :: xs)
    end
  else Ok [].

(** ** Extensions *)

(** The variables of the loop. *)
Record extension_state := mkExtensions {
  ex_sni : list Z;
  ex_extensions : list Z;
  ex_ellipticCurves : list Z;
  ex_ellipticCurvePF : list Z;
  ex_versions : list Z;
  ex_signatureAlgorithms : list Z;
}.

Definition parse_sni (sex : list Z) (st : extension_state) : res extension_state :=
  if zlen sex <? sniExtensionHeaderLen then Err (LengthErr "13") else
  let! sniType := index sex 2 in
  let! sniLen := uint16_at sex 3 in
  let! sex := slice_from sex sniExtensionHeaderLen in
  if negb (zlen sex =? sniLen) then Err (LengthErr "14")
  else if sniType =? 0 then Ok (st <| ex_sni := sex |>)
  else Err SNITypeErr.

Definition parse_ec (sex : list Z) (st : extension_state) : res extension_state :=
  if zlen sex <? ecExtensionHeaderLen then Err (LengthErr "15") else
  let! ecsLen := uint16_at sex 0 in
  let numCurves := ecsLen / 2 in
  let! sex := slice_from sex ecExtensionHeaderLen in
  if negb (zlen sex =? ecsLen) then Err (LengthErr "16") else
  let! curves := uint16s (Z.to_nat numCurves) sex 0 in
  Ok (st <| ex_ellipticCurves := curves |>).

Definition parse_ecpf (sex : list Z) (st : extension_state) : res extension_state :=
  if zlen sex <? ecpfExtensionHeaderLen then Err (LengthErr "17") else
  let! numPF := index sex 0 in
  let! sex := slice_from sex ecpfExtensionHeaderLen in
  if negb (zlen sex =? numPF) then Err (LengthErr "18")
  else Ok (st <| ex_ellipticCurvePF := sex |>).

(** The declared length is not compared with what is left of the extension. *)
Definition parse_versions (sex : list Z) (st : extension_state) : res extension_state :=
  if zlen sex <? versionExtensionHeaderLen then Err (LengthErr "19") else
  let! versionsLen := index sex 0 in
  let! sex := slice_from sex 1 in
  let! vs := uint16s_upto (Z.to_nat versionsLen) sex 0 versionsLen in
  Ok (st <| ex_versions := ex_versions st ++ vs |>).

Definition parse_signatureAlgorithms (sex : list Z) (st : extension_state) : res extension_state :=
  if zlen sex <? signatureAlgorithmsExtensionHeaderLen then Err (LengthErr "20") else
  let! ssaLen := uint16_at sex 0 in
  let! sex := slice_from sex 2 in
  let! algorithms := uint16s_upto (Z.to_nat ssaLen) sex 0 ssaLen in
  Ok (st <| ex_signatureAlgorithms := ex_signatureAlgorithms st ++ algorithms |>).

Definition parse_extension (exType : Z) (sex : list Z) (st : extension_state) : res extension_state :=
  if exType =? sniExtensionType then parse_sni sex st
  else if exType =? ecExtensionType then parse_ec sex st
  else if exType =? ecpfExtensionType then parse_ecpf sex st
  else if exType =? versionExtensionType then parse_versions sex st
  else if exType =? signatureAlgorithmsExtensionType then parse_signatureAlgorithms sex st
  else Ok st.

(** [for len(exs) > 0]: each round consumes the header at least. *)
Fixpoint parseExtensions_loop (fuel : nat) (exs : list Z) (st : extension_state) : res extension_state :=
  if 0 <? zlen exs then
    match fuel with
    | O => OutOfFuel
    | S fuel' =>
        if zlen exs <? extensionHeaderLen then Err (LengthErr "11") else
        let! exType := uint16_at exs 0 in
        let! exLen := uint16_at exs 2 in
        let st := st <| ex_extensions := ex_extensions st ++ [exType] |> in
        if zlen exs <? extensionHeaderLen + exLen then Err (LengthErr "12") else
        let! sex := slice exs extensionHeaderLen (extensionHeaderLen + exLen) in
        let! st := parse_extension exType sex st in
        let! exs := slice_from exs (u16 (4 + exLen)) in
        parseExtensions_loop fuel' exs st
    end
  else Ok st.

Definition parseExtensions (j : ClientHello) (exs : list Z) : res ClientHello :=
  if zlen exs =? 0 then Ok j else
  if zlen exs <? extensionsHeaderLen then Err (LengthErr "9") else
  let! exsLen := uint16_at exs 0 in
  let! exs := slice_from exs extensionsHeaderLen in
  if zlen exs <? exsLen then Err (LengthErr "10") else
  let! st := parseExtensions_loop (length exs) exs (mkExtensions [] [] [] [] [] []) in
  Ok (j <| ch_ServerName := ex_sni st |> <| ch_Extensions := ex_extensions st |>
        <| ch_EllipticCurves := ex_ellipticCurves st |> <| ch_EllipticCurvePF := ex_ellipticCurvePF st |>
        <| ch_Versions := ex_versions st |> <| ch_SignatureAlgorithms := ex_signatureAlgorithms st |>).

(** ** The handshake and the record *)

Definition supported_version (v : Z) : bool := (Z.land v tlsVersionBitmask =? 0x0300) || (v =? tls13).

Definition parseHandshake (j : ClientHello) (hs : list Z) : res ClientHello :=
  let prefix := handshakeHeaderLen + randomDataLen + sessionIDHeaderLen in
  if zlen hs <? prefix then Err (LengthErr "3") else
  let! handshType := index hs 0 in
  if negb (handshType =? 1) then Err HandshakeTypeErr else
  let! b1 := index hs 1 in let! b2 := index hs 2 in let! b3 := index hs 3 in
  let handshakeLen := Z.lor (Z.lor (Z.shiftl b1 16) (Z.shiftl b2 8)) b3 in
  let! body := slice_from hs 4 in
  if negb (zlen body =? handshakeLen) then Err (LengthErr "4") else
  let! tlsVersion := uint16_at hs 4 in
  if negb (supported_version tlsVersion) then Err (VersionErr "2") else
  let j := j <| ch_Version := tlsVersion |> in
  let! sessionIDLen := index hs 38 in
  if zlen hs <? prefix + sessionIDLen then Err (LengthErr "5") else
  let! cs := slice_from hs (prefix + sessionIDLen) in
  if zlen cs <? cipherSuiteHeaderLen then Err (LengthErr "6") else
  let! csLen := uint16_at cs 0 in
  let numCiphers := csLen / 2 in
  if zlen cs <? cipherSuiteHeaderLen + csLen + compressMethodHeaderLen then Err (LengthErr "7") else
  let! cipherSuites := uint16s (Z.to_nat numCiphers) cs 2 in
  let j := j <| ch_CipherSuites := cipherSuites |> in
  let! compressMethodLen := index cs (cipherSuiteHeaderLen + csLen) in
  let used := cipherSuiteHeaderLen + csLen + compressMethodHeaderLen + compressMethodLen in
  if zlen cs <? used then Err (LengthErr "8") else
  let! exs := slice_from cs used in
  parseExtensions j exs.

Definition parseSegment (j : ClientHello) (segment : list Z) : res ClientHello :=
  if zlen segment <? recordLayerHeaderLen then Err (LengthErr "1") else
  let! contType := index segment 0 in
  if negb (contType =? 22) then Err ContentTypeErr else
  let! tlsRecordVersion := uint16_at segment 1 in
  if negb (supported_version tlsRecordVersion) then Err (VersionErr "1") else
  let! segmentLen := uint16_at segment 3 in
  let! rest := slice_from segment recordLayerHeaderLen in
  if zlen rest <? segmentLen then Err (LengthErr "2") else
  let! hs := slice segment recordLayerHeaderLen (recordLayerHeaderLen + segmentLen) in
  parseHandshake j hs.

(** The hello is only used where there is no error. *)
Definition ja3_Compute (payload : list Z) : res ClientHello := parseSegment emptyClientHello payload.
