(* ===== verification/Ja3Proofs.v ===== *)
(** What the client hello parser does: it reads back every client hello written by
    the reference encoder below, it terminates, and it panics only where an
    extension declares a list longer than itself. *)

From S2P Require Import Prelude Ja3.

(** * Pairs of bytes *)

Lemma lor_bytes x y : is_byte y -> Z.lor (Z.shiftl x 8) y = x * 256 + y.
Proof.
  intros Hy. pose proof (Z.add_lor_land (Z.shiftl x 8) y) as H. rewrite Z.shiftl_mul_pow2 in * by lia.
  enough (Z.land (x * 2 ^ 8) y = 0) by lia. clear H.
  apply Z.bits_inj'. intros n Hn. rewrite Z.land_spec, Z.bits_0. destruct (Z.lt_ge_cases n 8).
  - by rewrite Z.mul_pow2_bits_low.
  - rewrite <- (wrap_small 8 y Hy). unfold wrap. by rewrite Z.mod_pow2_bits_high, andb_false_r by lia.
Qed.

Lemma uint16_at_at l a x b i : l = a ++ be_split 2 x ++ b -> i = zlen a -> is_u 16 x -> uint16_at l i = Ok x.
Proof.
  intros -> -> Hx. unfold uint16_at. cbn [be_split app].
  rewrite (index_at _ a _ _ _ eq_refl eq_refl). cbn [res_bind].
  rewrite (index_at _ (a ++ [(x / 256 ^ Z.of_nat 1) mod 256]) ((x / 256 ^ Z.of_nat 0) mod 256) b);
    [|by rewrite <- app_assoc|unfold zlen; rewrite length_app; cbn; lia].
  cbn [res_bind]. rewrite lor_bytes.
  - f_equal. change (256 ^ Z.of_nat 1) with 256. change (256 ^ Z.of_nat 0) with 1. rewrite Z.div_1_r.
    unfold is_u in Hx. rewrite (Z.mod_small (x / 256)) by (split; [apply Z.div_pos|apply Z.div_lt_upper_bound]; lia).
    rewrite (Z.div_mod x 256) at 3 by lia. lia.
  - unfold is_u. change (2 ^ 8) with 256. apply Z.mod_pos_bound. lia.
Qed.

(** * The reference encoder *)

Definition enc16s (l : list Z) : list Z := concat (map (be_split 2) l).

Lemma enc16s_length l : zlen (enc16s l) = 2 * zlen l.
Proof.
  unfold zlen, enc16s. induction l as [|x l IH]; [done|]. cbn [map concat length].
  rewrite length_app, be_split_length. lia.
Qed.

#[local] Hint Rewrite enc16s_length : zlen.

Lemma uint16s_at n : forall l xs a b i, length xs = n -> Forall (is_u 16) xs ->
  l = a ++ enc16s xs ++ b -> i = zlen a -> uint16s n l i = Ok xs.
Proof.
  induction n as [|n IH]; intros l [|x xs] a b i Hn Hx -> ->; try done. cbn [uint16s].
  apply Forall_cons in Hx as [Hx Hxs]. unfold enc16s. cbn [map concat].
  rewrite (uint16_at_at _ a x (enc16s xs ++ b)); [|by rewrite <- app_assoc|done|done]. cbn [res_bind].
  rewrite (IH _ xs (a ++ be_split 2 x) b); [done|by injection Hn|done|by rewrite <- !app_assoc|].
  unfold zlen. rewrite length_app, be_split_length. lia.
Qed.

Lemma uint16s_upto_at xs : forall fuel l a b i n, (length xs <= fuel)%nat -> Forall (is_u 16) xs ->
  l = a ++ enc16s xs ++ b -> i = zlen a -> n = i + 2 * zlen xs -> uint16s_upto fuel l i n = Ok xs.
Proof.
  induction xs as [|x xs IH]; intros fuel l a b i n Hf Hx -> -> ->.
  - destruct fuel; cbn [uint16s_upto]; by rewrite (proj2 (Z.ltb_ge _ _)) by (unfold zlen; cbn; lia).
  - destruct fuel as [|fuel]; [cbn in Hf; lia|]. cbn [uint16s_upto].
    rewrite (proj2 (Z.ltb_lt _ _)) by (unfold zlen; cbn; lia).
    apply Forall_cons in Hx as [Hx Hxs]. rewrite (slice_from_at _ a _ _ eq_refl eq_refl). cbn [res_bind].
    unfold enc16s. cbn [map concat]. rewrite (uint16_at_at _ [] x (enc16s xs ++ b)); [|by rewrite <- app_assoc|done|done].
    cbn [res_bind]. rewrite (IH fuel _ (a ++ be_split 2 x) b); [done|cbn in Hf; lia|done|by rewrite <- !app_assoc| |].
    + unfold zlen. rewrite length_app, be_split_length. lia.
    + unfold zlen. cbn [length]. lia.
Qed.

(** The extensions the parser understands, and the others. *)
Inductive hello_extension :=
| ServerName (name : list Z)
| SupportedGroups (curves : list Z)
| PointFormats (formats : list Z)
| SupportedVersions (versions : list Z)
| SignatureAlgorithms (algorithms : list Z)
| OtherExtension (type : Z) (body : list Z).

Definition extension_type (e : hello_extension) : Z :=
  match e with
  | ServerName _ => 0
  | SupportedGroups _ => 10
  | PointFormats _ => 11
  | SupportedVersions _ => 43
  | SignatureAlgorithms _ => 13
  | OtherExtension t _ => t
  end.

Definition extension_body (e : hello_extension) : list Z :=
  match e with
  | ServerName name => be_split 2 (3 + zlen name) ++ [0] ++ be_split 2 (zlen name) ++ name
  | SupportedGroups l => be_split 2 (2 * zlen l) ++ enc16s l
  | PointFormats l => [zlen l] ++ l
  | SupportedVersions l => [2 * zlen l] ++ enc16s l
  | SignatureAlgorithms l => be_split 2 (2 * zlen l) ++ enc16s l
  | OtherExtension _ body => body
  end.

Definition encode_extension (e : hello_extension) : list Z :=
  be_split 2 (extension_type e) ++ be_split 2 (zlen (extension_body e)) ++ extension_body e.

(** The fields fit their lengths. *)
Definition extension_fits (e : hello_extension) : Prop :=
  zlen (extension_body e) < 2 ^ 16 - 4 /\
  match e with
  | ServerName _ => True
  | PointFormats l => zlen l < 256
  | SupportedVersions l => Forall (is_u 16) l /\ 2 * zlen l < 256
  | SupportedGroups l | SignatureAlgorithms l => Forall (is_u 16) l
  | OtherExtension t _ => is_u 16 t /\ ~ t ∈ [0; 10; 11; 43; 13]
  end.

(** What an extension says. *)
Definition add_extension (st : extension_state) (e : hello_extension) : extension_state :=
  let st := st <| ex_extensions := ex_extensions st ++ [extension_type e] |> in
  match e with
  | ServerName name => st <| ex_sni := name |>
  | SupportedGroups l => st <| ex_ellipticCurves := l |>
  | PointFormats l => st <| ex_ellipticCurvePF := l |>
  | SupportedVersions l => st <| ex_versions := ex_versions st ++ l |>
  | SignatureAlgorithms l => st <| ex_signatureAlgorithms := ex_signatureAlgorithms st ++ l |>
  | OtherExtension _ _ => st
  end.

Record hello := mkHello {
  h_version : Z;
  h_random : list Z;
  h_session : list Z;
  h_ciphers : list Z;
  h_compression : list Z;
  h_extensions : list hello_extension;
}.

Definition encode_extensions (h : hello) : list Z := concat (map encode_extension (h_extensions h)).
Definition after_session (h : hello) : list Z :=
  be_split 2 (2 * zlen (h_ciphers h)) ++ enc16s (h_ciphers h) ++ [zlen (h_compression h)] ++ h_compression h
  ++ be_split 2 (zlen (encode_extensions h)) ++ encode_extensions h.
Definition hello_body (h : hello) : list Z :=
  be_split 2 (h_version h) ++ h_random h ++ [zlen (h_session h)] ++ h_session h ++ after_session h.
Definition encode_handshake (h : hello) : list Z := [1] ++ be_split 3 (zlen (hello_body h)) ++ hello_body h.
Definition encode_record (h : hello) : list Z :=
  [22] ++ be_split 2 0x0303 ++ be_split 2 (zlen (encode_handshake h)) ++ encode_handshake h.

Record hello_fits (h : hello) : Prop := {
  fits_version : 0x0300 <= h_version h <= 0x0304;
  fits_random : zlen (h_random h) = 32;
  fits_session : zlen (h_session h) < 256;
  fits_compression : zlen (h_compression h) < 256;
  fits_ciphers : Forall (is_u 16) (h_ciphers h);
  fits_extensions : Forall extension_fits (h_extensions h);
  fits_record : zlen (encode_handshake h) < 2 ^ 16;
}.

(** What the encoded hello says. *)
Definition hello_fields (h : hello) : ClientHello :=
  let st := fold_left add_extension (h_extensions h) (mkExtensions [] [] [] [] [] []) in
  mkClientHello (h_version h) (h_ciphers h) (ex_extensions st) (ex_ellipticCurves st) (ex_ellipticCurvePF st)
    (ex_versions st) (ex_signatureAlgorithms st) (ex_sni st).

(** * Reading back *)

(** A step of the parser on data laid out as written. *)
Ltac at_pos := first [done | by rewrite <- ?app_assoc | zlen_solve].
Ltac len_ok := first [rewrite (proj2 (Z.ltb_ge _ _)) by zlen_solve | rewrite (proj2 (Z.eqb_eq _ _)) by zlen_solve; cbn [negb]].

Lemma parse_sni_at name st : zlen name < 2 ^ 16 ->
  parse_sni (extension_body (ServerName name)) st = Ok (st <| ex_sni := name |>).
Proof.
  intros H. unfold parse_sni, extension_body, sniExtensionHeaderLen. len_ok.
  rewrite (index_at _ (be_split 2 (3 + zlen name)) 0 (be_split 2 (zlen name) ++ name)) by at_pos. cbn [res_bind].
  rewrite (uint16_at_at _ (be_split 2 (3 + zlen name) ++ [0]) (zlen name) name) by at_pos. cbn [res_bind].
  rewrite (slice_from_at _ (be_split 2 (3 + zlen name) ++ [0] ++ be_split 2 (zlen name)) name) by at_pos. cbn [res_bind].
  len_ok. done.
Qed.

Lemma div2_length (l : list Z) : Z.to_nat (2 * zlen l / 2) = length l.
Proof. unfold zlen. rewrite (Z.mul_comm 2), Z.div_mul by lia. apply Nat2Z.id. Qed.

Lemma parse_ec_at l st : 2 * zlen l < 2 ^ 16 -> Forall (is_u 16) l ->
  parse_ec (extension_body (SupportedGroups l)) st = Ok (st <| ex_ellipticCurves := l |>).
Proof.
  intros H Hl. unfold parse_ec, extension_body, ecExtensionHeaderLen. len_ok.
  rewrite (uint16_at_at _ [] (2 * zlen l) (enc16s l)) by at_pos. cbn [res_bind].
  rewrite (slice_from_at _ (be_split 2 (2 * zlen l)) (enc16s l)) by at_pos. cbn [res_bind].
  len_ok. rewrite (uint16s_at _ _ l [] []); [done|by rewrite div2_length|done|by rewrite app_nil_r|done].
Qed.

Lemma parse_ecpf_at l st : parse_ecpf (extension_body (PointFormats l)) st = Ok (st <| ex_ellipticCurvePF := l |>).
Proof.
  unfold parse_ecpf, extension_body, ecpfExtensionHeaderLen. len_ok.
  rewrite (index_at _ [] (zlen l) l) by at_pos. cbn [res_bind].
  rewrite (slice_from_at _ [zlen l] l) by at_pos. cbn [res_bind]. len_ok. done.
Qed.

Lemma parse_versions_at l st : Forall (is_u 16) l ->
  parse_versions (extension_body (SupportedVersions l)) st = Ok (st <| ex_versions := ex_versions st ++ l |>).
Proof.
  intros Hl. unfold parse_versions, extension_body, versionExtensionHeaderLen. len_ok.
  rewrite (index_at _ [] (2 * zlen l) (enc16s l)) by at_pos. cbn [res_bind].
  rewrite (slice_from_at _ [2 * zlen l] (enc16s l)) by at_pos. cbn [res_bind].
  rewrite (uint16s_upto_at l _ _ [] []); [done|unfold zlen; lia|done|by rewrite app_nil_r|done|done].
Qed.

Lemma parse_signatureAlgorithms_at l st : 2 * zlen l < 2 ^ 16 -> Forall (is_u 16) l ->
  parse_signatureAlgorithms (extension_body (SignatureAlgorithms l)) st
  = Ok (st <| ex_signatureAlgorithms := ex_signatureAlgorithms st ++ l |>).
Proof.
  intros H Hl. unfold parse_signatureAlgorithms, extension_body, signatureAlgorithmsExtensionHeaderLen. len_ok.
  rewrite (uint16_at_at _ [] (2 * zlen l) (enc16s l)) by at_pos. cbn [res_bind].
  rewrite (slice_from_at _ (be_split 2 (2 * zlen l)) (enc16s l)) by at_pos. cbn [res_bind].
  rewrite (uint16s_upto_at l _ _ [] []); [done|unfold zlen; lia|done|by rewrite app_nil_r|done|done].
Qed.

Lemma parse_extension_at e st : extension_fits e ->
  parse_extension (extension_type e) (extension_body e) (st <| ex_extensions := ex_extensions st ++ [extension_type e] |>)
  = Ok (add_extension st e).
Proof.
  intros [Hb He]. destruct e; cbn [extension_type]; unfold parse_extension, add_extension; cbn [extension_type].
  - apply parse_sni_at. cbn [extension_body] in Hb. zlen_solve.
  - apply parse_ec_at; [cbn [extension_body] in Hb; zlen_solve|done].
  - apply parse_ecpf_at.
  - apply parse_versions_at, He.
  - apply parse_signatureAlgorithms_at; [cbn [extension_body] in Hb; zlen_solve|done].
  - destruct He as [_ Hn]. rewrite !not_elem_of_cons in Hn. unfold sniExtensionType, ecExtensionType, ecpfExtensionType, versionExtensionType, signatureAlgorithmsExtensionType.
    destruct Hn as (? & ? & ? & ? & ? & _). by rewrite !(proj2 (Z.eqb_neq _ _)) by done.
Qed.

Lemma extension_type_u16 e : extension_fits e -> is_u 16 (extension_type e).
Proof. intros [_ He]. destruct e; try (unfold is_u; cbn; lia). apply He. Qed.

Lemma parseExtensions_loop_at es : forall fuel st, Forall extension_fits es ->
  (length (concat (map encode_extension es)) <= fuel)%nat ->
  parseExtensions_loop fuel (concat (map encode_extension es)) st = Ok (fold_left add_extension es st).
Proof.
  induction es as [|e es IH]; intros fuel st Hes Hf; [by destruct fuel|].
  apply Forall_cons in Hes as [He Hes]. cbn [map concat fold_left] in *.
  pose proof (extension_type_u16 e He) as Ht. destruct (He) as [Hb _].
  assert (Hlen : zlen (encode_extension e) = 4 + zlen (extension_body e)).
  { unfold encode_extension. zlen_solve. }
  destruct fuel as [|fuel].
  { rewrite length_app in Hf. unfold zlen in Hlen. lia. }
  cbn [parseExtensions_loop]. rewrite (proj2 (Z.ltb_lt _ _)) by zlen_solve.
  unfold extensionHeaderLen. len_ok. unfold encode_extension at 1 2 3 4 5 6 7.
  set (rest := concat (map encode_extension es)) in *.
  rewrite (uint16_at_at _ [] (extension_type e) (be_split 2 (zlen (extension_body e)) ++ extension_body e ++ rest)) by at_pos.
  cbn [res_bind].
  rewrite (uint16_at_at _ (be_split 2 (extension_type e)) (zlen (extension_body e)) (extension_body e ++ rest)) by at_pos.
  cbn [res_bind]. len_ok.
  rewrite (slice_at _ (be_split 2 (extension_type e) ++ be_split 2 (zlen (extension_body e))) (extension_body e) rest) by at_pos.
  cbn [res_bind]. rewrite parse_extension_at by done. cbn [res_bind].
  rewrite (slice_from_at _ (encode_extension e) rest); [|done|rewrite wrap_small; zlen_solve].
  cbn [res_bind]. apply IH; [done|]. rewrite length_app in Hf. unfold zlen in Hlen. lia.
Qed.

Lemma parseExtensions_at j h : Forall extension_fits (h_extensions h) -> zlen (encode_extensions h) < 2 ^ 16 ->
  parseExtensions j (be_split 2 (zlen (encode_extensions h)) ++ encode_extensions h)
  = Ok (j <| ch_ServerName := ch_ServerName (hello_fields h) |> <| ch_Extensions := ch_Extensions (hello_fields h) |>
          <| ch_EllipticCurves := ch_EllipticCurves (hello_fields h) |>
          <| ch_EllipticCurvePF := ch_EllipticCurvePF (hello_fields h) |>
          <| ch_Versions := ch_Versions (hello_fields h) |>
          <| ch_SignatureAlgorithms := ch_SignatureAlgorithms (hello_fields h) |>).
Proof.
  intros He Hn. unfold parseExtensions, extensionsHeaderLen.
  rewrite (proj2 (Z.eqb_neq _ _)) by zlen_solve. len_ok.
  rewrite (uint16_at_at _ [] (zlen (encode_extensions h)) (encode_extensions h)) by at_pos. cbn [res_bind].
  rewrite (slice_from_at _ (be_split 2 (zlen (encode_extensions h))) (encode_extensions h)) by at_pos. cbn [res_bind].
  len_ok. unfold encode_extensions. rewrite parseExtensions_loop_at by (done || lia). done.
Qed.

Lemma supported_version_range v : 0x0300 <= v <= 0x0304 -> supported_version v = true.
Proof.
  intros H. assert (v = 0x0300 \/ v = 0x0301 \/ v = 0x0302 \/ v = 0x0303 \/ v = 0x0304) as Hv by lia.
  by repeat destruct Hv as [->|Hv]; [..|subst v].
Qed.

Lemma index_split3 a x b : is_u 24 x ->
  let l := [a] ++ be_split 3 x ++ b in
  exists b1 b2 b3, index l 1 = Ok b1 /\ index l 2 = Ok b2 /\ index l 3 = Ok b3
    /\ Z.lor (Z.lor (Z.shiftl b1 16) (Z.shiftl b2 8)) b3 = x.
Proof.
  intros Hx l. exists ((x / 65536) mod 256), ((x / 256) mod 256), (x mod 256).
  assert (Hl : l = [a; (x / 65536) mod 256; (x / 256) mod 256; (x / 1) mod 256] ++ b) by done.
  rewrite Z.div_1_r in Hl. rewrite Hl. split_and!; try done. unfold is_u in Hx.
  rewrite (Z.mod_small (x / 65536)) by (split; [apply Z.div_pos|apply Z.div_lt_upper_bound]; lia).
  replace (Z.shiftl (x / 65536) 16) with (Z.shiftl (Z.shiftl (x / 65536) 8) 8) by (by rewrite Z.shiftl_shiftl).
  rewrite <- Z.shiftl_lor, !lor_bytes by (unfold is_u; change (2 ^ 8) with 256; apply Z.mod_pos_bound; lia).
  change 65536 with (256 * 256). rewrite <- Z.div_div by lia.
  pose proof (Z.div_mod x 256). pose proof (Z.div_mod (x / 256) 256). lia.
Qed.

Lemma after_session_parsed h j : hello_fits h ->
  let cs := after_session h in
  zlen cs < 2 ^ 16 ->
  (if zlen cs <? cipherSuiteHeaderLen then Err (LengthErr "6") else
   let! csLen := uint16_at cs 0 in
   let numCiphers := csLen / 2 in
   if zlen cs <? cipherSuiteHeaderLen + csLen + compressMethodHeaderLen then Err (LengthErr "7") else
   let! cipherSuites := uint16s (Z.to_nat numCiphers) cs 2 in
   let j := j <| ch_CipherSuites := cipherSuites |> in
   let! compressMethodLen := index cs (cipherSuiteHeaderLen + csLen) in
   let used := cipherSuiteHeaderLen + csLen + compressMethodHeaderLen + compressMethodLen in
   if zlen cs <? used then Err (LengthErr "8") else
   let! exs := slice_from cs used in
   parseExtensions j exs)
  = Ok ((hello_fields h) <| ch_Version := ch_Version j |>).
Proof.
  intros Hfit cs Hn. unfold cipherSuiteHeaderLen, compressMethodHeaderLen.
  set (ext := be_split 2 (zlen (encode_extensions h)) ++ encode_extensions h).
  assert (Hcs : cs = be_split 2 (2 * zlen (h_ciphers h)) ++ enc16s (h_ciphers h) ++ [zlen (h_compression h)]
                     ++ h_compression h ++ ext) by done.
  clearbody cs. subst cs. assert (Hext : zlen ext = 2 + zlen (encode_extensions h)) by (unfold ext; zlen_solve).
  len_ok. rewrite (uint16_at_at _ [] (2 * zlen (h_ciphers h)) (enc16s (h_ciphers h) ++ [zlen (h_compression h)]
                     ++ h_compression h ++ ext)) by at_pos. cbn [res_bind]. cbv zeta.
  len_ok. rewrite (uint16s_at _ _ (h_ciphers h) (be_split 2 (2 * zlen (h_ciphers h))) ([zlen (h_compression h)] ++ h_compression h ++ ext));
    [|by rewrite div2_length|apply Hfit|at_pos|at_pos]. cbn [res_bind].
  rewrite (index_at _ (be_split 2 (2 * zlen (h_ciphers h)) ++ enc16s (h_ciphers h)) (zlen (h_compression h)) (h_compression h ++ ext)) by at_pos.
  cbn [res_bind]. len_ok.
  rewrite (slice_from_at _ (be_split 2 (2 * zlen (h_ciphers h)) ++ enc16s (h_ciphers h) ++ [zlen (h_compression h)] ++ h_compression h) ext) by at_pos.
  cbn [res_bind]. unfold ext. rewrite parseExtensions_at; [done|apply Hfit|zlen_solve].
Qed.

Lemma parseHandshake_at h : hello_fits h -> parseHandshake emptyClientHello (encode_handshake h) = Ok (hello_fields h).
Proof.
  intros Hfit. pose proof (fits_random h Hfit) as Hr. pose proof (fits_version h Hfit) as Hv.
  pose proof (fits_record h Hfit) as Hn. unfold encode_handshake in *.
  assert (Hb : zlen (hello_body h) = 35 + zlen (h_session h) + zlen (after_session h)).
  { unfold hello_body. zlen_solve. }
  destruct (index_split3 1 (zlen (hello_body h)) (hello_body h)) as (b1 & b2 & b3 & E1 & E2 & E3 & Hlen); [zlen_solve|].
  unfold parseHandshake, handshakeHeaderLen, randomDataLen, sessionIDHeaderLen. cbv zeta.
  len_ok. rewrite (index_at _ [] 1 (be_split 3 (zlen (hello_body h)) ++ hello_body h)) by at_pos. cbn [res_bind].
  len_ok. rewrite E1, E2, E3. cbn [res_bind]. rewrite Hlen. clear E1 E2 E3 Hlen.
  rewrite (slice_from_at _ ([1] ++ be_split 3 (zlen (hello_body h))) (hello_body h)) by at_pos. cbn [res_bind].
  len_ok. unfold hello_body at 2.
  rewrite (uint16_at_at _ ([1] ++ be_split 3 (zlen (hello_body h))) (h_version h)
             (h_random h ++ [zlen (h_session h)] ++ h_session h ++ after_session h)) by at_pos.
  cbn [res_bind]. rewrite supported_version_range by done. cbn [negb]. unfold hello_body at 2.
  rewrite (index_at _ ([1] ++ be_split 3 (zlen (hello_body h)) ++ be_split 2 (h_version h) ++ h_random h)
             (zlen (h_session h)) (h_session h ++ after_session h)) by at_pos.
  cbn [res_bind]. len_ok. unfold hello_body at 2.
  rewrite (slice_from_at _ ([1] ++ be_split 3 (zlen (hello_body h)) ++ be_split 2 (h_version h) ++ h_random h
             ++ [zlen (h_session h)] ++ h_session h) (after_session h)) by at_pos.
  cbn [res_bind]. rewrite after_session_parsed; [done|done|zlen_solve].
Qed.

(** reading a client hello gives what was written.  [Compute] on the record of
    any client hello that fits its length fields returns the version, cipher suites,
    extension types and the contents of the extensions it understands. *)
Lemma client_hello_roundtrip h : hello_fits h -> ja3_Compute (encode_record h) = Ok (hello_fields h).
Proof.
  intros Hfit. pose proof (fits_record h Hfit) as Hn. unfold ja3_Compute, parseSegment, recordLayerHeaderLen, encode_record.
  set (hs := encode_handshake h) in *. len_ok.
  rewrite (index_at _ [] 22 (be_split 2 771 ++ be_split 2 (zlen hs) ++ hs)) by at_pos. cbn [res_bind].
  len_ok. rewrite (uint16_at_at _ [22] 771 (be_split 2 (zlen hs) ++ hs)) by at_pos. cbn [res_bind].
  change (supported_version 771) with true. cbn [negb].
  rewrite (uint16_at_at _ ([22] ++ be_split 2 771) (zlen hs) hs) by at_pos. cbn [res_bind].
  rewrite (slice_from_at _ ([22] ++ be_split 2 771 ++ be_split 2 (zlen hs)) hs) by at_pos. cbn [res_bind].
  len_ok. rewrite (slice_at _ ([22] ++ be_split 2 771 ++ be_split 2 (zlen hs)) hs []);
    [|by rewrite app_nil_r, <- !app_assoc|at_pos|at_pos]. cbn [res_bind]. by apply parseHandshake_at.
Qed.

Definition example_hello : hello :=
  mkHello 0x0303 (repeat 7 32) [1; 2] [0x1301; 0x1302] [0]
    [ServerName (bytes_of_string "example.org"); SupportedGroups [29; 23]; PointFormats [0]; SignatureAlgorithms [0x0403];
     OtherExtension 16 [0; 0]; SupportedVersions [0x0304]].

Lemma example_hello_fits : hello_fits example_hello.
Proof.
  constructor; try (vm_compute; done); try (repeat constructor; vm_compute; done).
  repeat constructor; try (vm_compute; done).
  cbn. rewrite !elem_of_cons, elem_of_nil. lia.
Qed.


(** * Any input *)

Lemma uint16_at_safe l i : Forall is_byte l -> 0 <= i -> i + 1 < zlen l -> exists x, uint16_at l i = Ok x /\ is_u 16 x.
Proof.
  intros Hl Hi Hj. unfold uint16_at.
  destruct (index_safe l i) as (x & -> & Hx); [lia|]. destruct (index_safe l (i + 1)) as (y & -> & Hy); [lia|]. cbn [res_bind].
  rewrite Forall_forall in Hl. apply Hl in Hx, Hy. exists (Z.lor (Z.shiftl x 8) y).
  split; [done|]. rewrite lor_bytes by done. unfold is_u in *. lia.
Qed.

Lemma uint16s_safe n : forall l i, Forall is_byte l -> 0 <= i -> i + 2 * Z.of_nat n <= zlen l -> safe (uint16s n l i).
Proof.
  induction n as [|n IH]; intros l i Hl Hi Hn; [done|]. cbn [uint16s].
  destruct (uint16_at_safe l i Hl Hi) as (x & -> & _); [lia|]. cbn [res_bind].
  apply safe_bind; [|done]. apply IH; [done|lia|lia].
Qed.

(** Reading up to [n] is safe exactly when the pairs are there. *)
Lemma uint16s_upto_cases fuel : forall l i n, Forall is_byte l -> 0 <= i -> n - i <= Z.of_nat fuel ->
  (zlen l < n + (n - i) mod 2 /\ i < n) \/ safe (uint16s_upto fuel l i n).
Proof.
  induction fuel as [|fuel IH]; intros l i n Hl Hi Hf; cbn [uint16s_upto].
  { rewrite (proj2 (Z.ltb_ge _ _)) by lia. by right. }
  destruct (i <? n) eqn:E; bsimpl; [|by right]. assert (Hm : 0 <= (n - i) mod 2 < 2) by (apply Z.mod_pos_bound; lia).
  destruct (decide (zlen l < i + 2)) as [Hs|Hs].
  { left. split; [|done]. destruct (decide (n = i + 1)) as [->|]; [|lia].
    replace (i + 1 - i) with 1 by lia. change (1 mod 2) with 1. lia. }
  destruct (slice_from_safe l i) as (a & b & -> & Ha & ->); [lia|]. cbn [res_bind].
  destruct (uint16_at_safe b 0) as (x & -> & _).
  { by apply Forall_app in Hl as [_ Hl]. } { lia. } { zlen_solve. }
  cbn [res_bind]. destruct (IH (a ++ b) (i + 2) n Hl) as [[Hz ?]|Hok]; [lia|lia| |].
  - left. split; [|done]. replace (n - i) with (n - (i + 2) + 1 * 2) by lia. by rewrite Z.mod_add.
  - right. by apply safe_bind.
Qed.

(** An extension whose list is declared longer than the extension. *)
Definition list_overruns (t : Z) (sex : list Z) : Prop :=
  (t = versionExtensionType /\ exists n l, sex = n :: l /\ zlen l < n + n mod 2)
  \/ (t = signatureAlgorithmsExtensionType /\ exists n l, sex = be_split 2 n ++ l /\ zlen l < n + n mod 2).

Lemma parse_sni_safe sex st : Forall is_byte sex -> safe (parse_sni sex st).
Proof.
  intros Hs. unfold parse_sni, sniExtensionHeaderLen. destruct (_ <? _) eqn:E; [done|]. bsimpl.
  destruct (index_safe sex 2) as (t & -> & _); [lia|]. destruct (uint16_at_safe sex 3 Hs) as (n & -> & _); [lia|lia|].
  destruct (slice_from_safe sex 5) as (a & b & -> & _ & ->); [lia|]. cbn [res_bind]. repeat case_match; done.
Qed.

Lemma parse_ec_safe sex st : Forall is_byte sex -> safe (parse_ec sex st).
Proof.
  intros Hs. unfold parse_ec, ecExtensionHeaderLen. destruct (_ <? _) eqn:E; [done|]. bsimpl.
  destruct (uint16_at_safe sex 0 Hs) as (n & -> & Hn); [lia|lia|]. cbn [res_bind].
  destruct (slice_from_safe sex 2) as (a & b & -> & _ & ->); [lia|]. cbn [res_bind].
  destruct (zlen b =? n) eqn:E2; [|done]. bsimpl. cbn [negb]. apply safe_bind; [|done].
  apply uint16s_safe; [by apply Forall_app in Hs as [_ ?]|lia|]. unfold is_u in Hn.
  rewrite Z2Nat.id by (apply Z.div_pos; lia). pose proof (Z.mul_div_le n 2). lia.
Qed.

Lemma parse_ecpf_safe sex st : safe (parse_ecpf sex st).
Proof.
  unfold parse_ecpf, ecpfExtensionHeaderLen. destruct (_ <? _) eqn:E; [done|]. bsimpl.
  destruct (index_safe sex 0) as (n & -> & _); [lia|]. cbn [res_bind].
  destruct (slice_from_safe sex 1) as (a & b & -> & _ & ->); [lia|]. cbn [res_bind]. repeat case_match; done.
Qed.

Lemma parse_versions_cases sex st : Forall is_byte sex ->
  list_overruns versionExtensionType sex \/ safe (parse_versions sex st).
Proof.
  intros Hs. unfold parse_versions, versionExtensionHeaderLen. destruct (_ <? _) eqn:E; [by right|]. bsimpl.
  destruct sex as [|n l]; [unfold zlen in E; cbn in E; lia|]. apply Forall_cons in Hs as [Hn Hl]. unfold is_u in Hn.
  rewrite (index_at (n :: l) [] n l 0 eq_refl eq_refl), (slice_from_at (n :: l) [n] l 1 eq_refl eq_refl). cbn [res_bind].
  destruct (uint16s_upto_cases (Z.to_nat n) l 0 n Hl) as [[H ?]|H]; [lia|lia| |].
  - rewrite Z.sub_0_r in H. left. left. eauto.
  - right. by apply safe_bind.
Qed.

Lemma two_bytes x y : is_byte x -> is_byte y -> [x; y] = be_split 2 (x * 256 + y).
Proof.
  unfold is_u. intros Hx Hy. cbn [be_split]. change (256 ^ Z.of_nat 1) with 256. change (256 ^ Z.of_nat 0) with 1.
  rewrite Z.div_1_r, Z.div_add_l, (Z.div_small y), Z.add_0_r, (Z.mod_small x) by lia.
  by rewrite (Z.add_comm (x * 256)), Z.mod_add, (Z.mod_small y) by lia.
Qed.

Lemma parse_signatureAlgorithms_cases sex st : Forall is_byte sex ->
  list_overruns signatureAlgorithmsExtensionType sex \/ safe (parse_signatureAlgorithms sex st).
Proof.
  intros Hs. unfold parse_signatureAlgorithms, signatureAlgorithmsExtensionHeaderLen. destruct (_ <? _) eqn:E; [by right|]. bsimpl.
  destruct sex as [|x [|y l]]; [unfold zlen in E; cbn in E; lia|unfold zlen in E; cbn in E; lia|].
  apply Forall_cons in Hs as [Hx Hs]. apply Forall_cons in Hs as [Hy Hl].
  set (n := x * 256 + y). assert (Hn : is_u 16 n) by (unfold is_u in *; lia).
  change (x :: y :: l) with ([x; y] ++ l). rewrite (two_bytes x y) by done. fold n.
  rewrite (uint16_at_at (be_split 2 n ++ l) [] n l 0 eq_refl eq_refl Hn), (slice_from_at _ (be_split 2 n) l 2 eq_refl eq_refl). cbn [res_bind].
  unfold is_u in Hn. destruct (uint16s_upto_cases (Z.to_nat n) l 0 n Hl) as [[H ?]|H]; [lia|lia| |].
  - rewrite Z.sub_0_r in H. left. right. eauto.
  - right. by apply safe_bind.
Qed.

Lemma parse_extension_cases t sex st : Forall is_byte sex -> list_overruns t sex \/ safe (parse_extension t sex st).
Proof.
  intros Hs. unfold parse_extension.
  destruct (t =? sniExtensionType); [right; by apply parse_sni_safe|].
  destruct (t =? ecExtensionType); [right; by apply parse_ec_safe|].
  destruct (t =? ecpfExtensionType); [right; apply parse_ecpf_safe|].
  destruct (t =? versionExtensionType) eqn:E; [bsimpl; subst t; by apply parse_versions_cases|].
  destruct (t =? signatureAlgorithmsExtensionType) eqn:E2; [bsimpl; subst t; by apply parse_signatureAlgorithms_cases|].
  by right.
Qed.

(** Some extension in the data overruns. *)
Definition has_overrun (l : list Z) : Prop := exists pre t sex post,
  l = pre ++ be_split 2 t ++ be_split 2 (zlen sex) ++ sex ++ post /\ list_overruns t sex.

Lemma has_overrun_app a b c : has_overrun b -> has_overrun (a ++ b ++ c).
Proof.
  intros (pre & t & sex & post & -> & H). exists (a ++ pre), t, sex, (post ++ c). by rewrite <- !app_assoc.
Qed.

Lemma parseExtensions_loop_cases fuel : forall exs st, Forall is_byte exs -> zlen exs < 2 ^ 16 -> (length exs <= fuel)%nat ->
  has_overrun exs \/ safe (parseExtensions_loop fuel exs st).
Proof.
  induction fuel as [|fuel IH]; intros exs st Hb Hn Hf; cbn [parseExtensions_loop].
  { destruct exs; [by right|cbn in Hf; lia]. }
  destruct (0 <? zlen exs); [|by right]. unfold extensionHeaderLen.
  destruct exs as [|x0 [|x1 [|y0 [|y1 l]]]]; try (by right).
  apply Forall_cons in Hb as [Hx0 Hb]. apply Forall_cons in Hb as [Hx1 Hb].
  apply Forall_cons in Hb as [Hy0 Hb]. apply Forall_cons in Hb as [Hy1 Hb].
  set (t := x0 * 256 + x1). set (n := y0 * 256 + y1).
  assert (Ht : is_u 16 t) by (unfold is_u in *; lia). assert (Hm : is_u 16 n) by (unfold is_u in *; lia).
  assert (E : x0 :: x1 :: y0 :: y1 :: l = be_split 2 t ++ be_split 2 n ++ l).
  { unfold t, n. by rewrite <- !two_bytes by done. }
  rewrite E in *. clear E. rewrite length_app, be_split_length, length_app, be_split_length in Hf.
  len_ok. rewrite (uint16_at_at _ [] t (be_split 2 n ++ l)) by at_pos. cbn [res_bind].
  rewrite (uint16_at_at _ (be_split 2 t) n l) by at_pos. cbn [res_bind].
  destruct (_ <? 4 + n) eqn:E; [by right|]. bsimpl.
  assert (exists sex post, l = sex ++ post /\ zlen sex = n) as (sex & post & -> & Hsex).
  { exists (take (Z.to_nat n) l), (drop (Z.to_nat n) l). rewrite take_drop. split; [done|].
    unfold zlen in *. rewrite !length_app, !be_split_length in E. rewrite length_take. unfold is_u in Hm. lia. }
  rewrite (slice_at _ (be_split 2 t ++ be_split 2 n) sex post) by at_pos. cbn [res_bind].
  apply Forall_app in Hb as [Hbs Hbp].
  destruct (parse_extension_cases t sex (st <| ex_extensions := ex_extensions st ++ [t] |>) Hbs) as [Ho|Hs].
  { left. exists [], t, sex, post. by rewrite Hsex. }
  rewrite (slice_from_at _ (be_split 2 t ++ be_split 2 n ++ sex) post); [|at_pos|rewrite wrap_small; zlen_solve].
  destruct (parse_extension _ _ _) as [st'| | |]; cbn [res_bind]; [|by right|done|done].
  destruct (IH post st') as [H|H]; [done|zlen_solve|rewrite length_app in Hf; lia| |by right].
  left. pose proof (has_overrun_app (be_split 2 t ++ be_split 2 n ++ sex) post [] H) as H'.
  by rewrite app_nil_r, <- !app_assoc in H'.
Qed.

Lemma has_overrun_drop a b : has_overrun b -> has_overrun (a ++ b).
Proof. intros H. apply (has_overrun_app a b []) in H. by rewrite app_nil_r in H. Qed.

Lemma parseExtensions_cases j exs : Forall is_byte exs -> zlen exs < 2 ^ 16 ->
  has_overrun exs \/ safe (parseExtensions j exs).
Proof.
  intros Hb Hn. unfold parseExtensions, extensionsHeaderLen.
  destruct (_ =? _) eqn:E0; [by right|]. destruct (_ <? _) eqn:E; [by right|]. bsimpl.
  destruct (uint16_at_safe exs 0 Hb) as (n & -> & _); [lia|lia|]. cbn [res_bind].
  destruct (slice_from_safe exs 2) as (a & b & -> & _ & ->); [lia|]. cbn [res_bind].
  destruct (_ <? n); [by right|]. apply Forall_app in Hb as [_ Hb].
  destruct (parseExtensions_loop_cases (length b) b (mkExtensions [] [] [] [] [] []) Hb) as [H|H].
  { zlen_solve. } { done. } { left. by apply has_overrun_drop. }
  right. by apply safe_bind.
Qed.

Lemma is_byte_nonneg l x : Forall is_byte l -> x ∈ l -> 0 <= x < 256.
Proof. rewrite Forall_forall. intros H Hx. exact (H x Hx). Qed.

Lemma parseHandshake_cases j hs : Forall is_byte hs -> zlen hs < 2 ^ 16 ->
  has_overrun hs \/ safe (parseHandshake j hs).
Proof.
  intros Hb Hn. unfold parseHandshake, handshakeHeaderLen, randomDataLen, sessionIDHeaderLen. cbv zeta.
  destruct (_ <? _) eqn:E; [by right|]. bsimpl.
  destruct (index_safe hs 0) as (x0 & -> & _); [lia|]. cbn [res_bind]. destruct (negb _); [by right|].
  destruct (index_safe hs 1) as (x1 & -> & _); [lia|]. destruct (index_safe hs 2) as (x2 & -> & _); [lia|].
  destruct (index_safe hs 3) as (x3 & -> & _); [lia|]. cbn [res_bind].
  destruct (slice_from_safe hs 4) as (? & ? & _ & _ & ->); [lia|]. cbn [res_bind]. destruct (negb _); [by right|].
  destruct (uint16_at_safe hs 4 Hb) as (v & -> & _); [lia|lia|]. cbn [res_bind]. destruct (negb _); [by right|].
  destruct (index_safe hs 38) as (s & -> & Hs); [lia|]. cbn [res_bind]. apply (is_byte_nonneg hs) in Hs; [|done].
  destruct (_ <? _) eqn:E2; [by right|]. bsimpl.
  destruct (slice_from_safe hs (6 + 32 + 1 + s)) as (a & cs & -> & Ha & ->); [lia|]. cbn [res_bind].
  apply Forall_app in Hb as [_ Hb]. unfold cipherSuiteHeaderLen, compressMethodHeaderLen.
  destruct (_ <? _) eqn:E3; [by right|]. bsimpl.
  destruct (uint16_at_safe cs 0 Hb) as (n & -> & Hm); [lia|lia|]. cbn [res_bind]. unfold is_u in Hm.
  destruct (zlen cs <? 2 + n + 1) eqn:E4; [by right|]. bsimpl.
  pose proof (uint16s_safe (Z.to_nat (n / 2)) cs 2 Hb) as Hc.
  destruct (uint16s _ _ _) as [cipherSuites| | |]; cbn [res_bind]; [|by right|exfalso; apply Hc; [lia|]..];
    try (rewrite Z2Nat.id by (apply Z.div_pos; lia); pose proof (Z.mul_div_le n 2); lia).
  destruct (index_safe cs (2 + n)) as (c & -> & Hc'); [lia|]. cbn [res_bind]. apply (is_byte_nonneg cs) in Hc'; [|done].
  destruct (_ <? _) eqn:E5; [by right|]. bsimpl.
  destruct (slice_from_safe cs (2 + n + 1 + c)) as (b & exs & -> & _ & ->); [lia|]. cbn [res_bind].
  apply Forall_app in Hb as [_ Hb].
  destruct (parseExtensions_cases (j <| ch_Version := v |> <| ch_CipherSuites := cipherSuites |>) exs Hb) as [H|H];
    [zlen_solve|left; by do 2 apply has_overrun_drop|by right].
Qed.

(** Reading any data ends, and without a panic unless an extension overruns. *)
Lemma ja3_Compute_cases payload : Forall is_byte payload -> has_overrun payload \/ safe (ja3_Compute payload).
Proof.
  intros Hb. unfold ja3_Compute, parseSegment, recordLayerHeaderLen. destruct (_ <? _) eqn:E; [by right|]. bsimpl.
  destruct (index_safe payload 0) as (x & -> & _); [lia|]. cbn [res_bind]. destruct (negb _); [by right|].
  destruct (uint16_at_safe payload 1 Hb) as (v & -> & _); [lia|lia|]. cbn [res_bind]. destruct (negb _); [by right|].
  destruct (uint16_at_safe payload 3 Hb) as (n & -> & Hn); [lia|lia|]. cbn [res_bind]. unfold is_u in Hn.
  destruct (slice_from_safe payload 5) as (a & b & -> & Ha & ->); [lia|]. cbn [res_bind].
  destruct (_ <? n) eqn:E2; [by right|]. bsimpl.
  assert (b = take (Z.to_nat n) b ++ drop (Z.to_nat n) b) as Hd by (by rewrite take_drop).
  assert (Ht : zlen (take (Z.to_nat n) b) = n) by (unfold zlen in *; rewrite length_take; lia).
  rewrite Hd, (slice_at _ a (take (Z.to_nat n) b) (drop (Z.to_nat n) b)) by at_pos. cbn [res_bind].
  destruct (parseHandshake_cases emptyClientHello (take (Z.to_nat n) b)) as [H|H].
  - apply Forall_app in Hb as [_ Hb]. by apply Forall_take.
  - lia.
  - left. by apply has_overrun_app.
  - by right.
Qed.
