(* ===== verification/Sniffers.v ===== *)
(** The protocol sniffers of src/common/sniff, but for those over TLS and HTTP
    packages, whose parsers are fields of [SnifferEnv].

    A stream sniffer reads the buffers received so far one after the other; a
    packet sniffer looks at one packet.  The verdict is the change of the metadata,
    or the error that says what to do next: data that may still become the protocol
    gives [ErrNeedMoreData]. *)

From S2P Require Import Prelude NetAddr GoStrings RuleContext Binary Ja3 RuleAction.

(** * Errors *)

Definition ErrNeedMoreData : error := ENew "need more data".

(** [errors.Is] *)
Fixpoint errors_Is (e target : error) : bool :=
  bool_decide (e = target) ||
  match e with
  | ECause e _ => errors_Is e target
  | ECause1 e cause => errors_Is e target || errors_Is cause target
  | _ => false
  end.
Definition is_need_more (e : error) : bool := errors_Is e ErrNeedMoreData.

(** * Packages *)

Class SnifferEnv := {
  (* crypto/tls: the server name of the client hello, or the handshake error *)
  tls_Handshake : list Z -> string + error;
  (* github.com/sagernet/sing/protocol/http and common/metadata: the Host of a
     request, and the address of a host with a port *)
  http_ReadRequest : list Z -> string + error;
  ParseSocksaddr_AddrString : string -> string;
  (* github.com/miekg/dns: whether a message is a response, and how many questions,
     answers and authorities it has *)
  dns_Unpack : list Z -> (bool * nat * nat * nat) + error;
  (* golang.org/x/crypto/hkdf with SHA-256, crypto/aes and cipher *)
  hkdf_Extract : list Z -> list Z -> list Z;
  hkdf_Expand : list Z -> list Z -> nat -> list Z;
  aes_Encrypt : list Z -> list Z -> list Z;
  gcm_Open : list Z -> list Z -> list Z -> list Z -> option (list Z);
  hkdf_Expand_length : forall secret info n, length (hkdf_Expand secret info n) = n;
  aes_Encrypt_length : forall key block, length (aes_Encrypt key block) = 16%nat;
  gcm_Open_length : forall key nonce data ad plain, gcm_Open key nonce data ad = Some plain -> (length plain + 16 = length data)%nat;
  gcm_Open_bytes : forall key nonce data ad plain, gcm_Open key nonce data ad = Some plain -> Forall is_byte plain;
}.

(** * Verdicts *)

Definition verdict (m : res (InboundContext -> InboundContext)) (md : InboundContext) : res (InboundContext * option error) :=
  match m with
  | Ok found => Ok (found md, None)
  | Err e => Ok (md, Some e)
  | Panic s => Panic s
  | OutOfFuel => OutOfFuel
  end.

Definition set_protocol (protocol : string) : InboundContext -> InboundContext := fun md => md <| Protocol := protocol |>.

(** [E.Cause1(ErrNeedMoreData, err)] on the error branch of a read. *)
Definition need_more {A} (m : reader A) : reader A := fun b =>
  match m b with Err e => Err (ECause1 ErrNeedMoreData e) | r => r end.

Definition require (b : bool) : reader unit := fun l => if b then Ok (tt, l) else Err ErrInvalid.

(** The verdict of a sniffer that reads. *)
Definition run_reader (m : reader (InboundContext -> InboundContext)) (b : list Z) : res (InboundContext -> InboundContext) :=
  let! ' (f, _) := m b in Ok f.

(** ** Readers *)

(** [Read] of an [io.MultiReader]: from the first buffer that is not used up. *)
Fixpoint MultiReader_Read (n : nat) (buffers : list (list Z)) : list Z * option error :=
  match buffers with
  | [] => ([], Some EOF)
  | [] :: buffers' => MultiReader_Read n buffers'
  | b :: _ => (take n b, None)
  end.
Fixpoint MultiReader_ReadByte (buffers : list (list Z)) : res (Z * list (list Z)) :=
  match buffers with
  | [] => Err EOF
  | [] :: buffers' => MultiReader_ReadByte buffers'
  | (x :: b) :: buffers' => Ok (x, b :: buffers')
  end.

Definition Read_uint16 : reader Z := rmap be_combine (ReadFull 2).
Definition Read_uint32 : reader Z := rmap be_combine (ReadFull 4).
(** [rw.SkipN] and [io.CopyN] to [io.Discard] *)
Definition SkipN (n : Z) : reader unit := fun b =>
  if zlen b <? n then Err EOF else Ok (tt, drop (Z.to_nat n) b).
(** [Seek] from the current position, which may lie past the end. *)
Definition Seek (n : Z) : reader unit := fun b => Ok (tt, drop (Z.to_nat n) b).

(** The line [bufio.Reader.ReadLine] returns first: [None] without data. *)
Definition bufio_size : nat := 4096.
Definition strip_return (l : list Z) : list Z := if bool_decide (last l = Some 13) then removelast l else l.
Fixpoint before_newline (l : list Z) : option (list Z) :=
  match l with
  | [] => None
  | x :: l' => if x =? 10 then Some [] else option_map (cons x) (before_newline l')
  end.
Definition ReadLine (l : list Z) : res (list Z) :=
  match before_newline (take bufio_size l) with
  | Some line => Ok (strip_return line)
  | None => if (bufio_size <=? length l)%nat then Ok (strip_return (take bufio_size l))
            else match l with [] => Err EOF | _ => Ok l end
  end.

(** * Stream sniffers *)

Section Sniffers.
Context {SEnv : SnifferEnv}.

(** The protocol name is read with one [Read], which ends with its buffer. *)
Definition sniff_BitTorrent (buffers : list (list Z)) : res (InboundContext -> InboundContext) :=
  let header := bytes_of_string "BitTorrent protocol" in
  match MultiReader_ReadByte buffers with
  | Ok (first, buffers) =>
      if negb (first =? 19) then Err ErrInvalid else
      let '(protocol, err) := MultiReader_Read 19 buffers in
      if negb (bool_decide (protocol = take (length protocol) header)) then Err ErrInvalid else
      match err with
      | Some err => Err (ECause1 ErrNeedMoreData err)
      | None => if (length protocol <? 19)%nat then Err ErrNeedMoreData else Ok (set_protocol ProtocolBitTorrent)
      end
  | Err err => Err (ECause1 ErrNeedMoreData err)
  | Panic s => Panic s
  | OutOfFuel => OutOfFuel
  end.

Definition sniff_RDP : reader (InboundContext -> InboundContext) :=
  tpktVersion <- need_more Read_uint8 ;;
  _ <- require (tpktVersion =? 0x03) ;;
  tpktReserved <- need_more Read_uint8 ;;
  _ <- require (tpktReserved =? 0x00) ;;
  tpktLength <- need_more Read_uint16 ;;
  _ <- require (tpktLength =? 19) ;;
  cotpLength <- need_more Read_uint8 ;;
  _ <- require (cotpLength =? 14) ;;
  cotpTpduType <- need_more Read_uint8 ;;
  _ <- require (cotpTpduType =? 0xE0) ;;
  _ <- need_more (SkipN 5) ;;
  rdpType <- need_more Read_uint8 ;;
  _ <- require (rdpType =? 0x01) ;;
  rdpFlags <- need_more Read_uint8 ;;
  rdpLength <- need_more Read_uint8 ;;
  _ <- require (rdpLength =? 8) ;;
  rret (set_protocol ProtocolRDP).

Definition sniff_SSH (data : list Z) : res (InboundContext -> InboundContext) :=
  let sshPrefix := bytes_of_string "SSH-2.0-" in
  let prefix := take (length sshPrefix) data in
  if negb (bool_decide (prefix = take (length prefix) sshPrefix)) then Err ErrInvalid
  else if (length prefix <? length sshPrefix)%nat then Err (ECause1 ErrNeedMoreData EOF) else
  let! fistLine := ReadLine data in
  let! client := slice_from fistLine 8 in
  Ok (fun md => md <| Protocol := ProtocolSSH |> <| Client := string_of_bytes client |>).

(** A message that is no query gives no error, and no protocol. *)
Definition sniff_DomainNameQuery (packet : list Z) : res (InboundContext -> InboundContext) :=
  match dns_Unpack packet with
  | inr err => Err err
  | inl (response, questions, answers, ns) =>
      if response || (questions =? 0)%nat || (0 <? answers)%nat || (0 <? ns)%nat then Ok (fun md => md)
      else Ok (set_protocol ProtocolDNS)
  end.

(** The fields of the header that are there are checked before the message is complete. *)
Definition dns_header_rejected (packet : list Z) : bool :=
  match packet !! 2%nat with Some b => negb (Z.land b 0x80 =? 0) | None => false end
  || match packet !! 4%nat, packet !! 5%nat with Some x, Some y => (x =? 0) && (y =? 0) | _, _ => false end
  || existsb (fun i => match packet !! i with Some b => negb (b =? 0) | None => false end) [6; 7; 8; 9]%nat.

Definition sniff_StreamDomainNameQuery (data : list Z) : res (InboundContext -> InboundContext) :=
  let! ' (length_, data) := need_more Read_uint16 data in
  if length_ <? 12 then Err ErrInvalid else
  let packet := take (Z.to_nat length_) data in
  if dns_header_rejected packet then Err ErrInvalid
  else if zlen packet <? length_ then Err (ECause1 ErrNeedMoreData (if (length packet =? 0)%nat then EOF else ErrUnexpectedEOF))
  else sniff_DomainNameQuery packet.

Definition sniff_TLSClientHello (data : list Z) : res (InboundContext -> InboundContext) :=
  match tls_Handshake data with
  | inl serverName => Ok (fun md => md <| Protocol := ProtocolTLS |> <| SniffHost := serverName |>)
  | inr err => if errors_Is err ErrUnexpectedEOF then Err (ECause1 ErrNeedMoreData err) else Err err
  end.

Definition sniff_HTTPHost (data : list Z) : res (InboundContext -> InboundContext) :=
  match http_ReadRequest data with
  | inl host => Ok (fun md => md <| Protocol := ProtocolHTTP |> <| SniffHost := ParseSocksaddr_AddrString host |>)
  | inr err => if errors_Is err ErrUnexpectedEOF then Err (ECause1 ErrNeedMoreData err) else Err err
  end.

(** The buffers are read through; only BitTorrent's [Read] notices their borders. *)
Definition stream_verdict (s : StreamSniffer) (buffers : list (list Z)) : res (InboundContext -> InboundContext) :=
  match s with
  | TLSClientHello => sniff_TLSClientHello (concat buffers)
  | HTTPHost => sniff_HTTPHost (concat buffers)
  | StreamDomainNameQuery => sniff_StreamDomainNameQuery (concat buffers)
  | BitTorrent => sniff_BitTorrent buffers
  | SSH => sniff_SSH (concat buffers)
  | RDP => run_reader sniff_RDP (concat buffers)
  end.
Definition sniff_stream (s : StreamSniffer) (md : InboundContext) (buffers : list (list Z)) : res (InboundContext * option error) :=
  verdict (stream_verdict s buffers) md.

(** * Packet sniffers *)

(** The extensions of a uTP packet: each has a type, a length and data. *)
Fixpoint utp_extensions (fuel : nat) (extension : Z) : reader unit := fun b =>
  if extension =? 0 then Ok (tt, b) else
  match fuel with
  | O => OutOfFuel
  | S fuel' =>
      (extension <- Read_uint8 ;;
       _ <- require (extension <=? 0x04) ;;
       length <- Read_uint8 ;;
       _ <- Seek length ;;
       utp_extensions fuel' extension) b
  end.

Definition sniff_UTP (packet : list Z) : res (InboundContext -> InboundContext) :=
  if zlen packet <? 20 then Err ErrInvalid else
  let! first := index packet 0 in
  let version := Z.land first 0x0F in
  let ty := Z.shiftr first 4 in
  if negb (version =? 1) || (4 <? ty) then Err ErrInvalid else
  let! extension := index packet 1 in
  let! rest := slice_from packet 20 in
  let! ' (_, _) := utp_extensions (S (length rest)) extension rest in
  Ok (set_protocol ProtocolBitTorrent).

(** [binary.BigEndian.Uint32(packet[i:j])] *)
Definition uint_in (packet : list Z) (i j : Z) : res Z := let! s := slice packet i j in Ok (be_combine s).

Definition trackerProtocolID : Z := 0x41727101980.

Definition sniff_UDPTracker (packet : list Z) : res (InboundContext -> InboundContext) :=
  if zlen packet <? 16 then Err ErrInvalid else
  let! id := uint_in packet 0 8 in
  if negb (id =? trackerProtocolID) then Err ErrInvalid else
  let! flag := uint_in packet 8 12 in
  if negb (flag =? 0) then Err ErrInvalid else Ok (set_protocol ProtocolBitTorrent).

Definition sniff_DTLSRecord (packet : list Z) : res (InboundContext -> InboundContext) :=
  if zlen packet <? 13 then Err ErrInvalid else
  let! contentType := index packet 0 in
  if negb (inb contentType [20; 21; 22; 23; 25]) then Err ErrInvalid else
  let! versionMajor := index packet 1 in
  if negb (versionMajor =? 0xfe) then Err ErrInvalid else
  let! versionMinor := index packet 2 in
  if negb (versionMinor =? 0xff) && negb (versionMinor =? 0xfd) then Err ErrInvalid
  else Ok (set_protocol ProtocolDTLS).

(** The quotients by 65536 are exact doubles, compared with 16. *)
Definition sniff_NTP (packet : list Z) : res (InboundContext -> InboundContext) :=
  if zlen packet <? 48 then Err ErrInvalid else
  let! firstByte := index packet 0 in
  let li := Z.land (Z.shiftr firstByte 6) 0x03 in
  let vn := Z.land (Z.shiftr firstByte 3) 0x07 in
  let mode := Z.land firstByte 0x07 in
  if 3 <? li then Err ErrInvalid
  else if negb (vn =? 3) && negb (vn =? 4) then Err ErrInvalid
  else if negb (mode =? 3) then Err ErrInvalid else
  let! rootDelay := uint_in packet 4 8 in
  let! rootDispersion := uint_in packet 8 12 in
  if 16 * 65536 <? rootDelay then Err ErrInvalid
  else if 16 * 65536 <? rootDispersion then Err ErrInvalid
  else Ok (set_protocol ProtocolNTP).

Definition sniff_STUNMessage (packet : list Z) : res (InboundContext -> InboundContext) :=
  if zlen packet <? 20 then Err ErrInvalid else
  let! cookie := uint_in packet 4 8 in
  if negb (cookie =? 0x2112A442) then Err ErrInvalid else
  let! length := uint_in packet 2 4 in
  if zlen packet <? 20 + length then Err ErrInvalid else Ok (set_protocol ProtocolSTUN).

Definition sniff_QUICShortHeader (packet : list Z) : res (InboundContext -> InboundContext) :=
  if (length packet =? 0)%nat then Err (ENew "empty packet") else
  let! first := index packet 0 in
  if negb (Z.land first 0xc0 =? 0x40) then Err (ENew "not a QUIC short header packet")
  else Ok (set_protocol ProtocolQUIC).

End Sniffers.
