(* ===== verification/Quic.v ===== *)
(** The QUIC sniffer: src/common/sniff/quic.go, quic_blacklist.go and
    src/common/sniff/internal/qtls.  An initial packet is decrypted with the keys its
    connection id gives, its frames are read, and the client hello is put together
    from the fragments of this and earlier packets. *)

From S2P Require Import Prelude NetAddr GoStrings RuleContext Binary Ja3 RuleAction Sniffers.

(** * Package qtls *)

Definition VersionDraft29 : Z := 0xff00001d.
Definition Version1 : Z := 0x1.
Definition Version2 : Z := 0x6b3343cf.

Definition SaltOld : list Z :=
  [0xaf; 0xbf; 0xec; 0x28; 0x99; 0x93; 0xd2; 0x4c; 0x9e; 0x97; 0x86; 0xf1; 0x9c; 0x61; 0x11; 0xe0; 0x43; 0x90; 0xa8; 0x99].
Definition SaltV1 : list Z :=
  [0x38; 0x76; 0x2c; 0xf7; 0xf5; 0x59; 0x34; 0xb3; 0x4d; 0x17; 0x9a; 0xe6; 0xa4; 0xc8; 0x0c; 0xad; 0xcc; 0xbb; 0x7f; 0x0a].
Definition SaltV2 : list Z :=
  [0x0d; 0xed; 0xe3; 0xde; 0xf7; 0x00; 0xa6; 0xdb; 0x81; 0x93; 0x81; 0xbe; 0x6e; 0x26; 0x9d; 0xcb; 0xf9; 0xbd; 0x2e; 0xd9].

(** [n] calls of [ReadByte] *)
Fixpoint ReadBytes (n : nat) : reader (list Z) :=
  match n with
  | O => rret []
  | S n' => x <- ReadByte ;; l <- ReadBytes n' ;; rret (x :: l)
  end.

(** The first two bits encode the length. *)
Definition qtls_ReadUvarint : reader Z :=
  firstByte <- ReadByte ;;
  rest <- ReadBytes (Z.to_nat (Z.shiftl 1 (Z.shiftr (Z.land firstByte 0xc0) 6)) - 1) ;;
  rret (be_combine (Z.land firstByte (0xff - 0xc0) :: rest)).

Section Quic.
Context {SEnv : SnifferEnv}.

Definition HKDFExpandLabel (secret context : list Z) (label : string) (length_ : nat) : list Z :=
  let l := bytes_of_string label in
  hkdf_Expand secret
    (be_split 2 (Z.of_nat length_) ++ [u8 (6 + zlen l)] ++ bytes_of_string "tls13 " ++ l ++ [u8 (zlen context)] ++ context)
    length_.

(** [xorNonceAEAD.Open]: the last eight bytes of the mask are combined with the nonce. *)
Definition xorNonceAEAD_Open (key nonceMask nonce ciphertext additionalData : list Z) : option (list Z) :=
  gcm_Open key (take 4 nonceMask ++ zip_with Z.lxor (drop 4 nonceMask) nonce) ciphertext additionalData.

(** * The header *)

Record quic_header := mkQuicHeader {
  qh_versionNumber : Z;
  qh_destConnID : list Z;
  qh_packetLen : Z;
  qh_hdrLen : Z;
  qh_pnBytes : list Z;
}.

Definition check (b : bool) (e : error) : reader unit := fun l => if b then Ok (tt, l) else Err e.

Definition read_header (packet : list Z) : reader quic_header :=
  typeByte <- ReadByte ;;
  _ <- check (negb (Z.land typeByte 0x40 =? 0)) (ENew "bad type byte") ;;
  versionNumber <- Read_uint32 ;;
  _ <- check (inb versionNumber [VersionDraft29; Version1; Version2]) (ENew "bad version") ;;
  let packetType := Z.shiftr (Z.land typeByte 0x30) 4 in
  _ <- check (negb (((packetType =? 0) && (versionNumber =? Version2))
                    || ((packetType =? 2) && negb (versionNumber =? Version2)) || (2 <? packetType))) (ENew "bad packet type") ;;
  destConnIDLen <- ReadByte ;;
  _ <- check (negb ((destConnIDLen =? 0) || (20 <? destConnIDLen))) (ENew "bad destination connection id length") ;;
  destConnID <- ReadFull (Z.to_nat destConnIDLen) ;;
  srcConnIDLen <- ReadByte ;;
  _ <- SkipN srcConnIDLen ;;
  tokenLen <- qtls_ReadUvarint ;;
  _ <- SkipN tokenLen ;;
  packetLen <- qtls_ReadUvarint ;;
  fun rest =>
    let hdrLen := zlen packet - zlen rest in
    (_ <- check (hdrLen + packetLen <=? zlen packet) ErrInvalid ;;
     _ <- SkipN 4 ;;
     pnBytes <- ReadFull 16 ;;
     rret (mkQuicHeader versionNumber destConnID packetLen hdrLen pnBytes)) rest.

(** * Decryption *)

(** [newPacket[i] ^= m] *)
Definition xor_at (l : list Z) (i m : Z) : res (list Z) :=
  let! x := index l i in Ok (<[Z.to_nat i := Z.lxor x m]> l).

Fixpoint xor_mask (l : list Z) (i : Z) (mask : list Z) : res (list Z) :=
  match mask with
  | [] => Ok l
  | m :: mask' => let! l := xor_at l i m in xor_mask l (i + 1) mask'
  end.

(** What is decrypted, and the packet from there on after it. *)
Record decrypted_packet := mkDecrypted { dp_decrypted : list Z; dp_backing : list Z }.

Definition quic_decrypt (h : quic_header) (packet : list Z) : res decrypted_packet :=
  let v2 := qh_versionNumber h =? Version2 in
  let salt := if qh_versionNumber h =? Version1 then SaltV1 else if v2 then SaltV2 else SaltOld in
  let initialSecret := hkdf_Extract (qh_destConnID h) salt in
  let secret := HKDFExpandLabel initialSecret [] "client in" 32 in
  let hpKey := HKDFExpandLabel secret [] (if v2 then "quicv2 hp" else "quic hp") 16 in
  let mask := aes_Encrypt hpKey (qh_pnBytes h) in
  let hdrLen := qh_hdrLen h in
  let! mask0 := index mask 0 in
  let! newPacket := xor_at packet 0 (Z.land mask0 0xf) in
  let! mask1 := slice mask 1 5 in
  let! newPacket := xor_mask newPacket hdrLen mask1 in
  let! first := index newPacket 0 in
  let packetNumberLength := Z.land first 0x3 + 1 in
  if qh_packetLen h + hdrLen <? hdrLen + packetNumberLength then Err ErrInvalid else
  let extHdrLen := hdrLen + packetNumberLength in
  let! number := slice newPacket hdrLen extHdrLen in
  let packetNumber := be_combine number in
  let! restored := slice packet extHdrLen (hdrLen + 4) in
  let newPacket := take (Z.to_nat extHdrLen) newPacket ++ restored ++ drop (Z.to_nat (hdrLen + 4)) newPacket in
  let! data := slice newPacket extHdrLen (qh_packetLen h + hdrLen) in
  let key := HKDFExpandLabel secret [] (if v2 then "quicv2 key" else "quic key") 16 in
  let iv := HKDFExpandLabel secret [] (if v2 then "quicv2 iv" else "quic iv") 12 in
  match xorNonceAEAD_Open key iv (be_split 8 packetNumber) data (take (Z.to_nat extHdrLen) newPacket) with
  | None => Err (ENew "cipher: message authentication failed")
  | Some decrypted =>
      Ok (mkDecrypted decrypted (decrypted ++ drop (Z.to_nat extHdrLen + length decrypted) newPacket))
  end.

(** * Frames *)

Record qCryptoFragment := mkFragment { qf_offset : Z; qf_length : Z; qf_payload : list Z }.

Definition frameTypeCrypto : Z := 0x06.

Fixpoint skip_uvarints (n : nat) : reader unit :=
  match n with O => rret tt | S n' => _ <- qtls_ReadUvarint ;; skip_uvarints n' end.

Definition read_ack (frameType : Z) : reader unit :=
  _ <- qtls_ReadUvarint ;;
  _ <- qtls_ReadUvarint ;;
  ackRangeCount <- qtls_ReadUvarint ;;
  _ <- qtls_ReadUvarint ;;
  _ <- read_range ackRangeCount (skip_uvarints 2) ;;
  if frameType =? 0x03 then skip_uvarints 3 else rret tt.

(** The fragment is a slice of the array behind the decrypted data, whose bounds
    check is that of the array. *)
Definition read_crypto (d : decrypted_packet) : reader qCryptoFragment :=
  offset <- qtls_ReadUvarint ;;
  length_ <- qtls_ReadUvarint ;;
  fun rest =>
    let index := zlen (dp_decrypted d) - zlen rest in
    let! payload := slice (dp_backing d) index (index + length_) in
    (_ <- Seek length_ ;; rret (mkFragment offset length_ payload)) rest.

Definition read_close : reader unit :=
  _ <- qtls_ReadUvarint ;; _ <- qtls_ReadUvarint ;; length_ <- qtls_ReadUvarint ;; Seek length_.

(** One frame: the fragment it carries. *)
Definition read_frame (d : decrypted_packet) (frameType : Z) : reader (list qCryptoFragment) :=
  if inb frameType [0x00; 0x01] then rret []
  else if inb frameType [0x02; 0x03] then rmap (fun _ => []) (read_ack frameType)
  else if frameType =? frameTypeCrypto then rmap (fun f => [f]) (read_crypto d)
  else if frameType =? 0x1c then rmap (fun _ => []) read_close
  else rfail ErrInvalid.

(** The types of the frames, and the fragments; each round takes a byte. *)
Fixpoint read_frames (fuel : nat) (d : decrypted_packet) (rest : list Z) : res (list Z * list qCryptoFragment) :=
  match rest with
  | [] => Ok ([], [])
  | frameType :: rest =>
      match fuel with
      | O => OutOfFuel
      | S fuel' =>
          let! ' (fragments, rest) := read_frame d frameType rest in
          let! ' (types, more) := read_frames fuel' d rest in
          Ok (frameType :: types, fragments ++ more)
      end
  end.

(** The types and fragments of the frames of a packet. *)
Definition quic_frames (packet : list Z) : res (list Z * list qCryptoFragment) :=
  let! ' (h, _) := read_header packet packet in
  let! d := quic_decrypt h packet in
  read_frames (length (dp_decrypted d)) d (dp_decrypted d).

(** * Reassembly *)

(** [buffer.Write] into a buffer of [size] bytes. *)
Definition buffer_Write (size : Z) (buffer data : list Z) : list Z := take (Z.to_nat size) (buffer ++ data).

(** The loop [find]. *)
Fixpoint find_loop (fuel : nat) (size : Z) (fragments : list qCryptoFragment) (index : Z) (buffer : list Z) : res (list Z) :=
  match List.find (fun f => qf_offset f =? index) fragments with
  | None => Ok buffer
  | Some f =>
      match fuel with
      | O => OutOfFuel
      | S fuel' => find_loop fuel' size fragments (u64 (qf_offset f + qf_length f)) (buffer_Write size buffer (qf_payload f))
      end
  end.

Definition frame_len (fragments : list qCryptoFragment) : Z := u64 (foldr Z.add 0 (map qf_length fragments)).

(** The fragments as one record. *)
Definition reassemble (fragments : list qCryptoFragment) : res (list Z) :=
  let frameLen := frame_len fragments in
  find_loop (length fragments) (5 + frameLen) fragments 0
    ([0x16] ++ be_split 2 0x0303 ++ be_split 2 (u16 frameLen)).

(** * The client *)

Definition isZero (l : list Z) : bool := forallb (fun b => b =? 0) l.
Definition count (l : list Z) (value : Z) : Z := zlen (List.filter (fun b => b =? value) l).

Definition isQUICGo (fingerprint : ClientHello) : bool :=
  inb 0x11EC (ch_EllipticCurves fingerprint) || inb 0xFF01 (ch_Extensions fingerprint).

Definition is_grease (l : list Z) (n : Z) : bool :=
  (zlen l =? n) && match l with x :: _ => Z.land x GreaseBitmask =? 0x0A0A | [] => false end.
Definition is_safari (fingerprint : ClientHello) : bool :=
  is_grease (ch_Versions fingerprint) 2 && is_grease (ch_EllipticCurves fingerprint) 5
  || bool_decide (ch_CipherSuites fingerprint = [0x1302]) && bool_decide (ch_EllipticCurves fingerprint = [29])
     && bool_decide (ch_SignatureAlgorithms fingerprint = [0x0403]).

(** The body of the loop that sets the client. *)
Definition quic_client (frameTypeList : list Z) (fingerprint : ClientHello) : res string :=
  if zlen frameTypeList =? 1 then Ok "firefox" else
  let! first := index frameTypeList 0 in
  let! others := slice_from frameTypeList 1 in
  if (first =? frameTypeCrypto) && isZero others && is_safari fingerprint then Ok "safari" else
  let! last := index frameTypeList (zlen frameTypeList - 1) in
  let! before := slice frameTypeList 0 (zlen frameTypeList - 1) in
  if (last =? frameTypeCrypto) && isZero before then Ok "quic-go"
  else if (1 <? count frameTypeList frameTypeCrypto) || (0 <? count frameTypeList 0x01)
  then Ok (if isQUICGo fingerprint then "quic-go" else "chromium")
  else Ok "unknown".

(** * The sniffer *)

(** The metadata with what is kept in [SniffContext], and the error. *)
Definition sniff_QUICClientHello (md : InboundContext) (sniffContext : option (list qCryptoFragment)) (packet : list Z)
    : res (InboundContext * option (list qCryptoFragment) * option error) :=
  match quic_frames packet with
  | Err e => Ok (md, sniffContext, Some e)
  | Panic s => Panic s
  | OutOfFuel => OutOfFuel
  | Ok (frameTypeList, fragments) =>
      let fragments := fragments ++ default [] sniffContext in
      let! buffer := reassemble fragments in
      let md := md <| Protocol := ProtocolQUIC |> in
      match ja3_Compute buffer with
      | Err e => Ok (md, Some fragments, Some (ECause1 ErrNeedMoreData e))
      | Panic s => Panic s
      | OutOfFuel => OutOfFuel
      | Ok fingerprint =>
          let md := md <| SniffHost := string_of_bytes (ch_ServerName fingerprint) |> in
          if bool_decide (Client md = "") then
            let! client := quic_client frameTypeList fingerprint in
            Ok (md <| Client := client |>, None, None)
          else Ok (md, None, None)
      end
  end.

(** Every packet sniffer. *)
Definition sniff_packet (s : PacketSniffer) (md : InboundContext) (sniffContext : option (list qCryptoFragment)) (packet : list Z)
    : res (InboundContext * option (list qCryptoFragment) * option error) :=
  match s with
  | QUICClientHello => sniff_QUICClientHello md sniffContext packet
  | _ =>
      let! ' (md, err) := verdict match s with
                                  | DomainNameQuery => sniff_DomainNameQuery packet
                                  | QUICShortHeader => sniff_QUICShortHeader packet
                                  | STUNMessage => sniff_STUNMessage packet
                                  | UTP => sniff_UTP packet
                                  | UDPTracker => sniff_UDPTracker packet
                                  | DTLSRecord => sniff_DTLSRecord packet
                                  | _ => sniff_NTP packet
                                  end md in
      Ok (md, sniffContext, err)
  end.

End Quic.
