(* ===== verification/SniffersProofs.v ===== *)
(** The sniffers but for QUIC: none of them panics, and those for streams give the
    same verdict however the data is cut. *)

From S2P Require Import Prelude NetAddr GoStrings RuleContext Binary Ja3 RuleAction Sniffers.

Section SniffersProofs.
Context {SEnv : SnifferEnv}.

(** * Safety *)

Lemma consumes_need_more k {A} (m : reader A) : consumes k m -> consumes k (need_more m).
Proof. intros H b. specialize (H b). unfold need_more. by destruct (m b) as [[]| | |]. Qed.

Lemma consumes_require b : consumes 0 (require b).
Proof. intros l. unfold require. destruct b; [cbn; lia|done]. Qed.

Lemma consumes_SkipN n : consumes 0 (SkipN n).
Proof. intros b. unfold SkipN. destruct (_ <? _); [done|]. rewrite length_drop. lia. Qed.

Lemma consumes_Seek n : consumes 0 (Seek n).
Proof. intros b. unfold Seek. rewrite length_drop. lia. Qed.

Lemma consumes_Read_uint16 : consumes 2 Read_uint16.
Proof. apply consumes_map, consumes_ReadFull. Qed.

Lemma consumes_Read_uint32 : consumes 4 Read_uint32.
Proof. apply consumes_map, consumes_ReadFull. Qed.

Lemma verdict_safe m md : safe m -> safe (verdict m md).
Proof. by destruct m. Qed.

Lemma sniff_BitTorrent_safe buffers : safe (sniff_BitTorrent buffers).
Proof.
  unfold sniff_BitTorrent. assert (H : safe (MultiReader_ReadByte buffers)).
  { by induction buffers as [|[|x b] l IH]. }
  destruct (MultiReader_ReadByte buffers) as [[x l]| | |]; try done. destruct (negb _); [done|].
  destruct (MultiReader_Read 19 l) as [p [e|]]; repeat case_match; done.
Qed.

Lemma sniff_RDP_consumes : consumes 0 sniff_RDP.
Proof.
  unfold sniff_RDP, Read_uint8.
  repeat first [apply consumes_ret | apply consumes_bind_0; [|intros ?]];
    first [apply consumes_require | apply consumes_need_more, consumes_SkipN
          | apply consumes_need_more; first [apply (consumes_weaken 0 1), consumes_ReadByte; lia
                                            | apply (consumes_weaken 0 2), consumes_Read_uint16; lia]].
Qed.

Lemma before_newline_skip p l : forallb (fun x => negb (x =? 10)) p = true ->
  before_newline (p ++ l) = option_map (app p) (before_newline l).
Proof.
  induction p as [|x p IH]; cbn; intros H; [by destruct (before_newline l)|]. bsimpl.
  rewrite (proj2 (Z.eqb_neq _ _)) by done. rewrite IH by done. by destruct (before_newline l).
Qed.

Lemma strip_return_length l x : last l = Some x -> x <> 13 -> strip_return l = l.
Proof. intros H Hx. unfold strip_return. rewrite H. by rewrite bool_decide_false by congruence. Qed.

Lemma strip_return_minus l : (length l <= S (length (strip_return l)))%nat.
Proof.
  unfold strip_return. case_bool_decide; [|lia]. destruct l as [|x l]; [done|].
  rewrite removelast_firstn_len, length_take. cbn. lia.
Qed.

Definition sshPrefix : list Z := bytes_of_string "SSH-2.0-".

(** The first line keeps the prefix. *)
Lemma strip_prefix l : (8 <= length (strip_return (sshPrefix ++ l)))%nat.
Proof.
  destruct l as [|x l]; [vm_compute; lia|].
  pose proof (strip_return_minus (sshPrefix ++ x :: l)) as H. rewrite length_app in H. cbn [length] in H.
  change (length sshPrefix) with 8%nat in H. lia.
Qed.

Lemma ReadLine_prefix l : exists line, ReadLine (sshPrefix ++ l) = Ok line /\ (8 <= length line)%nat.
Proof.
  unfold ReadLine, bufio_size. rewrite take_app_ge by (vm_compute; lia).
  rewrite before_newline_skip by done. destruct (before_newline _) as [line|]; cbn [option_map].
  - eexists. split; [done|]. apply strip_prefix.
  - destruct (_ <=? _)%nat.
    + eexists. split; [done|]. apply strip_prefix.
    + exists (sshPrefix ++ l). split; [done|]. rewrite length_app. change (length sshPrefix) with 8%nat. lia.
Qed.

Lemma sniff_SSH_safe data : safe (sniff_SSH data).
Proof.
  unfold sniff_SSH. fold sshPrefix. change (length sshPrefix) with 8%nat.
  destruct (bool_decide _) eqn:E; [|done]. cbn [negb]. destruct (_ <? 8)%nat eqn:E2; [done|]. bsimpl.
  apply Nat.ltb_ge in E2. rewrite (take_ge sshPrefix) in E by (by change (length sshPrefix) with 8%nat).
  rewrite <- (take_drop 8 data), E. destruct (ReadLine_prefix (drop 8 data)) as (line & -> & Hl). cbn [res_bind].
  destruct (slice_from_safe line 8) as (? & ? & _ & _ & ->); [unfold zlen; lia|done].
Qed.

Lemma sniff_DomainNameQuery_safe packet : safe (sniff_DomainNameQuery packet).
Proof. unfold sniff_DomainNameQuery. repeat case_match; done. Qed.

Lemma sniff_StreamDomainNameQuery_safe data : safe (sniff_StreamDomainNameQuery data).
Proof.
  unfold sniff_StreamDomainNameQuery. apply safe_bind.
  - apply (consumes_safe 2), consumes_need_more, consumes_Read_uint16.
  - intros [n l] _. repeat case_match; try done. apply sniff_DomainNameQuery_safe.
Qed.

Lemma stream_verdict_safe s buffers : safe (stream_verdict s buffers).
Proof.
  destruct s; cbn [stream_verdict].
  - unfold sniff_TLSClientHello. repeat case_match; done.
  - unfold sniff_HTTPHost. repeat case_match; done.
  - apply sniff_StreamDomainNameQuery_safe.
  - apply sniff_BitTorrent_safe.
  - apply sniff_SSH_safe.
  - unfold run_reader. apply safe_bind; [apply (consumes_safe 0), sniff_RDP_consumes|by intros [? ?] _].
Qed.

Lemma sniff_stream_safe s md buffers : safe (sniff_stream s md buffers).
Proof. apply verdict_safe, stream_verdict_safe. Qed.

Lemma utp_extensions_safe fuel : forall extension b, (length b < fuel)%nat -> safe (utp_extensions fuel extension b).
Proof.
  induction fuel as [|fuel IH]; intros extension b Hb; [lia|]. cbn [utp_extensions].
  destruct (_ =? 0); [done|]. unfold rbind, Read_uint8, Seek. destruct b as [|x b]; [done|]. cbn [ReadByte res_bind].
  unfold require. destruct (_ <=? _); [|done]. cbn [res_bind]. destruct b as [|n b]; [done|]. cbn [ReadByte res_bind].
  apply IH. rewrite length_drop. cbn in Hb. lia.
Qed.

Lemma uint_in_safe packet i j : 0 <= i <= j -> j <= zlen packet -> exists x, uint_in packet i j = Ok x.
Proof. intros Hi Hj. unfold uint_in. rewrite slice_ok by done. cbn. eauto. Qed.

(** Take the next index or field of a packet known to be long enough. *)
Ltac packet_step :=
  match goal with
  | |- context [index ?l ?i] => let x := fresh "x" in destruct (index_safe l i) as (x & -> & _); [lia|]; cbn [res_bind]
  | |- context [uint_in ?l ?i ?j] => let x := fresh "x" in destruct (uint_in_safe l i j) as [x ->]; [lia|lia|]; cbn [res_bind]
  | |- context [if ?b then _ else _] => destruct b eqn:?; try done
  end.

Lemma sniff_UTP_safe packet : safe (sniff_UTP packet).
Proof.
  unfold sniff_UTP. destruct (_ <? 20) eqn:E; [done|]. bsimpl. repeat packet_step.
  destruct (slice_from_safe packet 20) as (a & b & _ & _ & ->); [lia|]. cbn [res_bind].
  apply safe_bind; [apply utp_extensions_safe; lia|by intros [] _].
Qed.

Lemma sniff_packet_safe packet :
  safe (sniff_UDPTracker packet) /\ safe (sniff_DTLSRecord packet) /\ safe (sniff_NTP packet)
  /\ safe (sniff_STUNMessage packet) /\ safe (sniff_QUICShortHeader packet).
Proof.
  split_and!.
  - unfold sniff_UDPTracker. destruct (_ <? 16) eqn:E; [done|]. bsimpl. repeat packet_step.
  - unfold sniff_DTLSRecord. destruct (_ <? 13) eqn:E; [done|]. bsimpl. repeat packet_step.
  - unfold sniff_NTP. destruct (_ <? 48) eqn:E; [done|]. bsimpl. repeat packet_step.
  - unfold sniff_STUNMessage. destruct (_ <? 20) eqn:E; [done|]. bsimpl. repeat packet_step.
  - unfold sniff_QUICShortHeader. destruct packet as [|x packet]; [done|]. cbn [length Nat.eqb index].
    assert (0 <= 0 < zlen (x :: packet)) by (unfold zlen; cbn; lia). repeat packet_step.
Qed.

(** * Data in pieces *)

(** What more data cannot change: a value read, or an error other than
    [ErrNeedMoreData]. *)
Definition incremental {A} (m : reader A) : Prop := forall p q,
  match m p with
  | Ok (a, rest) => m (p ++ q) = Ok (a, rest ++ q)
  | Err e => is_need_more e = true \/ m (p ++ q) = Err e
  | _ => True
  end.

Lemma incremental_ret {A} (a : A) : incremental (rret a).
Proof. by intros p q. Qed.

Lemma incremental_bind {A B} (m : reader A) (k : A -> reader B) :
  incremental m -> (forall a, incremental (k a)) -> incremental (rbind m k).
Proof.
  intros Hm Hk p q. unfold rbind. specialize (Hm p q). destruct (m p) as [[a r]|e| |]; cbn; auto.
  - rewrite Hm. cbn. apply Hk.
  - destruct Hm as [Hm|Hm]; [by left|right]. by rewrite Hm.
Qed.

Lemma incremental_require b : incremental (require b).
Proof. intros p q. unfold require. destruct b; [done|by right]. Qed.

(** Reads that fail only for lack of data. *)
Lemma incremental_need_more {A} (m : reader A) :
  (forall p q, match m p with Ok (a, r) => m (p ++ q) = Ok (a, r ++ q) | _ => True end) -> incremental (need_more m).
Proof.
  intros H p q. specialize (H p q). unfold need_more. destruct (m p) as [[a r]|e| |]; auto.
  by rewrite H.
Qed.

Lemma incremental_ReadByte : incremental (need_more ReadByte).
Proof. apply incremental_need_more. by intros [|x p] q. Qed.

Lemma ReadFull_more n p q :
  match ReadFull n p with Ok (a, r) => ReadFull n (p ++ q) = Ok (a, r ++ q) | _ => True end.
Proof.
  unfold ReadFull. destruct (_ <? _)%nat eqn:E; [done|]. apply Nat.ltb_ge in E.
  rewrite (proj2 (Nat.ltb_ge _ _)) by (rewrite length_app; lia). by rewrite take_app_le, drop_app_le by lia.
Qed.

Lemma incremental_Read_uint16 : incremental (need_more Read_uint16).
Proof.
  apply incremental_need_more. intros p q. pose proof (ReadFull_more 2 p q) as H. unfold Read_uint16, rmap, rbind.
  destruct (ReadFull 2 p) as [[a r]| | |]; cbn; auto. by rewrite H.
Qed.

Lemma incremental_SkipN n : incremental (need_more (SkipN n)).
Proof.
  apply incremental_need_more. intros p q. unfold SkipN. destruct (_ <? _) eqn:E; [done|]. bsimpl.
  rewrite (proj2 (Z.ltb_ge _ _)) by zlen_solve. rewrite drop_app_le by (unfold zlen in E; lia). done.
Qed.

Lemma incremental_RDP : incremental sniff_RDP.
Proof.
  unfold sniff_RDP, Read_uint8.
  repeat first [apply incremental_ret | apply incremental_bind; [|intros ?]];
    first [apply incremental_require | apply incremental_SkipN | apply incremental_ReadByte | apply incremental_Read_uint16].
Qed.

(** Data that does not begin like [header] will not. *)
Lemma prefix_mismatch n (header p q : list Z) :
  take n p <> take (length (take n p)) header -> take n (p ++ q) <> take (length (take n (p ++ q))) header.
Proof.
  intros Hp Hq. apply Hp. apply (f_equal (take (length (take n p)))) in Hq. rewrite !take_take in Hq.
  rewrite take_app_le in Hq by (rewrite length_take; lia).
  rewrite (Nat.min_l (length (take n p)) n) in Hq by (rewrite length_take; lia).
  rewrite Nat.min_l in Hq by (rewrite !length_take, length_app; lia).
  rewrite <- Hq, length_take.
  destruct (Nat.min_spec n (length p)) as [[? ->]|[? ->]]; [done|]. by rewrite !take_ge by lia.
Qed.

(** What a sniffer said about a prefix it says about the data, up to [R]. *)
Definition stable (R : relation (InboundContext -> InboundContext)) (f : list Z -> res (InboundContext -> InboundContext)) : Prop := forall p q,
  match f p with
  | Ok found => exists g, f (p ++ q) = Ok g /\ R found g
  | Err e => is_need_more e = true \/ exists e', f (p ++ q) = Err e' /\ is_need_more e' = false
  | _ => True
  end.

Lemma stable_run_reader m : incremental m -> stable eq (run_reader m).
Proof.
  intros H p q. specialize (H p q). unfold run_reader. destruct (m p) as [[a r]|e| |]; cbn; auto.
  - rewrite H. cbn. eauto.
  - destruct H as [H|H]; [by left|]. destruct (is_need_more e) eqn:E; [by left|right]. rewrite H. cbn. eauto.
Qed.

Lemma stable_BitTorrent : stable eq (fun data => sniff_BitTorrent [data]).
Proof.
  intros [|x p] q; [by left|]. cbn [app]. unfold sniff_BitTorrent.
  change (MultiReader_ReadByte [x :: p]) with (Ok (x, [p])).
  change (MultiReader_ReadByte [x :: p ++ q]) with (Ok (x, [p ++ q])). cbn beta iota.
  destruct (negb _) eqn:E; [right; by eexists|].
  set (header := bytes_of_string "BitTorrent protocol"). assert (Hh : length header = 19%nat) by done.
  destruct p as [|y p]; [by left|]. unfold MultiReader_Read at 1.
  case_bool_decide as Hp; cbn [negb].
  - destruct (_ <? 19)%nat eqn:E2; [by left|]. apply Nat.ltb_ge in E2. rewrite length_take in E2.
    cbn [app MultiReader_Read]. change (y :: p ++ q) with ((y :: p) ++ q). rewrite take_app_le by lia.
    rewrite bool_decide_true by done. cbn [negb]. rewrite (proj2 (Nat.ltb_ge _ _)) by (rewrite length_take; lia). eauto.
  - right. cbn [app MultiReader_Read]. change (y :: p ++ q) with ((y :: p) ++ q).
    rewrite bool_decide_false by (by apply prefix_mismatch). by eexists.
Qed.

(** The same findings, but for the name of the client. *)
Definition same_but_client (f g : InboundContext -> InboundContext) : Prop := forall c, (f c) <| Client := "" |> = (g c) <| Client := "" |>.

Lemma stable_SSH : stable same_but_client sniff_SSH.
Proof.
  intros p q. unfold sniff_SSH. fold sshPrefix. change (length sshPrefix) with 8%nat.
  case_bool_decide as Hp; cbn [negb].
  - destruct (_ <? 8)%nat eqn:E; [by left|]. apply Nat.ltb_ge in E. rewrite length_take in E.
    rewrite (take_ge sshPrefix) in Hp by (rewrite length_take; change (length sshPrefix) with 8%nat; lia).
    rewrite take_app_le by lia. rewrite bool_decide_true; [|rewrite Hp; done]. cbn [negb].
    rewrite (proj2 (Nat.ltb_ge _ _)) by (rewrite length_take; lia).
    rewrite <- (take_drop 8 p), Hp, <- app_assoc.
    assert (forall l, exists name, (let! fistLine := ReadLine (sshPrefix ++ l) in let! client := slice_from fistLine 8 in
              Ok (fun md => md <| Protocol := ProtocolSSH |> <| Client := string_of_bytes client |>))
                = Ok (fun md => md <| Protocol := ProtocolSSH |> <| Client := name |>)) as H.
    { intros l. destruct (ReadLine_prefix l) as (line & -> & Hl). cbn [res_bind].
      destruct (slice_from_safe line 8) as (? & ? & _ & _ & ->); [unfold zlen; lia|]. cbn. eauto. }
    destruct (H (drop 8 p)) as [name ->], (H (drop 8 p ++ q)) as [name' ->]. eexists. split; [done|]. intros c. by destruct c.
  - right. rewrite bool_decide_false by (by apply prefix_mismatch). by eexists.
Qed.

Lemma byte_more (f : Z -> bool) i (p q : list Z) :
  match p !! i with Some b => f b | None => false end = true ->
  match (p ++ q) !! i with Some b => f b | None => false end = true.
Proof. destruct (p !! i) eqn:E; [|done]. by rewrite (lookup_app_l_Some _ _ _ _ E). Qed.

Lemma dns_header_rejected_more p q : dns_header_rejected p = true -> dns_header_rejected (p ++ q) = true.
Proof.
  unfold dns_header_rejected. rewrite !orb_true_iff. intros [[H|H]|H].
  - left. left. by apply (byte_more (fun b => negb (Z.land b 128 =? 0))).
  - left. right. destruct (p !! 4%nat) eqn:E4, (p !! 5%nat) eqn:E5; try done.
    by rewrite (lookup_app_l_Some _ _ _ _ E4), (lookup_app_l_Some _ _ _ _ E5).
  - right. apply existsb_exists in H as (i & Hi & H). apply existsb_exists. exists i. split; [done|].
    by apply (byte_more (fun b => negb (b =? 0))).
Qed.

Lemma stable_StreamDomainNameQuery : stable eq sniff_StreamDomainNameQuery.
Proof.
  intros p q. unfold sniff_StreamDomainNameQuery. pose proof (incremental_Read_uint16 p q) as H.
  destruct (need_more Read_uint16 p) as [[n l]|e| |]; cbn [res_bind]; [|destruct H as [H|H]|done|done].
  2: { by left. }
  2: { destruct (is_need_more e) eqn:E; [by left|]. right. rewrite H. cbn. eauto. }
  rewrite H. cbn [res_bind]. destruct (n <? 12) eqn:E; [right; by eexists|]. bsimpl.
  assert (Hn : (length l < Z.to_nat n)%nat -> take (Z.to_nat n) (l ++ q) = l ++ take (Z.to_nat n - length l) q).
  { intros Hl. rewrite take_app, (take_ge l) by lia. done. }
  destruct (decide (length l < Z.to_nat n)%nat) as [Hl|Hl].
  - rewrite Hn by done. rewrite (take_ge l) by lia. destruct (dns_header_rejected l) eqn:Er.
    + right. rewrite dns_header_rejected_more by done. by eexists.
    + rewrite (proj2 (Z.ltb_lt _ _)) by (unfold zlen; lia). by left.
  - rewrite take_app_le by lia. destruct (dns_header_rejected _); [right; by eexists|].
    rewrite (proj2 (Z.ltb_ge _ _)) by (unfold zlen; rewrite length_take; lia).
    destruct (sniff_DomainNameQuery _) as [g|e| |]; [eauto| |done|done].
    destruct (is_need_more e) eqn:Em; [by left|eauto].
Qed.

(** The stream sniffers written here, on one buffer. *)
Definition native (s : StreamSniffer) : bool :=
  match s with StreamDomainNameQuery | BitTorrent | SSH | RDP => true | TLSClientHello | HTTPHost => false end.

(** What a native sniffer accepts or rejects it accepts or rejects with more data. *)
Definition same_finding (s : StreamSniffer) : relation (InboundContext -> InboundContext) :=
  match s with SSH => same_but_client | _ => eq end.

Lemma stream_verdict_stable s : native s = true -> stable (same_finding s) (fun d => stream_verdict s [d]).
Proof.
  assert (Hc : forall R f, stable R f -> stable R (fun d => f (concat [d]))).
  { intros R f Hf p q. cbn [concat]. rewrite !app_nil_r. apply Hf. }
  intros Hs. destruct s; try discriminate Hs; cbn [stream_verdict same_finding].
  - apply (Hc eq sniff_StreamDomainNameQuery), stable_StreamDomainNameQuery.
  - apply stable_BitTorrent.
  - apply (Hc same_but_client sniff_SSH), stable_SSH.
  - apply (Hc eq (run_reader sniff_RDP)), stable_run_reader, incremental_RDP.
Qed.

End SniffersProofs.
