(* ===== verification/SniffExamples.v ===== *)
(** An instance of the packages the sniffers use, for evaluations: TLS and HTTP are
    told by their first byte, and the cipher of QUIC leaves the data as it is. *)

From S2P Require Import Prelude NetAddr GoStrings RuleContext Binary Ja3 Ja3Proofs RuleAction Sniffers Quic.

Lemma as_bytes (l : list Z) : Forall is_byte (map u8 l).
Proof. induction l; constructor; [apply wrap_range; lia|done]. Qed.

Lemma null_cipher_length (data plain : list Z) :
  (if (16 <=? length data)%nat then Some (map u8 (take (length data - 16) data)) else None) = Some plain ->
  (length plain + 16 = length data)%nat.
Proof.
  destruct (_ <=? _)%nat eqn:E; [|done]. intros [= <-]. apply Nat.leb_le in E. rewrite length_map, length_take. lia.
Qed.

Lemma null_cipher_bytes (data plain : list Z) :
  (if (16 <=? length data)%nat then Some (map u8 (take (length data - 16) data)) else None) = Some plain -> Forall is_byte plain.
Proof. destruct (_ <=? _)%nat; [|done]. intros [= <-]. apply as_bytes. Qed.

Definition example_sniffers : SnifferEnv := {|
  tls_Handshake b :=
    if negb (default 0 (head b) =? 22) then inr (ENew "unknown protocol")
    else if zlen b <? 4 then inr ErrUnexpectedEOF else inl "";
  http_ReadRequest b := if default 0 (head b) =? 71 then inl "example.org" else inr (ENew "unknown protocol");
  ParseSocksaddr_AddrString host := host;
  dns_Unpack b :=
    if (zlen b <? 12) || (0xc0 =? default 0 (head b)) then inr (ENew "overflow unpacking uint16")
    else inl (128 <=? default 0 (b !! 2%nat), 1%nat, 0%nat, 0%nat);
  hkdf_Extract _ _ := [];
  hkdf_Expand _ _ n := repeat 0 n;
  aes_Encrypt _ _ := repeat 0 16;
  gcm_Open _ _ data _ := if (16 <=? length data)%nat then Some (map u8 (take (length data - 16) data)) else None;
  hkdf_Expand_length _ _ n := repeat_length 0 n;
  aes_Encrypt_length _ _ := eq_refl;
  gcm_Open_length _ _ data _ := null_cipher_length data;
  gcm_Open_bytes _ _ data _ := null_cipher_bytes data;
|}.

(** An initial packet with the frames given, for that cipher. *)
Definition plain_packet (frames : list Z) : list Z :=
  [0xc0] ++ be_split 4 Version1 ++ [1; 9; 0; 0] ++ be_split 2 (0x4000 + (17 + zlen frames)) ++ [0] ++ frames ++ repeat 0 16.
Definition crypto_frame (offset : Z) (payload : list Z) : list Z :=
  [0x06] ++ be_split 2 (0x4000 + offset) ++ be_split 2 (0x4000 + zlen payload) ++ payload.

(** A client hello in two packets. *)
Definition first_packet : list Z := plain_packet (crypto_frame 0 (take 40 (encode_handshake example_hello))).
Definition second_packet : list Z := plain_packet (crypto_frame 40 (drop 40 (encode_handshake example_hello))).

(** The second completes the first, in either order. *)
Definition sniffed_host (packets : list (list Z)) : option (string * string) :=
  match fold_left (fun r p => let! ' (md, c, _) := r in sniff_QUICClientHello (SEnv := example_sniffers) md c p)
          packets (Ok (zeroInboundContext, None, None)) with
  | Ok (md, _, None) => Some (SniffHost md, Client md)
  | _ => None
  end.

Example hello_in_two_packets :
  sniffed_host [first_packet] = None /\ sniffed_host [first_packet; second_packet] = Some ("example.org", "firefox")
  /\ sniffed_host [second_packet; first_packet] = Some ("example.org", "firefox").
Proof. split_and!; vm_compute; reflexivity. Qed.
