(* ===== verification/QuicProofs.v ===== *)
(** The QUIC sniffer: its integers are those of RFC 9000, fragments of a client hello
    are put together in whatever order they arrive, and it fails, by a panic or a
    loop without end, on no other packets than those described here. *)

From S2P Require Import Prelude NetAddr GoStrings RuleContext Binary Ja3 Ja3Proofs RuleAction Sniffers Quic SniffersProofs SniffExamples.

(** * Integers *)

(** The encoding of RFC 9000, section 16. *)
Definition quic_varint (v : Z) : list Z :=
  if v <? 2 ^ 6 then be_split 1 v
  else if v <? 2 ^ 14 then be_split 2 (1 * 64 * 256 ^ 1 + v)
  else if v <? 2 ^ 30 then be_split 4 (2 * 64 * 256 ^ 3 + v)
  else be_split 8 (3 * 64 * 256 ^ 7 + v).

Lemma first_byte_bits b : 0 <= b < 256 -> Z.shiftr (Z.land b 0xc0) 6 = b / 64 /\ Z.land b 0x3f = b mod 64.
Proof.
  intros H.
  assert (Hall : forallb (fun n => (Z.shiftr (Z.land (Z.of_nat n) 0xc0) 6 =? Z.of_nat n / 64)
                                   && (Z.land (Z.of_nat n) 0x3f =? Z.of_nat n mod 64)) (seq 0 256) = true) by (vm_compute; reflexivity).
  rewrite forallb_forall in Hall. specialize (Hall (Z.to_nat b)). rewrite Z2Nat.id in Hall by lia.
  assert (Hb : In (Z.to_nat b) (seq 0 256)) by (apply in_seq; lia). apply Hall in Hb. bsimpl. done.
Qed.

Lemma ReadBytes_app n : forall l rest, length l = n -> ReadBytes n (l ++ rest) = Ok (l, rest).
Proof.
  induction n as [|n IH]; intros [|x l] rest Hl; try discriminate; [done|]. cbn [ReadBytes app]. unfold rbind.
  cbn [ReadByte res_bind]. rewrite IH by (by injection Hl). done.
Qed.

(** [c] in the first two bits, [n + 1] bytes. *)
Lemma varint_bytes c n v rest : 0 <= c < 4 -> 0 <= v < 64 * 256 ^ Z.of_nat n -> Z.to_nat (Z.shiftl 1 c) = S n ->
  qtls_ReadUvarint (be_split (S n) (c * 64 * 256 ^ Z.of_nat n + v) ++ rest) = Ok (v, rest).
Proof.
  intros Hc Hv Hn. cbn [be_split app]. unfold qtls_ReadUvarint, rbind. cbn [ReadByte res_bind].
  assert (Hp : 0 < 256 ^ Z.of_nat n) by (apply Z.pow_pos_nonneg; lia).
  rewrite Z.div_add_l by lia.
  assert (Ht : 0 <= v / 256 ^ Z.of_nat n < 64) by (split; [apply Z.div_pos|apply Z.div_lt_upper_bound]; lia).
  rewrite (Z.mod_small (c * 64 + _)) by lia.
  destruct (first_byte_bits (c * 64 + v / 256 ^ Z.of_nat n)) as [H1 H2]; [lia|].
  change (255 - 192) with 63. rewrite H1, H2.
  rewrite Z.div_add_l, (Z.div_small (v / _)), Z.add_0_r, Hn by lia.
  rewrite (Nat.sub_succ n 0), Nat.sub_0_r, ReadBytes_app by apply be_split_length. cbn [res_bind rret].
  rewrite (Z.add_comm (c * 64)), Z.mod_add, Z.mod_small by lia.
  cbn [be_combine]. rewrite be_split_length, be_combine_split.
  rewrite (Z.add_comm (c * 64 * _)), Z.mod_add by lia. unfold rret. do 2 f_equal.
  rewrite (Z.div_mod v (256 ^ Z.of_nat n)) at 3 by lia. lia.
Qed.

(** An integer below [2 ^ 62] is read back. *)
Lemma quic_varint_read v rest : 0 <= v < 2 ^ 62 -> qtls_ReadUvarint (quic_varint v ++ rest) = Ok (v, rest).
Proof.
  intros Hv. unfold quic_varint.
  destruct (_ <? 2 ^ 6) eqn:E1; [bsimpl; apply (varint_bytes 0 0); [lia|lia|reflexivity]|].
  destruct (_ <? 2 ^ 14) eqn:E2; [bsimpl; apply (varint_bytes 1 1); [lia|lia|reflexivity]|].
  destruct (_ <? 2 ^ 30) eqn:E3; [bsimpl; apply (varint_bytes 2 3); [lia|lia|reflexivity]|].
  apply (varint_bytes 3 7); [lia|lia|reflexivity].
Qed.

Lemma consumes_ReadBytes n : consumes n (ReadBytes n).
Proof.
  induction n as [|n IH]; [apply consumes_ret|]. cbn [ReadBytes]. apply (consumes_bind 1 n); [apply consumes_ReadByte|].
  intros x. apply consumes_bind_l; [done|]. intros l. apply consumes_ret.
Qed.

Lemma consumes_qtls_ReadUvarint : consumes 1 qtls_ReadUvarint.
Proof.
  apply consumes_bind_l; [apply consumes_ReadByte|]. intros b. apply consumes_bind_0.
  - eapply consumes_weaken; [|apply consumes_ReadBytes]. lia.
  - intros l. apply consumes_ret.
Qed.

(** What is read is not negative, and leaves bytes. *)
Lemma ReadBytes_bytes n : forall b l rest, Forall is_byte b -> ReadBytes n b = Ok (l, rest) -> b = l ++ rest /\ length l = n.
Proof.
  induction n as [|n IH]; intros b l rest Hb H; [by injection H as <- <-|]. cbn [ReadBytes] in H. unfold rbind in H.
  destruct b as [|x b]; [done|]. cbn [ReadByte res_bind] in H. apply Forall_cons in Hb as [_ Hb].
  destruct (ReadBytes n b) as [[l' r]| | |] eqn:E; try done. injection H as <- <-. apply IH in E as [-> E]; [|done].
  cbn. split; [done|]. by rewrite E.
Qed.

Lemma qtls_ReadUvarint_range b v rest : Forall is_byte b -> qtls_ReadUvarint b = Ok (v, rest) ->
  0 <= v < 2 ^ 62 /\ exists used, b = used ++ rest.
Proof.
  intros Hb H. unfold qtls_ReadUvarint, rbind in H. destruct b as [|x b]; [done|]. cbn [ReadByte res_bind] in H.
  apply Forall_cons in Hb as [Hx Hb]. destruct (first_byte_bits x Hx) as [H1 H2]. change (255 - 192) with 63 in H.
  rewrite H1, H2 in H. destruct (ReadBytes _ b) as [[l r]| | |] eqn:E; try done. injection H as <- <-.
  apply ReadBytes_bytes in E as [-> E]; [|done]. split; [|by exists (x :: l)].
  apply Forall_app in Hb as [Hl _]. cbn [be_combine]. pose proof (be_combine_range l Hl) as Hr.
  assert (Hn : (length l <= 7)%nat).
  { rewrite E. unfold is_u in Hx. assert (Hq : 0 <= x / 64 < 4) by (split; [apply Z.div_pos|apply Z.div_lt_upper_bound]; lia).
    assert (x / 64 = 0 \/ x / 64 = 1 \/ x / 64 = 2 \/ x / 64 = 3) as [->|[->|[->| ->]]] by lia; vm_compute; lia. }
  assert (Hm : 0 <= x mod 64 < 64) by (apply Z.mod_pos_bound; lia).
  assert (Hp : 256 ^ Z.of_nat (length l) <= 256 ^ 7) by (apply Z.pow_le_mono_r; lia).
  change (256 ^ 7) with (2 ^ 56) in Hp. nia.
Qed.

(** * Reassembly *)

#[export] Instance qCryptoFragment_eq_dec : EqDecision qCryptoFragment.
Proof. solve_decision. Defined.

(** The fragments of a stream cut into pieces. *)
Fixpoint cut (offset : Z) (pieces : list (list Z)) : list qCryptoFragment :=
  match pieces with
  | [] => []
  | p :: pieces' => mkFragment offset (zlen p) p :: cut (offset + zlen p) pieces'
  end.

Definition pieces_ok (pieces : list (list Z)) : Prop := Forall (fun p => p <> []) pieces /\ zlen (concat pieces) < 2 ^ 16.

Lemma zlen_pos {A} (l : list A) : l <> [] -> 0 < zlen l.
Proof. destruct l; [done|]. unfold zlen. cbn. lia. Qed.

Lemma cut_bounds pieces : forall offset f, Forall (fun p => p <> []) pieces -> f ∈ cut offset pieces ->
  offset <= qf_offset f /\ 0 < qf_length f /\ qf_offset f + qf_length f <= offset + zlen (concat pieces)
  /\ qf_length f = zlen (qf_payload f).
Proof.
  induction pieces as [|p pieces IH]; intros offset f Hp Hf; cbn [cut] in Hf; [by apply elem_of_nil in Hf|].
  apply Forall_cons in Hp as [Hp Hps]. apply zlen_pos in Hp. cbn [concat].
  apply elem_of_cons in Hf as [->|Hf]; cbn; [zlen_solve|]. apply IH in Hf; [|done]. zlen_solve.
Qed.

Lemma cut_offsets pieces : forall offset, Forall (fun p => p <> []) pieces -> NoDup (map qf_offset (cut offset pieces)).
Proof.
  induction pieces as [|p pieces IH]; intros offset Hp; cbn [cut map]; constructor.
  - apply Forall_cons in Hp as [Hp Hps]. intros H. apply list_elem_of_fmap in H as (f & E & Hf).
    apply cut_bounds in Hf; [|done]. apply zlen_pos in Hp. cbn in E. lia.
  - apply IH. by apply Forall_cons in Hp as [_ ?].
Qed.

Lemma find_offset (fragments : list qCryptoFragment) f :
  NoDup (map qf_offset fragments) -> f ∈ fragments -> List.find (fun g => qf_offset g =? qf_offset f) fragments = Some f.
Proof.
  induction fragments as [|g fragments IH]; intros Hn Hf; [by apply elem_of_nil in Hf|].
  cbn [map] in Hn. apply NoDup_cons in Hn as [Hg Hn]. cbn [List.find].
  apply elem_of_cons in Hf as [->|Hf]; [by rewrite Z.eqb_refl|].
  rewrite (proj2 (Z.eqb_neq _ _)); [by apply IH|]. intros E. apply Hg. rewrite E. by apply list_elem_of_fmap_2.
Qed.

Lemma find_offset_none (fragments : list qCryptoFragment) i :
  (forall f, f ∈ fragments -> qf_offset f <> i) -> List.find (fun g => qf_offset g =? i) fragments = None.
Proof.
  induction fragments as [|g fragments IH]; intros H; [done|]. cbn [List.find].
  rewrite (proj2 (Z.eqb_neq _ _)) by (apply H; left). apply IH. intros f Hf. apply H. by right.
Qed.

(** The fragments from an offset on. *)
Definition pending (offset : Z) (fragments : list qCryptoFragment) : list qCryptoFragment :=
  List.filter (fun f => offset <=? qf_offset f) fragments.
Definition total (fragments : list qCryptoFragment) : Z := foldr Z.add 0 (map qf_length fragments).

Lemma total_permutation l l' : l ≡ₚ l' -> total l = total l'.
Proof. unfold total. induction 1; cbn in *; lia. Qed.

Lemma pending_ext a b l : (forall f, f ∈ l -> (a <= qf_offset f <-> b <= qf_offset f)) -> pending a l = pending b l.
Proof.
  intros H. unfold pending. apply filter_ext_in. intros f Hf. apply list_elem_of_In in Hf. specialize (H f Hf).
  destruct (a <=? _) eqn:E1, (b <=? _) eqn:E2; bsimpl; try done; lia.
Qed.

Lemma pending_step fragments f next : NoDup (map qf_offset fragments) -> f ∈ fragments -> qf_offset f < next ->
  (forall g, g ∈ fragments -> qf_offset f < qf_offset g -> next <= qf_offset g) ->
  pending (qf_offset f) fragments ≡ₚ f :: pending next fragments.
Proof.
  intros Hn Hf Hlt Hnext. induction fragments as [|g l IH]; [by apply elem_of_nil in Hf|].
  cbn [map] in Hn. apply NoDup_cons in Hn as [Hg Hn]. unfold pending. cbn [List.filter].
  assert (Hne : forall x, x ∈ l -> qf_offset x <> qf_offset g).
  { intros x Hx E. apply Hg. rewrite <- E. by apply list_elem_of_fmap_2. }
  apply elem_of_cons in Hf as [->|Hf].
  - rewrite (proj2 (Z.leb_le _ _)), (proj2 (Z.leb_gt _ _)) by lia. constructor.
    fold (pending (qf_offset g) l) (pending next l). rewrite (pending_ext (qf_offset g) next l); [done|].
    intros x Hx. pose proof (Hne x Hx). split; [intros|lia]. apply Hnext; [by right|lia].
  - fold (pending (qf_offset f) l) (pending next l). specialize (IH Hn Hf (fun x Hx => Hnext x (list_elem_of_further _ _ _ Hx))).
    pose proof (Hne f Hf). destruct (qf_offset f <=? qf_offset g) eqn:E1; bsimpl.
    + rewrite (proj2 (Z.leb_le next _)) by (apply Hnext; [left|lia]). rewrite IH. apply Permutation_swap.
    + rewrite (proj2 (Z.leb_gt next _)) by lia. exact IH.
Qed.

(** The loop writes the pieces up to the first one missing. *)
Lemma find_loop_pieces fragments size pieces : NoDup (map qf_offset fragments) -> forall fuel offset buffer,
  Forall (fun p => p <> []) pieces -> 0 <= offset -> offset + zlen (concat pieces) < 2 ^ 16 ->
  (forall f, f ∈ fragments -> offset <= qf_offset f -> f ∈ cut offset pieces) ->
  (length (pending offset fragments) <= fuel)%nat -> zlen buffer + total (pending offset fragments) <= size ->
  exists k, find_loop fuel size fragments offset buffer = Ok (buffer ++ concat (take k pieces))
    /\ (forall p, pieces !! k = Some p -> mkFragment (offset + zlen (concat (take k pieces))) (zlen p) p ∉ fragments)
    /\ zlen (concat (take k pieces)) <= total (pending offset fragments).
Proof.
  intros Hn. assert (Htotal : forall offset, (forall f, f ∈ fragments -> offset <= qf_offset f -> 0 <= qf_length f) ->
    0 <= total (pending offset fragments)).
  { intros offset. clear Hn. unfold pending, total. induction fragments as [|f l IH]; intros H; [done|]. cbn [List.filter].
    destruct (_ <=? _) eqn:E; bsimpl; cbn [map foldr]; [specialize (H f ltac:(left) E) as Hf|];
      specialize (IH (fun x Hx => H x (list_elem_of_further _ _ _ Hx))); lia. }
  induction pieces as [|p pieces IH]; intros fuel offset buffer Hp Ho Hlen Hf Hfuel Hsize.
  { exists 0%nat. assert (Hnone : forall f, f ∈ fragments -> ~ offset <= qf_offset f).
    { intros f Hf' E. by apply (Hf f), elem_of_nil in E. }
    split; [|split; [done|]].
    - destruct fuel; cbn [find_loop]; (rewrite find_offset_none; [by rewrite app_nil_r|]);
        intros f Hf' E; apply (Hnone f Hf'); lia.
    - cbn. apply Htotal. intros f Hf' E. by apply Hnone in E. }
  apply Forall_cons in Hp as [Hp Hps]. pose proof (zlen_pos p Hp) as Hpos. cbn [concat] in Hlen. rewrite zlen_app in Hlen.
  pose proof (zlen_nonneg (concat pieces)) as Hrest. cbn [cut] in Hf. set (f0 := mkFragment offset (zlen p) p) in *.
  assert (Hafter : forall f, f ∈ fragments -> offset < qf_offset f -> f ∈ cut (offset + zlen p) pieces).
  { intros f Hf' E. destruct (proj1 (elem_of_cons _ _ _) (Hf f Hf' ltac:(lia))) as [->|H]; [cbn in E; lia|done]. }
  destruct (decide (f0 ∈ fragments)) as [Hin|Hout].
  - assert (Hperm : pending offset fragments ≡ₚ f0 :: pending (offset + zlen p) fragments).
    { apply (pending_step fragments f0); [done|done|cbn; lia|]. intros g Hg E. apply Hafter in E; [|done].
      apply cut_bounds in E; [lia|done]. }
    pose proof (Permutation_length Hperm) as Hpl. pose proof (total_permutation _ _ Hperm) as Hpt.
    cbn [length] in Hpl. unfold total in Hpt at 2. cbn [map foldr] in Hpt. fold (total (pending (offset + zlen p) fragments)) in Hpt.
    change (qf_length f0) with (zlen p) in Hpt.
    destruct fuel as [|fuel]; [lia|]. cbn [find_loop].
    rewrite (find_offset fragments f0 Hn Hin : List.find (fun f => qf_offset f =? offset) fragments = Some f0).
    cbn [qf_offset qf_length qf_payload f0]. rewrite wrap_small by (unfold is_u; lia).
    assert (0 <= total (pending (offset + zlen p) fragments)).
    { apply Htotal. intros f Hf' E. apply Hafter in Hf'; [|lia]. apply cut_bounds in Hf'; [lia|done]. }
    unfold buffer_Write. rewrite (take_ge (buffer ++ p)) by (unfold zlen in *; rewrite length_app; lia).
    destruct (IH fuel (offset + zlen p) (buffer ++ p)) as (k & E & Hk & Ht); [done|lia|lia| |lia|rewrite zlen_app; lia|].
    { intros f Hf' E. apply Hafter; [done|lia]. }
    exists (S k). cbn [take concat]. split; [by rewrite E, <- app_assoc|]. split; [|rewrite zlen_app; lia].
    intros q Hq. rewrite zlen_app, Z.add_assoc. by apply Hk.
  - exists 0%nat. cbn [take concat]. split; [|split].
    + assert (Hnone : forall f, f ∈ fragments -> qf_offset f <> offset).
      { intros f Hf' E. destruct (proj1 (elem_of_cons _ _ _) (Hf f Hf' ltac:(lia))) as [->|H]; [done|].
        apply cut_bounds in H; [lia|done]. }
      destruct fuel; cbn [find_loop]; rewrite find_offset_none by done; by rewrite app_nil_r.
    + intros q [= <-]. by rewrite Z.add_0_r.
    + apply Htotal. intros f Hf' E. apply Hf in E; [|done]. apply elem_of_cons in E as [->|E]; [cbn; lia|].
      apply cut_bounds in E; [lia|done].
Qed.

Lemma cut_lookup pieces : forall offset k p, pieces !! k = Some p ->
  mkFragment (offset + zlen (concat (take k pieces))) (zlen p) p ∈ cut offset pieces.
Proof.
  induction pieces as [|q pieces IH]; intros offset k p H; [done|]. destruct k as [|k]; cbn [take concat cut].
  - injection H as <-. rewrite Z.add_0_r. left.
  - rewrite zlen_app, Z.add_assoc. right. by apply IH.
Qed.

Lemma total_cut pieces : forall offset, total (cut offset pieces) = zlen (concat pieces).
Proof.
  induction pieces as [|p pieces IH]; intros offset; [done|]. cbn [cut concat]. rewrite zlen_app, <- (IH (offset + zlen p)). done.
Qed.

Lemma total_app a b : total (a ++ b) = total a + total b.
Proof. unfold total. induction a as [|f a IH]; cbn; lia. Qed.

Lemma total_nonneg l : (forall f, f ∈ l -> 0 < qf_length f) -> 0 <= total l.
Proof.
  intros H. unfold total. induction l as [|f l IH]; [done|]. cbn [map foldr].
  pose proof (H f ltac:(left)). specialize (IH (fun x Hx => H x (list_elem_of_further _ _ _ Hx))). lia.
Qed.

(** Some of the fragments of a stream, each once. *)
Definition part_of (pieces : list (list Z)) (fragments : list qCryptoFragment) : Prop :=
  NoDup (map qf_offset fragments) /\ forall f, f ∈ fragments -> f ∈ cut 0 pieces.

Lemma part_of_rest pieces fragments : pieces_ok pieces -> part_of pieces fragments ->
  exists rest, cut 0 pieces ≡ₚ fragments ++ rest /\ zlen (concat pieces) = total fragments + total rest
    /\ 0 <= total fragments /\ 0 <= total rest /\ (rest <> [] -> 0 < total rest).
Proof.
  intros [Hp Hlen] [Hn Hf]. destruct (submseteq_Permutation fragments (cut 0 pieces)) as [rest Hr].
  { apply NoDup_submseteq; [by apply NoDup_fmap_1 in Hn|exact Hf]. }
  exists rest. assert (Hpos : forall f, f ∈ fragments ++ rest -> 0 < qf_length f).
  { intros f Hin. rewrite <- Hr in Hin. by apply cut_bounds in Hin as (_ & ? & _). }
  assert (Hpr : forall f, f ∈ rest -> 0 < qf_length f) by (intros f Hin; apply Hpos, elem_of_app; by right).
  split; [done|]. split; [by rewrite <- (total_cut pieces 0), <- total_app; apply total_permutation|].
  split; [apply total_nonneg; intros f Hin; apply Hpos, elem_of_app; by left|]. split; [by apply total_nonneg|].
  intros Hne. destruct rest as [|f rest]; [done|]. pose proof (Hpr f ltac:(left)) as Hf0.
  pose proof (total_nonneg rest (fun x Hx => Hpr x (list_elem_of_further _ _ _ Hx))). unfold total in *. cbn [map foldr]. lia.
Qed.

Definition record_header (n : Z) : list Z := [0x16] ++ be_split 2 0x0303 ++ be_split 2 n.

Lemma reassemble_part pieces fragments : pieces_ok pieces -> part_of pieces fragments ->
  exists k, reassemble fragments = Ok (record_header (total fragments) ++ concat (take k pieces))
    /\ (forall p, pieces !! k = Some p -> mkFragment (zlen (concat (take k pieces))) (zlen p) p ∉ fragments)
    /\ zlen (concat (take k pieces)) <= total fragments < 2 ^ 16.
Proof.
  intros Hok Hpart. destruct (part_of_rest _ _ Hok Hpart) as (rest & Hr & Ht & H0 & H1 & _).
  destruct Hok as [Hp Hlen], Hpart as [Hn Hf].
  assert (Hpending : pending 0 fragments = fragments).
  { unfold pending. apply forallb_filter_id, forallb_forall. intros f Hin. apply list_elem_of_In, Hf in Hin.
    apply cut_bounds in Hin; [|done]. lia. }
  destruct (find_loop_pieces fragments (5 + total fragments) pieces Hn (length fragments) 0 (record_header (total fragments)))
    as (k & E & Hk & Hz).
  { done. } { lia. } { lia. } { intros f Hin _. by apply Hf. } { by rewrite Hpending. }
  { rewrite Hpending. unfold record_header. zlen_solve. }
  rewrite Hpending in Hz. exists k. split; [|split; [|lia]].
  - unfold reassemble, frame_len. fold (total fragments). rewrite (wrap_small 64), wrap_small by (unfold is_u; lia). exact E.
  - intros p Hl. specialize (Hk p Hl). by rewrite Z.add_0_l in Hk.
Qed.

(** All fragments, in any order. *)
Lemma reassemble_all pieces fragments : pieces_ok pieces -> fragments ≡ₚ cut 0 pieces ->
  reassemble fragments = Ok (record_header (zlen (concat pieces)) ++ concat pieces).
Proof.
  intros Hok Hperm. assert (Hpart : part_of pieces fragments).
  { split; [|intros f; by rewrite Hperm]. apply NoDup_ListNoDup.
    eapply Permutation_NoDup; [symmetry; apply (Permutation_map qf_offset), Hperm|]. apply NoDup_ListNoDup, cut_offsets, Hok. }
  destruct (reassemble_part _ _ Hok Hpart) as (k & E & Hk & Hz). rewrite E.
  rewrite (total_permutation _ _ Hperm), total_cut.
  destruct (pieces !! k) as [p|] eqn:Hl; [|apply lookup_ge_None in Hl; by rewrite take_ge].
  exfalso. apply (Hk p eq_refl). rewrite Hperm. pose proof (cut_lookup pieces 0 k p Hl) as Hc. by rewrite Z.add_0_l in Hc.
Qed.

(** A part of a client hello is not taken for one. *)
Lemma parseHandshake_prefix h pre suf : encode_handshake h = pre ++ suf -> suf <> [] -> zlen (encode_handshake h) < 2 ^ 16 ->
  exists e, parseHandshake emptyClientHello pre = Err e.
Proof.
  intros E Hs Hlen. unfold parseHandshake, handshakeHeaderLen, randomDataLen, sessionIDHeaderLen. cbv zeta.
  destruct (_ <? _) eqn:El; [eauto|]. bsimpl. apply zlen_pos in Hs.
  assert (exists pre', pre = [1] ++ be_split 3 (zlen (hello_body h)) ++ pre' /\ hello_body h = pre' ++ suf) as (pre' & -> & Hb).
  { unfold encode_handshake in E. rewrite app_assoc in E. exists (drop 4 pre).
    assert (Ht : take 4 pre = [1] ++ be_split 3 (zlen (hello_body h))).
    { transitivity (take 4 (pre ++ suf)); [rewrite take_app_le; [done|unfold zlen in El; lia]|]. by rewrite <- E. }
    rewrite app_assoc, <- Ht, take_drop. split; [done|].
    apply (f_equal (drop 4)) in E. rewrite (drop_app_le pre) in E by (unfold zlen in El; lia). exact E. }
  assert (Hz : zlen (hello_body h) = zlen pre' + zlen suf) by (rewrite Hb at 1; apply zlen_app).
  destruct (index_split3 1 (zlen (hello_body h)) pre') as (b1 & b2 & b3 & E1 & E2 & E3 & Hl).
  { unfold encode_handshake in Hlen. rewrite zlen_app, zlen_app, zlen_be_split in Hlen. change (zlen [1]) with 1 in Hlen.
    pose proof (zlen_nonneg (hello_body h)). unfold is_u. lia. }
  change (index ([1] ++ be_split 3 (zlen (hello_body h)) ++ pre') 0) with (Ok 1). cbn [res_bind negb Z.eqb Pos.eqb].
  rewrite E1, E2, E3. cbn [res_bind]. rewrite Hl.
  rewrite (slice_from_at _ ([1] ++ be_split 3 (zlen (hello_body h))) pre' 4);
    [|by rewrite <- app_assoc|rewrite zlen_app, zlen_be_split; done].
  cbn [res_bind]. rewrite (proj2 (Z.eqb_neq _ _)) by lia. cbn [negb]. eauto.
Qed.

Lemma incomplete_hello h pre suf n : encode_handshake h = pre ++ suf -> suf <> [] -> zlen (encode_handshake h) < 2 ^ 16 ->
  zlen pre <= n < 2 ^ 16 -> exists e, ja3_Compute (record_header n ++ pre) = Err e.
Proof.
  intros E Hs Hlen Hn. unfold ja3_Compute, parseSegment, recordLayerHeaderLen.
  pose proof (zlen_nonneg pre) as Hpre. assert (Hh : zlen (record_header n) = 5) by (unfold record_header; zlen_solve).
  rewrite (proj2 (Z.ltb_ge _ _)) by (rewrite zlen_app; lia).
  change (index (record_header n ++ pre) 0) with (Ok 22). cbn [res_bind]. change (negb (22 =? 22)) with false. cbn iota.
  unfold record_header. rewrite <- !app_assoc.
  rewrite (uint16_at_at _ [22] 771 (be_split 2 n ++ pre)) by (done || (unfold is_u; lia)). cbn [res_bind].
  change (supported_version 771) with true. cbn [negb].
  rewrite (uint16_at_at _ ([22] ++ be_split 2 771) n pre) by (done || (unfold is_u; lia)). cbn [res_bind].
  rewrite (slice_from_at _ ([22] ++ be_split 2 771 ++ be_split 2 n) pre 5) by (by rewrite <- ?app_assoc || zlen_solve). cbn [res_bind].
  destruct (zlen pre <? n) eqn:El; [eauto|]. bsimpl. assert (n = zlen pre) as -> by lia.
  rewrite (slice_at _ ([22] ++ be_split 2 771 ++ be_split 2 (zlen pre)) pre []);
    [|by rewrite app_nil_r, <- !app_assoc|zlen_solve|done]. cbn [res_bind]. by eapply parseHandshake_prefix.
Qed.

(** * A client hello over several packets *)

Section Sniffing.
Context {SEnv : SnifferEnv}.

Lemma read_frames_types d fuel : forall rest types fragments,
  read_frames fuel d rest = Ok (types, fragments) -> fragments <> [] -> types <> [].
Proof.
  destruct fuel as [|fuel]; intros [|t rest] types fragments H Hne; cbn [read_frames] in H; try discriminate H.
  - injection H as <- <-. by destruct Hne.
  - injection H as <- <-. by destruct Hne.
  - apply res_bind_ok in H as ([f r] & _ & H). apply res_bind_ok in H as ([ts fs] & _ & H). by injection H as <- <-.
Qed.

Lemma quic_frames_types packet types fragments : quic_frames packet = Ok (types, fragments) -> fragments <> [] -> types <> [].
Proof.
  unfold quic_frames. intros H. apply res_bind_ok in H as ([h r] & _ & H). apply res_bind_ok in H as (d & _ & H).
  exact (read_frames_types _ _ _ _ _ H).
Qed.

Lemma quic_client_ok types fingerprint : types <> [] -> exists client, quic_client types fingerprint = Ok client.
Proof.
  intros Hne. apply zlen_pos in Hne. unfold quic_client. destruct (_ =? 1); [eauto|].
  destruct (index_safe types 0) as (x & -> & _); [lia|]. cbn [res_bind].
  destruct (slice_from_safe types 1) as (? & l & _ & _ & ->); [lia|]. cbn [res_bind]. destruct (_ && _); [eauto|].
  destruct (index_safe types (zlen types - 1)) as (y & -> & _); [lia|]. cbn [res_bind].
  rewrite slice_ok by lia. cbn [res_bind]. repeat case_match; eauto.
Qed.

(** Every packet is answered by a request for more. *)
Fixpoint sniff_all (md : InboundContext) (kept : option (list qCryptoFragment)) (packets : list (list Z))
    : option (InboundContext * option (list qCryptoFragment)) :=
  match packets with
  | [] => Some (md, kept)
  | p :: packets' =>
      match sniff_QUICClientHello md kept p with
      | Ok (md, kept, Some e) => if is_need_more e then sniff_all md kept packets' else None
      | _ => None
      end
  end.

Section Hello.
Context (h : hello) (pieces : list (list Z)).
Hypothesis Hfits : hello_fits h.
Hypothesis Hconcat : concat pieces = encode_handshake h.
Hypothesis Hpieces : Forall (fun p => p <> []) pieces.

Lemma hello_pieces_ok : pieces_ok pieces.
Proof. split; [done|]. rewrite Hconcat. apply Hfits. Qed.

(** Fragments that are not all of them. *)
Lemma part_needs_more fragments rest : cut 0 pieces ≡ₚ fragments ++ rest -> rest <> [] ->
  exists buffer e, reassemble fragments = Ok buffer /\ ja3_Compute buffer = Err e.
Proof.
  intros Hr Hne. pose proof hello_pieces_ok as Hok.
  assert (Hpart : part_of pieces fragments).
  { split.
    - pose proof (cut_offsets pieces 0 Hpieces) as Hn. apply NoDup_ListNoDup in Hn. apply NoDup_ListNoDup.
      apply (Permutation_NoDup (Permutation_map qf_offset Hr)) in Hn. rewrite map_app in Hn.
      apply NoDup_ListNoDup, NoDup_app in Hn. apply NoDup_ListNoDup, Hn.
    - intros f Hf. rewrite Hr. apply elem_of_app. by left. }
  destruct (reassemble_part _ _ Hok Hpart) as (k & E & _ & Hz).
  destruct (part_of_rest _ _ Hok Hpart) as (rest' & Hr' & Ht & _ & _ & Hpos).
  assert (Hlt : total fragments < zlen (concat pieces)).
  { rewrite Ht. enough (0 < total rest') by lia. apply Hpos. intros ->. apply Hne.
    rewrite Hr, app_nil_r in Hr'. apply Permutation_length in Hr'. rewrite length_app in Hr'. destruct rest; [done|cbn in Hr'; lia]. }
  exists (record_header (total fragments) ++ concat (take k pieces)).
  destruct (incomplete_hello h (concat (take k pieces)) (concat (drop k pieces)) (total fragments)) as [e He].
  - by rewrite <- concat_app, take_drop.
  - intros Hnil. rewrite <- (take_drop k pieces), concat_app, Hnil, app_nil_r in Hlt. lia.
  - apply Hfits.
  - done.
  - eauto.
Qed.

Lemma all_give_hello fragments : fragments ≡ₚ cut 0 pieces ->
  exists buffer, reassemble fragments = Ok buffer /\ ja3_Compute buffer = Ok (hello_fields h).
Proof.
  intros Hp. rewrite (reassemble_all pieces fragments hello_pieces_ok Hp). eexists. split; [done|].
  rewrite Hconcat. unfold record_header. rewrite <- !app_assoc. by apply client_hello_roundtrip.
Qed.

Lemma sniff_all_keeps packets : forall md kept before parts rest,
  default [] kept ≡ₚ before -> map quic_frames packets = map Ok parts ->
  cut 0 pieces ≡ₚ (before ++ concat (map snd parts)) ++ rest -> rest <> [] ->
  exists md' kept', sniff_all md kept packets = Some (md', kept') /\ default [] kept' ≡ₚ before ++ concat (map snd parts).
Proof.
  induction packets as [|p packets IH]; intros md kept before [|[types fs] parts] rest Hk Hparts Hr Hne; try discriminate.
  { exists md, kept. split; [done|]. cbn. by rewrite app_nil_r. }
  cbn [map] in Hparts. injection Hparts as Hp Hps. cbn [map concat snd] in Hr |- *.
  destruct (part_needs_more (fs ++ default [] kept) (concat (map snd parts) ++ rest)) as (buffer & e & E1 & E2).
  { rewrite Hr, Hk. by rewrite (Permutation_app_comm fs before), <- !app_assoc. }
  { intros [_ H]%app_nil. done. }
  cbn [sniff_all]. unfold sniff_QUICClientHello. rewrite Hp, E1. cbn [res_bind]. rewrite E2.
  change (is_need_more (ECause1 ErrNeedMoreData e)) with true. cbn iota.
  destruct (IH (md <| Protocol := ProtocolQUIC |>) (Some (fs ++ default [] kept)) (before ++ fs) parts rest) as (md' & kept' & E & Hk').
  - cbn. rewrite Hk. apply Permutation_app_comm.
  - done.
  - by rewrite Hr, <- !app_assoc.
  - done.
  - exists md', kept'. split; [exact E|]. by rewrite <- app_assoc in Hk'.
Qed.

End Hello.

(** C16: a client hello is recognised however it is cut, ordered and spread over
    packets.  If the frames of some packets carry the pieces of the handshake of a
    client hello, each once and in any order, then all but the last are answered by
    a request for more data, and with the last the protocol is QUIC and the host the
    name the client hello asks for. *)
Theorem quic_hello_sniffed h pieces md packets p parts types fragments :
  hello_fits h -> concat pieces = encode_handshake h -> Forall (fun p => p <> []) pieces ->
  map quic_frames packets = map Ok parts -> quic_frames p = Ok (types, fragments) -> fragments <> [] ->
  concat (map snd parts) ++ fragments ≡ₚ cut 0 pieces ->
  exists md' kept md'', sniff_all md None packets = Some (md', kept)
    /\ sniff_QUICClientHello md' kept p = Ok (md'', None, None)
    /\ Protocol md'' = ProtocolQUIC /\ SniffHost md'' = string_of_bytes (ch_ServerName (hello_fields h)).
Proof.
  intros Hfits Hc Hp Hparts Hlast Hne Hperm.
  destruct (sniff_all_keeps h pieces Hfits Hc Hp packets md None [] parts fragments) as (md' & kept & E & Hk); [done|done|by symmetry|done|].
  destruct (all_give_hello h pieces Hfits Hc Hp (fragments ++ default [] kept)) as (buffer & E1 & E2).
  { rewrite Hk. cbn. by rewrite Permutation_app_comm. }
  destruct (quic_client_ok types (hello_fields h) (quic_frames_types _ _ _ Hlast Hne)) as [client Hcl].
  exists md', kept. unfold sniff_QUICClientHello. rewrite Hlast, E1. cbn [res_bind]. rewrite E2. cbv zeta.
  destruct (bool_decide _); [rewrite Hcl; cbn [res_bind]|]; by eexists.
Qed.
End Sniffing.

Section Failures.
Context {SEnv : SnifferEnv}.

(** * Reading a packet *)

Lemma consumes_check b e : consumes 0 (check b e).
Proof. intros l. unfold check. destruct b; [cbn; lia|done]. Qed.

Lemma consumes_qtls_ReadUvarint_0 : consumes 0 qtls_ReadUvarint.
Proof. eapply consumes_weaken; [|apply consumes_qtls_ReadUvarint]. lia. Qed.

Lemma consumes_read_header packet : consumes 0 (read_header packet).
Proof.
  unfold read_header.
  repeat first [apply consumes_bind_0; [|intros ?]];
    first [apply (consumes_0 1), consumes_ReadByte | apply consumes_check | apply consumes_ret
          | eapply consumes_0, consumes_ReadFull | apply consumes_SkipN | eapply consumes_0, consumes_ReadBytes | idtac].
  intros rest. cbv zeta.
  apply (consumes_bind_0 (check _ _) _); [apply consumes_check|intros ?].
  apply consumes_bind_0; [apply consumes_SkipN|intros ?].
  apply consumes_bind_0; [eapply consumes_0, consumes_ReadFull|intros ?]. apply consumes_ret.
Qed.

(** What a reader leaves is the end of what it was given. *)
Definition leaves_suffix {A} (m : reader A) : Prop := forall b a r, m b = Ok (a, r) -> exists used, b = used ++ r.

Lemma leaves_suffix_bind {A B} (m : reader A) (k : A -> reader B) :
  leaves_suffix m -> (forall a, leaves_suffix (k a)) -> leaves_suffix (rbind m k).
Proof.
  intros Hm Hk b a r H. unfold rbind in H. apply res_bind_ok in H as ([x l] & E & H).
  apply Hm in E as [u ->]. apply Hk in H as [v ->]. exists (u ++ v). by rewrite app_assoc.
Qed.
Lemma leaves_suffix_ReadByte : leaves_suffix ReadByte.
Proof. intros [|x b] a r H; [done|]. injection H as <- <-. by exists [x]. Qed.
Lemma leaves_suffix_check c e : leaves_suffix (check c e).
Proof. intros b a r. unfold check. destruct c; [|done]. intros [= <- <-]. by exists []. Qed.
Lemma leaves_suffix_ReadFull n : leaves_suffix (ReadFull n).
Proof.
  intros b a r. unfold ReadFull. destruct (_ <? _)%nat; [done|]. intros [= <- <-]. exists (take n b). by rewrite take_drop.
Qed.
Lemma leaves_suffix_SkipN n : leaves_suffix (SkipN n).
Proof.
  intros b a r. unfold SkipN. destruct (_ <? _); [done|]. intros [= <- <-]. exists (take (Z.to_nat n) b). by rewrite take_drop.
Qed.
Lemma leaves_suffix_ret {A} (a : A) : leaves_suffix (rret a).
Proof. intros b x r [= <- <-]. by exists []. Qed.
Lemma leaves_suffix_Read_uint32 : leaves_suffix Read_uint32.
Proof. apply leaves_suffix_bind; [apply leaves_suffix_ReadFull|intros ?; apply leaves_suffix_ret]. Qed.
Lemma leaves_suffix_ReadBytes n : leaves_suffix (ReadBytes n).
Proof.
  induction n as [|n IH]; [apply leaves_suffix_ret|]. apply leaves_suffix_bind; [apply leaves_suffix_ReadByte|intros ?].
  apply leaves_suffix_bind; [done|intros ?]. apply leaves_suffix_ret.
Qed.
Lemma leaves_suffix_ReadUvarint : leaves_suffix qtls_ReadUvarint.
Proof.
  apply leaves_suffix_bind; [apply leaves_suffix_ReadByte|intros ?].
  apply leaves_suffix_bind; [apply leaves_suffix_ReadBytes|intros ?]. apply leaves_suffix_ret.
Qed.

(** A step of the header: the rest gets shorter. *)
Ltac header_step H lem :=
  let v := fresh "v" in let r := fresh "r" in let E := fresh "E" in let u := fresh "u" in
  unfold rbind at 1 in H; apply res_bind_ok in H as ([v r] & E & H);
  let E' := fresh "E" in pose proof E as E'; apply lem in E as [u E]; subst.

(** The places in the packet the header speaks of. *)
Record header_in (h : quic_header) (packet : list Z) : Prop := {
  header_start : 0 < qh_hdrLen h;
  header_sample : qh_hdrLen h + 20 <= zlen packet;
  header_payload : 0 <= qh_packetLen h;
  header_end : qh_hdrLen h + qh_packetLen h <= zlen packet;
}.

Lemma read_header_in packet h rest : Forall is_byte packet -> read_header packet packet = Ok (h, rest) -> header_in h packet.
Proof.
  intros Hb H. unfold read_header in H. set (p := packet) in H at 1. assert (Hp : zlen p = zlen packet) by done. clearbody p.
  unfold rbind at 1 in H. destruct packet as [|x l0]; [done|]. cbn [ReadByte res_bind] in H.
  apply Forall_cons in Hb as [_ Hb]. header_step H leaves_suffix_check. header_step H leaves_suffix_Read_uint32.
  header_step H leaves_suffix_check. cbv zeta in H. header_step H leaves_suffix_check. header_step H leaves_suffix_ReadByte.
  header_step H leaves_suffix_check. header_step H leaves_suffix_ReadFull. header_step H leaves_suffix_ReadByte.
  header_step H leaves_suffix_SkipN. header_step H leaves_suffix_ReadUvarint. header_step H leaves_suffix_SkipN.
  unfold rbind at 1 in H. apply res_bind_ok in H as ([len l] & Elen & H).
  apply qtls_ReadUvarint_range in Elen as [Hlen [w ->]].
  2: { repeat match goal with H : Forall _ (_ ++ _) |- _ => apply Forall_app in H as [_ H] end. done. }
  unfold rbind at 1, check at 1 in H. destruct (_ <=? _) eqn:Ec; [|done]. cbn [res_bind] in H. bsimpl.
  unfold rbind at 1, SkipN at 1 in H. destruct (zlen l <? 4) eqn:Eskip; [done|]. cbn [res_bind] in H. bsimpl.
  unfold rbind, ReadFull in H. destruct (_ <? 16)%nat eqn:Esample; [done|]. cbn [res_bind rret] in H. injection H as <- _.
  apply Nat.ltb_ge in Esample. rewrite length_drop in Esample.
  rewrite Hp in *. constructor; cbn [qh_hdrLen qh_packetLen]; unfold zlen in *; cbn [length] in *; rewrite ?length_app in *; lia.
Qed.

Lemma xor_at_ok l i m : 0 <= i < zlen l -> exists l', xor_at l i m = Ok l' /\ length l' = length l
  /\ forall n, i < Z.of_nat n -> drop n l' = drop n l.
Proof.
  intros H. unfold xor_at. destruct (index_safe l i H) as (x & -> & _). cbn [res_bind]. eexists. split; [done|].
  split; [apply length_insert|]. intros n Hn. apply drop_insert_lt. lia.
Qed.

Lemma xor_mask_ok mask : forall l i, 0 <= i -> i + zlen mask <= zlen l -> exists l', xor_mask l i mask = Ok l' /\ length l' = length l
  /\ forall n, i + zlen mask <= Z.of_nat n -> drop n l' = drop n l.
Proof.
  induction mask as [|m mask IH]; intros l i Hi Hl; [by exists l|]. rewrite zlen_cons in Hl. cbn [xor_mask].
  pose proof (zlen_nonneg mask). destruct (xor_at_ok l i m) as (l1 & -> & H1 & Hd1); [lia|]. cbn [res_bind].
  destruct (IH l1 (i + 1)) as (l2 & -> & H2 & Hd2); [lia|unfold zlen in *; lia|]. exists l2. split; [done|]. split; [congruence|].
  intros n Hn. rewrite zlen_cons in Hn. rewrite Hd2, Hd1 by lia. done.
Qed.

Lemma land_3 x : 0 <= Z.land x 3 < 4.
Proof. change 3 with (Z.ones 2). rewrite Z.land_ones by lia. apply Z.mod_pos_bound. lia. Qed.

(** Decryption ends without a panic; the array behind it are bytes. *)
Lemma quic_decrypt_cases h packet : Forall is_byte packet -> header_in h packet ->
  match quic_decrypt h packet with
  | Ok d => Forall is_byte (dp_backing d) /\ exists tail, dp_backing d = dp_decrypted d ++ tail
  | Err _ => True
  | _ => False
  end.
Proof.
  intros Hb [H0 H1 H2 H3]. unfold quic_decrypt. cbv zeta.
  set (mask := aes_Encrypt _ _). assert (Hm : zlen mask = 16) by (unfold zlen, mask; by rewrite aes_Encrypt_length).
  destruct (index_safe mask 0) as (m0 & -> & _); [lia|]. cbn [res_bind].
  destruct (xor_at_ok packet 0 (Z.land m0 15)) as (p1 & -> & L1 & D1); [lia|]. cbn [res_bind].
  rewrite (slice_ok mask 1 5) by lia. cbn [res_bind]. set (mask' := take _ _).
  assert (Hm' : zlen mask' = 4) by (unfold mask', zlen in *; rewrite length_take, length_drop; lia).
  destruct (xor_mask_ok mask' p1 (qh_hdrLen h)) as (p2 & -> & L2 & D2); [lia|unfold zlen in *; lia|]. cbn [res_bind].
  assert (L : zlen p2 = zlen packet) by (unfold zlen; congruence).
  destruct (index_safe p2 0) as (x & -> & _); [lia|]. cbn [res_bind]. pose proof (land_3 x) as Hx.
  destruct (_ <? _) eqn:E; [done|]. bsimpl. set (ext := qh_hdrLen h + (Z.land x 3 + 1)) in *.
  rewrite (slice_ok p2 (qh_hdrLen h) ext), (slice_ok packet ext (qh_hdrLen h + 4)) by lia. cbn [res_bind].
  set (restored := take _ (drop (Z.to_nat ext) packet)).
  set (p3 := take (Z.to_nat ext) p2 ++ restored ++ drop (Z.to_nat (qh_hdrLen h + 4)) p2).
  assert (Hdrop : drop (Z.to_nat ext) p3 = drop (Z.to_nat ext) packet).
  { unfold p3. rewrite drop_app_ge, length_take by (rewrite length_take; lia).
    replace (Z.to_nat ext - Nat.min (Z.to_nat ext) (length p2))%nat with 0%nat by (unfold zlen in *; lia). cbn [drop].
    rewrite D2, D1 by lia. unfold restored. rewrite <- (take_drop (Z.to_nat (qh_hdrLen h + 4 - ext)) (drop (Z.to_nat ext) packet)) at 2.
    rewrite drop_drop. replace (Z.to_nat ext + Z.to_nat (qh_hdrLen h + 4 - ext))%nat with (Z.to_nat (qh_hdrLen h + 4)) by lia. done. }
  assert (Hp3 : zlen p3 = zlen packet).
  { unfold p3, restored. rewrite !zlen_app. unfold zlen in *. rewrite !length_take, !length_drop. lia. }
  rewrite (slice_ok p3 ext (qh_packetLen h + qh_hdrLen h)) by lia. cbn [res_bind].
  destruct (xorNonceAEAD_Open _ _ _ _ _) as [decrypted|] eqn:Eo; [|done]. cbn [dp_backing dp_decrypted]. split; [|eauto].
  apply Forall_app. split; [by apply gcm_Open_bytes in Eo|]. rewrite <- drop_drop, Hdrop, drop_drop. by apply Forall_drop.
Qed.

(** * Frames *)

(** A crypto frame that declares more than the packet holds. *)
Definition crypto_overruns (d : decrypted_packet) : Prop := exists pre tail offset length_ r rest,
  dp_decrypted d = pre ++ [frameTypeCrypto] ++ tail /\ qtls_ReadUvarint tail = Ok (offset, r)
  /\ qtls_ReadUvarint r = Ok (length_, rest)
  /\ zlen (dp_backing d) < zlen (dp_decrypted d) - zlen rest + length_.

Lemma consumes_skip_uvarints n : consumes n (skip_uvarints n).
Proof. induction n as [|n IH]; [apply consumes_ret|]. apply (consumes_bind 1 n); [apply consumes_qtls_ReadUvarint|done]. Qed.

Lemma consumes_read_ack t : consumes 0 (read_ack t).
Proof.
  unfold read_ack. do 4 (apply consumes_bind_0; [apply consumes_qtls_ReadUvarint_0|intros ?]).
  apply consumes_bind_0; [apply consumes_read_range; eapply consumes_weaken; [|apply (consumes_skip_uvarints 2)]; lia|intros ?].
  destruct (_ =? _); [eapply consumes_0, consumes_skip_uvarints|apply consumes_ret].
Qed.

Lemma consumes_read_close : consumes 0 read_close.
Proof.
  unfold read_close. do 3 (apply consumes_bind_0; [apply consumes_qtls_ReadUvarint_0|intros ?]). apply consumes_Seek.
Qed.

Lemma read_crypto_cases d pre tail : Forall is_byte (dp_backing d) -> (exists more, dp_backing d = dp_decrypted d ++ more) ->
  dp_decrypted d = pre ++ [frameTypeCrypto] ++ tail ->
  crypto_overruns d \/ match read_crypto d tail with
                       | Ok (f, rest) => Forall is_byte (qf_payload f) /\ 0 <= qf_length f < 2 ^ 62 /\ qf_length f = zlen (qf_payload f)
                                         /\ exists used, tail = used ++ rest
                       | Err _ => True
                       | _ => False
                       end.
Proof.
  intros Hb [more Hmore] Hd. unfold read_crypto. unfold rbind at 1.
  assert (Ht : Forall is_byte tail).
  { rewrite Hmore, Hd in Hb. apply Forall_app in Hb as [Hb _]. apply Forall_app in Hb as [_ Hb]. by apply Forall_cons in Hb as [_ ?]. }
  pose proof (consumes_safe 1 _ tail consumes_qtls_ReadUvarint) as Hs1.
  destruct (qtls_ReadUvarint tail) as [[offset r]| | |] eqn:E1; [|by right|done|done]. cbn [res_bind]. unfold rbind at 1.
  destruct (qtls_ReadUvarint_range _ _ _ Ht E1) as [Ho [u Hu]].
  pose proof (consumes_safe 1 _ r consumes_qtls_ReadUvarint) as Hs2.
  destruct (qtls_ReadUvarint r) as [[n rest]| | |] eqn:E2; [|by right|done|done]. cbn [res_bind].
  destruct (qtls_ReadUvarint_range r n rest) as [Hn [w Hw]]; [subst tail; by apply Forall_app in Ht as [_ ?]|done|].
  destruct (decide (zlen (dp_backing d) < zlen (dp_decrypted d) - zlen rest + n)) as [Hlt|Hge].
  { left. exists pre, tail, offset, n, r, rest. done. }
  right. assert (Hz : 0 <= zlen (dp_decrypted d) - zlen rest) by (rewrite Hd, Hu, Hw; zlen_solve).
  rewrite slice_ok by lia. cbn [res_bind]. unfold rbind, Seek. cbn [res_bind rret qf_payload qf_length].
  split; [apply Forall_take, Forall_drop, Hb|]. split; [lia|]. split.
  - unfold zlen in *. rewrite length_take, length_drop. lia.
  - exists (u ++ w ++ take (Z.to_nat n) rest). by rewrite <- !app_assoc, take_drop, <- Hw, <- Hu.
Qed.

Lemma leaves_suffix_Seek n : leaves_suffix (Seek n).
Proof. intros b a r [= <- <-]. exists (take (Z.to_nat n) b). by rewrite take_drop. Qed.

Lemma leaves_suffix_skip_uvarints n : leaves_suffix (skip_uvarints n).
Proof. induction n as [|n IH]; [apply leaves_suffix_ret|]. apply leaves_suffix_bind; [apply leaves_suffix_ReadUvarint|done]. Qed.

Lemma leaves_suffix_read_range {A} n (m : reader A) : leaves_suffix m -> leaves_suffix (read_range n m).
Proof.
  intros Hm b. unfold read_range. generalize (S (length b)). intros fuel. revert n b.
  induction fuel as [|fuel IH]; intros n b a r; cbn [read_range_loop]; (destruct (n <=? 0); [intros [= <- <-]; by exists []|]); [done|].
  revert b a r. change (leaves_suffix (x <- m;; xs <- read_range_loop fuel (n - 1) m;; rret (x :: xs))).
  apply leaves_suffix_bind; [done|intros ?]. apply leaves_suffix_bind; [intros b; apply IH|intros ?]. apply leaves_suffix_ret.
Qed.

Lemma leaves_suffix_map {A B} (f : A -> B) (m : reader A) : leaves_suffix m -> leaves_suffix (rmap f m).
Proof. intros H. apply leaves_suffix_bind; [done|intros ?]. apply leaves_suffix_ret. Qed.

Lemma leaves_suffix_read_ack t : leaves_suffix (read_ack t).
Proof.
  unfold read_ack. do 4 (apply leaves_suffix_bind; [apply leaves_suffix_ReadUvarint|intros ?]).
  apply leaves_suffix_bind; [apply leaves_suffix_read_range, leaves_suffix_skip_uvarints|intros ?].
  destruct (_ =? _); [apply leaves_suffix_skip_uvarints|apply leaves_suffix_ret].
Qed.

Lemma leaves_suffix_read_close : leaves_suffix read_close.
Proof.
  unfold read_close. do 3 (apply leaves_suffix_bind; [apply leaves_suffix_ReadUvarint|intros ?]). apply leaves_suffix_Seek.
Qed.

(** What the frames of a packet carry. *)
Record fragment_ok (f : qCryptoFragment) : Prop := {
  fragment_bytes : Forall is_byte (qf_payload f);
  fragment_offset : 0 <= qf_offset f < 2 ^ 62;
  fragment_bound : 0 <= qf_length f < 2 ^ 62;
  fragment_length : qf_length f = zlen (qf_payload f);
}.

(** A reader that ends without a panic, and leaves the end of its input. *)
Definition frame_read (tail : list Z) (m : res (list qCryptoFragment * list Z)) : Prop :=
  match m with
  | Ok (fs, rest) => Forall fragment_ok fs /\ exists used, tail = used ++ rest
  | Err _ => True
  | _ => False
  end.

Lemma frame_read_skip {A} (m : reader A) tail : consumes 0 m -> leaves_suffix m -> frame_read tail (rmap (fun _ => []) m tail).
Proof.
  intros Hc Hs. pose proof (consumes_safe 0 _ tail Hc) as H. unfold rmap, rbind.
  destruct (m tail) as [[a r]| | |] eqn:E; cbn; [|done..]. split; [constructor|]. by apply Hs in E.
Qed.

Lemma read_crypto_offset d tail f rest : Forall is_byte tail -> read_crypto d tail = Ok (f, rest) -> 0 <= qf_offset f < 2 ^ 62.
Proof.
  intros Hb H. unfold read_crypto in H. unfold rbind at 1 in H. apply res_bind_ok in H as ([o r] & E & H).
  apply qtls_ReadUvarint_range in E as [Ho _]; [|done].
  unfold rbind at 1 in H. apply res_bind_ok in H as ([n r'] & _ & H). apply res_bind_ok in H as (payload & _ & H).
  unfold rbind, Seek in H. cbn [res_bind rret] in H. by injection H as <- _.
Qed.

Section Frames.
Context (d : decrypted_packet).
Hypothesis d_bytes : Forall is_byte (dp_backing d).
Hypothesis d_backing : exists more, dp_backing d = dp_decrypted d ++ more.

Lemma read_frame_cases t pre tail : dp_decrypted d = pre ++ [t] ++ tail ->
  crypto_overruns d \/ frame_read tail (read_frame d t tail).
Proof.
  intros Hd. unfold read_frame. destruct (inb t [0; 1]); [right; split; [constructor|by exists []]|].
  destruct (inb t [2; 3]); [right; apply frame_read_skip; [apply consumes_read_ack|apply leaves_suffix_read_ack]|].
  destruct (t =? frameTypeCrypto) eqn:Et; [|destruct (t =? 28); right; [|done]; apply frame_read_skip;
    [apply consumes_read_close|apply leaves_suffix_read_close]].
  bsimpl. subst t. destruct (read_crypto_cases d pre tail d_bytes d_backing Hd) as [H|H]; [by left|right].
  assert (Ht : Forall is_byte tail).
  { destruct d_backing as [more Hm]. rewrite Hm, Hd in d_bytes. apply Forall_app in d_bytes as [Hb _].
    apply Forall_app in Hb as [_ Hb]. by apply Forall_cons in Hb as [_ ?]. }
  unfold rmap, rbind. destruct (read_crypto d tail) as [[f rest]| | |] eqn:E; cbn; [|done..].
  destruct H as (H1 & H2 & H3 & H4). split; [|done]. repeat constructor; try done; try lia.
  all: apply read_crypto_offset in E; [lia|done].
Qed.

Lemma read_frames_cases fuel : forall pre rest, dp_decrypted d = pre ++ rest -> (length rest <= fuel)%nat ->
  crypto_overruns d \/ match read_frames fuel d rest with
                       | Ok (types, fs) => Forall fragment_ok fs /\ (types = [] -> fs = [])
                       | Err _ => True
                       | _ => False
                       end.
Proof.
  induction fuel as [|fuel IH]; intros pre [|t rest] Hd Hf; cbn [read_frames]; try (by right); [cbn in Hf; lia|].
  destruct (read_frame_cases t pre rest Hd) as [H|H]; [by left|].
  destruct (read_frame d t rest) as [[fs r]| | |]; cbn [res_bind frame_read] in *; [|by right|done|done].
  destruct H as [Hfs [used ->]]. destruct (IH (pre ++ t :: used) r) as [H|H].
  - by rewrite Hd, <- app_assoc.
  - cbn in Hf. rewrite length_app in Hf. lia.
  - by left.
  - right. destruct (read_frames fuel d r) as [[ts more]| | |]; cbn [res_bind]; [|done..].
    split; [|done]. destruct H as [H _]. by apply Forall_app.
Qed.
End Frames.

(** * Failures *)

(** A packet one of whose crypto frames is too long. *)
Definition packet_overruns (packet : list Z) : Prop := exists h rest d,
  read_header packet packet = Ok (h, rest) /\ quic_decrypt h packet = Ok d /\ crypto_overruns d.

Lemma quic_frames_cases packet : Forall is_byte packet ->
  packet_overruns packet \/ match quic_frames packet with
                            | Ok (types, fs) => Forall fragment_ok fs /\ (types = [] -> fs = [])
                            | Err _ => True
                            | _ => False
                            end.
Proof.
  intros Hb. unfold quic_frames. pose proof (consumes_safe 0 _ packet (consumes_read_header packet)) as Hs.
  destruct (read_header packet packet) as [[h rest]| | |] eqn:Eh; cbn [res_bind]; [|by right|done|done].
  pose proof (quic_decrypt_cases h packet Hb (read_header_in _ _ _ Hb Eh)) as Hd.
  destruct (quic_decrypt h packet) as [d| | |] eqn:Ed; cbn [res_bind]; [|by right|done|done].
  destruct Hd as [Hd1 Hd2]. destruct (read_frames_cases d Hd1 Hd2 (length (dp_decrypted d)) [] (dp_decrypted d)) as [H|H];
    [done|done|left|by right]. by exists h, rest, d.
Qed.

Lemma pending_shrinks fragments f next : f ∈ fragments -> qf_offset f < next ->
  (length (pending next fragments) < length (pending (qf_offset f) fragments))%nat.
Proof.
  intros Hf Hn. unfold pending. induction fragments as [|g l IH]; [by apply elem_of_nil in Hf|]. cbn [List.filter].
  assert (Hle : (length (List.filter (fun x => (next <=? qf_offset x)%Z) l) <= length (List.filter (fun x => (qf_offset f <=? qf_offset x)%Z) l))%nat).
  { clear IH Hf. induction l as [|x l IH]; [done|]. cbn [List.filter].
    destruct (next <=? _) eqn:E1, (qf_offset f <=? _) eqn:E2; bsimpl; cbn; lia. }
  apply elem_of_cons in Hf as [->|Hf].
  - rewrite (proj2 (Z.leb_gt _ _)), (proj2 (Z.leb_le _ _)) by lia. cbn. lia.
  - specialize (IH Hf). destruct (next <=? _) eqn:E1, (qf_offset f <=? _) eqn:E2; bsimpl; cbn; lia.
Qed.

(** Without empty fragments the loop ends. *)
Lemma find_loop_safe size fragments : Forall fragment_ok fragments -> Forall (fun f => qf_length f <> 0) fragments ->
  forall fuel index buffer, (length (pending index fragments) <= fuel)%nat -> Forall is_byte buffer ->
  exists buffer', find_loop fuel size fragments index buffer = Ok buffer' /\ Forall is_byte buffer'.
Proof.
  intros Hok Hne. induction fuel as [|fuel IH]; intros index buffer Hf Hb; cbn [find_loop];
    (destruct (List.find _ fragments) as [f|] eqn:E; [|eauto]); apply List.find_some in E as [Hin E];
    apply list_elem_of_In in Hin; bsimpl; subst index;
    pose proof (proj1 (Forall_forall _ _) Hok f Hin) as [Hby Ho Hbound Hlen];
    pose proof (proj1 (Forall_forall _ _) Hne f Hin) as Hpos; cbn in Hpos;
    pose proof (pending_shrinks fragments f (qf_offset f + qf_length f) Hin ltac:(lia)) as Hs; [lia|].
  rewrite wrap_small by (unfold is_u; lia). apply IH; [lia|]. unfold buffer_Write. apply Forall_take, Forall_app. done.
Qed.

Lemma reassemble_safe fragments : Forall fragment_ok fragments -> Forall (fun f => qf_length f <> 0) fragments ->
  exists buffer, reassemble fragments = Ok buffer /\ Forall is_byte buffer.
Proof.
  intros Hok Hne. unfold reassemble. apply find_loop_safe; [done|done| |].
  - unfold pending. apply filter_length_le.
  - repeat (apply Forall_app; split); [repeat constructor; unfold is_u; lia|apply be_split_range..].
Qed.

(** What is kept is not a client hello yet. *)
Definition kept_ok (kept : option (list qCryptoFragment)) : Prop :=
  let fragments := default [] kept in
  Forall fragment_ok fragments /\ Forall (fun f => qf_length f <> 0) fragments
  /\ forall buffer c, reassemble fragments = Ok buffer -> ja3_Compute buffer <> Ok c.

(** When the QUIC sniffer fails.  On any packet, with what it kept of earlier
    ones, it ends without a panic and what it keeps is no complete client hello;
    unless a crypto frame of the packet is declared longer than the packet, a
    fragment is empty, or an extension of the client hello put together is declared
    to hold a list longer than itself. *)
Theorem quic_sniff_failures md kept packet : Forall is_byte packet -> kept_ok kept ->
  packet_overruns packet
  \/ (exists types fragments f, quic_frames packet = Ok (types, fragments) /\ f ∈ fragments /\ qf_length f = 0)
  \/ (exists types fragments buffer, quic_frames packet = Ok (types, fragments)
      /\ reassemble (fragments ++ default [] kept) = Ok buffer /\ has_overrun buffer)
  \/ exists md' kept' err, sniff_QUICClientHello md kept packet = Ok (md', kept', err) /\ kept_ok kept'.
Proof.
  intros Hb (Hk1 & Hk2 & Hk3). unfold sniff_QUICClientHello.
  destruct (quic_frames_cases packet Hb) as [H|H]; [by left|right].
  destruct (quic_frames packet) as [[types fs]|e| |] eqn:Ef; [|right; right; by do 3 eexists|done|done].
  destruct H as [Hfs Htypes].
  destruct (decide (Exists (fun f => qf_length f = 0) fs)) as [Hz|Hz].
  { left. apply Exists_exists in Hz as (f & Hf & E). by exists types, fs, f. }
  right. apply not_Exists_Forall in Hz; [|intros f; apply _].
  assert (Hall : Forall fragment_ok (fs ++ default [] kept)) by (by apply Forall_app).
  assert (Hne : Forall (fun f => qf_length f <> 0) (fs ++ default [] kept)) by (by apply Forall_app).
  destruct (reassemble_safe _ Hall Hne) as (buffer & E & Hbuf). rewrite E. cbn [res_bind].
  destruct (ja3_Compute_cases buffer Hbuf) as [Ho|Hs]; [left; by exists types, fs, buffer|right].
  destruct (ja3_Compute buffer) as [c|e| |] eqn:Ec; [| |done|done].
  - assert (Hne' : types <> []).
    { intros ->. rewrite (Htypes eq_refl) in E. by apply (Hk3 buffer c). }
    assert (Hnone : kept_ok None) by (split; [constructor|split; [constructor|]]; intros b c' [= <-]; done).
    destruct (quic_client_ok types c Hne') as [client Hcl]. cbv zeta. destruct (bool_decide _); [rewrite Hcl; cbn [res_bind]|]; by do 3 eexists.
  - do 3 eexists. split; [done|]. split; [done|]. split; [done|]. intros b c E2 E3.
    change (reassemble (fs ++ default [] kept) = Ok b) in E2. rewrite E in E2. injection E2 as <-. congruence.
Qed.

End Failures.

(** * Evaluations *)

#[local] Existing Instance example_sniffers.

Definition hello_pieces : list (list Z) := [take 40 (encode_handshake example_hello); drop 40 (encode_handshake example_hello)].

Lemma quic_hello_sniffed_witness :
  exists md' kept md'', sniff_all zeroInboundContext None [second_packet] = Some (md', kept)
    /\ sniff_QUICClientHello md' kept first_packet = Ok (md'', None, None)
    /\ Protocol md'' = ProtocolQUIC /\ SniffHost md'' = "example.org".
Proof.
  refine (quic_hello_sniffed example_hello hello_pieces zeroInboundContext [second_packet] first_packet
    [([6], [mkFragment 40 68 (drop 40 (encode_handshake example_hello))])] [6]
    [mkFragment 0 40 (take 40 (encode_handshake example_hello))] example_hello_fits _ _ _ _ _ _).
  - vm_compute. reflexivity.
  - repeat constructor; vm_compute; discriminate.
  - vm_compute. reflexivity.
  - vm_compute. reflexivity.
  - discriminate.
  - apply Permutation_swap.
Defined.

Lemma kept_nothing : kept_ok None.
Proof. split; [constructor|]. split; [constructor|]. intros b c E. injection E as <-. discriminate. Qed.

Lemma quic_sniff_failures_witness :
  packet_overruns [0x40; 0; 0; 0; 1]
  \/ (exists types fragments f, quic_frames [0x40; 0; 0; 0; 1] = Ok (types, fragments) /\ f ∈ fragments /\ qf_length f = 0)
  \/ (exists types fragments buffer, quic_frames [0x40; 0; 0; 0; 1] = Ok (types, fragments)
      /\ reassemble (fragments ++ []) = Ok buffer /\ has_overrun buffer)
  \/ exists md' kept' err, sniff_QUICClientHello zeroInboundContext None [0x40; 0; 0; 0; 1] = Ok (md', kept', err) /\ kept_ok kept'.
Proof.
  refine (quic_sniff_failures zeroInboundContext None [0x40; 0; 0; 0; 1] _ kept_nothing).
  repeat constructor; unfold is_u; lia.
Defined.

(** ** Limits *)

(** A crypto frame longer than its packet crashes the program. *)
Example long_crypto_frame_panics :
  sniff_QUICClientHello zeroInboundContext None (plain_packet [0x06; 0; 0x40; 0xff; 1; 2]) = Panic "slice bounds out of range".
Proof. vm_compute. reflexivity. Qed.

(** An empty crypto frame is looked up without end, whatever the number of rounds. *)
Example empty_crypto_frame_loops size buffer fuel :
  quic_frames (plain_packet [0x06; 0; 0; 0; 0]) = Ok ([6; 0; 0], [mkFragment 0 0 []])
  /\ find_loop fuel size [mkFragment 0 0 []] 0 buffer = OutOfFuel.
Proof.
  split; [vm_compute; reflexivity|]. revert buffer. induction fuel as [|fuel IH]; intros buffer; [done|]. apply IH.
Qed.

(** A list of versions longer than its extension crashes the program. *)
Definition overrunning_hello : list Z :=
  encode_handshake (mkHello 0x0303 (repeat 7 32) [] [0x1301] [0] [OtherExtension 43 [4; 3; 4]]).
Example long_version_list_panics :
  sniff_QUICClientHello zeroInboundContext None (plain_packet (crypto_frame 0 overrunning_hello)) = Panic "index out of range".
Proof. vm_compute. reflexivity. Qed.

(** A crypto frame sent again is counted twice, and the client hello is not
    recognised. *)
Example repeated_crypto_frame_unrecognised :
  sniffed_host [first_packet; first_packet; second_packet] = None
  /\ sniffed_host [first_packet; second_packet] = Some ("example.org", "firefox").
Proof. split; vm_compute; reflexivity. Qed.
