(* ===== verification/ExpiringMap.v ===== *)
(** A map whose entries live for a fixed time: src/common/expiringmap/map.go.

    The queue of the source only decides when entries that can no longer be read
    are dropped; here [removeExpired] drops them, at any time.  An operation takes
    the time it reads. *)

From S2P Require Import Prelude.

Section Expiring.
Context {K V : Type} `{EqDecision K}.

(** [entry], by key, with its [expiresAt]. *)
Record ExpiringMap := mkExpiringMap {
  entries : list (K * (V * Z));
  lifetime : Z;
  closed : bool;
}.

Definition entry_at (key : K) (l : list (K * (V * Z))) : option (V * Z) :=
  snd <$> List.find (fun p => bool_decide (fst p = key)) l.

Definition entry_remove (key : K) (l : list (K * (V * Z))) : list (K * (V * Z)) :=
  List.filter (fun p => negb (bool_decide (fst p = key))) l.

Definition ExpiringMap_New (lifetime : Z) : res ExpiringMap :=
  if lifetime <=? 0 then Panic "expiringmap: non-positive lifetime" else Ok (mkExpiringMap [] lifetime false).

(** [storeIf]; [allow] is [None] for [Store]. *)
Definition storeIf (now : Z) (m : ExpiringMap) (key : K) (value : V) (allow : option (option V -> bool)) : bool * ExpiringMap :=
  if closed m then (false, m)
  else
    let current := match entry_at key (entries m) with
                   | Some (v, expiresAt) => if now <? expiresAt then Some v else None
                   | None => None
                   end in
    let kept := match current with Some _ => entries m | None => entry_remove key (entries m) end in
    if match allow with Some f => negb (f current) | None => false end then (false, m <| entries := kept |>)
    else (true, m <| entries := (key, (value, now + lifetime m)) :: entry_remove key kept |>).

Definition ExpiringMap_Store (now : Z) (m : ExpiringMap) (key : K) (value : V) : bool * ExpiringMap := storeIf now m key value None.
Definition ExpiringMap_StoreIf (now : Z) (m : ExpiringMap) (key : K) (value : V) (allow : option V -> bool) : bool * ExpiringMap :=
  storeIf now m key value (Some allow).

Definition ExpiringMap_Load (now : Z) (m : ExpiringMap) (key : K) : option V * ExpiringMap :=
  if closed m then (None, m)
  else match entry_at key (entries m) with
       | None => (None, m)
       | Some (v, expiresAt) =>
           if now <? expiresAt then (Some v, m) else (None, m <| entries := entry_remove key (entries m) |>)
       end.

Definition LoadAndRefresh (now : Z) (m : ExpiringMap) (key : K) : option V * ExpiringMap :=
  if closed m then (None, m)
  else match entry_at key (entries m) with
       | None => (None, m)
       | Some (v, expiresAt) =>
           if now <? expiresAt
           then (Some v, m <| entries := (key, (v, now + lifetime m)) :: entry_remove key (entries m) |>)
           else (None, m <| entries := entry_remove key (entries m) |>)
       end.

Definition removeExpired (now : Z) (m : ExpiringMap) : ExpiringMap :=
  m <| entries := List.filter (fun p => now <? snd (snd p)) (entries m) |>.

Definition ExpiringMap_Close (m : ExpiringMap) : ExpiringMap := m <| entries := [] |> <| closed := true |>.

(** * Reading back *)

(** The value readable at a time. *)
Definition readable (now : Z) (m : ExpiringMap) (key : K) : option V :=
  match entry_at key (entries m) with
  | Some (v, expiresAt) => if now <? expiresAt then Some v else None
  | None => None
  end.

Lemma entry_at_remove key key' l :
  entry_at key (entry_remove key' l) = if bool_decide (key = key') then None else entry_at key l.
Proof.
  induction l as [|[k e] l IH]; [by case_bool_decide|]. unfold entry_remove, entry_at in *. cbn [List.filter List.find fst].
  destruct (decide (k = key')) as [->|Hne].
  - rewrite (bool_decide_true (key' = key')) by done. cbn [negb]. rewrite IH.
    case_bool_decide; [done|]. by rewrite bool_decide_false by congruence.
  - rewrite (bool_decide_false (k = key')) by done. cbn [negb List.find fst].
    destruct (decide (k = key)) as [->|Hk]; [|by rewrite (bool_decide_false (k = key))].
    by rewrite (bool_decide_true (key = key)), (bool_decide_false (key = key')).
Qed.

Lemma entry_at_cons key k e l : entry_at key ((k, e) :: l) = if bool_decide (k = key) then Some e else entry_at key l.
Proof. unfold entry_at. cbn. by case_bool_decide. Qed.

(** No key occurs twice, as in a map. *)
Definition keys_unique (m : ExpiringMap) : Prop := NoDup (map fst (entries m)).

Lemma entry_at_filter (f : K * (V * Z) -> bool) key l :
  NoDup (map fst l) ->
  entry_at key (List.filter f l) = match entry_at key l with Some e => if f (key, e) then Some e else None | None => None end.
Proof.
  induction l as [|[k e] l IH]; intros Hnd; [done|]. cbn [map] in Hnd. apply NoDup_cons in Hnd as [Hk Hnd].
  specialize (IH Hnd). rewrite entry_at_cons. cbn [List.filter].
  case_bool_decide as Hkey.
  - subst k. destruct (f (key, e)) eqn:Hf; [by rewrite entry_at_cons, bool_decide_true|]. rewrite IH.
    destruct (entry_at key l) as [e'|] eqn:Hl; [|done]. exfalso. apply Hk. unfold entry_at in Hl.
    destruct (List.find _ l) as [[k' v']|] eqn:Hfind; [|done]. apply List.find_some in Hfind as [Hin Heq].
    apply bool_decide_eq_true in Heq. cbn in Heq. subst k'. apply list_elem_of_In, List.in_map_iff. by exists (key, v').
  - destruct (f (k, e)); [by rewrite entry_at_cons, bool_decide_false|done].
Qed.

(** Dropping what expired changes nothing that can be read, then or later. *)
Lemma removeExpired_readable now m later key :
  keys_unique m -> now <= later -> readable later (removeExpired now m) key = readable later m key.
Proof.
  intros Hu Hle. unfold readable.
  replace (entries (removeExpired now m)) with (List.filter (fun p => now <? snd (snd p)) (entries m)) by reflexivity.
  rewrite entry_at_filter by done. destruct (entry_at key (entries m)) as [[v t]|]; [|done]. cbn.
  destruct (now <? t) eqn:Hn; [done|]. bsimpl. by rewrite (proj2 (Z.ltb_ge _ _)) by lia.
Qed.

End Expiring.
#[global] Arguments ExpiringMap : clear implicits.
