(* ===== verification/NATConn.v ===== *)
(** The packet connection of a flow whose destination was replaced, by a fake address
    or by sniffing: src/route/fakeip_conn.go. *)

From S2P Require Import Prelude NetAddr.

Record fakeIPNATPacketConn := mkNATPacketConn {
  nat_origin : Socksaddr;
  nat_destination : Socksaddr;
  nat_directDestinations : gset Addr;
}.

Definition newFakeIPNATPacketConn (origin destination : Socksaddr) : fakeIPNATPacketConn := mkNATPacketConn origin destination ∅.

Definition rewriteReadDestination (destination : Socksaddr) (c : fakeIPNATPacketConn) : Socksaddr * fakeIPNATPacketConn :=
  if bool_decide (Socksaddr_Addr destination = Socksaddr_Addr (nat_origin c))
  then (mkSocksaddr (Socksaddr_Addr (nat_destination c)) (Port destination) (Fqdn (nat_destination c)), c)
  else if IsValid (Socksaddr_Addr destination)
  then (destination, c <| nat_directDestinations := {[Socksaddr_Addr destination]} ∪ nat_directDestinations c |>)
  else (destination, c).

Definition rewriteWriteDestination (destination : Socksaddr) (c : fakeIPNATPacketConn) : Socksaddr :=
  if IsValid (Socksaddr_Addr destination) && bool_decide (Socksaddr_Addr destination ∈ nat_directDestinations c) then destination
  else mkSocksaddr (Socksaddr_Addr (nat_origin c)) (Port destination) "".

(** [ReadPacket], given the packet and destination the connection below reads. *)
Definition NAT_ReadPacket (packet : list Z * Socksaddr) (c : fakeIPNATPacketConn) : (list Z * Socksaddr) * fakeIPNATPacketConn :=
  let '(buffer, destination) := packet in
  let '(destination, c) := rewriteReadDestination destination c in ((buffer, destination), c).

(** [WritePacket]: what the connection below is to write. *)
Definition NAT_WritePacket (buffer : list Z) (destination : Socksaddr) (c : fakeIPNATPacketConn) : list Z * Socksaddr :=
  (buffer, rewriteWriteDestination destination c).

Definition UpdateDestination (destinationAddress : Addr) (c : fakeIPNATPacketConn) : fakeIPNATPacketConn :=
  c <| nat_destination := mkSocksaddr destinationAddress (Port (nat_destination c)) "" |>.

(** The packets read one after the other, and the connection then. *)
Fixpoint read_all (packets : list (list Z * Socksaddr)) (c : fakeIPNATPacketConn) : list (list Z * Socksaddr) * fakeIPNATPacketConn :=
  match packets with
  | [] => ([], c)
  | p :: packets' =>
      let '(p, c) := NAT_ReadPacket p c in
      let '(l, c) := read_all packets' c in (p :: l, c)
  end.

(** * Facts *)

(** Where a packet goes: one to the address replaced goes to the new destination, on
    the port it was sent to. *)
Definition translated (origin destination d : Socksaddr) : Socksaddr :=
  if bool_decide (Socksaddr_Addr d = Socksaddr_Addr origin) then mkSocksaddr (Socksaddr_Addr destination) (Port d) (Fqdn destination) else d.

(** The addresses packets were sent to that were not replaced. *)
Definition direct (origin : Socksaddr) (packets : list (list Z * Socksaddr)) (a : Addr) : Prop :=
  IsValid a = true /\ a <> Socksaddr_Addr origin /\ exists p, p ∈ packets /\ Socksaddr_Addr (snd p) = a.

Lemma read_all_spec packets : forall c, exists c',
  read_all packets c = (map (fun p => (fst p, translated (nat_origin c) (nat_destination c) (snd p))) packets, c')
  /\ nat_origin c' = nat_origin c /\ nat_destination c' = nat_destination c
  /\ forall a, a ∈ nat_directDestinations c' <-> a ∈ nat_directDestinations c \/ direct (nat_origin c) packets a.
Proof.
  induction packets as [|[b d] packets IH]; intros c; cbn [read_all map].
  - exists c. split_and!; try done. intros a. split; [by left|]. intros [|(_ & _ & p & Hp & _)]; [done|by apply elem_of_nil in Hp].
  - unfold NAT_ReadPacket, rewriteReadDestination. set (a0 := Socksaddr_Addr d).
    assert (Hcons : forall a, direct (nat_origin c) ((b, d) :: packets) a
      <-> (IsValid a = true /\ a <> Socksaddr_Addr (nat_origin c) /\ a = a0) \/ direct (nat_origin c) packets a).
    { intros a. unfold direct. setoid_rewrite elem_of_cons. split.
      - intros (Hv & Hn & p & [-> |Hp] & Ha); [left; by split_and!|right; eauto].
      - intros [(Hv & Hn & ->)|(Hv & Hn & p & Hp & Ha)]; (split; [done|]; split; [done|]); eauto. }
    unfold translated at 1. cbn [fst snd]. fold a0. case_bool_decide as Ho.
    + destruct (IH c) as (c' & -> & H1 & H2 & H3). exists c'. split_and!; try done. intros a. rewrite H3, Hcons. naive_solver.
    + destruct (IsValid a0) eqn:Hv.
      * destruct (IH (c <| nat_directDestinations := {[a0]} ∪ nat_directDestinations c |>)) as (c' & -> & H1 & H2 & H3). exists c'. split_and!; try done.
        intros a. rewrite H3, Hcons. change (nat_directDestinations (_ <| nat_directDestinations := _ |>)) with ({[a0]} ∪ nat_directDestinations c).
        change (nat_origin (_ <| nat_directDestinations := _ |>)) with (nat_origin c). rewrite elem_of_union, elem_of_singleton. naive_solver.
      * destruct (IH c) as (c' & -> & H1 & H2 & H3). exists c'. split_and!; try done. intros a. rewrite H3, Hcons. naive_solver congruence.
Qed.

(** Replies to packets read: from an address packets were sent to as it is they keep
    their source; any other comes from the address that was replaced. *)
Lemma replies_spec origin destination packets d : let c := snd (read_all packets (newFakeIPNATPacketConn origin destination)) in
  (direct origin packets (Socksaddr_Addr d) -> rewriteWriteDestination d c = d)
  /\ (~ direct origin packets (Socksaddr_Addr d) -> rewriteWriteDestination d c = mkSocksaddr (Socksaddr_Addr origin) (Port d) "").
Proof.
  destruct (read_all_spec packets (newFakeIPNATPacketConn origin destination)) as (c' & -> & H1 & H2 & H3). cbn [snd]. unfold rewriteWriteDestination.
  rewrite H1. cbn [newFakeIPNATPacketConn nat_origin]. split; intros Hd.
  - rewrite (proj1 Hd), bool_decide_true by (apply H3; by right). done.
  - rewrite bool_decide_false; [by rewrite andb_false_r|]. by intros [?%elem_of_empty|?]%H3.
Qed.
