(* ===== verification/Router.v ===== *)
(** The router's decisions: src/route/route.go, with the sniffing loops of
    src/common/sniff/sniff.go and the process search of src/route/process_cache.go.

    [matchRule] goes through the rules, applying the options and actions of those
    that match until one is final; [PreMatch] does the same before a connection
    exists.  What the router asks of other components (outbounds, DNS, fake
    addresses) are the fields of [RouterEnv]; what it reads from a connection is a
    list of events, consumed in order. *)

From S2P Require Import Prelude NetAddr GoStrings RuleContext RuleItems RuleEngine RuleAction ExpiringMap Sniffers Quic NATConn.

#[export] Instance Socksaddr_eq_dec : EqDecision Socksaddr.
Proof. solve_decision. Defined.

(** * Metadata *)

(** The fields of [adapter.InboundContext] beyond those rules match on. *)
Record RouteContext := mkRouteContext {
  rc : InboundContext;
  rc_InboundType : string;
  rc_InboundDetour : string;
  rc_LastInbound : string;
  rc_SnifferNames : list string;
  rc_SniffError : option (list error);
  rc_SniffContext : option (list qCryptoFragment);
  rc_OriginDestination : Socksaddr;
  rc_RouteOriginalDestination : Socksaddr;
  rc_UDPDisableDomainUnmapping : bool;
  rc_UDPConnect : bool;
  rc_UDPTimeout : Z;
  rc_TLSFragment : bool;
  rc_TLSFragmentFallbackDelay : Z;
  rc_TLSRecordFragment : bool;
  rc_TLSSpoof : string;
  rc_TLSSpoofMethod : Z;
  rc_NetworkStrategy : option Z;
  rc_NetworkType : list Z;
  rc_FallbackNetworkType : list Z;
  rc_FallbackDelay : Z;
  rc_FakeIP : bool;
  rc_PreMatch : bool;
  rc_DestOverride : bool;
}.

Inductive PreMatchAction :=
| PreMatchContinue | PreMatchFlow | PreMatchReject | PreMatchDrop | PreMatchBypass | PreMatchHijackDNS.
#[export] Instance PreMatchAction_eq_dec : EqDecision PreMatchAction.
Proof. solve_decision. Defined.

(** * The rest of the program *)

Class RouterEnv `{RuleEnv} := {
  (* outbounds and the outbound manager *)
  Out : Type;
  out_Type : Out -> string;
  out_Tag : Out -> string;
  out_Network : Out -> list string;
  out_Selected : Out -> Out;                              (* adapter.SelectorGroup *)
  out_Now : Out -> option string;                         (* adapter.OutboundGroup *)
  out_SelectPreMatch : Out -> option (RouteContext -> (option Out -> option Out * PreMatchAction) -> option Out * PreMatchAction);
                                                          (* adapter.PreMatchOutboundGroup *)
  out_PreMatchFlow : Out -> option (string -> Addr -> PreMatchAction);  (* adapter.FlowOutbound *)
  out_FlowLookup : Out -> option (RouteContext -> string -> res (list Addr));
                                                          (* adapter.FlowOutboundDomainResolver: the lookup with its options *)
  manager_Outbound : string -> option Out;
  manager_Default : Out;
  (* inbounds a connection can be injected into, for TCP and UDP *)
  inbound_Get : string -> option (bool * bool);
  (* DNS *)
  dns_Lookup : RouteContext -> string -> RuleActionResolve -> res (list Addr);
  dns_Transport : string -> bool;
  LookupReverseMapping : Addr -> option string;
  (* fake addresses: none without a fake IP transport *)
  fakeip_Contains : option (Addr -> bool);
  fakeip_Lookup : Addr -> option string;
  (* processes and neighbors *)
  processSearcher : option (string -> Addr * Z -> option (Addr * Z) -> res ConnectionOwner);
  isLocalSource : Addr -> bool;
  neighborResolver : option ((Addr -> option (list Z)) * (Addr -> option string));
  IsDomainName : string -> bool;
  (* destinations of the mux, vmess and uot packages *)
  mux_Destination : string;
  vmess_MuxDestination : string;
  uot_MagicAddress : string;
  uot_LegacyMagicAddress : string;
}.

Section Router.
Context {Env : RuleEnv} {SEnv : SnifferEnv} {REnv : RouterEnv}.

Definition destination (md : RouteContext) : Socksaddr := Destination (rc md).
Definition set_destination (d : Socksaddr) (md : RouteContext) : RouteContext := md <| rc := (rc md) <| Destination := d |> |>.

(** * Sniffing *)

(** [errors.Is(err, ErrNeedMoreData)] on joined errors. *)
Definition needs_more (errs : option (list error)) : bool :=
  match errs with Some l => existsb is_need_more l | None => false end.

Definition Skip (md : RouteContext) : bool :=
  inb (Port (destination md)) [25; 465; 587; 143; 993; 110; 995].

(** The loop over sniffers: [None] once one succeeds, otherwise their errors. *)
Fixpoint run_sniffers {A} (run : A -> RouteContext -> res (RouteContext * option error)) (sniffers : list A)
    (md : RouteContext) (errs : list error) : res (RouteContext * option (list error)) :=
  match sniffers with
  | [] => Ok (md, match errs with [] => None | _ => Some errs end)
  | s :: sniffers' =>
      let! ' (md, err) := run s md in
      match err with
      | None => Ok (md, None)
      | Some e => run_sniffers run sniffers' md (errs ++ [e])
      end
  end.

(** One sniffer on the metadata of the connection. *)
Definition try_stream (s : StreamSniffer) (buffers : list (list Z)) (md : RouteContext) : res (RouteContext * option error) :=
  let! ' (c, err) := sniff_stream s (rc md) buffers in Ok (md <| rc := c |>, err).
Definition try_packet (s : PacketSniffer) (packet : list Z) (md : RouteContext) : res (RouteContext * option error) :=
  let! ' (c, sniffContext, err) := sniff_packet s (rc md) (rc_SniffContext md) packet in
  Ok (md <| rc := c |> <| rc_SniffContext := sniffContext |>, err).

Definition PeekPacket (md : RouteContext) (packet : list Z) (sniffers : list PacketSniffer)
    : res (RouteContext * option (list error)) :=
  run_sniffers (fun s md => try_packet s packet md) sniffers md [].

(** A read of the connection. *)
Inductive read_event := ReadData (b : list Z) | ReadError (e : error) | DeadlineError (e : error).

(** The loop of [PeekStream]: the metadata, the buffer, the reads left and the
    error.  Every read ends by its deadline, so the list of reads is long enough. *)
Fixpoint PeekStream_loop (sniffers : list StreamSniffer) (buffers : list (list Z)) (events : list read_event)
    (first : bool) (buffer : list Z) (sniffError : option (list error)) (md : RouteContext)
    : res (RouteContext * list Z * list read_event * option (list error)) :=
  match events with
  | [] => OutOfFuel
  | DeadlineError e :: events => Ok (md, buffer, events, Some [ECause e "set read deadline"])
  | ReadError e :: events =>
      Ok (md, buffer, events, if first then Some [ECause e "read payload"] else sniffError)
  | ReadData b :: events =>
      let buffer := buffer ++ b in
      let! ' (md, sniffError) := run_sniffers (fun s md => try_stream s (buffers ++ [buffer]) md) sniffers md [] in
      if needs_more sniffError then PeekStream_loop sniffers buffers events false buffer sniffError md
      else Ok (md, buffer, events, sniffError)
  end.

Definition PeekStream (md : RouteContext) (events : list read_event) (buffers : list (list Z)) (sniffers : list StreamSniffer)
    : res (RouteContext * list Z * list read_event * option (list error)) :=
  PeekStream_loop sniffers buffers events true [] None md.

Definition defaultPacketSniffers : list PacketSniffer :=
  [DomainNameQuery; QUICClientHello; QUICShortHeader; STUNMessage; UTP; UDPTracker; DTLSRecord; NTP].
Definition defaultStreamSniffers : list StreamSniffer :=
  [TLSClientHello; HTTPHost; StreamDomainNameQuery; BitTorrent; SSH; RDP].

(** A read of a packet connection. *)
Inductive packet_event :=
| PacketData (b : list Z) (destination : Socksaddr)
| PacketTimeout (e : error)
| PacketError (e : error)
| ContextDone (e : error).

(** The connection a rule is matched for. *)
Inductive Input := InputConn (events : list read_event) | InputPacketConn (events : list packet_event).

Definition quicSniffCacheTTL : Z := 5 * 60 * 1000000000.

(** The router's own state: the QUIC names seen and the times of rejections. *)
Record RouterState := mkRouterState {
  quicSniffCache : ExpiringMap (Socksaddr * Socksaddr) string;
  dropCounters : gmap Z (list Z);
}.

Definition cacheQUICSniff (now : Z) (st : RouterState) (source destination : Socksaddr) (sniffHost : string) : RouterState :=
  st <| quicSniffCache := snd (ExpiringMap_Store now (quicSniffCache st) (source, destination) sniffHost) |>.
Definition lookupQUICSniff (now : Z) (st : RouterState) (source destination : Socksaddr) : option string * RouterState :=
  let '(host, m) := LoadAndRefresh now (quicSniffCache st) (source, destination) in
  (host, st <| quicSniffCache := m |>).
Definition refreshQUICSniff (now : Z) (st : RouterState) (source destination : Socksaddr) (sniffHost : string) : RouterState :=
  st <| quicSniffCache := snd (ExpiringMap_StoreIf now (quicSniffCache st) (source, destination) sniffHost
          (fun current => match current with None => true | Some c => bool_decide (c = sniffHost) end)) |>.

(** [slices.Equal] on names. *)
Definition same_names (a b : list string) : bool := bool_decide (a = b).

(** The sniffers tried on a packet: only QUIC while a client hello is incomplete. *)
Definition packet_attempt (action : RuleActionSniff) (sniffers : list PacketSniffer) (md : RouteContext) (b : list Z)
    : res (RouteContext * option (list error)) :=
  let quicMoreData := same_names (rc_SnifferNames md) (Sniff_SnifferNames action) && needs_more (rc_SniffError md) in
  let! ' (md, err) := PeekPacket md b (if quicMoreData then [QUICClientHello] else sniffers) in
  Ok (md <| rc_SnifferNames := Sniff_SnifferNames action |> <| rc_SniffError := err |>, err).

(** The loop over the packets read before; [true] once one settles it. *)
Fixpoint sniff_buffered (action : RuleActionSniff) (sniffers : list PacketSniffer) (packets : list (list Z * Socksaddr))
    (md : RouteContext) : res (RouteContext * option (option (list error))) :=
  match packets with
  | [] => Ok (md, None)
  | (b, _) :: packets' =>
      let! ' (md, err) := packet_attempt action sniffers md b in
      if needs_more err then sniff_buffered action sniffers packets' md else Ok (md, Some err)
  end.

(** The loop that reads packets: the metadata, the packets, the events left, and
    the sniffing result or a fatal error. *)
Fixpoint sniff_packets (action : RuleActionSniff) (sniffers : list PacketSniffer) (events : list packet_event)
    (packets : list (list Z * Socksaddr)) (md : RouteContext)
    : res (RouteContext * list (list Z * Socksaddr) * list packet_event * (option (list error) + error)) :=
  match events with
  | [] => OutOfFuel
  | ContextDone e :: events => Ok (md, packets, events, inr e)
  | PacketError e :: events => Ok (md, packets, events, inr e)
  | PacketTimeout e :: events => Ok (md, packets, events, inl (Some [e]))
  | PacketData b dest :: events =>
      let! ' (md, err) := packet_attempt action sniffers md b in
      let packets := packets ++ [(b, dest)] in
      if needs_more err then sniff_packets action sniffers events packets md
      else Ok (md, packets, events, inl err)
  end.

(** The label [finally]: the name of a QUIC connection is cached or restored. *)
Definition sniff_finally (now : Z) (st : RouterState) (md : RouteContext) (err : option (list error)) : RouterState * RouteContext :=
  match err with
  | Some _ => (st, md)
  | None =>
      if bool_decide (Protocol (rc md) = ProtocolQUIC) then
        if bool_decide (SniffHost (rc md) = "") then
          match lookupQUICSniff now st (Source (rc md)) (destination md) with
          | (Some sniffHost, st) => (st, md <| rc := (rc md) <| SniffHost := sniffHost |> |>)
          | (None, st) => (st, md)
          end
        else (cacheQUICSniff now st (Source (rc md)) (destination md) (SniffHost (rc md)), md)
      else (st, md)
  end.

(** What [actionSniff] returns: a buffer, packets, and a fatal error. *)
Record SniffResult := mkSniffResult {
  sr_md : RouteContext;
  sr_state : RouterState;
  sr_input : Input;
  sr_buffer : option (list Z);
  sr_packets : list (list Z * Socksaddr);
  sr_fatal : option error;
}.

Definition sniff_skipped (action : RuleActionSniff) (md : RouteContext) : bool :=
  same_names (rc_SnifferNames md) (Sniff_SnifferNames action)
  && match rc_SniffError md with Some _ => negb (needs_more (rc_SniffError md)) | None => false end.

Definition actionSniff (now : Z) (st : RouterState) (md : RouteContext) (action : RuleActionSniff) (input : Input)
    (inputBuffers : list (list Z)) (inputPackets : list (list Z * Socksaddr)) : res SniffResult :=
  let nothing := Ok (mkSniffResult md st input None [] None) in
  if Skip md then nothing
  else if negb (bool_decide (Protocol (rc md) = "")) then nothing
  else match input with
  | InputConn events =>
      if negb (nonempty (StreamSniffers action)) && nonempty (PacketSniffers action) then nothing
      else if sniff_skipped action md then nothing
      else
        let sniffers := if nonempty (StreamSniffers action) then StreamSniffers action else defaultStreamSniffers in
        let! ' (md, buffer, events, err) := PeekStream md events inputBuffers sniffers in
        let md := md <| rc_SnifferNames := Sniff_SnifferNames action |> <| rc_SniffError := err |> in
        Ok (mkSniffResult md st (InputConn events) (if nonempty buffer then Some buffer else None) [] None)
  | InputPacketConn events =>
      if negb (nonempty (PacketSniffers action)) && nonempty (StreamSniffers action) then nothing
      else if sniff_skipped action md then nothing
      else
        let sniffers := if nonempty (PacketSniffers action) then PacketSniffers action else defaultPacketSniffers in
        let! ' (md, settled) := sniff_buffered action sniffers inputPackets md in
        match settled with
        | Some err =>
            let '(st, md) := sniff_finally now st md err in Ok (mkSniffResult md st input None [] None)
        | None =>
            let! ' (md, packets, events, result) := sniff_packets action sniffers events inputPackets md in
            match result with
            | inr fatal => Ok (mkSniffResult md st (InputPacketConn events) None packets (Some fatal))
            | inl err =>
                let '(st, md) := sniff_finally now st md err in
                Ok (mkSniffResult md st (InputPacketConn events) None packets None)
            end
        end
  end.

(** * Other actions *)

Definition actionSniffOverrideDestination (md : RouteContext) (stream : bool) : RouteContext :=
  if negb (IsDomain (destination md)) && IsDomainName (SniffHost (rc md)) then
    let d := mkSocksaddr zeroAddr (Port (destination md)) (SniffHost (rc md)) in
    if stream then set_destination d md
    else set_destination d (md <| rc_OriginDestination := destination md |> <| rc_DestOverride := true |>)
  else md.

Definition isAllIPv4 (addresses : list Addr) : bool := forallb Is4 addresses.
Definition isAllIPv6 (addresses : list Addr) : bool := forallb Is6 addresses.

Definition actionResolve (md : RouteContext) (action : RuleActionResolve) : res RouteContext :=
  if negb (IsDomain (destination md)) then Ok md
  else if negb (bool_decide (Resolve_Server action = "")) && negb (dns_Transport (Resolve_Server action))
  then Err (ENew ("DNS server not found: " +:+ Resolve_Server action))
  else
    let! addresses := dns_Lookup md (Fqdn (destination md)) action in
    let c := rc md in
    let c := if Resolve_MatchOnly action then c <| CacheIPs := addresses |> else c <| DestinationAddresses := addresses |> in
    let c := if nonempty addresses
             then if isAllIPv4 addresses then c <| IPVersion := 4 |>
                  else if isAllIPv6 addresses then c <| IPVersion := 6 |> else c
             else c in
    Ok (md <| rc := c |>).

Definition applyRouteOptionsOverride (md : RouteContext) (o : RuleActionRouteOptions) : RouteContext :=
  let md := if Socksaddr_IsValid (OverrideAddress o)
            then set_destination (mkSocksaddr (Socksaddr_Addr (OverrideAddress o)) (Port (destination md)) (Fqdn (OverrideAddress o))) md
            else md in
  let md := if 0 <? OverridePort o
            then set_destination (mkSocksaddr (Socksaddr_Addr (destination md)) (OverridePort o) (Fqdn (destination md))) md
            else md in
  if 0 <? UDPTimeout o then md <| rc_UDPTimeout := UDPTimeout o |> else md.

(** An assignment under a condition. *)
Definition when (b : bool) (f : RouteContext -> RouteContext) (md : RouteContext) : RouteContext := if b then f md else md.

(** The options of a matching rule, as [matchRule] applies them. *)
Definition applyRouteOptions (md : RouteContext) (o : RuleActionRouteOptions) : RouteContext :=
  let md := when ((Socksaddr_IsValid (OverrideAddress o) || (0 <? OverridePort o)) && negb (Socksaddr_IsValid (rc_RouteOriginalDestination md)))
              (fun md => md <| rc_RouteOriginalDestination := destination md |>) md in
  let md := when (Socksaddr_IsValid (OverrideAddress o)) (fun md => md <| rc := (rc md) <| DestinationAddresses := [] |> |>) md in
  let md := applyRouteOptionsOverride md o in
  let md := when (match NetworkStrategy o with Some _ => true | None => false end)
              (fun md => md <| rc_NetworkStrategy := NetworkStrategy o |>) md in
  let md := when (nonempty (NetworkType o)) (fun md => md <| rc_NetworkType := NetworkType o |>) md in
  let md := when (nonempty (FallbackNetworkType o)) (fun md => md <| rc_FallbackNetworkType := FallbackNetworkType o |>) md in
  let md := when (negb (FallbackDelay o =? 0)) (fun md => md <| rc_FallbackDelay := FallbackDelay o |>) md in
  let md := when (UDPDisableDomainUnmapping o) (fun md => md <| rc_UDPDisableDomainUnmapping := true |>) md in
  let md := when (UDPConnect o) (fun md => md <| rc_UDPConnect := true |>) md in
  let md := when (0 <? UDPTimeout o) (fun md => md <| rc_UDPTimeout := UDPTimeout o |>) md in
  let md := when (TLSFragment o)
              (fun md => md <| rc_TLSFragment := true |> <| rc_TLSFragmentFallbackDelay := TLSFragmentFallbackDelay o |>) md in
  let md := when (TLSRecordFragment o) (fun md => md <| rc_TLSRecordFragment := true |>) md in
  when (negb (bool_decide (TLSSpoof o = "")))
    (fun md => md <| rc_TLSSpoof := TLSSpoof o |> <| rc_TLSSpoofMethod := TLSSpoofMethod o |>) md.

(** * Preparing the metadata *)

Definition searchProcessInfo (md : RouteContext) : RouteContext :=
  match processSearcher, ProcessInfo (rc md) with
  | Some find, None =>
      if negb (isLocalSource (Socksaddr_Addr (Source (rc md)))) then md
      else
        let addrPort a := (Socksaddr_Addr a, Port a) in
        let origin :=
          if Socksaddr_IsValid (rc_OriginDestination md) then Some (addrPort (rc_OriginDestination md))
          else if IsIP (destination md) then Some (addrPort (destination md)) else None in
        match find (Network (rc md)) (addrPort (Source (rc md))) origin with
        | Ok info => md <| rc := (rc md) <| ProcessInfo := Some info |> |>
        | _ => md
        end
  | _, _ => md
  end.

(** The hardware address and name of a neighbor. *)
Definition lookup_neighbor (md : RouteContext) : RouteContext :=
  match neighborResolver, SourceMACAddress (rc md) with
  | Some (LookupMAC, LookupHostname), None =>
      if IsValid (Socksaddr_Addr (Source (rc md))) then
        let c := rc md in
        let c := match LookupMAC (Socksaddr_Addr (Source c)) with Some mac => c <| SourceMACAddress := Some mac |> | None => c end in
        let c := match LookupHostname (Socksaddr_Addr (Source c)) with Some hostname => c <| SourceHostname := hostname |> | None => c end in
        md <| rc := c |>
      else md
  | _, _ => md
  end.

(** The domain of a fake address, or of an address seen in a DNS answer. *)
Definition restore_domain (md : RouteContext) : res RouteContext :=
  if IsValid (Socksaddr_Addr (destination md))
     && match fakeip_Contains with Some contains => contains (Socksaddr_Addr (destination md)) | None => false end
  then match fakeip_Lookup (Socksaddr_Addr (destination md)) with
       | None => Err (ENew "missing fakeip record, try enable `experimental.cache_file`")
       | Some domain =>
           if bool_decide (domain = "") then Ok md
           else Ok (set_destination (mkSocksaddr zeroAddr (Port (destination md)) domain)
                      (md <| rc_OriginDestination := destination md |> <| rc_FakeIP := true |>))
       end
  else if bool_decide (Domain (rc md) = "")
  then match LookupReverseMapping (Socksaddr_Addr (destination md)) with
       | Some domain => Ok (md <| rc := (rc md) <| Domain := domain |> |>)
       | None => Ok md
       end
  else Ok md.

Definition set_IPVersion (md : RouteContext) : RouteContext :=
  if IsIPv4 (destination md) then md <| rc := (rc md) <| IPVersion := 4 |> |>
  else if IsIPv6 (destination md) then md <| rc := (rc md) <| IPVersion := 6 |> |>
  else md.

Definition prepareMatchMetadata (md : RouteContext) : res RouteContext :=
  let! md := restore_domain (lookup_neighbor (searchProcessInfo md)) in Ok (set_IPVersion md).

(** * Matching a connection *)

Record Rule := mkRule { rule_rule : HeadlessRule; rule_action : RuleAction; rule_disabled : bool }.

Definition ChangeStatus (r : Rule) : Rule := r <| rule_disabled := negb (rule_disabled r) |>.

Definition TypeSelector : string := "selector".
Definition TypePass : string := "pass".

(** [metadata.ResetRuleCache()] and [currentRule.Match(metadata)] *)
Definition rule_matches (r : Rule) (md : RouteContext) : bool * RouteContext :=
  let '(matched, c) := Match (rule_rule r) (ResetRuleCache (rc md)) in (matched, md <| rc := c |>).

Record MatchState := mkMatchState {
  ms_md : RouteContext;
  ms_state : RouterState;
  ms_input : Input;
  ms_buffers : list (list Z);
  ms_packets : list (list Z * Socksaddr);
}.

(** Whether the outbound of a route action says to go on with the next rule. *)
Definition is_pass (tag : string) : bool :=
  match manager_Outbound tag with
  | None => false
  | Some o =>
      let o := if bool_decide (out_Type o = TypeSelector) then out_Selected o else o in
      bool_decide (out_Type o = TypePass)
  end.

(** The options [matchRule] applies for an action. *)
Definition action_options (a : RuleAction) : option RuleActionRouteOptions :=
  match a with
  | RuleActionRoute _ o => Some o
  | RuleActionRouteOptions_ o => Some o
  | RuleActionBypass outbound o => if bool_decide (outbound = "") then None else Some o
  | _ => None
  end.

(** The actions that end the search. *)
Definition final_action (a : RuleAction) : bool :=
  inb (RuleAction_Type a) [RuleActionTypeRoute; RuleActionTypeReject; RuleActionTypeHijackDNS]
  || match a with RuleActionBypass outbound _ => negb (bool_decide (outbound = "")) | _ => false end.

(** The second switch of the loop: a fatal error ends it. *)
Definition run_action (now : Z) (s : MatchState) (a : RuleAction) : res (MatchState * option error) :=
  match a with
  | RuleActionSniff_ action =>
      let! r := actionSniff now (ms_state s) (ms_md s) action (ms_input s) (ms_buffers s) (ms_packets s) in
      let buffers := match sr_buffer r with Some b => ms_buffers s ++ [b] | None => ms_buffers s end in
      let packets := match sr_buffer r with Some _ => ms_packets s | None => ms_packets s ++ sr_packets r end in
      Ok (mkMatchState (sr_md r) (sr_state r) (sr_input r) buffers packets, sr_fatal r)
  | RuleActionSniffOverrideDestination =>
      if bool_decide (SniffHost (rc (ms_md s)) = "") then Ok (s, None)
      else Ok (s <| ms_md := actionSniffOverrideDestination (ms_md s) (match ms_input s with InputConn _ => true | _ => false end) |>, None)
  | RuleActionResolve_ action =>
      match actionResolve (ms_md s) action with
      | Ok md => Ok (s <| ms_md := md |>, None)
      | Err e => Ok (s, Some e)
      | Panic p => Panic p
      | OutOfFuel => OutOfFuel
      end
  | _ => Ok (s, None)
  end.

(** The loop of [matchRule]: the state, the rule selected with its index, and a
    fatal error. *)
Fixpoint matchRule_loop (now : Z) (i : Z) (rules : list Rule) (s : MatchState)
    : res (MatchState * option (Z * Rule) * option error) :=
  match rules with
  | [] => Ok (s, None, None)
  | r :: rules' =>
      if rule_disabled r then matchRule_loop now (i + 1) rules' s
      else
        let '(matched, md) := rule_matches r (ms_md s) in
        let s := s <| ms_md := md |> in
        if negb matched then matchRule_loop now (i + 1) rules' s
        else if match rule_action r with RuleActionRoute tag _ => is_pass tag | _ => false end
        then matchRule_loop now (i + 1) rules' s
        else
          let s := match action_options (rule_action r) with
                   | Some o => s <| ms_md := applyRouteOptions (ms_md s) o |>
                   | None => s
                   end in
          let! ' (s, fatal) := run_action now s (rule_action r) in
          match fatal with
          | Some e => Ok (s, None, Some e)
          | None => if final_action (rule_action r) then Ok (s, Some (i, r), None) else matchRule_loop now (i + 1) rules' s
          end
  end.

Definition matchRule (now : Z) (rules : list Rule) (st : RouterState) (md : RouteContext) (input : Input)
    : res (MatchState * option (Z * Rule) * option error) :=
  match prepareMatchMetadata md with
  | Ok md => matchRule_loop now 0 rules (mkMatchState md st input [] [])
  | Err e => Ok (mkMatchState md st input [] [], None, Some e)
  | Panic p => Panic p
  | OutOfFuel => OutOfFuel
  end.

(** * Matching before a connection exists *)

(** [adapter.PreMatchResult]; the tracker, which only observes, is left out. *)
Record PreMatchResult := mkPreMatchResult {
  pm_Action : PreMatchAction;
  pm_Outbound : option Out;
  pm_Destination : option (Addr * Z);
  pm_UDPTimeout : Z;
}.

Definition continueResult : PreMatchResult := mkPreMatchResult PreMatchContinue None None 0.
Definition actionResult (a : PreMatchAction) : PreMatchResult := mkPreMatchResult a None None 0.

Definition NetworkTCP : string := "tcp".
Definition NetworkUDP : string := "udp".
Definition NetworkICMP : string := "icmp".

(** [C.PortProtocols] and [C.ProtocolTimeouts] *)
Definition PortProtocols (port : Z) : string :=
  if port =? 53 then ProtocolDNS else if port =? 123 then ProtocolNTP
  else if port =? 3478 then ProtocolSTUN else if port =? 443 then ProtocolQUIC else "".
Definition ProtocolTimeouts (protocol : string) : Z :=
  if inb protocol [ProtocolDNS; ProtocolNTP; ProtocolSTUN] then 10 * 1000000000
  else if inb protocol [ProtocolQUIC; ProtocolDTLS] then 30 * 1000000000 else 0.

(** Groups nested deeper than eight are given up; [depth] counts down from nine. *)
Fixpoint selectPreMatchOutbound (depth : nat) (md : RouteContext) (outbound : option Out) : option Out * PreMatchAction :=
  match depth, outbound with
  | O, _ | _, None => (None, PreMatchContinue)
  | S depth, Some o =>
      match out_SelectPreMatch o with
      | Some select => select md (selectPreMatchOutbound depth md)
      | None =>
          match out_Now o with
          | Some now =>
              match manager_Outbound now with
              | None => (None, PreMatchContinue)
              | Some selected => selectPreMatchOutbound depth md (Some selected)
              end
          | None =>
              if negb (inb (Network (rc md)) (out_Network o)) then (None, PreMatchContinue)
              else match out_PreMatchFlow o with
                   | None => (None, PreMatchContinue)
                   | Some flow =>
                       let a := flow (Network (rc md)) (Socksaddr_Addr (destination md)) in
                       if bool_decide (a = PreMatchContinue) then (None, PreMatchContinue) else (Some o, a)
                   end
          end
      end
  end.

(** The timeout of a UDP flow. *)
Definition flow_timeout (md : RouteContext) : Z :=
  if negb (bool_decide (Network (rc md) = NetworkUDP)) then 0
  else if 0 <? rc_UDPTimeout md then rc_UDPTimeout md
  else
    let protocol := if bool_decide (Protocol (rc md) = "") then PortProtocols (Port (destination md)) else Protocol (rc md) in
    if bool_decide (protocol = "") then 0 else ProtocolTimeouts protocol.

Definition preMatchFlow (md : RouteContext) (packetDestination : Socksaddr) (outboundTag : string) : PreMatchResult :=
  match (if bool_decide (outboundTag = "") then Some manager_Default else manager_Outbound outboundTag) with
  | None => continueResult
  | Some outbound =>
      match selectPreMatchOutbound 9 md (Some outbound) with
      | (None, _) => continueResult
      | (Some outbound, flowAction) =>
          if negb (bool_decide (flowAction = PreMatchFlow)) then mkPreMatchResult flowAction (Some outbound) None 0
          else
            let result := mkPreMatchResult PreMatchFlow (Some outbound) None (flow_timeout md) in
            if IsDomain (destination md) then
              if negb (rc_FakeIP md) && negb (rc_DestOverride md) then continueResult
              else
                let addresses : res (list Addr) :=
                  match DestinationAddresses (rc md), out_FlowLookup outbound with
                  | [], Some lookup => lookup md (Fqdn (destination md))
                  | addresses, _ => Ok addresses
                  end in
                match addresses with
                | Ok addresses =>
                    match List.find (fun a => Bool.eqb (Is4 a) (IsIPv4 packetDestination)) addresses with
                    | None => actionResult PreMatchReject
                    | Some newDestination =>
                        if negb (IsValid newDestination) then actionResult PreMatchReject
                        else match out_PreMatchFlow outbound with
                        | None => result
                        | Some flow =>
                            let flowAction := flow (Network (rc md)) newDestination in
                            if negb (bool_decide (flowAction = PreMatchFlow)) then mkPreMatchResult flowAction (Some outbound) None 0
                            else result <| pm_Destination := Some (newDestination, Port (destination md)) |>
                        end
                    end
                | _ => actionResult PreMatchReject
                end
            else if negb (bool_decide (destination md = packetDestination))
            then result <| pm_Destination := Some (Socksaddr_Addr (destination md), Port (destination md)) |>
            else result
      end
  end.

(** The sniff action in pre-match: [inl] returns, [inr] goes on. *)
Definition prematch_sniff (md : RouteContext) (firstPacket : list Z) (action : RuleActionSniff) : res (PreMatchResult + RouteContext) :=
  if bool_decide (Network (rc md) = NetworkICMP) then Ok (inr md)
  else if negb (bool_decide (Network (rc md) = NetworkUDP)) || negb (nonempty firstPacket) then Ok (inl continueResult)
  else if Skip md || negb (bool_decide (Protocol (rc md) = "")) then Ok (inr md)
  else if negb (nonempty (PacketSniffers action)) && nonempty (StreamSniffers action) then Ok (inr md)
  else if same_names (rc_SnifferNames md) (Sniff_SnifferNames action)
          && match rc_SniffError md with Some _ => true | None => false end then Ok (inr md)
  else
    let sniffers := if nonempty (PacketSniffers action) then PacketSniffers action else defaultPacketSniffers in
    let! ' (md, err) := PeekPacket md firstPacket sniffers in
    let md := md <| rc_SnifferNames := Sniff_SnifferNames action |> <| rc_SniffError := err |> in
    Ok (if needs_more err then inl continueResult else inr md).

(** The loop of [PreMatch], with the times of rejections. *)
Fixpoint PreMatch_loop (now : Z) (rules : list Rule) (firstPacket : list Z) (packetDestination : Socksaddr)
    (counters : gmap Z (list Z)) (md : RouteContext) : res (PreMatchResult * gmap Z (list Z)) :=
  match rules with
  | [] => Ok (preMatchFlow md packetDestination "", counters)
  | r :: rules' =>
      let continue := PreMatch_loop now rules' firstPacket packetDestination counters in
      let '(matched, md) := rule_matches r md in
      if negb matched then continue md
      else match rule_action r with
      | RuleActionSniff_ action =>
          let! sniffed := prematch_sniff md firstPacket action in
          match sniffed with
          | inl result => Ok (result, counters)
          | inr md => continue md
          end
      | RuleActionSniffOverrideDestination =>
          continue (if bool_decide (SniffHost (rc md) = "") then md else actionSniffOverrideDestination md false)
      | RuleActionRouteOptions_ o => continue (applyRouteOptionsOverride md o)
      | RuleActionRoute outbound o => Ok (preMatchFlow (applyRouteOptionsOverride md o) packetDestination outbound, counters)
      | RuleActionBypass outbound o =>
          let md := applyRouteOptionsOverride md o in
          if bool_decide (outbound = "") then
            if IsDomain (destination md) || negb (bool_decide (destination md = packetDestination)) then Ok (continueResult, counters)
            else Ok (actionResult PreMatchBypass, counters)
          else Ok (preMatchFlow md packetDestination outbound, counters)
      | RuleActionReject_ reject =>
          let '(err, times) := RuleActionReject_Error reject now (default [] (counters !! reject_id reject)) in
          let counters := <[reject_id reject := times]> counters in
          let! err := err in
          Ok (actionResult (match err with Some RejectedDrop => PreMatchDrop | _ => PreMatchReject end), counters)
      | RuleActionHijackDNS =>
          Ok (if bool_decide (Network (rc md) = NetworkUDP) then actionResult PreMatchHijackDNS else continueResult, counters)
      | RuleActionResolve_ action =>
          match actionResolve md action with
          | Ok md => continue md
          | Err _ => Ok (actionResult PreMatchReject, counters)
          | Panic p => Panic p
          | OutOfFuel => OutOfFuel
          end
      | RuleActionDirect => Ok (continueResult, counters)
      end
  end.

Definition Router_PreMatch (now : Z) (rules : list Rule) (counters : gmap Z (list Z)) (md : RouteContext) (firstPacket : list Z)
    : res (PreMatchResult * gmap Z (list Z)) :=
  let md := md <| rc_PreMatch := true |> in
  let packetDestination := destination md in
  match prepareMatchMetadata md with
  | Ok md => PreMatch_loop now rules firstPacket packetDestination counters md
  | Err _ => Ok (continueResult, counters)
  | Panic p => Panic p
  | OutOfFuel => OutOfFuel
  end.

(** * Routing a connection *)

(** What becomes of a connection: what was read of it goes with the rest, and packets
    of a flow whose destination was replaced go through an address translation. *)
Inductive Routed :=
| RoutedTo (outbound : Out) (md : RouteContext) (rule : option (Z * Rule))
    (conn : Input) (buffers : list (list Z)) (packets : list (list Z * Socksaddr)) (nat : option fakeIPNATPacketConn)
| RoutedReject (e : option RejectedError)
| RoutedHijackDNS (md : RouteContext) (conn : Input) (buffers : list (list Z)) (packets : list (list Z * Socksaddr))
| RoutedInject (inbound : string) (md : RouteContext).

Definition outbound_for (network : string) (tag : string) : res Out :=
  match manager_Outbound tag with
  | None => Err (ENew ("outbound not found: " +:+ tag))
  | Some o => if inb network (out_Network o) then Ok o
              else Err (ENew ((if bool_decide (network = NetworkTCP) then "TCP" else "UDP") +:+ " is not supported by outbound: " +:+ out_Tag o))
  end.

(** Destinations of removed protocols. *)
Definition deprecated_destination (fqdn : string) : option error :=
  if bool_decide (fqdn = mux_Destination)
  then Some (ENew "global multiplex is deprecated since sing-box v1.7.0, enable multiplex in Inbound fields instead.")
  else if bool_decide (fqdn = vmess_MuxDestination)
  then Some (ENew "global multiplex (v2ray legacy) not supported since sing-box v1.7.0.")
  else if bool_decide (fqdn = uot_MagicAddress) then Some (ENew "global UoT not supported since sing-box v1.7.0.")
  else if bool_decide (fqdn = uot_LegacyMagicAddress) then Some (ENew "global UoT (legacy) not supported since sing-box v1.7.0.")
  else None.

(** [InboundDetour]: injection into another inbound. *)
Definition inject (stream : bool) (md : RouteContext) : option (res Routed) :=
  let detour := rc_InboundDetour md in
  if bool_decide (detour = "") then None
  else Some (
    if bool_decide (rc_LastInbound md = detour) then Err (ENew ("routing loop on detour: " +:+ detour))
    else match inbound_Get detour with
    | None => Err (ENew ("inbound detour not found: " +:+ detour))
    | Some (tcp, udp) =>
        if negb (if stream then tcp else udp)
        then Err (ENew ("inbound detour is not " +:+ (if stream then "TCP" else "UDP") +:+ " injectable: " +:+ detour))
        else Ok (RoutedInject detour (md <| rc_LastInbound := Inbound (rc md) |> <| rc := (rc md) <| Inbound := detour |> |>
                                         <| rc_InboundDetour := "" |>))
    end).

Definition TypeTun : string := "tun".

(** What [routeConnection] and [routePacketConnection] do with the selected rule. *)
Definition route_selected (now : Z) (stream : bool) (s : MatchState) (selected : option (Z * Rule)) : res (Routed * RouterState) :=
  let network := if stream then NetworkTCP else NetworkUDP in
  let nat := if negb stream && (rc_FakeIP (ms_md s) || rc_DestOverride (ms_md s))
             then Some (newFakeIPNATPacketConn (rc_OriginDestination (ms_md s)) (destination (ms_md s))) else None in
  let to o := Ok (RoutedTo o (ms_md s) selected (ms_input s) (ms_buffers s) (ms_packets s) nat, ms_state s) in
  match selected with
  | None =>
      if inb network (out_Network manager_Default) then to manager_Default
      else Err (ENew ((if stream then "TCP is not supported by default outbound: " else "UDP is not supported by outbound: ")
                      +:+ out_Tag manager_Default))
  | Some (_, r) =>
      match rule_action r with
      | RuleActionRoute tag _ => let! o := outbound_for network tag in to o
      | RuleActionBypass tag _ =>
          if bool_decide (tag = "") then Panic "invalid memory address or nil pointer dereference"
          else let! o := outbound_for network tag in to o
      | RuleActionReject_ reject =>
          if bool_decide (Method reject = RuleActionRejectMethodReply)
          then Err (ENew ("reject method `reply` is not supported for " +:+ (if stream then "TCP" else "UDP") +:+ " connections"))
          else
            let '(err, times) := RuleActionReject_Error reject now (default [] (dropCounters (ms_state s) !! reject_id reject)) in
            let! err := err in
            Ok (RoutedReject err, (ms_state s) <| dropCounters := <[reject_id reject := times]> (dropCounters (ms_state s)) |>)
      | RuleActionHijackDNS => Ok (RoutedHijackDNS (ms_md s) (ms_input s) (ms_buffers s) (ms_packets s), ms_state s)
      | _ => Panic "invalid memory address or nil pointer dereference"
      end
  end.

Definition routeConnection (now : Z) (rules : list Rule) (st : RouterState) (md : RouteContext) (events : list read_event)
    : res (Routed * RouterState) :=
  match inject true md with
  | Some r => let! routed := r in Ok (routed, st)
  | None =>
      let md := md <| rc := (rc md) <| Network := NetworkTCP |> |> in
      match deprecated_destination (Fqdn (destination md)) with
      | Some e => Err e
      | None =>
          if bool_decide (rc_InboundType md = TypeTun) && bool_decide (Protocol (rc md) = ProtocolDNS)
          then Ok (RoutedHijackDNS md (InputConn events) [] [], st)
          else
            let! ' (s, selected, fatal) := matchRule now rules st md (InputConn events) in
            match fatal with
            | Some e => Err e
            | None => route_selected now true s selected
            end
      end
  end.

Definition routePacketConnection (now : Z) (rules : list Rule) (st : RouterState) (md : RouteContext) (events : list packet_event)
    : res (Routed * RouterState) :=
  match inject false md with
  | Some r => let! routed := r in Ok (routed, st)
  | None =>
      let md := md <| rc := (rc md) <| Network := NetworkUDP |> |> in
      if bool_decide (rc_InboundType md = TypeTun) && bool_decide (Protocol (rc md) = ProtocolDNS)
      then Ok (RoutedHijackDNS md (InputPacketConn events) [] [], st)
      else
        let! ' (s, selected, fatal) := matchRule now rules st md (InputPacketConn events) in
        match fatal with
        | Some e => Err e
        | None => route_selected now false s selected
        end
  end.

(** What closing a packet connection does to the names cached. *)
Definition wrapQUICSniffIdleCache (now : Z) (st : RouterState) (md : RouteContext) : RouterState :=
  if negb (bool_decide (Protocol (rc md) = ProtocolQUIC)) || bool_decide (SniffHost (rc md) = "") then st
  else
    let d := if rc_DestOverride md && Socksaddr_IsValid (rc_OriginDestination md) then rc_OriginDestination md else destination md in
    refreshQUICSniff now st (Source (rc md)) d (SniffHost (rc md)).

(** The connection handed on: each buffer is put in front of it in turn
    ([bufio.NewCachedConn] reads its buffer first). *)
Definition cached_conn {A} (buffers : list (list A)) (conn : list A) : list A :=
  fold_left (fun conn buffer => buffer ++ conn) buffers conn.

(** The packets an outbound reads: those read ahead are put in front of the connection
    one by one ([bufio.NewCachedPacketConn]), and all go through the translation. *)
Definition outbound_reads (packets : list (list Z * Socksaddr)) (nat : option fakeIPNATPacketConn) (conn : list (list Z * Socksaddr))
    : list (list Z * Socksaddr) :=
  let conn := cached_conn (map (fun p => [p]) packets) conn in
  match nat with Some c => fst (read_all conn c) | None => conn end.

(** The source the client sees of a packet the outbound writes once it has read these. *)
Definition outbound_reply (packets : list (list Z * Socksaddr)) (nat : option fakeIPNATPacketConn) (conn : list (list Z * Socksaddr))
    (source : Socksaddr) : Socksaddr :=
  let conn := cached_conn (map (fun p => [p]) packets) conn in
  match nat with Some c => rewriteWriteDestination source (snd (read_all conn c)) | None => source end.

End Router.
