(* ===== verification/RouterProofs.v ===== *)
(** Properties of the router: which rule is selected, that the data read for
    sniffing reaches the outbound, that routing never dereferences a missing
    outbound, how rejections turn into drops, and that matching before a connection
    exists agrees with matching it. *)

From S2P Require Import Prelude NetAddr GoStrings RuleContext RuleItems RuleEngine RuleSpec RulePreMatch RuleExamples RuleTheorems RuleAction ExpiringMap Ja3 Ja3Proofs Sniffers Quic SniffersProofs SniffExamples Router NATConn.

Section Proofs.
Context {Env : RuleEnv} {SEnv : SnifferEnv} {REnv : RouterEnv}.

(** * Which rule is selected *)

(** The addresses of the destination are matched, not deferred. *)
Definition settled (md : RouteContext) : Prop := IgnoreDestinationIPCIDRMatch (rc md) = false.

Lemma rule_matches_eval r md :
  settled md ->
  rule_matches r md = (eval (rule_rule r) (ResetRuleCache (rc md)), md <| rc := ResetRuleCache (rc md) |>).
Proof.
  intros H. unfold rule_matches.
  by rewrite (engine_known (rule_rule r) (ResetRuleCache (rc md)) H eq_refl).
Qed.

(** Options that leave the destination alone. *)
Definition keeps_destination (o : RuleActionRouteOptions) : bool :=
  negb (Socksaddr_IsValid (OverrideAddress o)) && (OverridePort o <=? 0).

(** Actions that do not change what later rules match on. *)
Definition static_action (a : RuleAction) : bool :=
  match a with
  | RuleActionSniff_ _ | RuleActionSniffOverrideDestination | RuleActionResolve_ _ => false
  | RuleActionRouteOptions_ o => keeps_destination o
  | _ => true
  end.

Definition passes (a : RuleAction) : bool := match a with RuleActionRoute tag _ => is_pass tag | _ => false end.

(** The rules that end the search on metadata [c]. *)
Definition selects (c : InboundContext) (r : Rule) : bool :=
  negb (rule_disabled r) && eval (rule_rule r) c && negb (passes (rule_action r)) && final_action (rule_action r).

(** The first rule that ends it, with its index. *)
Definition first_rule (p : Rule -> bool) (rules : list Rule) : option (Z * Rule) :=
  (fun '(i, r) => (Z.of_nat i, r)) <$> list_find p rules.

Lemma first_rule_cons p r rules :
  first_rule p (r :: rules) = if p r then Some (0, r) else prod_map (Z.add 1) id <$> first_rule p rules.
Proof.
  unfold first_rule. cbn [list_find]. destruct (p r); [done|].
  rewrite decide_False by (intros []). rewrite <- !option_fmap_compose.
  destruct (list_find p rules) as [[n x]|]; [|done]. cbn. f_equal. f_equal. lia.
Qed.

Lemma rc_when b f md : (forall m, rc (f m) = rc m) -> rc (when b f md) = rc md.
Proof. intros H. unfold when. by destruct b. Qed.

Lemma applyRouteOptionsOverride_rc md o :
  keeps_destination o = true -> rc (applyRouteOptionsOverride md o) = rc md.
Proof.
  unfold keeps_destination. intros H. bsimpl. unfold applyRouteOptionsOverride.
  rewrite H. replace (0 <? OverridePort o) with false by lia. cbv iota zeta. by destruct (0 <? UDPTimeout o).
Qed.

Lemma applyRouteOptions_rc md o :
  keeps_destination o = true -> rc (applyRouteOptions md o) = rc md.
Proof.
  intros H. pose proof H as Hk. unfold keeps_destination in Hk. bsimpl.
  unfold applyRouteOptions. rewrite !rc_when by done.
  rewrite applyRouteOptionsOverride_rc by done. rewrite H0. unfold when at 1. by apply rc_when.
Qed.

Lemma static_run now s a :
  static_action a = true -> run_action now s a = Ok (s, None).
Proof. by destruct a. Qed.

Lemma static_options_rc md a o :
  static_action a = true -> final_action a = false -> action_options a = Some o -> rc (applyRouteOptions md o) = rc md.
Proof.
  intros Hs Hf Ho. apply applyRouteOptions_rc. destruct a; try discriminate Ho.
  - discriminate Hf.
  - cbn in Ho. unfold final_action in Hf. case_bool_decide; [done|]. by rewrite orb_true_r in Hf.
  - injection Ho as <-. exact Hs.
Qed.

Lemma matchRule_loop_first now c rules : forall i s,
  IgnoreDestinationIPCIDRMatch c = false -> ResetRuleCache (rc (ms_md s)) = c ->
  Forall (fun r => static_action (rule_action r) = true) rules ->
  exists s', matchRule_loop now i rules s = Ok (s', prod_map (Z.add i) id <$> first_rule (selects c) rules, None).
Proof.
  induction rules as [|r rules IH]; intros i s Hi Hc Hr; [by exists s|].
  apply Forall_cons in Hr as [Hr Hrs]. cbn [matchRule_loop]. rewrite first_rule_cons.
  assert (Hnext : forall s', ResetRuleCache (rc (ms_md s')) = c ->
    exists s'', matchRule_loop now (i + 1) rules s'
      = Ok (s'', prod_map (Z.add i) id <$> (prod_map (Z.add 1) id <$> first_rule (selects c) rules), None)).
  { intros s' Hs'. destruct (IH (i + 1) s' Hi Hs' Hrs) as [s'' ->]. exists s''. do 2 f_equal. f_equal.
    destruct (first_rule (selects c) rules) as [[n x]|]; [|done]. cbn. do 2 f_equal. lia. }
  unfold selects at 1. destruct (rule_disabled r); cbn [negb andb]; [by apply Hnext|].
  rewrite rule_matches_eval by (unfold settled; rewrite <- Hi, <- Hc; reflexivity). rewrite Hc.
  destruct (eval (rule_rule r) c); cbn [negb andb]; [|by apply Hnext; cbn; subst c].
  fold (passes (rule_action r)).
  destruct (passes (rule_action r)); cbn [negb andb]; [by apply Hnext; cbn; subst c|].
  rewrite static_run by done. cbn [res_bind].
  destruct (final_action (rule_action r)) eqn:Hf.
  - eexists. replace (prod_map (Z.add i) id <$> Some (0, r)) with (Some (i, r)) by (cbn; by rewrite Z.add_0_r).
    reflexivity.
  - apply Hnext. destruct (action_options (rule_action r)) as [o|] eqn:Ho; cbn [ms_md].
    + etransitivity; [apply f_equal; by apply (static_options_rc _ _ _ Hr Hf Ho)|]. cbn. by subst c.
    + cbn. by subst c.
Qed.

(** * What is read for sniffing *)

Definition stream (events : list read_event) : list Z :=
  concat (map (fun e => match e with ReadData b => b | _ => [] end) events).
Definition datagrams (events : list packet_event) : list (list Z * Socksaddr) :=
  concat (map (fun e => match e with PacketData b d => [(b, d)] | _ => [] end) events).

Definition is_sniff (a : RuleAction) : bool := match a with RuleActionSniff_ _ => true | _ => false end.
Definition sniff_count (rules : list Rule) : nat := length (List.filter (fun r => is_sniff (rule_action r)) rules).

Lemma PeekStream_loop_stream sniffers buffers events : forall first buffer err md md' buffer' events' err',
  PeekStream_loop sniffers buffers events first buffer err md = Ok (md', buffer', events', err') ->
  buffer' ++ stream events' = buffer ++ stream events.
Proof.
  induction events as [|[b|e|e] events IH]; intros first buffer err md md' buffer' events' err' H; cbn [PeekStream_loop] in H.
  - discriminate H.
  - change (stream (ReadData b :: events)) with (b ++ stream events). rewrite app_assoc.
    apply res_bind_ok in H as ([md1 err1] & _ & H). destruct (needs_more err1).
    + by apply IH in H.
    + by injection H as <- <- <- <-.
  - by injection H as <- <- <- <-.
  - by injection H as <- <- <- <-.
Qed.

Lemma sniff_packets_datagrams action sniffers events : forall packets md md' packets' events' r,
  sniff_packets action sniffers events packets md = Ok (md', packets', events', r) ->
  packets' ++ datagrams events' = packets ++ datagrams events.
Proof.
  induction events as [|[b d|e|e|e] events IH]; intros packets md md' packets' events' r H; cbn [sniff_packets] in H.
  - discriminate H.
  - change (datagrams (PacketData b d :: events)) with ([(b, d)] ++ datagrams events). rewrite app_assoc.
    apply res_bind_ok in H as ([md1 err1] & _ & H). destruct (needs_more err1).
    + by apply IH in H.
    + by injection H as <- <- <- <-.
  - by injection H as <- <- <- <-.
  - by injection H as <- <- <- <-.
  - by injection H as <- <- <- <-.
Qed.

(** What the sniff action does to the connection and what was read of it. *)
Definition sniffed_buffers (r : SniffResult) (b : list (list Z)) : list (list Z) :=
  match sr_buffer r with Some x => b ++ [x] | None => b end.
Definition sniffed_packets (r : SniffResult) (p : list (list Z * Socksaddr)) : list (list Z * Socksaddr) :=
  match sr_buffer r with Some _ => p | None => p ++ sr_packets r end.

Section IO.
Context (now : Z) (I : nat -> Input -> list (list Z) -> list (list Z * Socksaddr) -> Prop).
Hypothesis I_weaken : forall n i b p, I (S n) i b p -> I n i b p.
Hypothesis I_sniff : forall n st md action i b p r,
  I (S n) i b p -> actionSniff now st md action i b p = Ok r -> I n (sr_input r) (sniffed_buffers r b) (sniffed_packets r p).

Definition holds_for (n : nat) (s : MatchState) : Prop := I n (ms_input s) (ms_buffers s) (ms_packets s).

Lemma run_action_io n s a s' fatal :
  holds_for (if is_sniff a then S n else n) s -> run_action now s a = Ok (s', fatal) -> holds_for n s'.
Proof.
  intros H Hr. destruct a; cbn [run_action is_sniff] in *; try by injection Hr as <- <-.
  - apply res_bind_ok in Hr as (r & Hr & E). injection E as <- <-. by apply (I_sniff _ _ _ _ _ _ _ _ H) in Hr.
  - case_bool_decide; by injection Hr as <- <-.
  - destruct (actionResolve _ _); try discriminate; by injection Hr as <- <-.
Qed.

Lemma holds_for_zero n s : holds_for n s -> holds_for 0 s.
Proof. induction n as [|n IH]; [done|]. intros H. by apply IH, I_weaken. Qed.

Lemma matchRule_loop_io rules : forall i s s' sel fatal,
  holds_for (sniff_count rules) s -> matchRule_loop now i rules s = Ok (s', sel, fatal) -> holds_for 0 s'.
Proof.
  induction rules as [|r rules IH]; intros i s s' sel fatal H Hm; cbn [matchRule_loop] in Hm.
  - by injection Hm as <- <- <-.
  - assert (Hn : holds_for (if is_sniff (rule_action r) then S (sniff_count rules) else sniff_count rules) s).
    { unfold sniff_count in H. cbn [List.filter] in H. by destruct (is_sniff (rule_action r)). }
    assert (Hl : holds_for (sniff_count rules) s) by (destruct (is_sniff (rule_action r)); [by apply I_weaken|done]).
    destruct (rule_disabled r); [by apply IH in Hm|].
    destruct (rule_matches r (ms_md s)) as [matched md]. destruct matched; cbn [negb] in Hm; [|by apply IH in Hm].
    fold (passes (rule_action r)) in Hm. destruct (passes (rule_action r)); [by apply IH in Hm|].
    apply res_bind_ok in Hm as ([s1 fatal1] & Hr & Hm).
    assert (H1 : holds_for (sniff_count rules) s1)
      by (eapply run_action_io; [|exact Hr]; by destruct (action_options (rule_action r))).
    destruct fatal1; [injection Hm as <- <- <-; by apply holds_for_zero in H1|].
    destruct (final_action (rule_action r)); [injection Hm as <- <- <-; by apply holds_for_zero in H1|].
    by apply IH in Hm.
Qed.

Lemma matchRule_io rules st md input s sel fatal :
  I (sniff_count rules) input [] [] -> matchRule now rules st md input = Ok (s, sel, fatal) -> holds_for 0 s.
Proof.
  unfold matchRule. intros H Hm. destruct (prepareMatchMetadata md) as [md1| | |]; try discriminate.
  - by apply matchRule_loop_io in Hm.
  - injection Hm as <- <- <-. by apply (holds_for_zero (sniff_count rules)).
Qed.
End IO.

(** For streams: the buffers hold what was read, one for each sniff at most. *)
Definition stream_io (events : list read_event) (limit n : nat) (i : Input) (b : list (list Z)) (p : list (list Z * Socksaddr)) : Prop :=
  exists events', i = InputConn events' /\ p = [] /\ concat b ++ stream events' = stream events /\ (length b + n <= limit)%nat.

Lemma stream_io_sniff now events limit n st md action i b p r :
  stream_io events limit (S n) i b p -> actionSniff now st md action i b p = Ok r ->
  stream_io events limit n (sr_input r) (sniffed_buffers r b) (sniffed_packets r p).
Proof.
  intros (ev & -> & -> & Hs & Hn) Hr. unfold actionSniff in Hr.
  assert (Hskip : stream_io events limit n (InputConn ev) b []) by (exists ev; repeat split; [done|lia]).
  repeat (match type of Hr with (if ?c then _ else _) = _ => destruct c; [injection Hr as <-; exact Hskip|] end).
  cbv zeta in Hr. apply res_bind_ok in Hr as ([[[md1 buffer] ev1] err] & Hp & Hr). injection Hr as <-.
  apply PeekStream_loop_stream in Hp. cbn [app] in Hp. exists ev1. cbn [sr_input].
  unfold sniffed_buffers, sniffed_packets. cbn [sr_buffer sr_packets].
  destruct buffer as [|x buffer]; cbn [nonempty].
  - cbn [app] in Hp. repeat split; [by rewrite Hp|lia].
  - repeat split; [|rewrite length_app; cbn; lia].
    rewrite concat_app. cbn [concat]. by rewrite app_nil_r, <- app_assoc, Hp.
Qed.

(** For packets: with one sniff, they are those read. *)
Definition packet_io (events : list packet_event) (n : nat) (i : Input) (b : list (list Z)) (p : list (list Z * Socksaddr)) : Prop :=
  exists events', i = InputPacketConn events' /\ b = [] /\ p ++ datagrams events' = datagrams events
  /\ (n = 0%nat \/ n = 1%nat /\ p = []).

Lemma packet_io_sniff now events n st md action i b p r :
  packet_io events (S n) i b p -> actionSniff now st md action i b p = Ok r ->
  packet_io events n (sr_input r) (sniffed_buffers r b) (sniffed_packets r p).
Proof.
  intros (ev & -> & -> & Hs & [Hn|[Hn ->]]) Hr; [lia|]. assert (n = 0%nat) as -> by lia. unfold actionSniff in Hr.
  assert (Hskip : packet_io events 0 (InputPacketConn ev) [] []) by (exists ev; auto).
  repeat (match type of Hr with (if ?c then _ else _) = _ => destruct c; [injection Hr as <-; exact Hskip|] end).
  cbn [sniff_buffered res_bind] in Hr. apply res_bind_ok in Hr as ([[[md1 packets] ev1] result] & Hp & Hr).
  apply sniff_packets_datagrams in Hp. cbn [app] in Hp, Hs. rewrite Hs in Hp.
  destruct result as [err|e]; [destruct (sniff_finally _ _ _ _) as [st1 md2]|]; injection Hr as <-; exists ev1; auto.
Qed.

Lemma cached_conn_one {A} (buffers : list (list A)) conn :
  (length buffers <= 1)%nat -> cached_conn buffers conn = concat buffers ++ conn.
Proof. destruct buffers as [|b [|? ?]]; cbn; [done| |lia]. intros _. by rewrite app_nil_r. Qed.

Lemma cached_conn_packets {A} (packets : list A) : forall conn,
  cached_conn (map (fun p => [p]) packets) conn = rev packets ++ conn.
Proof.
  induction packets as [|p packets IH]; intros conn; [done|]. cbn [map rev]. unfold cached_conn in *. cbn [fold_left].
  by rewrite IH, <- app_assoc.
Qed.

(** * Where a connection goes *)

Lemma matchRule_loop_selected now rules : forall i s s' j r fatal,
  matchRule_loop now i rules s = Ok (s', Some (j, r), fatal) ->
  i <= j /\ rules !! Z.to_nat (j - i) = Some r /\ rule_disabled r = false
  /\ final_action (rule_action r) = true /\ passes (rule_action r) = false.
Proof.
  induction rules as [|x rules IH]; intros i s s' j r fatal Hm; cbn [matchRule_loop] in Hm; [discriminate|].
  assert (Hnext : forall s1, matchRule_loop now (i + 1) rules s1 = Ok (s', Some (j, r), fatal) ->
    i <= j /\ (x :: rules) !! Z.to_nat (j - i) = Some r /\ rule_disabled r = false
    /\ final_action (rule_action r) = true /\ passes (rule_action r) = false).
  { intros s1 H1. apply IH in H1 as (Hj & Hl & Hd & Hf). split; [lia|]. split; [|done].
    replace (Z.to_nat (j - i)) with (S (Z.to_nat (j - (i + 1)))) by lia. done. }
  destruct (rule_disabled x) eqn:Hd; [by apply Hnext in Hm|].
  destruct (rule_matches x (ms_md s)) as [[] md]; cbn [negb] in Hm; [|by apply Hnext in Hm].
  fold (passes (rule_action x)) in Hm. destruct (passes (rule_action x)) eqn:Hp; [by apply Hnext in Hm|].
  apply res_bind_ok in Hm as ([s1 [e|]] & Hr & Hm); [discriminate|].
  destruct (final_action (rule_action x)) eqn:Hf; [|by apply Hnext in Hm].
  injection Hm as <- <- <- <-. rewrite Z.sub_diag. repeat split; [lia|done..].
Qed.

Lemma matchRule_selected now rules st md input s j r fatal :
  matchRule now rules st md input = Ok (s, Some (j, r), fatal) ->
  0 <= j /\ rules !! Z.to_nat j = Some r /\ rule_disabled r = false
  /\ final_action (rule_action r) = true /\ passes (rule_action r) = false.
Proof.
  unfold matchRule. destruct (prepareMatchMetadata md); try discriminate. intros H.
  apply matchRule_loop_selected in H. by rewrite Z.sub_0_r in H.
Qed.

Lemma final_action_cases a :
  final_action a = true ->
  (exists tag o, a = RuleActionRoute tag o) \/ (exists tag o, a = RuleActionBypass tag o /\ tag <> "")
  \/ (exists x, a = RuleActionReject_ x) \/ a = RuleActionHijackDNS.
Proof.
  unfold final_action. destruct a; try discriminate; try (by eauto 10).
  cbn. case_bool_decide; [discriminate|]. eauto 10.
Qed.

(** A reject action as the options build it. *)
Definition known_method (r : Rule) : bool :=
  match rule_action r with
  | RuleActionReject_ x => inb (Method x) [RuleActionRejectMethodDefault; RuleActionRejectMethodDrop; RuleActionRejectMethodReply]
  | _ => true
  end.

Lemma RuleActionReject_Error_known x now times p :
  inb (Method x) [RuleActionRejectMethodDefault; RuleActionRejectMethodDrop; RuleActionRejectMethodReply] = true ->
  fst (RuleActionReject_Error x now times) <> Panic p.
Proof.
  rewrite inb_true. unfold RuleActionReject_Error. intros H.
  repeat (case_bool_decide; [done|]). case_bool_decide; [by destruct (NoDrop x)|]. set_solver.
Qed.

(** ** No panics *)

Lemma res_bind_no_panic {A B} (x : res A) (f : A -> res B) :
  (forall p, x <> Panic p) -> (forall a p, f a <> Panic p) -> forall p, res_bind x f <> Panic p.
Proof. intros Hx Hf p. destruct x as [a|e|q|]; cbn; [apply Hf|done|by destruct (Hx q)|done]. Qed.

(** The packets received are [received], and [start] is what sniffing starts with. *)
Section Panics.
Context (received : list (list Z)) (start : option (list qCryptoFragment)).

(** What the QUIC sniffer keeps after any of the packets. *)
Inductive reached : option (list qCryptoFragment) -> Prop :=
| reached_start : reached start
| reached_step kept b md md' kept' err :
    reached kept -> b ∈ received -> sniff_QUICClientHello md kept b = Ok (md', kept', err) -> reached kept'.

Definition quic_panics (p : string) : Prop :=
  exists md kept b, reached kept /\ b ∈ received /\ sniff_QUICClientHello md kept b = Panic p.

Definition keeps_reached (md : RouteContext) : Prop := reached (rc_SniffContext md).

Lemma run_sniffers_wp {A} (run : A -> RouteContext -> res (RouteContext * option error)) sniffers :
  (forall s md, keeps_reached md -> wp quic_panics (run s md) (fun x => keeps_reached (fst x))) ->
  forall md errs, keeps_reached md -> wp quic_panics (run_sniffers run sniffers md errs) (fun x => keeps_reached (fst x)).
Proof.
  intros Hrun. induction sniffers as [|s sniffers IH]; intros md errs Hmd; [done|]. cbn [run_sniffers].
  apply wp_bind. eapply wp_mono; [by apply Hrun|]. intros [md1 [e|]] H1; [by apply IH|done].
Qed.

Lemma try_stream_wp s buffers md : keeps_reached md -> wp quic_panics (try_stream s buffers md) (fun x => keeps_reached (fst x)).
Proof.
  intros H. unfold try_stream. apply wp_bind. eapply wp_mono; [apply wp_of_safe, sniff_stream_safe|].
  by intros [c err] _.
Qed.

Lemma try_packet_wp s b md : b ∈ received -> keeps_reached md ->
  wp quic_panics (try_packet s b md) (fun x => keeps_reached (fst x)).
Proof.
  intros Hb H. unfold try_packet. apply wp_bind.
  assert (Hother : forall f, safe f ->
    wp quic_panics (let! ' (c, err) := verdict f (rc md) in Ok (c, rc_SniffContext md, err))
      (fun '(c, kept, err) => keeps_reached (md <| rc := c |> <| rc_SniffContext := kept |>))).
  { intros f Hf. apply wp_bind. eapply wp_mono; [apply wp_of_safe, verdict_safe, Hf|]. by intros [c err] _. }
  apply (wp_mono _ _ (fun '(c, kept, err) => keeps_reached (md <| rc := c |> <| rc_SniffContext := kept |>)));
    [|by intros [[c kept] err]].
  destruct (sniff_packet_safe b) as (? & ? & ? & ? & ?).
  destruct s; cbn [sniff_packet]; try (by apply Hother); [apply Hother, sniff_DomainNameQuery_safe| |apply Hother, sniff_UTP_safe].
  destruct (sniff_QUICClientHello _ _ _) as [[[c kept] err]| | |] eqn:E; cbn [wp]; [|done| |done].
  - by eapply reached_step.
  - by exists (rc md), (rc_SniffContext md), b.
Qed.

Lemma PeekStream_loop_wp sniffers buffers events : forall first buffer err md, keeps_reached md ->
  wp quic_panics (PeekStream_loop sniffers buffers events first buffer err md) (fun '(md', _, _, _) => keeps_reached md').
Proof.
  induction events as [|[b|e|e] events IH]; intros first buffer err md H; cbn [PeekStream_loop]; try done.
  apply wp_bind. eapply wp_mono; [apply run_sniffers_wp; [intros; by apply try_stream_wp|done]|].
  intros [md1 err1] H1. destruct (needs_more err1); [by apply IH|done].
Qed.

Lemma packet_attempt_wp action sniffers md b : b ∈ received -> keeps_reached md ->
  wp quic_panics (packet_attempt action sniffers md b) (fun x => keeps_reached (fst x)).
Proof.
  intros Hb H. unfold packet_attempt, PeekPacket. apply wp_bind.
  eapply wp_mono; [apply run_sniffers_wp; [intros; by apply try_packet_wp|done]|]. by intros [md1 err1].
Qed.

Definition all_received (packets : list (list Z * Socksaddr)) : Prop := Forall (fun p => fst p ∈ received) packets.

Lemma sniff_buffered_wp action sniffers packets : forall md, all_received packets -> keeps_reached md ->
  wp quic_panics (sniff_buffered action sniffers packets md) (fun x => keeps_reached (fst x)).
Proof.
  induction packets as [|[b d] packets IH]; intros md Hp H; [done|]. apply Forall_cons in Hp as [Hb Hp].
  cbn [sniff_buffered]. apply wp_bind. eapply wp_mono; [by apply packet_attempt_wp|].
  intros [md1 err1] H1. destruct (needs_more err1); [by apply IH|done].
Qed.

Lemma sniff_packets_wp action sniffers events : forall packets md,
  all_received packets -> all_received (datagrams events) -> keeps_reached md ->
  wp quic_panics (sniff_packets action sniffers events packets md)
    (fun '(md', packets', events', _) => keeps_reached md' /\ all_received packets' /\ all_received (datagrams events')).
Proof.
  induction events as [|[b d|e|e|e] events IH]; intros packets md Hp He H; cbn [sniff_packets]; try done.
  change (datagrams (PacketData b d :: events)) with ((b, d) :: datagrams events) in He.
  apply Forall_cons in He as [Hb He]. apply wp_bind. eapply wp_mono; [by apply packet_attempt_wp|].
  assert (Hp' : all_received (packets ++ [(b, d)])) by (apply Forall_app; split; [done|by repeat constructor]).
  intros [md1 err1] H1. destruct (needs_more err1); [by apply IH|done].
Qed.

Definition input_received (i : Input) : Prop :=
  match i with InputConn _ => True | InputPacketConn events => all_received (datagrams events) end.

Lemma sniff_finally_reached now st md err : keeps_reached md -> keeps_reached (snd (sniff_finally now st md err)).
Proof.
  intros H. unfold sniff_finally. destruct err; [done|]. case_bool_decide; [|done]. case_bool_decide; [|done].
  by destruct (lookupQUICSniff _ _ _ _) as [[host|] st'].
Qed.

Lemma actionSniff_wp now st md action i b ps : keeps_reached md -> input_received i -> all_received ps ->
  wp quic_panics (actionSniff now st md action i b ps)
    (fun r => keeps_reached (sr_md r) /\ input_received (sr_input r) /\ all_received (sr_packets r)).
Proof.
  intros Hmd Hi Hps. unfold actionSniff.
  assert (Hnil : all_received []) by constructor.
  destruct (Skip md); [done|]. destruct (negb _); [done|]. destruct i as [ev|ev].
  - destruct (_ && _); [done|]. destruct (sniff_skipped action md); [done|]. apply wp_bind.
    eapply wp_mono; [by apply PeekStream_loop_wp|]. by intros [[[md1 buffer] ev1] err] H1.
  - destruct (_ && _); [done|]. destruct (sniff_skipped action md); [done|]. apply wp_bind.
    eapply wp_mono; [by apply sniff_buffered_wp|]. intros [md1 [err|]] H1; cbn [fst] in H1.
    + pose proof (sniff_finally_reached now st md1 err H1). by destruct (sniff_finally _ _ _ _).
    + apply wp_bind. eapply wp_mono; [by apply sniff_packets_wp|].
      intros [[[md2 packets] ev2] [err|e]] (H2 & Hp & He); [|done].
      pose proof (sniff_finally_reached now st md2 err H2). by destruct (sniff_finally _ _ _ _).
Qed.

Hypothesis Lookup_no_panic : forall md d a p, dns_Lookup md d a <> Panic p.

Definition state_reached (s : MatchState) : Prop :=
  keeps_reached (ms_md s) /\ input_received (ms_input s) /\ all_received (ms_packets s).

Lemma actionResolve_wp md action : keeps_reached md -> wp quic_panics (actionResolve md action) keeps_reached.
Proof.
  intros H. unfold actionResolve. destruct (negb (IsDomain _)); [done|]. destruct (_ && _); [done|]. apply wp_bind.
  destruct (dns_Lookup _ _ _) eqn:E; try done. by apply Lookup_no_panic in E.
Qed.

Lemma run_action_wp now s a : state_reached s -> wp quic_panics (run_action now s a) (fun x => state_reached (fst x)).
Proof.
  intros (Hmd & Hi & Hp). destruct a as [| | | | | |action| |action]; cbn [run_action]; try done.
  - apply wp_bind. eapply wp_mono; [by apply actionSniff_wp|]. intros r (H1 & H2 & H3). cbn.
    split; [done|]. split; [done|]. cbn. destruct (sr_buffer r); [done|]. by apply Forall_app.
  - case_bool_decide; [done|]. split; [|done]. cbn. unfold actionSniffOverrideDestination.
    destruct (_ && _); [|done]. by destruct (ms_input s).
  - pose proof (actionResolve_wp (ms_md s) action Hmd) as H. by destruct (actionResolve _ _).
Qed.

Lemma keeps_reached_when b f md : (forall m, rc_SniffContext (f m) = rc_SniffContext m) -> rc_SniffContext (when b f md) = rc_SniffContext md.
Proof. intros H. unfold when. by destruct b. Qed.

Lemma applyRouteOptionsOverride_kept md o : rc_SniffContext (applyRouteOptionsOverride md o) = rc_SniffContext md.
Proof. unfold applyRouteOptionsOverride. by destruct (Socksaddr_IsValid _), (0 <? OverridePort o), (0 <? UDPTimeout o). Qed.

Lemma applyRouteOptions_kept md o : rc_SniffContext (applyRouteOptions md o) = rc_SniffContext md.
Proof.
  unfold applyRouteOptions. rewrite !keeps_reached_when by done. rewrite applyRouteOptionsOverride_kept.
  by rewrite !keeps_reached_when by done.
Qed.

Lemma matchRule_loop_wp now rules : forall i s, state_reached s ->
  wp quic_panics (matchRule_loop now i rules s) (fun _ => True).
Proof.
  induction rules as [|r rules IH]; intros i s Hs; cbn [matchRule_loop]; [done|].
  destruct (rule_disabled r); [by apply IH|]. unfold rule_matches.
  destruct (Match (rule_rule r) _) as [[] c]; cbn [negb]; [|by apply IH].
  destruct (match rule_action r with RuleActionRoute tag _ => is_pass tag | _ => false end); [by apply IH|].
  apply wp_bind. eapply wp_mono.
  - apply run_action_wp. destruct Hs as (H1 & H2 & H3). destruct (action_options (rule_action r)) as [o|]; [|done].
    split; [|done]. unfold keeps_reached in *. cbn [ms_md]. pose proof (applyRouteOptions_kept ((ms_md s) <| rc := c |>) o) as Ho.
    change (rc_SniffContext ((ms_md s) <| rc := c |>)) with (rc_SniffContext (ms_md s)) in Ho. rewrite <- Ho in H1. exact H1.
  - intros [s1 [e|]] H1; [done|]. destruct (final_action (rule_action r)); [done|by apply IH].
Qed.

Lemma prepareMatchMetadata_no_panic md p : prepareMatchMetadata md <> Panic p.
Proof.
  unfold prepareMatchMetadata. apply res_bind_no_panic; [|done]. intros q. unfold restore_domain.
  destruct (_ && _); [|case_bool_decide; [|done]; by destruct (LookupReverseMapping _)].
  destruct (fakeip_Lookup _); [by case_bool_decide|done].
Qed.

Lemma prepareMatchMetadata_kept md md' : prepareMatchMetadata md = Ok md' -> rc_SniffContext md' = rc_SniffContext md.
Proof.
  unfold prepareMatchMetadata. intros H. apply res_bind_ok in H as (m & H & E). injection E as <-.
  transitivity (rc_SniffContext m); [unfold set_IPVersion; destruct (IsIPv4 _); [done|]; by destruct (IsIPv6 _)|].
  transitivity (rc_SniffContext (lookup_neighbor (searchProcessInfo md))).
  - unfold restore_domain in H. destruct (_ && _).
    + destruct (fakeip_Lookup _); [|done]. case_bool_decide; by injection H as <-.
    + case_bool_decide; [destruct (LookupReverseMapping _)|]; by injection H as <-.
  - transitivity (rc_SniffContext (searchProcessInfo md)).
    + unfold lookup_neighbor. destruct neighborResolver as [[mac host]|]; [|done].
      destruct (SourceMACAddress _); [done|]. by destruct (IsValid _).
    + unfold searchProcessInfo. destruct processSearcher as [find|]; [|done].
      destruct (ProcessInfo _); [done|]. destruct (negb _); [done|]. by destruct (find _ _ _).
Qed.

Lemma matchRule_wp now rules st md i : rc_SniffContext md = start -> input_received i ->
  wp quic_panics (matchRule now rules st md i) (fun _ => True).
Proof.
  intros Hmd Hi. unfold matchRule. destruct (prepareMatchMetadata md) as [md1| | |] eqn:E; try done.
  - apply matchRule_loop_wp. split; [|split; [done|constructor]].
    unfold keeps_reached. cbn [ms_md]. rewrite (prepareMatchMetadata_kept _ _ E), Hmd. constructor.
  - by apply prepareMatchMetadata_no_panic in E.
Qed.
End Panics.

Lemma outbound_for_no_panic network tag p : outbound_for network tag <> Panic p.
Proof. unfold outbound_for. destruct (manager_Outbound tag) as [o|]; [by destruct (inb _ _)|done]. Qed.

Lemma inject_no_panic stream md r p : inject stream md = Some r -> r <> Panic p.
Proof.
  unfold inject. case_bool_decide; [done|]. intros [= <-]. case_bool_decide; [done|].
  destruct (inbound_Get _) as [[tcp udp]|]; [|done]. by destruct stream, tcp, udp.
Qed.

Lemma route_selected_no_panic now stream s selected p :
  match selected with Some (_, r) => final_action (rule_action r) && known_method r = true | None => True end ->
  route_selected now stream s selected <> Panic p.
Proof.
  destruct selected as [[j r]|]; unfold route_selected; cbv zeta; [|by destruct (inb _ _)].
  intros H. apply andb_true_iff in H as [Hf Hk].
  destruct (final_action_cases _ Hf) as [(tag & o & Ha)|[(tag & o & Ha & Ht)|[(x & Ha)|Ha]]];
    unfold known_method in Hk; rewrite Ha in Hk |- *.
  - apply res_bind_no_panic; [apply outbound_for_no_panic|done].
  - rewrite bool_decide_false by done. apply res_bind_no_panic; [apply outbound_for_no_panic|done].
  - case_bool_decide; [done|].
    pose proof (RuleActionReject_Error_known x now (default [] (dropCounters (ms_state s) !! reject_id x))) as Hx.
    destruct (RuleActionReject_Error _ _ _) as [err times]. apply res_bind_no_panic; [|done]. intros q. by apply Hx.
  - done.
Qed.

Lemma route_selected_input now b s selected routed st :
  route_selected now b s selected = Ok (routed, st) ->
  match routed with
  | RoutedTo _ md sel conn buffers packets nat =>
      sel = selected /\ conn = ms_input s /\ buffers = ms_buffers s /\ packets = ms_packets s
      /\ nat = (if negb b && (rc_FakeIP md || rc_DestOverride md)
                then Some (newFakeIPNATPacketConn (rc_OriginDestination md) (destination md)) else None)
  | RoutedHijackDNS _ conn buffers packets => conn = ms_input s /\ buffers = ms_buffers s /\ packets = ms_packets s
  | RoutedReject _ => True
  | RoutedInject _ _ => False
  end.
Proof.
  unfold route_selected. cbv zeta. destruct selected as [[j r]|]; [|destruct (inb _ _); [by intros [= <- <-]|done]].
  destruct (rule_action r) as [tag o|tag o| | |x| | | |]; try done.
  - intros Hs. apply res_bind_ok in Hs as (out & _ & Hs). by injection Hs as <- <-.
  - case_bool_decide; [done|]. intros Hs. apply res_bind_ok in Hs as (out & _ & Hs). by injection Hs as <- <-.
  - case_bool_decide; [done|]. destruct (RuleActionReject_Error _ _ _) as [err times].
    intros Hs. apply res_bind_ok in Hs as (e & _ & Hs). by injection Hs as <- <-.
  - by intros [= <- <-].
Qed.

(** The outbound a selected rule names. *)
Lemma route_selected_outbound now b s selected o md sel conn buffers packets nat st :
  route_selected now b s selected = Ok (RoutedTo o md sel conn buffers packets nat, st) ->
  (if b then NetworkTCP else NetworkUDP) ∈ out_Network o
  /\ match selected with
     | None => o = manager_Default
     | Some (_, r) => exists tag opts, (rule_action r = RuleActionRoute tag opts \/ rule_action r = RuleActionBypass tag opts)
                                       /\ manager_Outbound tag = Some o
     end.
Proof.
  assert (Hfor : forall network tag o', outbound_for network tag = Ok o' -> network ∈ out_Network o' /\ manager_Outbound tag = Some o').
  { unfold outbound_for. intros network tag o' H. destruct (manager_Outbound tag) as [x|]; [|done].
    destruct (inb network (out_Network x)) eqn:E; [|done]. injection H as <-. by apply inb_true in E. }
  unfold route_selected. cbv zeta. destruct selected as [[j r]|].
  - destruct (rule_action r) as [tag opts|tag opts| | |x| | | |]; try done.
    + intros Hs. apply res_bind_ok in Hs as (out & Ho & Hs). injection Hs as <-. apply Hfor in Ho as [Hn Ho]. eauto 10.
    + case_bool_decide; [done|]. intros Hs. apply res_bind_ok in Hs as (out & Ho & Hs). injection Hs as <-.
      apply Hfor in Ho as [Hn Ho]. eauto 10.
    + case_bool_decide; [done|]. destruct (RuleActionReject_Error _ _ _) as [err times].
      intros Hs. apply res_bind_ok in Hs as (e & _ & Hs). discriminate Hs.
  - destruct (inb _ _) eqn:E; [|done]. intros H. injection H as <-. by apply inb_true in E.
Qed.

(** What either route function does once nothing is injected or hijacked. *)
Lemma routeConnection_cases now rules st md events routed st' :
  routeConnection now rules st md events = Ok (routed, st') ->
  (exists tag md', routed = RoutedInject tag md')
  \/ (exists md', routed = RoutedHijackDNS md' (InputConn events) [] [])
  \/ exists md' s sel, matchRule now rules st md' (InputConn events) = Ok (s, sel, None)
                       /\ route_selected now true s sel = Ok (routed, st').
Proof.
  unfold routeConnection. destruct (inject true md) as [r|] eqn:Hi.
  - intros H. apply res_bind_ok in H as (x & -> & H). injection H as <- <-. left.
    unfold inject in Hi. repeat case_match; simplify_eq; eauto.
  - cbv zeta. destruct (deprecated_destination _); [done|]. destruct (_ && _); [intros [= <- <-]; eauto|].
    intros H. apply res_bind_ok in H as ([[s sel] [e|]] & Hm & H); [done|]. right. right. eauto 10.
Qed.

Lemma routePacketConnection_cases now rules st md events routed st' :
  routePacketConnection now rules st md events = Ok (routed, st') ->
  (exists tag md', routed = RoutedInject tag md')
  \/ (exists md', routed = RoutedHijackDNS md' (InputPacketConn events) [] [])
  \/ exists md' s sel, matchRule now rules st md' (InputPacketConn events) = Ok (s, sel, None)
                       /\ route_selected now false s sel = Ok (routed, st').
Proof.
  unfold routePacketConnection. destruct (inject false md) as [r|] eqn:Hi.
  - intros H. apply res_bind_ok in H as (x & -> & H). injection H as <- <-. left.
    unfold inject in Hi. repeat case_match; simplify_eq; eauto.
  - cbv zeta. destruct (_ && _); [intros [= <- <-]; eauto|].
    intros H. apply res_bind_ok in H as ([[s sel] [e|]] & Hm & H); [done|]. right. right. eauto 10.
Qed.

(** * Matching before a connection exists *)





Lemma prepareMatchMetadata_settled md md' : settled md -> prepareMatchMetadata md = Ok md' -> settled md'.
Proof.
  unfold settled, prepareMatchMetadata. intros Hi H. apply res_bind_ok in H as (m & H & E). injection E as <-.
  assert (Hm : IgnoreDestinationIPCIDRMatch (rc m) = false).
  { rewrite <- Hi. transitivity (IgnoreDestinationIPCIDRMatch (rc (lookup_neighbor (searchProcessInfo md)))).
    - unfold restore_domain in H. destruct (_ && _).
      + destruct (fakeip_Lookup _); [|done]. case_bool_decide; by injection H as <-.
      + case_bool_decide; [destruct (LookupReverseMapping _)|]; by injection H as <-.
    - transitivity (IgnoreDestinationIPCIDRMatch (rc (searchProcessInfo md))).
      + unfold lookup_neighbor. destruct neighborResolver as [[mac host]|]; [|done].
        destruct (SourceMACAddress _); [done|]. destruct (IsValid _); [|done]. by destruct (mac _), (host _).
      + unfold searchProcessInfo. destruct processSearcher as [find|]; [|done].
        destruct (ProcessInfo _); [done|]. destruct (negb _); [done|]. by destruct (find _ _ _). }
  unfold set_IPVersion. destruct (IsIPv4 _); [done|]. by destruct (IsIPv6 _).
Qed.




(** * Rejections *)

Definition counter_after (r : RuleActionReject) (history : list Z) : list Z :=
  fold_left (fun counter t => snd (RuleActionReject_Error r t counter)) history [].

Definition recent (now : Z) (times : list Z) : list Z := List.filter (fun t => now - t <=? flood_window) times.

Lemma recent_app now a b : recent now (a ++ b) = recent now a ++ recent now b.
Proof. apply List.filter_app. Qed.

Lemma recent_recent now t c : t <= now -> recent now (recent t c) = recent now c.
Proof.
  intros H. unfold recent. induction c as [|x c IH]; [done|]. cbn [List.filter].
  destruct (now - x <=? flood_window) eqn:E1.
  - assert (t - x <=? flood_window = true) as -> by lia. cbn [List.filter]. by rewrite E1, IH.
  - destruct (t - x <=? flood_window); cbn [List.filter]; by rewrite ?E1.
Qed.

Lemma RuleActionReject_Error_default r now counter :
  Method r = RuleActionRejectMethodDefault -> NoDrop r = false ->
  RuleActionReject_Error r now counter
  = (Ok (Some (if flood_limit <? zlen (recent now counter ++ [now]) then RejectedDrop else RejectedReset)),
     recent now counter ++ [now]).
Proof. intros Hm Hn. unfold RuleActionReject_Error. by rewrite Hm, Hn. Qed.

Lemma counter_after_recent r now history :
  Method r = RuleActionRejectMethodDefault -> NoDrop r = false -> Forall (fun t => t <= now) history ->
  recent now (counter_after r history) = recent now history.
Proof.
  intros Hm Hn. induction history as [|t history IH] using rev_ind; [done|]. intros H.
  apply Forall_app in H as [Hh Ht]. apply Forall_cons in Ht as [Ht _]. unfold counter_after. rewrite fold_left_app. cbn [fold_left].
  fold (counter_after r history). rewrite RuleActionReject_Error_default by done. cbn [snd].
  rewrite !recent_app, (recent_recent now t _ Ht), (IH Hh). reflexivity.
Qed.

(** * Theorems *)

(** C3: the first rule that matches decides.  For rules whose actions do not change
    what later rules match on (no sniffing, no resolving and no options that override
    the destination), and metadata that [prepareMatchMetadata] accepts with nothing
    deferred, [matchRule] selects the first rule that is enabled, holds of the
    prepared metadata by its boolean meaning, ends the search and does not name an
    outbound of type pass; without one it selects none. *)
Theorem first_match_wins now rules st md md' input :
  settled md -> prepareMatchMetadata md = Ok md' ->
  Forall (fun r => static_action (rule_action r) = true) rules ->
  exists s, matchRule now rules st md input = Ok (s, first_rule (selects (ResetRuleCache (rc md'))) rules, None).
Proof.
  intros Hi Hp Hr. unfold matchRule. rewrite Hp.
  destruct (matchRule_loop_first now _ rules 0 (mkMatchState md' st input [] [])
    (prepareMatchMetadata_settled _ _ Hi Hp : IgnoreDestinationIPCIDRMatch (ResetRuleCache (rc md')) = false) eq_refl Hr) as [s ->].
  exists s. by destruct (first_rule _ rules) as [[n x]|].
Qed.

(** C7: a connection goes where an enabled rule says.  When a TCP or UDP connection
    is handed to an outbound, that outbound carries the network, and it is the
    default one if no rule was selected, otherwise the one named by the route or
    bypass action of the selected rule, which is enabled and at its index. *)
Theorem routed_outbound_sound now rules st md (stream : bool) events packets o md' sel conn buffers datagrams nat st' :
  (if stream then routeConnection now rules st md events else routePacketConnection now rules st md packets)
    = Ok (RoutedTo o md' sel conn buffers datagrams nat, st') ->
  (if stream then NetworkTCP else NetworkUDP) ∈ out_Network o
  /\ match sel with
     | None => o = manager_Default
     | Some (i, r) => rules !! Z.to_nat i = Some r /\ rule_disabled r = false
         /\ exists tag opts, (rule_action r = RuleActionRoute tag opts \/ rule_action r = RuleActionBypass tag opts)
                             /\ manager_Outbound tag = Some o /\ passes (rule_action r) = false
     end.
Proof.
  intros H.
  assert (exists m i s sel', matchRule now rules st m i = Ok (s, sel', None)
    /\ route_selected now stream s sel' = Ok (RoutedTo o md' sel conn buffers datagrams nat, st')) as (m & i & s & sel' & Hm & Hr).
  { destruct stream; [apply routeConnection_cases in H|apply routePacketConnection_cases in H];
      destruct H as [(? & ? & ?)|[(? & ?)|(? & ? & ? & ? & ?)]]; eauto 10; discriminate. }
  pose proof (route_selected_input _ _ _ _ _ _ Hr) as [-> _]. apply route_selected_outbound in Hr as [Hn Hr].
  split; [done|]. destruct sel' as [[j r]|]; [|done].
  apply matchRule_selected in Hm as (_ & Hl & Hd & _ & Hp). destruct Hr as (tag & opts & Ha & Ho). eauto 10.
Qed.

(** C5: routing panics only in the QUIC sniffer.  If DNS lookups do not panic and
    reject actions have one of the three known methods, [routeConnection] does not
    panic; in particular no selected rule leaves the outbound unset.  If
    [routePacketConnection] panics, the QUIC sniffer does so on one of the packets
    received, with what it kept of others of them. *)
Theorem routing_never_panics now rules st md events packets p :
  (forall md d a p, dns_Lookup md d a <> Panic p) -> Forall (fun r => known_method r = true) rules ->
  routeConnection now rules st md events <> Panic p
  /\ (routePacketConnection now rules st md packets = Panic p ->
      quic_panics (map fst (datagrams packets)) (rc_SniffContext md) p).
Proof.
  intros Hl Hk.
  assert (Hmatch : forall received stream m i, rc_SniffContext m = rc_SniffContext md -> input_received received i ->
    wp (quic_panics received (rc_SniffContext md))
      (let! ' (s, selected, fatal) := matchRule now rules st m i in
       match fatal with Some e => Err e | None => route_selected now stream s selected end) (fun _ => True)).
  { intros received stream m i Hm Hi. pose proof (matchRule_wp received _ Hl now rules st m i Hm Hi) as Hw.
    destruct (matchRule now rules st m i) as [[[s sel] fatal]| | |] eqn:E; cbn [res_bind]; try done.
    destruct fatal; [done|]. destruct (route_selected now stream s sel) eqn:Er; try done. exfalso. revert Er.
    apply route_selected_no_panic. destruct sel as [[j r]|]; [|done].
    apply matchRule_selected in E as (_ & Hj & _ & Hf & _). rewrite Hf. cbn [andb].
    apply (proj1 (Forall_forall _ _) Hk). by apply list_elem_of_lookup_2 in Hj. }
  split.
  - unfold routeConnection. destruct (inject true md) as [r|] eqn:Hi.
    + apply res_bind_no_panic; [intros q; by apply (inject_no_panic true md)|done].
    + cbv zeta. destruct (deprecated_destination _); [done|]. destruct (_ && _); [done|]. intros E.
      pose (m := md <| rc := (rc md) <| Network := NetworkTCP |> |>).
      pose proof (Hmatch [] true m (InputConn events) eq_refl I) as Hw. subst m.
      cbv zeta in E, Hw. rewrite E in Hw. destruct Hw as (? & ? & ? & _ & Hb & _). by apply elem_of_nil in Hb.
  - unfold routePacketConnection. destruct (inject false md) as [r|] eqn:Hi.
    + intros E. exfalso. revert E. apply res_bind_no_panic; [intros q; by apply (inject_no_panic false md)|done].
    + cbv zeta. destruct (_ && _); [done|]. intros E.
      pose (m := md <| rc := (rc md) <| Network := NetworkUDP |> |>).
      pose proof (Hmatch (map fst (datagrams packets)) false m (InputPacketConn packets) eq_refl) as Hw. subst m.
      cbv zeta in E, Hw. rewrite E in Hw. apply Hw. cbn. apply Forall_forall. intros x Hx. by apply list_elem_of_fmap_2.
Qed.

(** C4: a TCP connection reaches the outbound with its data unchanged.  With at most
    one sniff rule, the stream handed on, read-ahead buffer first, is the stream
    that was received, whichever rules match and however sniffing ends. *)
Theorem routed_stream_intact now rules st md events routed st' :
  (sniff_count rules <= 1)%nat -> routeConnection now rules st md events = Ok (routed, st') ->
  match routed with
  | RoutedTo _ _ _ conn buffers _ _ | RoutedHijackDNS _ conn buffers _ =>
      exists events', conn = InputConn events' /\ cached_conn buffers (stream events') = stream events
  | _ => True
  end.
Proof.
  intros Hn H. apply routeConnection_cases in H as [(tag & md' & ->)|[(md' & ->)|(md' & s & sel & Hm & Hr)]]; [done|by exists events|].
  assert (Hs : holds_for (stream_io events (sniff_count rules)) 0 s).
  { eapply matchRule_io; [| |exact (ex_intro _ events (conj eq_refl (conj eq_refl (conj eq_refl (le_n _)))))|exact Hm].
    - intros n i b p (ev & ? & ? & ? & ?). exists ev. repeat split; [done..|lia].
    - intros. by eapply stream_io_sniff. }
  destruct Hs as (ev & Hi & Hp & Hs & Hb).
  apply route_selected_input in Hr. destruct routed; try done; [destruct Hr as (_ & -> & -> & -> & _)|destruct Hr as (-> & -> & ->)];
    exists ev; split; [done| |done|]; rewrite cached_conn_one by lia; done.
Qed.

(** C8: a UDP connection keeps its datagrams.  With at most one sniff rule, the
    packets read ahead and those still to come are those received, in order; a
    connection taken over by the DNS service gets them so.  An outbound reads exactly
    them, none lost and none repeated: the ones read ahead latest first, then the rest.
    If the destination was replaced by a fake address or by sniffing, packets to the
    original address go to the new one, on their own ports, the other packets to where
    they were sent, and a packet back comes from the original address, unless packets
    were sent to its source as it is.  Otherwise nothing is translated. *)
Theorem routed_datagrams_intact now rules st md events routed st' :
  (sniff_count rules <= 1)%nat -> routePacketConnection now rules st md events = Ok (routed, st') ->
  match routed with
  | RoutedTo _ md' _ conn _ packets nat =>
      exists events', conn = InputPacketConn events' /\ packets ++ datagrams events' = datagrams events
        /\ let reads := rev packets ++ datagrams events' in
           let origin := rc_OriginDestination md' in
           if rc_FakeIP md' || rc_DestOverride md'
           then outbound_reads packets nat (datagrams events') = map (fun p => (fst p, translated origin (destination md') (snd p))) reads
                /\ forall source,
                     (direct origin reads (Socksaddr_Addr source) -> outbound_reply packets nat (datagrams events') source = source)
                     /\ (~ direct origin reads (Socksaddr_Addr source) ->
                         outbound_reply packets nat (datagrams events') source = mkSocksaddr (Socksaddr_Addr origin) (Port source) "")
           else outbound_reads packets nat (datagrams events') = reads
                /\ forall source, outbound_reply packets nat (datagrams events') source = source
  | RoutedHijackDNS _ conn _ packets =>
      exists events', conn = InputPacketConn events' /\ packets ++ datagrams events' = datagrams events
  | _ => True
  end.
Proof.
  intros Hn H. apply routePacketConnection_cases in H as [(tag & md' & ->)|[(md' & ->)|(md' & s & sel & Hm & Hr)]];
    [done|by exists events|].
  assert (Hs : holds_for (packet_io events) 0 s).
  { eapply matchRule_io; [| | |exact Hm].
    - intros n i b p (ev & ? & ? & ? & [?|[? ?]]); [lia|]. exists ev. repeat split; [done..|left; lia].
    - intros. by eapply packet_io_sniff.
    - exists events. repeat split. destruct (sniff_count rules) as [|[|?]]; [by left|by right|lia]. }
  destruct Hs as (ev & Hi & Hp & Hs & Hb).
  apply route_selected_input in Hr. destruct routed as [o md1 r conn buffers packets nat| | |]; try done; [|destruct Hr as (-> & -> & ->); by exists ev].
  destruct Hr as (_ & -> & -> & -> & ->). exists ev. split; [done|]. split; [done|]. unfold outbound_reads, outbound_reply.
  rewrite cached_conn_packets. cbn [negb andb]. destruct (_ || _); [|done].
  split; [|intros source; apply replies_spec].
  by destruct (read_all_spec (rev (ms_packets s) ++ datagrams ev) (newFakeIPNATPacketConn (rc_OriginDestination md1) (destination md1)))
    as (c & -> & _).
Qed.


(** Rejections turn into drops exactly under a flood.  A default reject action
    called before at the times [history] drops at time [now] exactly when, with
    this call, more than fifty of its calls fall within the last thirty seconds;
    otherwise it resets. *)
Theorem reject_drops_floods r history now :
  Method r = RuleActionRejectMethodDefault -> NoDrop r = false -> Forall (fun t => t <= now) history ->
  fst (RuleActionReject_Error r now (counter_after r history))
  = Ok (Some (if 50 <? zlen (List.filter (fun t => now - t <=? 30 * 1000000000) (history ++ [now]))
              then RejectedDrop else RejectedReset)).
Proof.
  intros Hm Hn Hh. rewrite (RuleActionReject_Error_default r now _ Hm Hn). cbn [fst].
  rewrite (counter_after_recent r now history Hm Hn Hh).
  assert (Hr : recent now (history ++ [now]) = recent now history ++ [now]); [|by rewrite <- Hr].
  rewrite recent_app. f_equal. unfold recent. cbn [List.filter]. by rewrite Z.sub_diag.
Qed.

End Proofs.

(** * Evaluations *)

#[local] Existing Instance example_env.

#[local] Existing Instance example_sniffers.

(** Outbounds named by their tags; fake addresses are those of [0xc6120000]. *)
Definition example_router : RouterEnv := {|
  Out := string;
  out_Type o := if bool_decide (o = "pass") then "pass" else "direct";
  out_Tag o := o;
  out_Network _ := [NetworkTCP; NetworkUDP];
  out_Selected o := o;
  out_Now _ := None;
  out_SelectPreMatch _ := None;
  out_PreMatchFlow o := if bool_decide (o = "direct") then Some (fun _ _ => PreMatchFlow) else None;
  out_FlowLookup _ := None;
  manager_Outbound tag := if inb tag ["direct"; "proxy"; "pass"] then Some tag else None;
  manager_Default := "proxy";
  inbound_Get _ := None;
  dns_Lookup _ d _ := Ok (if bool_decide (d = "example.org") then [AddrFrom4 0x01010101] else [AddrFrom4 0x02020202]);
  dns_Transport _ := true;
  LookupReverseMapping _ := None;
  fakeip_Contains := Some (fun a => addr a =? addr (AddrFrom4 0xc6120000));
  fakeip_Lookup _ := Some "example.org";
  processSearcher := None;
  isLocalSource _ := true;
  neighborResolver := None;
  IsDomainName _ := true;
  mux_Destination := "sp.mux.sing-box.arpa";
  vmess_MuxDestination := "v1.mux.cool";
  uot_MagicAddress := "sp.v2.udp-over-tcp.arpa";
  uot_LegacyMagicAddress := "sp.udp-over-tcp.arpa";
|}.
#[local] Existing Instance example_router.

Definition example_metadata (c : InboundContext) : RouteContext :=
  mkRouteContext c "" "" "" [] None None zeroSocksaddr zeroSocksaddr false false 0 false 0 false "" 0 None [] [] 0 false false false.
Definition no_options : RuleActionRouteOptions := mkRouteOptions zeroSocksaddr 0 None [] [] 0 false false 0 false 0 false "" 0.
Definition example_state : RouterState := mkRouterState (mkExpiringMap [] quicSniffCacheTTL false) ∅.

(** A rule on a domain, and a rule that always matches. *)
Definition on_domain (domain : string) (a : RuleAction) : Rule :=
  mkRule (DefaultRule (example_default [] [domain_item domain] [] None false)) a false.
Definition always (a : RuleAction) : Rule := mkRule (DefaultRule (example_default [] [] [] None false)) a false.
Definition default_reject : RuleActionReject := mkRuleActionReject 0 RuleActionRejectMethodDefault false 0.

Definition example_rules : list Rule :=
  [on_domain "ads" (RuleActionReject_ default_reject); always (RuleActionRouteOptions_ (no_options <| UDPConnect := true |>));
   on_domain "example" (RuleActionRoute "direct" no_options)].
Definition example_tcp : RouteContext := example_metadata (example_query "example.org").

Lemma first_match_wins_witness :
  exists s, matchRule 0 example_rules example_state example_tcp (InputConn [])
    = Ok (s, first_rule (selects (ResetRuleCache (rc example_tcp))) example_rules, None)
  /\ option_map fst (first_rule (selects (ResetRuleCache (rc example_tcp))) example_rules) = Some 2.
Proof.
  destruct (first_match_wins 0 example_rules example_state example_tcp example_tcp (InputConn [])) as [s Hs];
    [reflexivity|reflexivity|repeat constructor|].
  exists s. split; [exact Hs|vm_compute; reflexivity].
Defined.

(** A router whose rules sniff once, then route by domain. *)
Definition tls_sniff : RuleActionSniff := mkRuleActionSniff [ProtocolTLS] [TLSClientHello] [] 0.
Definition http_sniff : RuleActionSniff := mkRuleActionSniff [ProtocolHTTP] [HTTPHost] [] 0.
Definition quic_sniff : RuleActionSniff := mkRuleActionSniff [ProtocolQUIC] [] [QUICClientHello] 0.
Definition dns_sniff : RuleActionSniff := mkRuleActionSniff [ProtocolDNS] [] [DomainNameQuery] 0.
Definition example_reads : list read_event := [ReadData [22; 1]; ReadData [2; 3]; ReadData [4]].
Definition example_packets : list packet_event := [PacketData first_packet zeroSocksaddr; PacketData second_packet zeroSocksaddr].

(** The rule and the data a connection is handed on with. *)
Definition handed_on (r : res (Routed * RouterState)) : option (option Z * list (list Z) * list (list Z)) :=
  match r with
  | Ok (RoutedTo _ _ sel _ buffers packets _, _) => Some (option_map fst sel, buffers, map fst packets)
  | _ => None
  end.
Definition handed_stream (r : res (Routed * RouterState)) : option (list Z) :=
  match r with
  | Ok (RoutedTo _ _ _ (InputConn events) buffers _ _, _) => Some (cached_conn buffers (stream events))
  | _ => None
  end.

Definition sniffing_rules : list Rule := always (RuleActionSniff_ tls_sniff) :: example_rules.
Definition quic_rules : list Rule := always (RuleActionSniff_ quic_sniff) :: example_rules.

Lemma handed_on_some r x :
  handed_on r = Some x ->
  exists o md sel conn buffers packets nat st,
    r = Ok (RoutedTo o md sel conn buffers packets nat, st) /\ x = (option_map fst sel, buffers, map fst packets).
Proof.
  destruct r as [[[o md sel conn buffers packets nat| | |] st]| | |]; try discriminate.
  intros [= <-]. do 8 eexists. split; reflexivity.
Qed.

Lemma example_tcp_routed :
  handed_on (routeConnection 0 sniffing_rules example_state example_tcp example_reads) = Some (Some 3, [[22; 1; 2; 3]], []).
Proof. vm_compute. reflexivity. Qed.
Lemma example_udp_routed :
  handed_on (routePacketConnection 0 quic_rules example_state example_tcp example_packets) = Some (Some 3, [], [first_packet; second_packet]).
Proof. vm_compute. reflexivity. Qed.

Lemma routed_outbound_sound_witness :
  exists o, NetworkTCP ∈ @out_Network _ example_router o
    /\ exists tag opts, rule_action (on_domain "example" (RuleActionRoute "direct" no_options)) = RuleActionRoute tag opts
                        /\ manager_Outbound tag = Some o.
Proof.
  destruct (handed_on_some _ _ example_tcp_routed) as (o & md & sel & conn & buffers & packets & nat & st & E & Hx).
  pose proof (routed_outbound_sound 0 sniffing_rules example_state example_tcp true example_reads [] _ _ _ _ _ _ _ _ E) as [Hn Hs].
  exists o. split; [exact Hn|]. destruct sel as [[i r]|]; [|discriminate Hx]. injection Hx as Hi _ _. subst i.
  destruct Hs as (Hr & _ & tag & opts & Ha & Ho & _). injection Hr as <-. destruct Ha as [Ha|Ha]; [|discriminate Ha].
  exists tag, opts. split; assumption.
Defined.

(** A packet that makes the QUIC sniffer panic. *)
Definition crashing_packet : packet_event := PacketData (plain_packet [0x06; 0; 0x40; 0xff; 1; 2]) zeroSocksaddr.

Definition panic_of {A} (r : res A) : option string := match r with Panic p => Some p | _ => None end.
Lemma panic_of_some {A} (r : res A) p : panic_of r = Some p -> r = Panic p.
Proof. destruct r; cbn; congruence. Qed.

Lemma routing_never_panics_witness :
  routeConnection 0 sniffing_rules example_state example_tcp example_reads <> Panic "invalid memory address or nil pointer dereference"
  /\ quic_panics (map fst (datagrams [crashing_packet])) (rc_SniffContext example_tcp) "slice bounds out of range".
Proof.
  assert (Hl : forall (md : RouteContext) d a p, dns_Lookup md d a <> Panic p) by (intros; discriminate).
  assert (Hs : Forall (fun r => known_method r = true) sniffing_rules) by repeat constructor.
  assert (Hq : Forall (fun r => known_method r = true) quic_rules) by repeat constructor.
  split.
  - exact (proj1 (routing_never_panics 0 sniffing_rules example_state example_tcp example_reads []
      "invalid memory address or nil pointer dereference" Hl Hs)).
  - apply (proj2 (routing_never_panics 0 quic_rules example_state example_tcp [] [crashing_packet] "slice bounds out of range" Hl Hq)).
    apply panic_of_some. vm_compute. reflexivity.
Defined.

Lemma routed_stream_intact_witness :
  exists events', cached_conn [[22; 1; 2; 3]] (stream events') = stream example_reads.
Proof.
  destruct (handed_on_some _ _ example_tcp_routed) as (o & md & sel & conn & buffers & packets & nat & st & E & Hx).
  destruct (routed_stream_intact 0 sniffing_rules example_state example_tcp example_reads _ _ ltac:(vm_compute; lia) E)
    as (events' & _ & Hs).
  injection Hx as _ <- _. exists events'. exact Hs.
Defined.

(** A client that asks a fake address and another one directly, on two ports. *)
Definition fake_udp : RouteContext :=
  example_metadata (zeroInboundContext <| Network := NetworkUDP |> <| Destination := mkSocksaddr (AddrFrom4 0xc6120000) 443 "" |>).
Definition fake_packets : list packet_event :=
  [PacketData first_packet (mkSocksaddr (AddrFrom4 0xc6120000) 443 ""); PacketData second_packet (mkSocksaddr (AddrFrom4 0xc6120000) 444 "");
   PacketData [7] (mkSocksaddr (AddrFrom4 0x08080808) 53 "")].

(** The translation a packet connection is handed on with. *)
Definition handed_nat (r : res (Routed * RouterState)) : option (bool * Socksaddr * Socksaddr * list (list Z) * list (list Z * Socksaddr)) :=
  match r with
  | Ok (RoutedTo _ md _ (InputPacketConn events) _ packets _, _) =>
      Some (rc_FakeIP md || rc_DestOverride md, rc_OriginDestination md, destination md, map fst packets, rev packets ++ datagrams events)
  | _ => None
  end.

Lemma fake_udp_routed :
  handed_nat (routePacketConnection 0 quic_rules example_state fake_udp fake_packets)
  = Some (true, mkSocksaddr (AddrFrom4 0xc6120000) 443 "", mkSocksaddr zeroAddr 443 "example.org", [first_packet; second_packet],
          [(second_packet, mkSocksaddr (AddrFrom4 0xc6120000) 444 ""); (first_packet, mkSocksaddr (AddrFrom4 0xc6120000) 443 "");
           ([7], mkSocksaddr (AddrFrom4 0x08080808) 53 "")]).
Proof. vm_compute. reflexivity. Qed.

Lemma routed_datagrams_intact_witness :
  exists packets nat conn,
    outbound_reads packets nat conn
      = [(second_packet, mkSocksaddr zeroAddr 444 "example.org"); (first_packet, mkSocksaddr zeroAddr 443 "example.org");
         ([7], mkSocksaddr (AddrFrom4 0x08080808) 53 "")]
    /\ outbound_reply packets nat conn (mkSocksaddr (AddrFrom4 0x01010101) 443 "") = mkSocksaddr (AddrFrom4 0xc6120000) 443 ""
    /\ outbound_reply packets nat conn (mkSocksaddr (AddrFrom4 0x08080808) 53 "") = mkSocksaddr (AddrFrom4 0x08080808) 53 "".
Proof.
  pose proof fake_udp_routed as Hc.
  destruct (routePacketConnection 0 quic_rules example_state fake_udp fake_packets) as [[r st]| | |] eqn:E; try discriminate Hc.
  pose proof (routed_datagrams_intact 0 quic_rules example_state fake_udp fake_packets r st ltac:(vm_compute; lia) E) as H.
  clear E. destruct r as [o md sel conn buffers packets nat| | |]; try discriminate Hc.
  destruct H as (events' & -> & _ & H). exists packets, nat, (datagrams events').
  cbn [handed_nat] in Hc. cbv zeta in H. injection Hc as E1 E2 E3 _ E5. rewrite E1, E2, E3, E5 in H. destruct H as [-> H].
  split; [reflexivity|]. split.
  - rewrite (proj2 (H _)); [reflexivity|]. intros (_ & _ & p & Hp & Ha). rewrite !elem_of_cons in Hp.
    destruct Hp as [-> |[-> |[-> |Hp]]]; [discriminate Ha..|by apply elem_of_nil in Hp].
  - apply H. split; [reflexivity|]. split; [discriminate|]. eexists. rewrite !elem_of_cons. split; [right; right; left; reflexivity|reflexivity].
Defined.


Lemma reject_drops_floods_witness :
  fst (RuleActionReject_Error default_reject 1000 (counter_after default_reject (repeat 1000 50))) = Ok (Some RejectedDrop).
Proof.
  rewrite (reject_drops_floods default_reject (repeat 1000 50) 1000); [reflexivity|reflexivity|reflexivity|].
  apply Forall_forall. intros t Ht. apply repeat_spec in Ht || apply list_elem_of_In, repeat_spec in Ht. lia.
Defined.

(** * Limits *)

(** Two sniff rules that both read put the later data in front: what is handed on
    is not the stream that was received. *)
Example two_sniffs_reorder_stream :
  handed_stream (routeConnection 0 (always (RuleActionSniff_ http_sniff) :: sniffing_rules) example_state example_tcp example_reads)
  = Some [2; 3; 22; 1; 4].
Proof. vm_compute. reflexivity. Qed.

(** Two sniff rules on packets repeat those the first one read. *)
Example two_sniffs_repeat_packets :
  handed_on (routePacketConnection 0 (always (RuleActionSniff_ dns_sniff) :: quic_rules) example_state example_tcp example_packets)
  = Some (Some 4, [], [first_packet; first_packet; second_packet]).
Proof. vm_compute. reflexivity. Qed.

(** Packets sniffed together reach the outbound in the opposite order. *)
Example sniffed_packets_reversed :
  match routePacketConnection 0 quic_rules example_state example_tcp example_packets with
  | Ok (RoutedTo _ _ _ (InputPacketConn events) _ packets nat, _) =>
      Some (map fst (datagrams example_packets), map fst (outbound_reads packets nat (datagrams events)))
  | _ => None
  end = Some ([first_packet; second_packet], [second_packet; first_packet]).
Proof. vm_compute. reflexivity. Qed.

(** A disabled rule still decides before a connection exists. *)
Example disabled_rule_rejects_early :
  let rules := [ChangeStatus (always (RuleActionReject_ default_reject))] in
  (match Router_PreMatch 0 rules ∅ example_tcp [] with Ok (r, _) => Some (pm_Action r) | _ => None end) = Some PreMatchReject
  /\ handed_on (routeConnection 0 rules example_state example_tcp []) = Some (None, [], []).
Proof. split; vm_compute; reflexivity. Qed.

(** A rule with the direct action is passed over. *)
Example direct_action_passed_over :
  handed_on (routeConnection 0 [always RuleActionDirect; always (RuleActionRoute "proxy" no_options)] example_state example_tcp [])
  = Some (Some 1, [], []).
Proof. vm_compute. reflexivity. Qed.

(** An overridden destination keeps the addresses resolved for the original one
    before a connection exists, and loses them for a connection. *)
Example override_keeps_stale_addresses :
  let override := no_options <| OverrideAddress := mkSocksaddr zeroAddr 0 "other.org" |> in
  let rules := [always (RuleActionResolve_ (mkRuleActionResolve "" 0 0 false false None zeroPrefix false));
                always (RuleActionRoute "direct" override)] in
  let md := example_metadata (zeroInboundContext <| Network := NetworkTCP |> <| Destination := mkSocksaddr (AddrFrom4 0xc6120000) 443 "" |>) in
  (match Router_PreMatch 0 rules ∅ md [] with Ok (r, _) => pm_Destination r | _ => None end) = Some (AddrFrom4 0x01010101, 443)
  /\ (match routeConnection 0 rules example_state md [] with
      | Ok (RoutedTo _ md' _ _ _ _ _, _) => Some (Fqdn (destination md'), DestinationAddresses (rc md')) | _ => None end)
     = Some ("other.org", []).
Proof. split; vm_compute; reflexivity. Qed.

(** One packet of a QUIC connection that is sniffed brings the program down. *)
Example quic_packet_crashes_router :
  panic_of (routePacketConnection 0 quic_rules example_state example_tcp [crashing_packet]) = Some "slice bounds out of range".
Proof. vm_compute. reflexivity. Qed.
