(* ===== verification/SniffTheorems.v ===== *)
(** Sniffing a stream: how the data is cut into reads makes no difference to whether
    it is recognised. *)

From S2P Require Import Prelude NetAddr GoStrings RuleContext RuleItems RuleEngine RuleExamples RuleAction Binary Ja3 Ja3Proofs Sniffers Quic SniffersProofs SniffExamples Router.

Section SniffTheorems.
Context {SEnv : SnifferEnv}.

(** Whether a sniffer recognises data, and whether it asks for more. *)
Definition accepts (s : StreamSniffer) (data : list Z) : bool :=
  match stream_verdict s [data] with Ok _ => true | _ => false end.
Definition undecided (s : StreamSniffer) (data : list Z) : bool :=
  match stream_verdict s [data] with Err e => is_need_more e | _ => false end.

(** What sniffer [s] makes of the metadata once it has all the data, but for the name of
    an SSH client. *)
Definition finding (s : StreamSniffer) (data : list Z) (md md' : RouteContext) : Prop :=
  exists found g, stream_verdict s [data] = Ok found /\ same_finding s g found /\ md' = md <| rc := g (rc md) |>.

Lemma finding_accepts s data md md' : finding s data md md' -> accepts s data = true.
Proof. intros (f & g & H & _). unfold accepts. by rewrite H. Qed.

Lemma finding_more s p q md md' : native s = true -> finding s p md md' -> finding s (p ++ q) md md'.
Proof.
  intros Hs (f & g & Hf & Hg & ->). pose proof (stream_verdict_stable s Hs p q) as H. cbn beta in H. rewrite Hf in H.
  destruct H as (f' & Hf' & H). exists f', g. split; [done|]. split; [|done].
  destruct s; cbn [same_finding] in *; [congruence..| |congruence]. intros c. by rewrite Hg.
Qed.

Lemma rejects_more s p q : native s = true -> accepts s p = false -> undecided s p = false -> accepts s (p ++ q) = false.
Proof.
  intros Hs. pose proof (stream_verdict_stable s Hs p q) as H. pose proof (stream_verdict_safe s [p]) as Hsafe.
  unfold accepts, undecided. cbn beta in H. destruct (stream_verdict s [p]); try done.
  intros _ He. destruct H as [H|(e' & -> & _)]; [congruence|done].
Qed.

(** The sniffers on one buffer: one accepts, or none does and the errors tell
    whether any asks for more. *)
Lemma run_sniffers_data sniffers data : forall md errs,
  (exists s md', s ∈ sniffers /\ finding s data md md'
     /\ run_sniffers (fun s md => try_stream s [data] md) sniffers md errs = Ok (md', None))
  \/ existsb (fun s => accepts s data) sniffers = false
     /\ exists errs', run_sniffers (fun s md => try_stream s [data] md) sniffers md errs
         = Ok (md, match errs ++ errs' with [] => None | l => Some l end)
       /\ length errs' = length sniffers
       /\ existsb is_need_more errs' = existsb (fun s => undecided s data) sniffers.
Proof.
  induction sniffers as [|s sniffers IH]; intros md errs; cbn [existsb run_sniffers].
  { right. split; [done|]. exists []. rewrite app_nil_r. by destruct errs. }
  unfold try_stream at 1 3, sniff_stream. pose proof (stream_verdict_safe s [data]) as Hsafe.
  unfold accepts at 1, undecided at 1. destruct (stream_verdict s [data]) as [f|e| |] eqn:E; try done; cbn [verdict res_bind orb].
  - left. exists s, (md <| rc := f (rc md) |>). split; [by left|]. split; [|done]. exists f, f. split_and!; [done|by destruct s|done].
  - replace (md <| rc := rc md |>) with md by (by destruct md). specialize (IH md (errs ++ [e])).
    destruct IH as [(s' & md' & Hs & Hf & IH)|(Ha & errs' & E' & Hl & Hm)].
    + left. exists s', md'. split; [by right|done].
    + right. split; [done|]. exists (e :: errs'). rewrite E', <- app_assoc. split; [done|]. cbn. by rewrite Hl, Hm.
Qed.

(** The result of sniffing all the data, however it is cut. *)
Definition sniffed (sniffers : list StreamSniffer) (data : list Z) (md md' : RouteContext) (err : option (list error)) : Prop :=
  if existsb (fun s => accepts s data) sniffers then err = None /\ exists s, s ∈ sniffers /\ finding s data md md'
  else err <> None /\ md' = md.

(** The loop after the data of some reads. *)
Lemma PeekStream_loop_cut sniffers chunks e : sniffers <> [] -> Forall (fun s => native s = true) sniffers ->
  forall first buffer err md,
  (first = false -> existsb (fun s => accepts s buffer) sniffers = false /\ exists errs, err = Some errs) ->
  (chunks = [] -> first = false) ->
  exists md' buffer' events' err',
    PeekStream_loop sniffers [] (map ReadData chunks ++ [ReadError e]) first buffer err md = Ok (md', buffer', events', err')
    /\ sniffed sniffers (buffer ++ concat chunks) md md' err'.
Proof.
  intros Hne Hs. rewrite Forall_forall in Hs. unfold sniffed.
  induction chunks as [|b chunks IH]; intros first buffer err md Hstart Hchunks; cbn [map app PeekStream_loop concat].
  - rewrite (Hchunks eq_refl) in *. destruct (Hstart eq_refl) as [Ha [errs ->]]. rewrite app_nil_r, Ha. by do 4 eexists.
  - rewrite app_assoc. destruct (run_sniffers_data sniffers (buffer ++ b) md []) as [(s & md1 & Hin & Hf & E)|(Ea & errs' & E & Hl & Hm)];
      cbn [app]; rewrite E; cbn [res_bind needs_more app].
    + apply (finding_more _ _ (concat chunks) _ _ (Hs s Hin)) in Hf. do 4 eexists. split; [done|].
      assert (existsb (fun s => accepts s ((buffer ++ b) ++ concat chunks)) sniffers = true) as ->; [|eauto].
      apply existsb_exists. exists s. split; [by apply list_elem_of_In|by eapply finding_accepts].
    + destruct errs' as [|x l]; [destruct sniffers; [done|discriminate Hl]|].
      cbn [needs_more]. rewrite Hm. destruct (existsb (fun s => undecided s (buffer ++ b)) sniffers) eqn:Eu.
      * apply IH; [intros _; split; [done|by exists (x :: l)]|done].
      * do 4 eexists. split; [done|].
        assert (existsb (fun s => accepts s ((buffer ++ b) ++ concat chunks)) sniffers = false) as ->; [|done].
        apply not_true_is_false. intros H. apply existsb_exists in H as (s & Hin & Ha).
        assert (Hno : forall f, existsb f sniffers = false -> f s = false).
        { intros f Hf. apply not_true_is_false. intros Hx.
          assert (existsb f sniffers = true) by (apply existsb_exists; eauto). congruence. }
        rewrite (rejects_more s (buffer ++ b) (concat chunks) (Hs s (proj2 (list_elem_of_In _ _) Hin))
                   (Hno (fun s => accepts s (buffer ++ b)) Ea) (Hno (fun s => undecided s (buffer ++ b)) Eu)) in Ha. done.
Qed.

(** C17: what the native sniffers find does not depend on how a stream is cut.  With
    any list of the DNS, BitTorrent, SSH and RDP sniffers and no data kept from an
    earlier sniff, [PeekStream] over any reads of the data that end with an error
    returns.  It gives no error exactly when one of the sniffers accepts the whole
    data at once, and the metadata is then what such a sniffer makes of the whole data,
    but for the name of an SSH client; otherwise the metadata is unchanged. *)
Theorem sniffing_ignores_segmentation sniffers chunks e md :
  sniffers <> [] -> Forall (fun s => native s = true) sniffers -> chunks <> [] ->
  exists md' buffer events' err,
    PeekStream md (map ReadData chunks ++ [ReadError e]) [] sniffers = Ok (md', buffer, events', err)
    /\ if existsb (fun s => accepts s (concat chunks)) sniffers
       then err = None /\ exists s found g, s ∈ sniffers /\ stream_verdict s [concat chunks] = Ok found
              /\ match s with SSH => same_but_client g found | _ => g = found end /\ md' = md <| rc := g (rc md) |>
       else err <> None /\ md' = md.
Proof.
  intros Hne Hs Hc.
  destruct (PeekStream_loop_cut sniffers chunks e Hne Hs true [] None md) as (md' & buffer & events' & err & E & H); [done..|].
  exists md', buffer, events', err. split; [exact E|]. unfold sniffed in H. destruct (existsb _ _); [|exact H].
  destruct H as (He & s & Hin & found & g & Hv & Hg & ->). split; [done|]. exists s, found, g. split_and!; [done|done|by destruct s|done].
Qed.

End SniffTheorems.

(** * Evaluations *)

#[local] Existing Instance example_sniffers.
#[local] Existing Instance example_env.

Definition example_context : RouteContext :=
  mkRouteContext zeroInboundContext "" "" "" [] None None zeroSocksaddr zeroSocksaddr false false 0 false 0 false "" 0 None [] [] 0
    false false false.
Definition ssh_reads : list (list Z) := [bytes_of_string "SS"; bytes_of_string "H-2.0-"; bytes_of_string "OpenSSH"; [10]].

Lemma sniffing_ignores_segmentation_witness :
  exists md' buffer events',
    PeekStream example_context (map ReadData ssh_reads ++ [ReadError EOF]) [] [BitTorrent; SSH; RDP] = Ok (md', buffer, events', None)
    /\ Protocol (rc md') = ProtocolSSH.
Proof.
  destruct (sniffing_ignores_segmentation [BitTorrent; SSH; RDP] ssh_reads EOF example_context)
    as (md' & buffer & events' & err & E & H); [discriminate|repeat constructor|discriminate|].
  change (existsb _ _) with true in H. destruct H as (-> & s & found & g & Hin & Hv & Hg & ->).
  exists (example_context <| rc := g (rc example_context) |>), buffer, events'. split; [exact E|].
  rewrite !elem_of_cons in Hin. destruct Hin as [-> |[-> |[-> |Hin]]]; [discriminate Hv| |discriminate Hv|by apply elem_of_nil in Hin].
  specialize (Hg (rc example_context)). apply (f_equal Protocol) in Hg.
  change (Protocol (g (rc example_context)) = Protocol (found (rc example_context))) in Hg.
  change (Protocol (g (rc example_context)) = ProtocolSSH). rewrite Hg. clear Hg. vm_compute in Hv. injection Hv as <-. reflexivity.
Defined.

(** ** Limits *)

(** The name of an SSH client is what has arrived with the prefix. *)
Example ssh_client_cut_short :
  match PeekStream example_context (map ReadData ssh_reads ++ [ReadError EOF]) [] [SSH] with
  | Ok (md, _, _, _) => Some (Client (rc md)) | _ => None end = Some "".
Proof. vm_compute. reflexivity. Qed.

(** The BitTorrent sniffer does not read on in the next buffer. *)
Example bittorrent_split_between_buffers :
  let data := 19 :: bytes_of_string "BitTorrent protocol" in
  accepts BitTorrent data = true
  /\ stream_verdict BitTorrent [take 10 data; drop 10 data] = Err ErrNeedMoreData.
Proof. split; vm_compute; reflexivity. Qed.

(** A DNS response is no query, and ends the sniffing with neither a protocol nor
    an error: the sniffers that follow are not tried. *)
Example dns_response_ends_sniffing :
  let response := [0; 7; 0x81; 0x80; 0; 1; 0; 0; 0; 0; 0; 0] in
  match PeekPacket example_context response [DomainNameQuery; NTP] with
  | Ok (md, err) => Some (Protocol (rc md), err) | _ => None end = Some ("", None).
Proof. vm_compute. reflexivity. Qed.
