(* ===== verification/Bolt.v ===== *)
(** The database of the cache file, github.com/sagernet/bbolt, as an interface.

    Buckets are nested and named by their path from the root, outermost name first;
    each maps keys to values.  Reading is a function of the contents; an operation
    that writes gives the new contents, an error, or a panic when the file turns out
    to be damaged.  A transaction works on a copy that replaces the contents when it
    is committed. *)

From S2P Require Import Prelude.

Notation bucket_path := (list (list Z)).

Class Bolt := {
  DB : Type;
  (* tx.Bucket(name).Bucket(name)... is not nil *)
  db_Bucket : DB -> bucket_path -> bool;
  db_Get : DB -> bucket_path -> list Z -> option (list Z);
  (* ForEach and Cursor, ForEachBucket *)
  db_ForEach : DB -> bucket_path -> list (list Z * list Z);
  db_ForEachBucket : DB -> bucket_path -> list (list Z);
  db_Put : bucket_path -> list Z -> list Z -> DB -> res DB;
  db_Delete : bucket_path -> list Z -> DB -> res DB;
  db_CreateBucketIfNotExists : bucket_path -> DB -> res DB;
  db_DeleteBucket : bucket_path -> DB -> res DB;
  (* the error of writing the second contents over the first *)
  db_Commit : DB -> DB -> option error;
  (* a file in place of a damaged one, if it can be opened *)
  db_Reopen : DB -> option DB;

  db_Bucket_parent : forall d p n, p <> [] -> db_Bucket d (p ++ [n]) = true -> db_Bucket d p = true;
  db_Get_Bucket : forall d p k, db_Bucket d p = false -> db_Get d p k = None;
  db_ForEach_Get : forall d p k v, (k, v) ∈ db_ForEach d p <-> db_Get d p k = Some v;
  db_ForEach_NoDup : forall d p, NoDup (map fst (db_ForEach d p));
  db_ForEachBucket_Bucket : forall d p n, n ∈ db_ForEachBucket d p <-> db_Bucket d (p ++ [n]) = true;
  db_Get_Put : forall p k v d d', db_Put p k v d = Ok d' -> forall p' k',
    db_Get d' p' k' = if bool_decide ((p', k') = (p, k)) then Some v else db_Get d p' k';
  db_Put_key : forall p v d d', db_Put p [] v d <> Ok d';
  db_Bucket_Put : forall p k v d d', db_Put p k v d = Ok d' -> forall p', db_Bucket d' p' = db_Bucket d p';
  db_Get_Delete : forall p k d d', db_Delete p k d = Ok d' -> forall p' k',
    db_Get d' p' k' = if bool_decide ((p', k') = (p, k)) then None else db_Get d p' k';
  db_Bucket_Delete : forall p k d d', db_Delete p k d = Ok d' -> forall p', db_Bucket d' p' = db_Bucket d p';
  db_Get_Create : forall p d d', db_CreateBucketIfNotExists p d = Ok d' -> forall p' k', db_Get d' p' k' = db_Get d p' k';
  db_Bucket_Create : forall p d d', db_CreateBucketIfNotExists p d = Ok d' -> forall p',
    db_Bucket d' p' = bool_decide (p' = p) || db_Bucket d p';
  db_Get_DeleteBucket : forall p d d', db_DeleteBucket p d = Ok d' -> forall p' k',
    db_Get d' p' k' = if bool_decide (p `prefix_of` p') then None else db_Get d p' k';
  db_Bucket_DeleteBucket : forall p d d', db_DeleteBucket p d = Ok d' -> forall p',
    db_Bucket d' p' = negb (bool_decide (p `prefix_of` p')) && db_Bucket d p';
  db_DeleteBucket_missing : forall p d d', db_Bucket d p = false -> db_DeleteBucket p d <> Ok d';
  db_Reopen_empty : forall d d', db_Reopen d = Some d' -> forall p, db_Bucket d' p = false;
}.

(** * In memory *)

(** The contents as a map, with a set of buckets; a bucket is there with all those
    around it. *)
Record memory_db := mkMemoryDB { mem_buckets : gset bucket_path; mem_values : gmap (bucket_path * list Z) (list Z) }.

Definition mem_Bucket (d : memory_db) (p : bucket_path) : bool :=
  nonempty p && forallb (fun i => bool_decide (take (S i) p ∈ mem_buckets d)) (seq 0 (length p)).
Definition mem_Get (d : memory_db) (p : bucket_path) (k : list Z) : option (list Z) :=
  if mem_Bucket d p then mem_values d !! (p, k) else None.
Definition in_bucket (p : bucket_path) (x : bucket_path * list Z * list Z) : option (list Z * list Z) :=
  if bool_decide (x.1.1 = p) then Some (x.1.2, x.2) else None.
Definition mem_ForEach (d : memory_db) (p : bucket_path) : list (list Z * list Z) :=
  if mem_Bucket d p then omap (in_bucket p) (map_to_list (mem_values d)) else [].
Definition child (d : memory_db) (p q : bucket_path) : option (list Z) :=
  if negb (mem_Bucket d q) then None
  else match rev q with n :: q' => if bool_decide (rev q' = p) then Some n else None | [] => None end.
Definition mem_ForEachBucket (d : memory_db) (p : bucket_path) : list (list Z) := omap (child d p) (elements (mem_buckets d)).
Definition ErrBucketNotFound : error := ENew "bucket not found".
Definition ErrKeyRequired : error := ENew "key required".
Definition mem_Put (p : bucket_path) (k v : list Z) (d : memory_db) : res memory_db :=
  if negb (mem_Bucket d p) then Panic "nil pointer dereference"
  else if negb (nonempty k) then Err ErrKeyRequired
  else Ok (mkMemoryDB (mem_buckets d) (<[(p, k) := v]> (mem_values d))).
Definition mem_Delete (p : bucket_path) (k : list Z) (d : memory_db) : res memory_db :=
  if negb (mem_Bucket d p) then Panic "nil pointer dereference"
  else Ok (mkMemoryDB (mem_buckets d) (delete (p, k) (mem_values d))).
Definition without (p : bucket_path) (d : memory_db) : memory_db :=
  mkMemoryDB (filter (fun q => ~ p `prefix_of` q) (mem_buckets d)) (filter (fun x => ~ p `prefix_of` x.1.1) (mem_values d)).
Definition mem_Create (p : bucket_path) (d : memory_db) : res memory_db :=
  if mem_Bucket d p then Ok d
  else match rev p with
       | [] => Err ErrKeyRequired
       | n :: q =>
           if negb (nonempty q) || mem_Bucket d (rev q)
           then Ok (mkMemoryDB ({[p]} ∪ mem_buckets (without p d)) (mem_values (without p d)))
           else Panic "nil pointer dereference"
       end.
Definition mem_DeleteBucket (p : bucket_path) (d : memory_db) : res memory_db :=
  if negb (mem_Bucket d p) then Err ErrBucketNotFound else Ok (without p d).

Lemma mem_Bucket_spec d p : mem_Bucket d p = true <-> p <> [] /\ forall q, q <> [] -> q `prefix_of` p -> q ∈ mem_buckets d.
Proof.
  unfold mem_Bucket. rewrite andb_true_iff, forallb_forall. split.
  - intros [Hp H]. split; [by destruct p|]. intros q Hq [r ->]. specialize (H (pred (length q))).
    assert (Hl : S (pred (length q)) = length q) by (destruct q; cbn in *; [done|lia]).
    rewrite Hl, take_app_length, in_seq, length_app in H. apply bool_decide_eq_true in H; [done|lia].
  - intros [Hp H]. split; [by destruct p|]. intros i Hi. apply in_seq in Hi. apply bool_decide_eq_true, H.
    + destruct p; [done|by cbn].
    + exists (drop (S i) p). by rewrite take_drop.
Qed.

Lemma mem_Bucket_same d d' p : mem_buckets d' = mem_buckets d -> mem_Bucket d' p = mem_Bucket d p.
Proof. unfold mem_Bucket. by intros ->. Qed.

Lemma mem_Bucket_without d p p' : mem_Bucket (without p d) p' = negb (bool_decide (p `prefix_of` p')) && mem_Bucket d p'.
Proof.
  apply eq_true_iff_eq. rewrite andb_true_iff, !mem_Bucket_spec. cbn. case_bool_decide as Hp; cbn.
  - split; [|intros [? _]; done]. intros [Hn H]. specialize (H p' Hn (reflexivity p')). set_solver.
  - split.
    + intros [Hn H]. split; [done|]. split; [done|]. intros q Hq Hpre. specialize (H q Hq Hpre). set_solver.
    + intros (_ & Hn & H). split; [done|]. intros q Hq Hpre. apply elem_of_filter. split; [|by apply H].
      intros Hpq. apply Hp. by transitivity q.
Qed.

Lemma prefix_snoc (q p : bucket_path) n : q `prefix_of` p ++ [n] -> q = p ++ [n] \/ q `prefix_of` p.
Proof.
  intros [r H]. destruct r as [|x r _] using rev_ind; [left; by rewrite app_nil_r in H|right].
  rewrite app_assoc in H. apply app_inj_tail in H as [-> _]. by exists r.
Qed.

Lemma mem_Bucket_create d p n p' :
  p = [] \/ mem_Bucket d p = true -> mem_Bucket d (p ++ [n]) = false ->
  mem_Bucket (mkMemoryDB ({[p ++ [n]]} ∪ mem_buckets (without (p ++ [n]) d)) (mem_values (without (p ++ [n]) d))) p'
  = bool_decide (p' = p ++ [n]) || mem_Bucket d p'.
Proof.
  intros Hp Hn. set (P := p ++ [n]) in *. apply eq_true_iff_eq. rewrite orb_true_iff, bool_decide_eq_true.
  rewrite mem_Bucket_spec. cbn [mem_buckets].
  assert (HP : P <> []) by (unfold P; by destruct p).
  destruct (decide (P `prefix_of` p')) as [Hpre|Hpre].
  - split.
    + intros [Hn' H]. left. specialize (H p' Hn' (reflexivity p')). cbn in H. set_solver.
    + intros [->|H].
      * split; [done|]. intros q Hq Hpq. destruct (decide (q = P)) as [->|Hne]; [set_solver|]. apply elem_of_union_r.
        apply elem_of_filter. assert (Hqp : q `prefix_of` p).
        { unfold P in Hpq. by apply prefix_snoc in Hpq as [->|?]. }
        split.
        -- intros HPq. apply Hne. apply prefix_length_eq; [done|]. by apply prefix_length in HPq.
        -- destruct Hp as [->|Hp]; [by apply prefix_nil_inv in Hqp|]. apply mem_Bucket_spec in Hp as [_ Hp]. by apply Hp.
      * exfalso. apply mem_Bucket_spec in H as [_ H]. apply not_true_iff_false in Hn. apply Hn. apply mem_Bucket_spec.
        split; [done|]. intros q Hq Hqp. apply H; [done|]. by transitivity P.
  - transitivity (mem_Bucket (without P d) p' = true).
    + rewrite mem_Bucket_spec. split; intros [Hn' H]; (split; [done|]); intros q Hq Hpq; specialize (H q Hq Hpq).
      * apply elem_of_union in H as [H|H]; [|done]. apply elem_of_singleton in H. by subst.
      * by apply elem_of_union_r.
    + rewrite mem_Bucket_without, bool_decide_false by done. cbn. split; [by right|]. intros [->|?]; [done|done].
Qed.

Lemma mem_Create_ok p d d' : mem_Create p d = Ok d' -> d' = d /\ mem_Bucket d p = true
  \/ mem_Bucket d p = false /\ (exists q n, p = q ++ [n] /\ (q = [] \/ mem_Bucket d q = true))
     /\ d' = mkMemoryDB ({[p]} ∪ mem_buckets (without p d)) (mem_values (without p d)).
Proof.
  unfold mem_Create. destruct (mem_Bucket d p) eqn:Hb; [intros [= <-]; by left|].
  destruct (rev p) as [|n q] eqn:Hr; [done|]. apply (f_equal (@rev _)) in Hr. rewrite rev_involutive in Hr. cbn in Hr. subst p.
  destruct (negb (nonempty q) || mem_Bucket d (rev q)) eqn:Hq; [|done]. intros [= <-]. right. split; [done|]. split; [|done].
  exists (rev q), n. split; [done|]. apply orb_true_iff in Hq as [Hq|Hq]; [left; by destruct q|by right].
Qed.

Lemma mem_values_without d p p' k : ~ p `prefix_of` p' -> mem_values (without p d) !! (p', k) = mem_values d !! (p', k).
Proof.
  intros H. cbn. destruct (mem_values d !! (p', k)) eqn:E; [by apply map_lookup_filter_Some|].
  apply map_lookup_filter_None. by left.
Qed.

Lemma mem_Get_create p d d' p' k : mem_Create p d = Ok d' -> mem_Get d' p' k = mem_Get d p' k.
Proof.
  intros H. apply mem_Create_ok in H as [[-> _]|(Hb & (q & n & -> & Hq) & ->)]; [done|]. unfold mem_Get.
  rewrite mem_Bucket_create by done. cbn [mem_values]. destruct (decide (q ++ [n] `prefix_of` p')) as [Hp|Hp].
  - destruct (mem_Bucket d p') eqn:Hp'.
    + exfalso. apply mem_Bucket_spec in Hp' as [_ H]. apply not_true_iff_false in Hb. apply Hb, mem_Bucket_spec.
      split; [by destruct q|]. intros r Hr Hrp. apply H; [done|]. by transitivity (q ++ [n]).
    + rewrite orb_false_r. case_bool_decide; [|done]. apply map_lookup_filter_None. right. intros x _. cbn. tauto.
  - rewrite bool_decide_false by (intros ->; by apply Hp). rewrite orb_false_l. by rewrite mem_values_without.
Qed.

Lemma mem_Get_ForEach d p k v : (k, v) ∈ mem_ForEach d p <-> mem_Get d p k = Some v.
Proof.
  unfold mem_ForEach, mem_Get. destruct (mem_Bucket d p); [|rewrite elem_of_nil; split; [done|discriminate]].
  rewrite list_elem_of_omap. split.
  - intros ([[q k'] v'] & Hin & Hx). apply elem_of_map_to_list in Hin. unfold in_bucket in Hx. cbn in Hx.
    case_bool_decide; simplify_eq. done.
  - intros Hl. exists (p, k, v). split; [by apply elem_of_map_to_list|]. unfold in_bucket. cbn. by rewrite bool_decide_true.
Qed.

Lemma mem_ForEach_NoDup d p : NoDup (map fst (mem_ForEach d p)).
Proof.
  unfold mem_ForEach. destruct (mem_Bucket d p); [|constructor].
  assert (Hk := NoDup_fst_map_to_list (mem_values d)). revert Hk. generalize (map_to_list (mem_values d)) as l.
  induction l as [|[[q k] v] l IH]; cbn; [constructor|]. intros Hk. apply NoDup_cons in Hk as [Hn Hk].
  destruct (in_bucket p (q, k, v)) as [[k' v']|] eqn:E; [|by apply IH]. cbn. constructor; [|by apply IH].
  unfold in_bucket in E. cbn in E. case_bool_decide; simplify_eq. intros Hin.
  apply list_elem_of_fmap in Hin as ([k'' v''] & Hkk & Hin). cbn in Hkk. subst k''.
  apply list_elem_of_omap in Hin as ([[q k] v] & Hin & E). unfold in_bucket in E. cbn in E. case_bool_decide; simplify_eq.
  apply Hn. apply list_elem_of_fmap. eexists. split; [|exact Hin]. done.
Qed.

Lemma mem_child d p n : n ∈ mem_ForEachBucket d p <-> mem_Bucket d (p ++ [n]) = true.
Proof.
  unfold mem_ForEachBucket. rewrite list_elem_of_omap. unfold child. split.
  - intros (q & Hq & E). destruct (mem_Bucket d q) eqn:Hb; [|done]. cbn in E. destruct (rev q) as [|m q'] eqn:Hr; [done|].
    case_bool_decide; simplify_eq. apply (f_equal (@rev _)) in Hr. rewrite rev_involutive in Hr. by subst q.
  - intros Hq. exists (p ++ [n]). split.
    + apply mem_Bucket_spec in Hq as [H1 H2]. apply elem_of_elements, H2; done.
    + rewrite Hq, rev_app_distr. cbn. rewrite rev_involutive. by rewrite bool_decide_true.
Qed.

#[export] Instance memory_bolt : Bolt.
Proof.
  refine {| DB := memory_db; db_Bucket := mem_Bucket; db_Get := mem_Get; db_ForEach := mem_ForEach;
    db_ForEachBucket := mem_ForEachBucket; db_Put := mem_Put; db_Delete := mem_Delete;
    db_CreateBucketIfNotExists := mem_Create; db_DeleteBucket := mem_DeleteBucket;
    db_Commit _ _ := None; db_Reopen _ := Some (mkMemoryDB ∅ ∅) |}.
  - intros d p n Hp. rewrite !mem_Bucket_spec. intros [_ H]. split; [done|]. intros q Hq Hqp. apply H; [done|]. by apply prefix_app_r.
  - intros d p k H. unfold mem_Get. by rewrite H.
  - apply mem_Get_ForEach.
  - apply mem_ForEach_NoDup.
  - apply mem_child.
  - unfold mem_Put, mem_Get. intros p k v d d' H p' k'. destruct (mem_Bucket d p) eqn:Hb, (nonempty k); cbn in H; simplify_eq; cbn [mem_values].
    rewrite (mem_Bucket_same d (mkMemoryDB (mem_buckets d) _)) by done. case_bool_decide; simplify_eq; [by rewrite Hb, lookup_insert_eq|].
    by rewrite lookup_insert_ne by congruence.
  - unfold mem_Put. intros p v d d'. by destruct (mem_Bucket d p).
  - unfold mem_Put. intros p k v d d' H p'. destruct (mem_Bucket d p), (nonempty k); cbn in H; simplify_eq. by apply mem_Bucket_same.
  - unfold mem_Delete, mem_Get. intros p k d d' H p' k'. destruct (mem_Bucket d p) eqn:Hb; cbn in H; simplify_eq; cbn [mem_values].
    rewrite (mem_Bucket_same d (mkMemoryDB (mem_buckets d) _)) by done. case_bool_decide; simplify_eq; [by rewrite Hb, lookup_delete_eq|].
    by rewrite lookup_delete_ne by congruence.
  - unfold mem_Delete. intros p k d d' H p'. destruct (mem_Bucket d p); cbn in H; simplify_eq. by apply mem_Bucket_same.
  - intros p d d' H p' k'. by apply (mem_Get_create p).
  - intros p d d' H p'. apply mem_Create_ok in H as [[-> Hb]|(Hb & (q & n & -> & Hq) & ->)].
    + case_bool_decide; [by subst|done].
    + by apply mem_Bucket_create.
  - unfold mem_DeleteBucket, mem_Get. intros p d d' H p' k'. destruct (mem_Bucket d p); cbn in H; simplify_eq. rewrite mem_Bucket_without.
    case_bool_decide as Hp; cbn [negb andb]; [done|]. by rewrite mem_values_without.
  - unfold mem_DeleteBucket. intros p d d' H p'. destruct (mem_Bucket d p); cbn in H; simplify_eq. apply mem_Bucket_without.
  - unfold mem_DeleteBucket. intros p d d' H. by rewrite H.
  - intros d d' [= <-] p. apply not_true_iff_false. rewrite mem_Bucket_spec. cbn. intros [Hp H].
    specialize (H p Hp (reflexivity p)). set_solver.
Defined.
