(* ===== verification/CacheFile.v ===== *)
(** The cache file: src/experimental/cachefile, and the binary form of what is
    downloaded (src/adapter/experimental.go).

    Settings, answers of DNS servers, rejections and fake addresses are kept in a
    database.  Most are written at once; answers and rejections are written by
    goroutines, and read from a map of pending writes until then.  A goroutine is a
    sequence of steps on the state between which other operations may come: see
    [flusher].  Times are nanoseconds, and those of an operation are arguments.
    Opening and repairing the file at the start is not modelled. *)

From S2P Require Import Prelude NetAddr GoStrings Binary FakeIP Bolt.

Definition second : Z := 1000000000.
(** [t.Unix()] *)
Definition Unix (t : Z) : Z := t / second.

(** * Downloads *)

Class VarbinPkg := {
  varbin_WriteUvarint : Z -> list Z;
  varbin_ReadUvarint : forall x rest, 0 <= x < 2 ^ 64 -> ReadUvarint (varbin_WriteUvarint x ++ rest) = Ok (x, rest);
}.

Record SavedBinary := mkSavedBinary {
  sb_Hash : list Z;        (* the MD5 sum, 16 bytes *)
  sb_Content : list Z;
  sb_LastUpdated : Z;
  sb_LastEtag : string;
  sb_URLHash : list Z;
}.

Section SavedBinary.
Context {VPkg : VarbinPkg}.

Definition SavedBinary_MarshalBinary (s : SavedBinary) : list Z :=
  2 :: varbin_WriteUvarint (zlen (sb_Hash s)) ++ sb_Hash s
  ++ varbin_WriteUvarint (zlen (sb_Content s)) ++ sb_Content s
  ++ be_split 8 (u64 (Unix (sb_LastUpdated s)))
  ++ varbin_WriteUvarint (Z.of_nat (String.length (sb_LastEtag s))) ++ bytes_of_string (sb_LastEtag s)
  ++ varbin_WriteUvarint (zlen (sb_URLHash s)) ++ sb_URLHash s.

(** [make([]byte, n)] of more than the address space panics. *)
Definition maxAlloc : Z := 2 ^ 48.
Definition make_bytes (n : Z) : reader unit := fun b => if maxAlloc <? n then Panic "makeslice: len out of range" else Ok (tt, b).

(** A length that is compared with the bytes left, and as many bytes. *)
Definition read_sized (what : string) : reader (list Z) :=
  length_ <- ReadUvarint ;;
  fun b => if zlen b <? length_ then Err (ENew ("invalid " +:+ what +:+ " length")) else ReadFull (Z.to_nat length_) b.

Definition SavedBinary_UnmarshalBinary (data : list Z) : res SavedBinary :=
  let! ' (s, _) :=
    (version <- Read_uint8 ;;
     hashLength <- ReadUvarint ;;
     _ <- make_bytes hashLength ;;
     hash <- ReadFull (Z.to_nat hashLength) ;;
     _ <- (if zlen hash =? 16 then rret tt else rfail (ENew "invalid hash length")) ;;
     content <- read_sized "content" ;;
     lastUpdated <- Read_uint64 ;;
     etagBytes <- read_sized "etag" ;;
     urlHash <- (if version <? 2 then rret [] else read_sized "url hash") ;;
     rret (mkSavedBinary hash content (int64 lastUpdated * second) (string_of_bytes etagBytes) urlHash)) data in
  Ok s.

End SavedBinary.

(** * The state *)

Record saveCacheKey := mkSaveCacheKey { TransportName : string; QuestionName : string; QType : Z }.
#[export] Instance saveCacheKey_eq_dec : EqDecision saveCacheKey.
Proof. solve_decision. Defined.
#[export] Instance saveCacheKey_countable : Countable saveCacheKey :=
  inj_countable' (fun k => (TransportName k, QuestionName k, QType k)) (fun x => mkSaveCacheKey x.1.1 x.1.2 x.2)
    (fun k => match k with mkSaveCacheKey _ _ _ => eq_refl end).

(** The type of a question has 16 bits; a time of the file is cut to the second. *)
Definition key_ok (k : saveCacheKey) : Prop := is_u 16 (QType k).
Definition trunc (e : Z) : Z := int64 (u64 (Unix e)) * second.

Record saveDNSCacheEntry := mkSaveDNSCacheEntry { rawMessage : list Z; expireAt : Z; sequence : Z; saving : bool }.

Section CacheFile.
Context {BDB : Bolt} {VPkg : VarbinPkg} {MPkg : MetadataPkg}.

Record CacheFile := mkCacheFile {
  cf_cacheID : option (list Z);
  cf_storeFakeIP : bool;
  cf_storeRDRC : bool;
  cf_storeDNS : bool;
  cf_disableExpire : bool;
  cf_rdrcTimeout : Z;
  cf_optimisticTimeout : Z;
  cf_DB : option DB;               (* [None] once it is closed *)
  cf_saveMetadata : option FakeIPMetadata;
  cf_saveMetadataTimer : bool;     (* the timer is running *)
  cf_saveDomain : gmap Addr string;
  cf_saveAddress4 : gmap string Addr;
  cf_saveAddress6 : gmap string Addr;
  cf_saveRDRC : gset saveCacheKey;
  cf_saveDNSCache : gmap saveCacheKey saveDNSCacheEntry;
}.

Definition CacheFile_New (CacheID : string) (StoreFakeIP StoreRDRC StoreDNS : bool) (RDRCTimeout : Z) (db : DB) : CacheFile :=
  let cacheID := if bool_decide (CacheID = "") then None else Some (0 :: bytes_of_string CacheID) in
  let rdrcTimeout := if StoreRDRC then (if 0 <? RDRCTimeout then RDRCTimeout else 7 * 24 * 3600 * second) else 0 in
  mkCacheFile cacheID StoreFakeIP StoreRDRC StoreDNS false rdrcTimeout 0 (Some db) None false ∅ ∅ ∅ ∅ ∅.

(** * Transactions *)

Definition ErrDatabaseNotOpen : error := ENew "database not open".
Definition corrupted (reason : string) : error := ENew ("database corrupted: " +:+ reason).

(** [resetDB]: the damaged file is removed and a new one opened. *)
Definition CacheFile_resetDB (c : CacheFile) (d : DB) : CacheFile := c <| cf_DB := db_Reopen d |>.

(** [view]: a panic of [fn] resets the database. *)
Definition CacheFile_view {A} (c : CacheFile) (fn : DB -> res A) : res A * CacheFile :=
  match cf_DB c with
  | None => (Err ErrDatabaseNotOpen, c)
  | Some d =>
      match fn d with
      | Panic r => (Err (corrupted r), CacheFile_resetDB c d)
      | result => (result, c)
      end
  end.

(** [batch] and [update] *)
Definition CacheFile_batch {A} (c : CacheFile) (fn : DB -> res (A * DB)) : res A * CacheFile :=
  match cf_DB c with
  | None => (Err ErrDatabaseNotOpen, c)
  | Some d =>
      match fn d with
      | Ok (a, d') => match db_Commit d d' with None => (Ok a, c <| cf_DB := Some d' |>) | Some err => (Err err, c) end
      | Err err => (Err err, c)
      | Panic r => (Err (corrupted r), CacheFile_resetDB c d)
      | OutOfFuel => (OutOfFuel, c)
      end
  end.
(** A transaction without result. *)
Definition batch_ (c : CacheFile) (fn : DB -> res DB) : res unit * CacheFile :=
  CacheFile_batch c (fun d => let! d := fn d in Ok (tt, d)).

(** The path of a bucket, which is in a bucket of its own for each cache ID. *)
Definition CacheFile_bucket (c : CacheFile) (key : list Z) : bucket_path :=
  match cf_cacheID c with None => [key] | Some id => [id; key] end.
Definition CacheFile_createBucket (c : CacheFile) (key : list Z) (d : DB) : res DB :=
  match cf_cacheID c with
  | None => db_CreateBucketIfNotExists [key] d
  | Some id => let! d := db_CreateBucketIfNotExists [id] d in db_CreateBucketIfNotExists [id; key] d
  end.

Definition bucketSelected : list Z := bytes_of_string "selected".
Definition bucketExpand : list Z := bytes_of_string "group_expand".
Definition bucketMode : list Z := bytes_of_string "clash_mode".
Definition bucketRuleSet : list Z := bytes_of_string "rule_set".
Definition bucketExternalUI : list Z := bytes_of_string "external_ui".
Definition bucketOutboundProvider : list Z := bytes_of_string "outbound_provider".
Definition bucketStorage : list Z := bytes_of_string "storage".
Definition bucketRDRC : list Z := bytes_of_string "rdrc2".
Definition bucketDNSCache : list Z := bytes_of_string "dns_cache".
Definition bucketNameList : list (list Z) :=
  [bucketSelected; bucketExpand; bucketMode; bucketRuleSet; bucketExternalUI; bucketOutboundProvider; bucketStorage;
   bucketRDRC; bucketDNSCache].
Definition cacheIDDefault : list Z := bytes_of_string "default".
Definition fakeipBucketPrefix : list Z := bytes_of_string "fakeip_".

(** The value of a key, if its bucket exists. *)
Definition bucket_Get (d : DB) (p : bucket_path) (key : list Z) : option (list Z) :=
  if db_Bucket d p then db_Get d p key else None.

(** [start], once the file is open: buckets of other names are removed.  Errors of
    removing are ignored. *)
Definition ignore_error (r : res DB) (d : DB) : res DB := match r with Err _ => Ok d | r => r end.
Fixpoint for_each_bucket (f : list Z -> DB -> res DB) (names : list (list Z)) (d : DB) : res DB :=
  match names with
  | [] => Ok d
  | n :: names' => let! d := f n d in for_each_bucket f names' d
  end.
Definition clean_bucket (name : list Z) (d : DB) : res DB :=
  match name with
  | 0 :: _ =>
      for_each_bucket (fun k d => if negb (inb k bucketNameList) then ignore_error (db_DeleteBucket [name; name] d) d else Ok d)
        (db_ForEachBucket d [name]) d
  | _ =>
      if negb (inb name bucketNameList || bool_decide (fakeipBucketPrefix `prefix_of` name))
      then ignore_error (db_DeleteBucket [name] d) d else Ok d
  end.
Definition CacheFile_start (d : DB) : res DB := for_each_bucket clean_bucket (db_ForEachBucket d []) d.

(** * Settings *)

Definition mode_key (c : CacheFile) : list Z := default cacheIDDefault (cf_cacheID c).
Definition CacheFile_LoadMode (c : CacheFile) : string * CacheFile :=
  let '(r, c') := CacheFile_view c (fun d => Ok (default [] (bucket_Get d [bucketMode] (mode_key c)))) in
  (match r with Ok mode => string_of_bytes mode | _ => "" end, c').
Definition CacheFile_StoreMode (c : CacheFile) (mode : string) : res unit * CacheFile :=
  batch_ c (fun d =>
    let! d := db_CreateBucketIfNotExists [bucketMode] d in
    db_Put [bucketMode] (mode_key c) (bytes_of_string mode) d).

Definition CacheFile_LoadSelected (c : CacheFile) (group : string) : string * CacheFile :=
  let '(r, c') := CacheFile_view c (fun d => Ok (default [] (bucket_Get d (CacheFile_bucket c bucketSelected) (bytes_of_string group)))) in
  (match r with Ok selected => string_of_bytes selected | _ => "" end, c').
Definition CacheFile_StoreSelected (c : CacheFile) (group selected : string) : res unit * CacheFile :=
  batch_ c (fun d =>
    let! d := CacheFile_createBucket c bucketSelected d in
    db_Put (CacheFile_bucket c bucketSelected) (bytes_of_string group) (bytes_of_string selected) d).

Definition CacheFile_LoadGroupExpand (c : CacheFile) (group : string) : option bool * CacheFile :=
  let '(r, c') := CacheFile_view c (fun d => Ok (bucket_Get d (CacheFile_bucket c bucketExpand) (bytes_of_string group))) in
  (match r with Ok (Some [b]) => Some (b =? 1) | _ => None end, c').
Definition CacheFile_StoreGroupExpand (c : CacheFile) (group : string) (isExpand : bool) : res unit * CacheFile :=
  batch_ c (fun d =>
    let! d := CacheFile_createBucket c bucketExpand d in
    db_Put (CacheFile_bucket c bucketExpand) (bytes_of_string group) [if isExpand then 1 else 0] d).

(** The downloads of rule sets, of the web interface and of providers: the last two
    use the database without the guard against panics. *)
Definition load_binary (c : CacheFile) (bucket : list Z) (tag : string) (d : DB) : res SavedBinary :=
  if negb (db_Bucket d (CacheFile_bucket c bucket)) then Err (ENew "file does not exist") else
  match db_Get d (CacheFile_bucket c bucket) (bytes_of_string tag) with
  | None | Some [] => Err ErrInvalid
  | Some setBinary => SavedBinary_UnmarshalBinary setBinary
  end.
Definition save_binary (c : CacheFile) (bucket : list Z) (tag : string) (set : SavedBinary) (d : DB) : res DB :=
  let! d := CacheFile_createBucket c bucket d in
  db_Put (CacheFile_bucket c bucket) (bytes_of_string tag) (SavedBinary_MarshalBinary set) d.
Definition CacheFile_LoadRuleSet (c : CacheFile) (tag : string) : option SavedBinary * CacheFile :=
  let '(r, c') := CacheFile_view c (load_binary c bucketRuleSet tag) in (match r with Ok s => Some s | _ => None end, c').
Definition CacheFile_SaveRuleSet (c : CacheFile) (tag : string) (set : SavedBinary) : res unit * CacheFile :=
  batch_ c (save_binary c bucketRuleSet tag set).
Definition unguarded_load (c : CacheFile) (bucket : list Z) (tag : string) : res (option SavedBinary) :=
  match cf_DB c with
  | None => Ok None
  | Some d => match load_binary c bucket tag d with Ok s => Ok (Some s) | Err _ => Ok None | Panic r => Panic r | OutOfFuel => OutOfFuel end
  end.
Definition unguarded_save (c : CacheFile) (bucket : list Z) (tag : string) (set : SavedBinary) : res unit * CacheFile :=
  match cf_DB c with
  | None => (Err ErrDatabaseNotOpen, c)
  | Some d =>
      match save_binary c bucket tag set d with
      | Ok d' => match db_Commit d d' with None => (Ok tt, c <| cf_DB := Some d' |>) | Some err => (Err err, c) end
      | Err err => (Err err, c)
      | Panic r => (Panic r, c)
      | OutOfFuel => (OutOfFuel, c)
      end
  end.
Definition CacheFile_LoadExternalUI (c : CacheFile) (tag : string) : res (option SavedBinary) := unguarded_load c bucketExternalUI tag.
Definition CacheFile_SaveExternalUI (c : CacheFile) (tag : string) (info : SavedBinary) : res unit * CacheFile :=
  unguarded_save c bucketExternalUI tag info.
Definition CacheFile_LoadSubscription (c : CacheFile) (tag : string) : res (option SavedBinary) :=
  unguarded_load c bucketOutboundProvider tag.
Definition CacheFile_SaveSubscription (c : CacheFile) (tag : string) (sub : SavedBinary) : res unit * CacheFile :=
  unguarded_save c bucketOutboundProvider tag sub.

(** * Storage of the web interface *)

Definition storageSizeLimit : Z := 1024 * 1024.
Definition storageKeySizeLimit : Z := 64.
Definition maxStorageEntries : Z := storageSizeLimit / storageKeySizeLimit.
Definition storageTimeSize : nat := 8.

Record storageEntry := mkStorageEntry { se_key : list Z; se_data : list Z; se_time : Z }.

(** [entries[i].key < entries[j].key] *)
Fixpoint key_lt (a b : list Z) : bool :=
  match a, b with
  | _, [] => false
  | [], _ => true
  | x :: a', y :: b' => if x =? y then key_lt a' b' else x <? y
  end.
Definition entry_lt (a b : storageEntry) : bool :=
  if se_time a =? se_time b then key_lt (se_key a) (se_key b) else se_time a <? se_time b.
(** [sort.Slice] *)
Fixpoint insert_entry (e : storageEntry) (l : list storageEntry) : list storageEntry :=
  match l with
  | [] => [e]
  | x :: l' => if entry_lt e x then e :: l else x :: insert_entry e l'
  end.
Definition sort_entries (l : list storageEntry) : list storageEntry := foldr insert_entry [] l.

Definition CacheFile_LoadStorage (c : CacheFile) (key : string) : list Z * CacheFile :=
  if storageKeySizeLimit <? zlen (bytes_of_string key) then ([], c) else
  let '(r, c') := CacheFile_view c (fun d => Ok (default [] (bucket_Get d (CacheFile_bucket c bucketStorage) (bytes_of_string key)))) in
  (match r with Ok value => drop storageTimeSize value | _ => [] end, c').

(** The loop of the cursor: values too short for a time are removed, the others
    collected but for that of the key. *)
Fixpoint collect_entries (p : bucket_path) (key : list Z) (l : list (list Z * list Z)) (d : DB) : res (list storageEntry * DB) :=
  match l with
  | [] => Ok ([], d)
  | (entryKey, entryValue) :: l' =>
      if (length entryValue <? storageTimeSize)%nat then
        let! d := db_Delete p entryKey d in collect_entries p key l' d
      else
        let! ' (entries, d) := collect_entries p key l' d in
        Ok (if bool_decide (entryKey = key) then entries
            else mkStorageEntry entryKey (drop storageTimeSize entryValue) (int64 (be_combine (take storageTimeSize entryValue))) :: entries, d)
  end.
Definition used_size (l : list storageEntry) : Z := foldr (fun e n => zlen (se_data e) + n) 0 l.

(** The oldest entries are removed until there is room. *)
Fixpoint evict_loop (p : bucket_path) (size : Z) (entries : list storageEntry) (usedSize : Z) (d : DB) : res DB :=
  if (storageSizeLimit <? usedSize + size) || (maxStorageEntries <=? zlen entries) then
    match entries with
    | [] => Ok d
    | e :: entries' => let! d := db_Delete p (se_key e) d in evict_loop p size entries' (usedSize - zlen (se_data e)) d
    end
  else Ok d.

Definition CacheFile_SaveStorage (c : CacheFile) (now : Z) (key : string) (data : list Z) : res unit * CacheFile :=
  let keyBytes := bytes_of_string key in
  if (zlen keyBytes =? 0) || (storageKeySizeLimit <? zlen keyBytes) then (Ok tt, c)
  else if storageSizeLimit <? zlen data then (Ok tt, c)
  else
    let p := CacheFile_bucket c bucketStorage in
    batch_ c (fun d =>
      let! d := CacheFile_createBucket c bucketStorage d in
      let! ' (entries, d) := collect_entries p keyBytes (db_ForEach d p) d in
      let! d := evict_loop p (zlen data) (sort_entries entries) (used_size entries) d in
      db_Put p keyBytes (be_split 8 (u64 now) ++ data) d).

Definition CacheFile_DeleteStorage (c : CacheFile) (key : string) : res unit * CacheFile :=
  let p := CacheFile_bucket c bucketStorage in
  batch_ c (fun d => if db_Bucket d p then db_Delete p (bytes_of_string key) d else Ok d).

(** * Answers of DNS servers *)

Definition question_key (k : saveCacheKey) : list Z := be_split 2 (QType k) ++ bytes_of_string (QuestionName k).
Definition transport_path (c : CacheFile) (bucket : list Z) (k : saveCacheKey) : bucket_path :=
  CacheFile_bucket c bucket ++ [bytes_of_string (TransportName k)].

(** A time in the file: [time.Unix(int64(binary.BigEndian.Uint64(content[:8])), 0)]. *)
Definition file_time (content : list Z) : Z := int64 (be_combine (take 8 content)) * second.
Definition time_bytes (t : Z) : list Z := be_split 8 (u64 (Unix t)).

Definition CacheFile_LoadDNSCache (c : CacheFile) (k : saveCacheKey) : option (list Z * Z) * CacheFile :=
  match cf_saveDNSCache c !! k with
  | Some entry => (Some (rawMessage entry, expireAt entry), c)
  | None =>
      let '(r, c') := CacheFile_view c (fun d =>
        match bucket_Get d (transport_path c bucketDNSCache k) (question_key k) with
        | Some content => Ok (if (length content <? 8)%nat then None else Some (drop 8 content, file_time content))
        | None => Ok None
        end) in
      (match r with Ok x => x | _ => None end, c')
  end.

Definition put_in (c : CacheFile) (bucket : list Z) (k : saveCacheKey) (value : list Z) (d : DB) : res DB :=
  let! d := CacheFile_createBucket c bucket d in
  let! d := db_CreateBucketIfNotExists (transport_path c bucket k) d in
  db_Put (transport_path c bucket k) (question_key k) value d.

Definition CacheFile_SaveDNSCache (c : CacheFile) (k : saveCacheKey) (raw : list Z) (expire : Z) : res unit * CacheFile :=
  batch_ c (put_in c bucketDNSCache k (time_bytes expire ++ raw)).

Definition CacheFile_DeleteDNSCache (c : CacheFile) (k : saveCacheKey) (raw : list Z) : CacheFile :=
  match cf_saveDNSCache c !! k with
  | Some _ => c
  | None =>
      snd (batch_ c (fun d =>
        let p := transport_path c bucketDNSCache k in
        match bucket_Get d p (question_key k) with
        | Some content =>
            if (length content <? 8)%nat || negb (bool_decide (drop 8 content = raw)) then Ok d else db_Delete p (question_key k) d
        | None => Ok d
        end))
  end.

(** [queueDNSCacheSave]: whether a goroutine has to be started, and the state. *)
Definition CacheFile_queueDNSCacheSave (c : CacheFile) (k : saveCacheKey) (raw : list Z) (expire : Z) : bool * CacheFile :=
  let entry := default (mkSaveDNSCacheEntry [] 0 0 false) (cf_saveDNSCache c !! k) in
  (negb (saving entry),
   c <| cf_saveDNSCache := <[k := mkSaveDNSCacheEntry raw expire (u64 (sequence entry + 1)) true]> (cf_saveDNSCache c) |>).

(** The goroutine of [flushPendingDNSCacheWith]: at the head of its loop, with the
    entry it read, or with the outcome of writing it.  One step of it, and where it
    is then. *)
Inductive flusher :=
| FlushHead
| FlushRead (entry : saveDNSCacheEntry)
| FlushWritten (entry : saveDNSCacheEntry) (err : res unit).

Definition flush_settle (c : CacheFile) (k : saveCacheKey) (entry : saveDNSCacheEntry) (err : res unit) : option flusher * CacheFile :=
  let current := cf_saveDNSCache c !! k in
  let same := match current with Some e => sequence e =? sequence entry | None => false end in
  match err, current with
  | Ok _, None => (None, c)
  | Ok _, Some _ =>
      if negb same then (Some FlushHead, c) else (None, c <| cf_saveDNSCache := delete k (cf_saveDNSCache c) |>)
  | _, Some e =>
      if same then (None, c <| cf_saveDNSCache := <[k := e <| saving := false |>]> (cf_saveDNSCache c) |>) else (Some FlushHead, c)
  | _, None => (Some FlushHead, c)
  end.

Definition CacheFile_flushPendingDNSCache (c : CacheFile) (k : saveCacheKey) (f : flusher) : option flusher * CacheFile :=
  match f with
  | FlushHead => (option_map FlushRead (cf_saveDNSCache c !! k), c)
  | FlushRead entry =>
      let '(err, c) := CacheFile_SaveDNSCache c k (rawMessage entry) (expireAt entry) in (Some (FlushWritten entry err), c)
  | FlushWritten entry err => flush_settle c k entry err
  end.

Definition clear_bucket (c : CacheFile) (bucket : list Z) : res unit * CacheFile :=
  batch_ c (fun d => if db_Bucket d (CacheFile_bucket c bucket) then db_DeleteBucket (CacheFile_bucket c bucket) d else Ok d).

(** The two steps of [ClearDNSCache]. *)
Definition clear_pending (c : CacheFile) : CacheFile := c <| cf_saveDNSCache := ∅ |>.
Definition CacheFile_ClearDNSCache (c : CacheFile) : res unit * CacheFile := clear_bucket (clear_pending c) bucketDNSCache.

(** Removing what is expired from each transport's bucket, then the empty buckets. *)
Fixpoint delete_keys (p : bucket_path) (keys : list (list Z)) (d : DB) : res DB :=
  match keys with
  | [] => Ok d
  | k :: keys' => let! d := db_Delete p k d in delete_keys p keys' d
  end.
Fixpoint cleanup_transports (p : bucket_path) (expired : list Z -> bool) (names : list (list Z)) (d : DB) : res (list (list Z) * DB) :=
  match names with
  | [] => Ok ([], d)
  | n :: names' =>
      let q := p ++ [n] in
      let! d := delete_keys q (map fst (List.filter (fun kv => expired (snd kv)) (db_ForEach d q))) d in
      let! ' (emptyTransports, d') := cleanup_transports p expired names' d in
      Ok (if negb (nonempty (db_ForEach d q)) && negb (nonempty (db_ForEachBucket d q)) then n :: emptyTransports else emptyTransports, d')
  end.
Fixpoint delete_buckets (p : bucket_path) (names : list (list Z)) (d : DB) : res DB :=
  match names with
  | [] => Ok d
  | n :: names' => let! d := db_DeleteBucket (p ++ [n]) d in delete_buckets p names' d
  end.
Definition cleanup_bucket (c : CacheFile) (bucket : list Z) (expired : list Z -> bool) : CacheFile :=
  let p := CacheFile_bucket c bucket in
  snd (batch_ c (fun d =>
    if negb (db_Bucket d p) then Ok d else
    let! ' (emptyTransports, d) := cleanup_transports p expired (db_ForEachBucket d p) d in
    delete_buckets p emptyTransports d)).

Definition dns_expired (c : CacheFile) (now : Z) (value : list Z) : bool :=
  (length value <? 8)%nat || (negb (cf_disableExpire c) && (file_time value + cf_optimisticTimeout c <? now)).
Definition CacheFile_cleanupDNSCache (c : CacheFile) (now : Z) : CacheFile := cleanup_bucket c bucketDNSCache (dns_expired c now).

(** * Rejections *)

Definition CacheFile_LoadRDRC (c : CacheFile) (now : Z) (k : saveCacheKey) : bool * CacheFile :=
  if bool_decide (k ∈ cf_saveRDRC c) then (true, c) else
  let p := transport_path c bucketRDRC k in
  let '(r, c') := CacheFile_view c (fun d =>
    match bucket_Get d p (question_key k) with
    | Some content =>
        if (length content <? 8)%nat then Panic "index out of range"
        else Ok (if file_time content <? now then (false, true) else (true, false))
    | None => Ok (false, false)
    end) in
  match r with
  | Ok (rejected, true) =>
      (rejected, snd (batch_ c' (fun d => if db_Bucket d p then db_Delete p (question_key k) d else Ok d)))
  | Ok (rejected, false) => (rejected, c')
  | _ => (false, c')
  end.

Definition CacheFile_SaveRDRC (c : CacheFile) (now : Z) (k : saveCacheKey) : res unit * CacheFile :=
  batch_ c (put_in c bucketRDRC k (time_bytes (now + cf_rdrcTimeout c))).

(** [SaveRDRCAsync], and the two steps of its goroutine. *)
Definition CacheFile_SaveRDRCAsync (c : CacheFile) (k : saveCacheKey) : CacheFile :=
  c <| cf_saveRDRC := {[k]} ∪ cf_saveRDRC c |>.
Definition rdrc_saved (c : CacheFile) (k : saveCacheKey) : CacheFile := c <| cf_saveRDRC := cf_saveRDRC c ∖ {[k]} |>.

Definition CacheFile_clearRDRC (c : CacheFile) : CacheFile := snd (clear_bucket (c <| cf_saveRDRC := ∅ |>) bucketRDRC).
Definition rdrc_expired (now : Z) (value : list Z) : bool := (length value <? 8)%nat || (file_time value <? now).
Definition CacheFile_cleanupRDRC (c : CacheFile) (now : Z) : CacheFile := cleanup_bucket c bucketRDRC (rdrc_expired now).

(** What is done at the start, and the interval at which the cleanup is repeated. *)
Definition CacheFile_startCacheCleanup (c : CacheFile) (now : Z) : option Z * CacheFile :=
  if cf_storeDNS c then
    let c := CacheFile_cleanupDNSCache (CacheFile_clearRDRC c) now in
    let interval := Z.quot (cf_optimisticTimeout c) 2 in
    (Some (if interval <=? 0 then 3600 * second else interval), c)
  else if cf_storeRDRC c then
    let c := CacheFile_cleanupRDRC c now in
    let interval := Z.quot (cf_rdrcTimeout c) 2 in
    (Some (if interval <=? 0 then 3600 * second else interval), c)
  else (None, c).

(** * Fake addresses *)

Definition bucketFakeIP : list Z := bytes_of_string "fakeip_address".
Definition bucketFakeIPDomain4 : list Z := bytes_of_string "fakeip_domain4".
Definition bucketFakeIPDomain6 : list Z := bytes_of_string "fakeip_domain6".
Definition keyMetadata : list Z := bytes_of_string "fakeip_metadata".

(** The metadata is removed from the file when it is read. *)
Definition CacheFile_FakeIPMetadata (c : CacheFile) : option FakeIPMetadata * CacheFile :=
  let '(r, c) := CacheFile_batch c (fun d =>
    if negb (db_Bucket d [bucketFakeIP]) then Err (ENew "file does not exist") else
    match db_Get d [bucketFakeIP] keyMetadata with
    | None | Some [] => Err ErrInvalid
    | Some metadataBinary =>
        let! d := db_Delete [bucketFakeIP] keyMetadata d in
        let! metadata := FakeIPMetadata_UnmarshalBinary metadataBinary in
        Ok (metadata, d)
    end) in
  (match r with Ok metadata => Some metadata | _ => None end, c).

Definition CacheFile_FakeIPSaveMetadata (c : CacheFile) (metadata : FakeIPMetadata) : res unit * CacheFile :=
  batch_ c (fun d =>
    let! d := db_CreateBucketIfNotExists [bucketFakeIP] d in
    db_Put [bucketFakeIP] keyMetadata (FakeIPMetadata_MarshalBinary metadata) d).

(** The timer is started, or set again; when it fires, the last metadata is saved. *)
Definition CacheFile_FakeIPSaveMetadataAsync (c : CacheFile) (metadata : FakeIPMetadata) : CacheFile :=
  c <| cf_saveMetadata := Some metadata |> <| cf_saveMetadataTimer := true |>.
Definition metadata_timer_fires (c : CacheFile) : CacheFile :=
  let c := c <| cf_saveMetadataTimer := false |> in
  match cf_saveMetadata c with Some metadata => snd (CacheFile_FakeIPSaveMetadata c metadata) | None => c end.

Definition domain_bucket (address : Addr) : list Z := if Is4 address then bucketFakeIPDomain4 else bucketFakeIPDomain6.
Definition CacheFile_FakeIPStore (c : CacheFile) (address : Addr) (domain : string) : res unit * CacheFile :=
  batch_ c (fun d =>
    let! d := db_CreateBucketIfNotExists [bucketFakeIP] d in
    let oldDomain := db_Get d [bucketFakeIP] (AsSlice address) in
    let! d := db_Put [bucketFakeIP] (AsSlice address) (bytes_of_string domain) d in
    let! d := db_CreateBucketIfNotExists [domain_bucket address] d in
    let! d := match oldDomain with Some oldDomain => db_Delete [domain_bucket address] oldDomain d | None => Ok d end in
    db_Put [domain_bucket address] (bytes_of_string domain) (AsSlice address) d).

(** The pending maps of [FakeIPStoreAsync], which its goroutine clears after storing. *)
Definition drop_address (address : Addr) (domain : string) (c : CacheFile) : CacheFile :=
  if Is4 address then c <| cf_saveAddress4 := delete domain (cf_saveAddress4 c) |>
  else c <| cf_saveAddress6 := delete domain (cf_saveAddress6 c) |>.
Definition CacheFile_FakeIPStoreAsync (c : CacheFile) (address : Addr) (domain : string) : CacheFile :=
  let c := match cf_saveDomain c !! address with Some oldDomain => drop_address address oldDomain c | None => c end in
  let c := c <| cf_saveDomain := <[address := domain]> (cf_saveDomain c) |> in
  if Is4 address then c <| cf_saveAddress4 := <[domain := address]> (cf_saveAddress4 c) |>
  else c <| cf_saveAddress6 := <[domain := address]> (cf_saveAddress6 c) |>.
Definition fakeip_stored (c : CacheFile) (address : Addr) (domain : string) : CacheFile :=
  drop_address address domain (c <| cf_saveDomain := delete address (cf_saveDomain c) |>).

Definition CacheFile_FakeIPLoad (c : CacheFile) (address : Addr) : option string :=
  match cf_saveDomain c !! address with
  | Some cachedDomain => Some cachedDomain
  | None =>
      match CacheFile_view c (fun d => Ok (default [] (bucket_Get d [bucketFakeIP] (AsSlice address)))) with
      | (Ok (b :: domain), _) => Some (string_of_bytes (b :: domain))
      | _ => None
      end
  end.

Definition CacheFile_FakeIPLoadDomain (c : CacheFile) (domain : string) (isIPv6 : bool) : option Addr :=
  match (if isIPv6 then cf_saveAddress6 c else cf_saveAddress4 c) !! domain with
  | Some cachedAddress => Some cachedAddress
  | None =>
      let bucket := if isIPv6 then bucketFakeIPDomain6 else bucketFakeIPDomain4 in
      match CacheFile_view c (fun d =>
              Ok (if db_Bucket d [bucket] then AddrFromIP (default [] (db_Get d [bucket] (bytes_of_string domain))) else zeroAddr)) with
      | (Ok address, _) => if IsValid address then Some address else None
      | _ => None
      end
  end.

Definition CacheFile_FakeIPReset (c : CacheFile) : res unit * CacheFile :=
  batch_ c (fun d =>
    let! d := db_DeleteBucket [bucketFakeIP] d in
    let! d := db_DeleteBucket [bucketFakeIPDomain4] d in
    db_DeleteBucket [bucketFakeIPDomain6] d).

#[export] Instance cache_file_storage : FakeIPStorage CacheFile := {|
  FakeIPMetadata_load := CacheFile_FakeIPMetadata;
  FakeIPSaveMetadata := CacheFile_FakeIPSaveMetadata;
  FakeIPSaveMetadataAsync := CacheFile_FakeIPSaveMetadataAsync;
  FakeIPStore := CacheFile_FakeIPStore;
  FakeIPLoad := CacheFile_FakeIPLoad;
  FakeIPLoadDomain := CacheFile_FakeIPLoadDomain;
  FakeIPReset := CacheFile_FakeIPReset;
|}.

End CacheFile.
