(* ===== verification/CacheFileProofs.v ===== *)
(** The cache file keeps what is saved: answers of DNS servers however their
    goroutines interleave, downloads, settings, storage within its limits, and fake
    addresses over a restart. *)

From S2P Require Import Prelude NetAddr GoStrings Binary FakeIP FakeIPProofs Bolt CacheFile.

(** * Transactions *)

Section Transactions.
Context {BDB : Bolt} {VPkg : VarbinPkg} {MPkg : MetadataPkg}.

Lemma bucket_Get_Get d p k : bucket_Get d p k = db_Get d p k.
Proof. unfold bucket_Get. destruct (db_Bucket d p) eqn:E; [done|]. by rewrite db_Get_Bucket. Qed.

Lemma batch_ok c fn u c' : batch_ c fn = (Ok u, c') -> exists d d', cf_DB c = Some d /\ fn d = Ok d' /\ c' = c <| cf_DB := Some d' |>.
Proof.
  unfold batch_, CacheFile_batch. destruct (cf_DB c) as [d|]; [|done]. destruct (fn d) as [d'| | |] eqn:E; cbn; try done.
  destruct (db_Commit d d'); [done|]. intros [= _ <-]. by exists d, d'.
Qed.

(** A value of the file, wherever it is. *)
Definition in_file (c : CacheFile) (p : bucket_path) (k : list Z) : option (list Z) :=
  match cf_DB c with Some d => db_Get d p k | None => None end.

Lemma view_Get {A} c p k (f : option (list Z) -> A) : cf_DB c <> None ->
  CacheFile_view c (fun d => Ok (f (bucket_Get d p k))) = (Ok (f (in_file c p k)), c).
Proof.
  intros Hc. unfold CacheFile_view, in_file. destruct (cf_DB c) as [d|]; [|done]. by rewrite bucket_Get_Get.
Qed.

Lemma createBucket_get c b d d' : CacheFile_createBucket c b d = Ok d' -> forall p k, db_Get d' p k = db_Get d p k.
Proof.
  unfold CacheFile_createBucket. destruct (cf_cacheID c) as [id|].
  - intros H p k. apply res_bind_ok in H as (d1 & H1 & H2). by rewrite (db_Get_Create _ _ _ H2), (db_Get_Create _ _ _ H1).
  - intros H p k. by rewrite (db_Get_Create _ _ _ H).
Qed.

Lemma createBucket_bucket c b d d' : CacheFile_createBucket c b d = Ok d' -> db_Bucket d' (CacheFile_bucket c b) = true.
Proof.
  unfold CacheFile_createBucket, CacheFile_bucket. destruct (cf_cacheID c) as [id|].
  - intros H. apply res_bind_ok in H as (d1 & H1 & H2). by rewrite (db_Bucket_Create _ _ _ H2), bool_decide_true.
  - intros H. by rewrite (db_Bucket_Create _ _ _ H), bool_decide_true.
Qed.

Lemma put_in_get c b k v d d' : put_in c b k v d = Ok d' -> forall p' k',
  db_Get d' p' k' = if bool_decide ((p', k') = (transport_path c b k, question_key k)) then Some v else db_Get d p' k'.
Proof.
  unfold put_in. intros H p' k'. apply res_bind_ok in H as (d1 & H1 & H). apply res_bind_ok in H as (d2 & H2 & H3).
  rewrite (db_Get_Put _ _ _ _ _ H3), (db_Get_Create _ _ _ H2). by rewrite (createBucket_get _ _ _ _ H1).
Qed.

(** ** Keys *)

Lemma bytes_of_string_inj s t : bytes_of_string s = bytes_of_string t -> s = t.
Proof. intros H. rewrite <- (string_of_bytes_of_string s), H. apply string_of_bytes_of_string. Qed.

Lemma be_split_inj n x y : 0 <= x < 256 ^ Z.of_nat n -> 0 <= y < 256 ^ Z.of_nat n -> be_split n x = be_split n y -> x = y.
Proof. intros Hx Hy H. apply (f_equal be_combine) in H. rewrite !be_combine_split, !Z.mod_small in H; done. Qed.

Lemma place_inj c b k k' : key_ok k -> key_ok k' ->
  (transport_path c b k, question_key k) = (transport_path c b k', question_key k') -> k = k'.
Proof.
  intros Hk Hk' H. apply pair_equal_spec in H as [Hp Hq]. unfold transport_path in Hp. apply app_inv_head in Hp. injection Hp as Hp.
  unfold question_key in Hq. apply app_inj_1 in Hq as [Hq Hn]; [|by rewrite !be_split_length].
  apply be_split_inj in Hq; [|done..]. destruct k, k'; cbn in *. f_equal; auto using bytes_of_string_inj.
Qed.

(** ** Times *)

Lemma take_time e raw : take 8 (time_bytes e ++ raw) = time_bytes e.
Proof. apply take_app_length'. unfold time_bytes. by rewrite be_split_length. Qed.
Lemma drop_time e raw : drop 8 (time_bytes e ++ raw) = raw.
Proof. apply drop_app_length'. unfold time_bytes. by rewrite be_split_length. Qed.
Lemma file_time_bytes e raw : file_time (time_bytes e ++ raw) = trunc e.
Proof.
  unfold file_time. rewrite take_time. unfold time_bytes, trunc. rewrite be_combine_split.
  change (256 ^ Z.of_nat 8) with (2 ^ 64). unfold wrap. by rewrite Z.mod_mod by lia.
Qed.
Lemma length_time e raw : (length (time_bytes e ++ raw) <? 8)%nat = false.
Proof. apply Nat.ltb_ge. unfold time_bytes. rewrite length_app, be_split_length. lia. Qed.

Lemma trunc_bounds e : 0 <= e < 2 ^ 63 -> e - second < trunc e <= e.
Proof.
  intros He. unfold trunc, Unix, second. rewrite int64_u64.
  - pose proof (Z.div_mod e 1000000000). pose proof (Z.mod_pos_bound e 1000000000). lia.
  - split; [apply Z.le_trans with 0; [lia|apply Z.div_pos; lia]|]. apply Z.div_lt_upper_bound; lia.
Qed.

Lemma trunc_trunc e : trunc (trunc e) = trunc e.
Proof.
  unfold trunc at 1. unfold Unix. unfold trunc at 1. rewrite Z.div_mul by (unfold second; lia).
  unfold trunc. f_equal. set (x := u64 (Unix e)). apply int64_u64.
  unfold int64. pose proof (Z.mod_pos_bound (x + 2 ^ 63) (2 ^ 64)). lia.
Qed.

End Transactions.

(** * Downloads *)

Section Downloads.
Context {BDB : Bolt} {VPkg : VarbinPkg} {MPkg : MetadataPkg}.

(** A hash is an MD5 sum; a length fits an integer and a time the file. *)
Definition saved_ok (s : SavedBinary) : Prop :=
  zlen (sb_Hash s) = 16 /\ zlen (sb_Content s) < 2 ^ 63 /\ Z.of_nat (String.length (sb_LastEtag s)) < 2 ^ 63
  /\ zlen (sb_URLHash s) < 2 ^ 63 /\ - 2 ^ 63 <= Unix (sb_LastUpdated s) < 2 ^ 63.
(** Times are kept to the second. *)
Definition saved_form (s : SavedBinary) : SavedBinary := s <| sb_LastUpdated := Unix (sb_LastUpdated s) * second |>.

(** One read of a sequence. *)
Ltac read_step := erewrite rbind_ok;
  [|first [apply ReadByte_cons | apply varbin_ReadUvarint; lia | apply ReadFull_app; unfold zlen in *; lia]].

Lemma read_sized_write what l rest : zlen l < 2 ^ 63 -> read_sized what (varbin_WriteUvarint (zlen l) ++ l ++ rest) = Ok (l, rest).
Proof.
  intros Hl. unfold read_sized. pose proof (zlen_nonneg l). read_step.
  replace (zlen (l ++ rest) <? zlen l) with false by (symmetry; apply Z.ltb_ge; zlen_solve).
  apply ReadFull_app. unfold zlen. lia.
Qed.

Lemma saved_binary_roundtrip s : saved_ok s -> SavedBinary_UnmarshalBinary (SavedBinary_MarshalBinary s) = Ok (saved_form s).
Proof.
  intros (Hh & Hc & He & Hu & Ht). unfold SavedBinary_UnmarshalBinary, SavedBinary_MarshalBinary.
  rewrite <- bytes_of_string_length in *. fold (zlen (bytes_of_string (sb_LastEtag s))) in *.
  unfold Read_uint8. read_step. read_step.
  erewrite (rbind_ok (make_bytes _)) by (unfold make_bytes; by rewrite Hh).
  read_step. rewrite Hh. cbn [Z.eqb Pos.eqb].
  rewrite (rbind_ok (rret tt) _ _ tt _ eq_refl).
  erewrite (rbind_ok (read_sized "content")) by by apply read_sized_write.
  erewrite (rbind_ok Read_uint64) by (apply Read_uint64_Write, wrap_range; lia).
  erewrite (rbind_ok (read_sized "etag")) by by apply read_sized_write.
  cbn [Z.ltb Z.compare Pos.compare Pos.compare_cont].
  rewrite <- (app_nil_r (sb_URLHash s)) at 2.
  erewrite (rbind_ok (read_sized "url hash")) by by apply read_sized_write. cbn [rret res_bind].
  rewrite int64_u64, string_of_bytes_of_string by done. by destruct s.
Qed.

Definition unmarshalled (x : option (list Z)) : option SavedBinary :=
  match x with
  | None | Some [] => None
  | Some b => match SavedBinary_UnmarshalBinary b with Ok s => Some s | _ => None end
  end.

Lemma LoadRuleSet_get c d tag : cf_DB c = Some d ->
  fst (CacheFile_LoadRuleSet c tag) = unmarshalled (db_Get d (CacheFile_bucket c bucketRuleSet) (bytes_of_string tag)).
Proof.
  intros Hd. unfold CacheFile_LoadRuleSet, CacheFile_view, load_binary, unmarshalled. rewrite Hd.
  destruct (db_Bucket d (CacheFile_bucket c bucketRuleSet)) eqn:Hb; cbn [negb].
  - destruct (db_Get d _ _) as [[|b l]|]; [done| |done]. by destruct (SavedBinary_UnmarshalBinary (b :: l)).
  - by rewrite db_Get_Bucket.
Qed.

(** A saved rule set is loaded again.  After [SaveRuleSet] succeeded,
    [LoadRuleSet] gives what was saved, its time cut to the second, and the rule
    sets of other tags are what they were. *)
Theorem rule_set_saved c tag s c' tag' :
  saved_ok s -> CacheFile_SaveRuleSet c tag s = (Ok tt, c') ->
  fst (CacheFile_LoadRuleSet c' tag') = if bool_decide (tag' = tag) then Some (saved_form s) else fst (CacheFile_LoadRuleSet c tag').
Proof.
  intros Hs Hsave. apply batch_ok in Hsave as (d & d' & Hd & Hfn & ->). unfold save_binary in Hfn.
  apply res_bind_ok in Hfn as (d1 & H1 & H2). rewrite (LoadRuleSet_get _ d'), (LoadRuleSet_get c d) by done.
  change (CacheFile_bucket (c <| cf_DB := Some d' |>)) with (CacheFile_bucket c).
  rewrite (db_Get_Put _ _ _ _ _ H2), (createBucket_get _ _ _ _ H1). destruct (decide (tag' = tag)) as [->|Ht].
  - rewrite !bool_decide_true by done. unfold unmarshalled. rewrite saved_binary_roundtrip by done. done.
  - rewrite !bool_decide_false; [done|done|]. intros Heq. apply Ht, bytes_of_string_inj. congruence.
Qed.

End Downloads.

(** * Fake addresses *)

Section FakeAddresses.
Context {BDB : Bolt} {VPkg : VarbinPkg} {MPkg : MetadataPkg}.

Lemma FakeIPLoad_get c a : cf_saveDomain c = ∅ ->
  CacheFile_FakeIPLoad c a = match in_file c [bucketFakeIP] (AsSlice a) with Some (b :: l) => Some (string_of_bytes (b :: l)) | _ => None end.
Proof.
  intros Hp. unfold CacheFile_FakeIPLoad, CacheFile_view, in_file. rewrite Hp, lookup_empty. destruct (cf_DB c) as [d|]; [|done].
  rewrite bucket_Get_Get. by destruct (db_Get d _ _) as [[]|].
Qed.

Lemma metadata_key_apart a : AsSlice a <> keyMetadata.
Proof. intros H. apply (f_equal (@length _)) in H. rewrite AsSlice_length in H. by destruct (z a). Qed.

Lemma marshal_nonempty m : FakeIPMetadata_MarshalBinary m <> [].
Proof. done. Qed.

(** Saving the metadata, and reading it back. *)
Lemma save_metadata_tx c m c1 : CacheFile_FakeIPSaveMetadata c m = (Ok tt, c1) -> exists d d1,
  cf_DB c = Some d /\ c1 = c <| cf_DB := Some d1 |> /\ db_Bucket d1 [bucketFakeIP] = true
  /\ (forall p k, db_Get d1 p k = if bool_decide ((p, k) = ([bucketFakeIP], keyMetadata)) then Some (FakeIPMetadata_MarshalBinary m) else db_Get d p k)
  /\ forall p, p <> [bucketFakeIP] -> db_Bucket d1 p = db_Bucket d p.
Proof.
  intros H. apply batch_ok in H as (d & d1 & Hd & Hfn & ->). apply res_bind_ok in Hfn as (d0 & H0 & H1). exists d, d1.
  split_and!; [done..| | |].
  - by rewrite (db_Bucket_Put _ _ _ _ _ H1), (db_Bucket_Create _ _ _ H0), bool_decide_true.
  - intros p k. by rewrite (db_Get_Put _ _ _ _ _ H1), (db_Get_Create _ _ _ H0).
  - intros p Hp. by rewrite (db_Bucket_Put _ _ _ _ _ H1), (db_Bucket_Create _ _ _ H0), bool_decide_false.
Qed.

Lemma load_metadata_tx c d m : cf_DB c = Some d -> db_Get d [bucketFakeIP] keyMetadata = Some (FakeIPMetadata_MarshalBinary m) ->
  FakeIPMetadata_UnmarshalBinary (FakeIPMetadata_MarshalBinary m) = Ok m -> fst (CacheFile_FakeIPMetadata c) <> None ->
  exists d', CacheFile_FakeIPMetadata c = (Some m, c <| cf_DB := Some d' |>)
  /\ (forall p k, db_Get d' p k = if bool_decide ((p, k) = ([bucketFakeIP], keyMetadata)) then None else db_Get d p k)
  /\ forall p, db_Bucket d' p = db_Bucket d p.
Proof.
  intros Hd Hg Hu. unfold CacheFile_FakeIPMetadata, CacheFile_batch. rewrite Hd, Hg.
  destruct (db_Bucket d [bucketFakeIP]) eqn:Hb; [cbn [negb]|by rewrite db_Get_Bucket in Hg].
  destruct (FakeIPMetadata_MarshalBinary m) as [|b l] eqn:E; [by apply marshal_nonempty in E|].
  destruct (db_Delete [bucketFakeIP] keyMetadata d) as [d'| | |] eqn:Hdel; cbn [res_bind fst]; try done.
  rewrite Hu. cbn [res_bind]. destruct (db_Commit d d'); [done|]. intros _. exists d'. split; [done|]. split.
  - intros p k. apply (db_Get_Delete _ _ _ _ Hdel).
  - intros p. apply (db_Bucket_Delete _ _ _ _ Hdel).
Qed.

(** A restart keeps the fake addresses.  When the store of fake addresses was
    closed and its metadata can be read back from the file, a store started with the
    same ranges goes on after the last address, and addresses and domains resolve to
    what they did. *)
Theorem restart_keeps_addresses (s : Store CacheFile) c s1 c1 :
  storage s = Some c -> cf_saveDomain c = ∅ ->
  storable_prefix (inet4Range s) -> storable_prefix (inet6Range s) ->
  storable_addr (inet4Current s) -> storable_addr (inet6Current s) ->
  Store_Close s = (Ok tt, s1) -> storage s1 = Some c1 -> fst (CacheFile_FakeIPMetadata c1) <> None ->
  let s2 := Store_Start (NewStore (inet4Range s) (inet6Range s)) c1 in
  inet4Current s2 = inet4Current s /\ inet6Current s2 = inet6Current s
  /\ exists c2, storage s2 = Some c2
  /\ (forall a, FakeIPLoad c2 a = FakeIPLoad c a) /\ (forall d v6, FakeIPLoadDomain c2 d v6 = FakeIPLoadDomain c d v6).
Proof.
  intros Hs Hp H4 H6 H4c H6c Hclose Hs1 Hload. unfold Store_Close in Hclose. rewrite Hs in Hclose. cbn [FakeIPSaveMetadata cache_file_storage] in Hclose.
  destruct (CacheFile_FakeIPSaveMetadata c (Store_metadata s)) as [r c'] eqn:Hsave. apply pair_equal_spec in Hclose as [-> <-].
  injection Hs1 as ->. destruct (save_metadata_tx _ _ _ Hsave) as (d & d1 & Hd & -> & Hb & Hg & Hbo).
  assert (Hm : db_Get d1 [bucketFakeIP] keyMetadata = Some (FakeIPMetadata_MarshalBinary (Store_metadata s))).
  { rewrite Hg. by rewrite bool_decide_true. }
  assert (Hu : FakeIPMetadata_UnmarshalBinary (FakeIPMetadata_MarshalBinary (Store_metadata s)) = Ok (Store_metadata s)).
  { by apply metadata_roundtrip. }
  set (c1 := c <| cf_DB := Some d1 |>) in *. assert (Hc1 : cf_DB c1 = Some d1) by done.
  destruct (load_metadata_tx c1 d1 _ Hc1 Hm Hu Hload) as (d2 & Hl & Hg2 & Hb2).
  intros s2. unfold s2, Store_Start. cbn [FakeIPMetadata_load cache_file_storage]. rewrite Hl.
  cbn [Inet4Range Inet6Range Store_metadata inet4Range inet6Range NewStore]. rewrite !bool_decide_true by done.
  split; [done|]. split; [done|]. eexists. split; [done|].
  assert (Hget : forall p k, (p, k) <> ([bucketFakeIP], keyMetadata) -> db_Get d2 p k = db_Get d p k).
  { intros p k Hne. by rewrite Hg2, Hg, !bool_decide_false. }
  split.
  - intros a. change (CacheFile_FakeIPLoad (c1 <| cf_DB := Some d2 |>) a = CacheFile_FakeIPLoad c a).
    rewrite !FakeIPLoad_get by done. unfold in_file. rewrite Hd.
    change (cf_DB (c1 <| cf_DB := Some d2 |>)) with (Some d2). cbv beta iota. rewrite Hget; [done|].
    intros [= H]. by apply metadata_key_apart in H.
  - intros dom v6. change (CacheFile_FakeIPLoadDomain (c1 <| cf_DB := Some d2 |>) dom v6 = CacheFile_FakeIPLoadDomain c dom v6).
    unfold CacheFile_FakeIPLoadDomain, CacheFile_view. rewrite Hd.
    change (cf_DB (c1 <| cf_DB := Some d2 |>)) with (Some d2). cbv beta iota.
    rewrite Hb2, Hbo by (by destruct v6). rewrite Hget by (by destruct v6). by destruct v6.
Qed.

End FakeAddresses.

(** * Examples *)

#[export] Instance example_varbin : VarbinPkg := {| varbin_WriteUvarint := AppendUvarint; varbin_ReadUvarint := ReadUvarint_Append |}.
#[export] Instance example_metadata : MetadataPkg := metadata_pkg.

Definition empty_file : CacheFile := CacheFile_New "" true true true 0 (mkMemoryDB ∅ ∅).

Lemma outcome {A B} (x : A * B) a : fst x = a -> x = (a, snd x).
Proof. by destruct x as [a' b]; cbn; intros ->. Qed.
Lemma present {A} (o : option A) a : bool_decide (is_Some o) = true -> o = Some (default a o).
Proof. rewrite bool_decide_eq_true. by intros [x ->]. Qed.

Definition example_set : SavedBinary := mkSavedBinary (repeat 7 16) [1; 2; 3] (12 * second + 5) "etag" [9].
Lemma rule_set_saved_witness :
  let c' := snd (CacheFile_SaveRuleSet empty_file "geosite" example_set) in
  fst (CacheFile_LoadRuleSet c' "geosite") = Some (saved_form example_set).
Proof.
  intros c'. assert (Hok : saved_ok example_set) by (unfold saved_ok; vm_compute; done).
  assert (Hsave : CacheFile_SaveRuleSet empty_file "geosite" example_set = (Ok tt, c')) by (apply outcome; vm_compute; reflexivity).
  pose proof (rule_set_saved empty_file "geosite" example_set c' "geosite" Hok Hsave) as H.
  by rewrite bool_decide_true in H.
Defined.

(** A store with one IPv4 address, closed. *)
Definition fake_store : Store CacheFile :=
  snd (Store_Create (Store_Start (NewStore example_range4 zeroPrefix) empty_file) "example.org" false).
Definition fake_file : CacheFile := default empty_file (storage fake_store).
Definition closed_store : Store CacheFile := snd (Store_Close fake_store).
Definition closed_file : CacheFile := default empty_file (storage closed_store).

Lemma restart_keeps_addresses_witness :
  inet4Current (Store_Start (NewStore example_range4 zeroPrefix) closed_file) = inet4Current fake_store.
Proof.
  refine (proj1 (restart_keeps_addresses fake_store fake_file closed_store closed_file _ _ _ _ _ _ _ _ _)).
  - apply present. by vm_compute.
  - by vm_compute.
  - right. vm_compute. split; [split; done|]. split; [done|split; done].
  - by left.
  - right. vm_compute. split; [split; done|done].
  - by left.
  - unfold closed_store. apply (outcome (Store_Close fake_store)). by vm_compute.
  - unfold closed_file. apply present. by vm_compute.
  - by vm_compute.
Defined.

(** A reset removes three buckets in one transaction, which is undone if one of them
    does not exist: without IPv6 addresses nothing is reset, so a store started
    with another range hands out an address of the range before. *)
Example reset_without_ipv6_undone :
  fst (CacheFile_FakeIPReset fake_file) = Err ErrBucketNotFound
  /\ FakeIPLoadDomain (snd (CacheFile_FakeIPReset fake_file)) "example.org" false = Some (inet4Current fake_store).
Proof. split; vm_compute; reflexivity. Qed.

Definition other_range : Prefix := PrefixFrom (AddrFrom4 0x0A000000) 8.
Example new_range_old_address :
  let s := Store_Start (NewStore other_range zeroPrefix) closed_file in
  match Store_Create s "example.org" false with
  | (Ok a, s') => a = inet4Current fake_store /\ Store_Contains s' a = false
  | _ => False
  end.
Proof. vm_compute. split; reflexivity. Qed.

(** The length of the hash is not compared with the data: a damaged record makes
    [make] panic, and the whole file is removed. *)
Definition damaged_file : CacheFile :=
  let c := snd (CacheFile_StoreSelected empty_file "proxy" "tokyo") in
  snd (batch_ c (fun d => let! d := CacheFile_createBucket c bucketRuleSet d in
                          db_Put [bucketRuleSet] (bytes_of_string "geosite") (2 :: AppendUvarint (2 ^ 62)) d)).
Example long_hash_removes_file :
  fst (CacheFile_LoadSelected damaged_file "proxy") = "tokyo"
  /\ fst (CacheFile_LoadSelected (snd (CacheFile_LoadRuleSet damaged_file "geosite")) "proxy") = "".
Proof. split; vm_compute; reflexivity. Qed.

(** For a provider the same panic is not caught. *)
Example long_hash_panics :
  let c := snd (batch_ empty_file (fun d => let! d := CacheFile_createBucket empty_file bucketOutboundProvider d in
                                           db_Put [bucketOutboundProvider] (bytes_of_string "sub") (2 :: AppendUvarint (2 ^ 62)) d)) in
  CacheFile_LoadSubscription c "sub" = Panic "makeslice: len out of range".
Proof. vm_compute. reflexivity. Qed.

(** Buckets of other names inside the bucket of a cache ID stay: the name of the
    outer bucket is deleted instead. *)
Definition id_bucket : list Z := 0 :: bytes_of_string "home".
Definition old_buckets : list bucket_path := [[bytes_of_string "obsolete"]; [id_bucket]; [id_bucket; bytes_of_string "obsolete"]].
Example obsolete_bucket_kept :
  let d := mkMemoryDB (list_to_set old_buckets) ∅ in
  match CacheFile_start d with
  | Ok d' => mem_Bucket d' [bytes_of_string "obsolete"] = false /\ mem_Bucket d' [id_bucket; bytes_of_string "obsolete"] = true
  | _ => False
  end.
Proof. vm_compute. split; reflexivity. Qed.
