(* ===== verification/FakeIPFile.v ===== *)
(** The cache file as a storage of fake addresses: it keeps the laws the store relies
    on, failing transactions and damaged files included. *)

From S2P Require Import Prelude NetAddr GoStrings Binary FakeIP FakeIPProofs Bolt CacheFile CacheFileProofs.

(** [M.AddrFromIP] is the inverse of [Addr.AsSlice] but for IPv4 addresses mapped to
    IPv6, and gives no address for an empty slice. *)
Class AddrFromIPLaws {MPkg : MetadataPkg} := {
  AddrFromIP_slice a : wf_addr a -> IsValid a = true -> Is4In6 a = false -> AddrFromIP (AsSlice a) = a;
  AddrFromIP_empty : IsValid (AddrFromIP []) = false;
}.

Section FakeIPFile.
Context {BDB : Bolt} {VPkg : VarbinPkg} {MPkg : MetadataPkg} {ALaws : AddrFromIPLaws}.

(** The addresses the file tells apart. *)
Definition file_address (a : Addr) : Prop := wf_addr a /\ IsValid a = true /\ Is4In6 a = false.

(** Nothing is waiting to be written ([FakeIPStoreAsync] is not used by the store); no
    key is empty, and what is stored for an address is bytes. *)
Definition file_ok (c : CacheFile) : Prop :=
  cf_saveDomain c = ∅ /\ cf_saveAddress4 c = ∅ /\ cf_saveAddress6 c = ∅
  /\ forall d, cf_DB c = Some d ->
       (forall p, db_Get d p [] = None) /\ (forall a v, db_Get d [bucketFakeIP] (AsSlice a) = Some v -> Forall is_byte v).

Definition family_bucket (v6 : bool) : list Z := if v6 then bucketFakeIPDomain6 else bucketFakeIPDomain4.

Lemma file_address_slice a a' : file_address a -> file_address a' -> AsSlice a = AsSlice a' -> a = a'.
Proof.
  intros (H1 & H2 & H3) (H1' & H2' & H3') H. rewrite <- (AddrFromIP_slice a), <- (AddrFromIP_slice a') by done. by rewrite H.
Qed.

Lemma domain_bucket_family a : domain_bucket a = family_bucket (family a).
Proof. unfold domain_bucket, family_bucket, family. by destruct (Is4 a). Qed.

(** What the file holds, seen through the storage. *)
Definition file_domain (v : option (list Z)) : option string :=
  match v with Some (b :: l) => Some (string_of_bytes (b :: l)) | _ => None end.
Definition file_addr (v : option (list Z)) : option Addr :=
  match v with Some v => if IsValid (AddrFromIP v) then Some (AddrFromIP v) else None | None => None end.

Lemma FakeIPLoad_file c a : file_ok c -> CacheFile_FakeIPLoad c a = file_domain (in_file c [bucketFakeIP] (AsSlice a)).
Proof. intros (Hp & _). by apply FakeIPLoad_get. Qed.

Lemma FakeIPLoadDomain_file c d v6 : file_ok c ->
  CacheFile_FakeIPLoadDomain c d v6 = file_addr (in_file c [family_bucket v6] (bytes_of_string d)).
Proof.
  intros (_ & H4 & H6 & _). unfold CacheFile_FakeIPLoadDomain, CacheFile_view, in_file.
  assert ((if v6 then cf_saveAddress6 c else cf_saveAddress4 c) !! d = None) as -> by (destruct v6; rewrite ?H4, ?H6; apply lookup_empty).
  fold (family_bucket v6). destruct (cf_DB c) as [db|]; [|done].
  destruct (db_Bucket db [family_bucket v6]) eqn:Hb; [|by rewrite db_Get_Bucket].
  destruct (db_Get db _ _) as [v|]; cbn [default file_addr]; [done|]. by rewrite AddrFromIP_empty.
Qed.

(** The same values give the same entries. *)
Lemma file_same c c' : file_ok c -> file_ok c' ->
  (forall p k, p ∈ [[bucketFakeIP]; [family_bucket true]; [family_bucket false]] -> k <> keyMetadata \/ p <> [bucketFakeIP] -> in_file c' p k = in_file c p k) ->
  same_entries file_address c c'.
Proof.
  intros Hc Hc' Hin. split.
  - intros a Ha. cbn [FakeIPLoad cache_file_storage]. rewrite !FakeIPLoad_file by done. rewrite Hin; [done|left|left; apply metadata_key_apart].
  - intros d v6. cbn [FakeIPLoadDomain cache_file_storage]. rewrite !FakeIPLoadDomain_file by done.
    rewrite Hin; [done|destruct v6; [right; left|right; right; left]|right; by destruct v6].
Qed.

Lemma file_none c : file_ok c ->
  (forall p k, p ∈ [[bucketFakeIP]; [family_bucket true]; [family_bucket false]] -> in_file c p k = None) -> no_entries file_address c.
Proof.
  intros Hc Hin. split.
  - intros a Ha. cbn [FakeIPLoad cache_file_storage]. rewrite FakeIPLoad_file, Hin by first [done|left]. done.
  - intros d v6. cbn [FakeIPLoadDomain cache_file_storage]. rewrite FakeIPLoadDomain_file by done.
    rewrite Hin; [done|destruct v6; [right; left|right; right; left]].
Qed.

(** A file with other contents. *)
Lemma file_ok_with c d : file_ok c ->
  (forall p, db_Get d p [] = None) -> (forall a v, db_Get d [bucketFakeIP] (AsSlice a) = Some v -> Forall is_byte v) ->
  file_ok (c <| cf_DB := Some d |>).
Proof. intros (H1 & H4 & H6 & _) Hk Hb. split_and!; [done..|]. intros d' [= <-]. done. Qed.

Lemma reset_none c d : file_ok c -> file_ok (CacheFile_resetDB c d) /\ no_entries file_address (CacheFile_resetDB c d).
Proof.
  intros Hc. pose proof Hc as (H1 & H4 & H6 & _). assert (Hin : forall p k, in_file (CacheFile_resetDB c d) p k = None).
  { intros p k. unfold in_file, CacheFile_resetDB. cbn. unfold constant. destruct (db_Reopen d) as [d'|] eqn:E; [|done].
    apply db_Get_Bucket. by apply (db_Reopen_empty d). }
  assert (Hok : file_ok (CacheFile_resetDB c d)).
  { split_and!; [done..|]. intros d' Hd. unfold in_file in Hin. rewrite Hd in Hin. split; [done|]. intros a v. by rewrite Hin. }
  split; [done|]. apply file_none; [done|]. intros. apply Hin.
Qed.

(** What a transaction ends with: what it did if it succeeded, otherwise what was
    there, or nothing. *)
Lemma batch_outcome c fn : file_ok c ->
  (exists d d', cf_DB c = Some d /\ fn d = Ok d' /\ batch_ c fn = (Ok tt, c <| cf_DB := Some d' |>))
  \/ is_ok (batch_ c fn).1 = false /\ file_ok (batch_ c fn).2
     /\ (same_entries file_address c (batch_ c fn).2 \/ no_entries file_address (batch_ c fn).2).
Proof.
  intros Hc. assert (Hsame : same_entries file_address c c) by by apply file_same.
  unfold batch_, CacheFile_batch. destruct (cf_DB c) as [d|] eqn:Hd; [|right; auto].
  destruct (fn d) as [d'|e|p|] eqn:E; cbn [res_bind]; [|right; auto| |right; auto].
  - destruct (db_Commit d d'); [right; auto|]. left. exists d, d'. done.
  - right. destruct (reset_none c d Hc) as [Hok Hno]. auto.
Qed.

(** The contents after a new address was stored. *)
Lemma store_tx c a domain d d' : cf_DB c = Some d ->
  (let! d := db_CreateBucketIfNotExists [bucketFakeIP] d in
   let oldDomain := db_Get d [bucketFakeIP] (AsSlice a) in
   let! d := db_Put [bucketFakeIP] (AsSlice a) (bytes_of_string domain) d in
   let! d := db_CreateBucketIfNotExists [domain_bucket a] d in
   let! d := match oldDomain with Some oldDomain => db_Delete [domain_bucket a] oldDomain d | None => Ok d end in
   db_Put [domain_bucket a] (bytes_of_string domain) (AsSlice a) d) = Ok d' ->
  domain <> "" /\ AsSlice a <> []
  /\ forall p k, db_Get d' p k =
       if bool_decide ((p, k) = ([domain_bucket a], bytes_of_string domain)) then Some (AsSlice a)
       else if bool_decide (p = [domain_bucket a] /\ db_Get d [bucketFakeIP] (AsSlice a) = Some k) then None
       else if bool_decide ((p, k) = ([bucketFakeIP], AsSlice a)) then Some (bytes_of_string domain) else db_Get d p k.
Proof.
  intros _ H. cbv zeta in H. apply res_bind_ok in H as (d1 & H1 & H). apply res_bind_ok in H as (d2 & H2 & H).
  apply res_bind_ok in H as (d3 & H3 & H). apply res_bind_ok in H as (d4 & H4 & H5). rewrite (db_Get_Create _ _ _ H1) in H4.
  split; [intros ->; by eapply db_Put_key|]. split; [intros E; rewrite E in H2; by eapply db_Put_key|]. intros p k.
  assert (Hd2 : db_Get d3 p k = if bool_decide ((p, k) = ([bucketFakeIP], AsSlice a)) then Some (bytes_of_string domain) else db_Get d p k).
  { by rewrite (db_Get_Create _ _ _ H3), (db_Get_Put _ _ _ _ _ H2), (db_Get_Create _ _ _ H1). }
  rewrite (db_Get_Put _ _ _ _ _ H5).
  destruct (decide ((p, k) = ([domain_bucket a], bytes_of_string domain))) as [E|E]; [by rewrite !bool_decide_true|]. rewrite !(bool_decide_false (_ = ([domain_bucket a], _))) by done.
  destruct (db_Get d [bucketFakeIP] (AsSlice a)) as [old|] eqn:Ho.
  - rewrite (db_Get_Delete _ _ _ _ H4), Hd2. repeat case_bool_decide; try done; exfalso; naive_solver.
  - injection H4 as <-. rewrite Hd2. rewrite (bool_decide_false (_ /\ _)) by (by intros [_ ?]). done.
Qed.

Lemma buckets_apart v6 : family_bucket v6 <> bucketFakeIP.
Proof. by destruct v6. Qed.
Lemma family_bucket_inj v6 v6' : family_bucket v6 = family_bucket v6' -> v6 = v6'.
Proof. by destruct v6, v6'. Qed.

(** The file keeps an address that was stored, and gives up the domain it had. *)
Lemma store_file c a domain d d' : file_ok c -> file_address a -> cf_DB c = Some d -> domain <> "" -> AsSlice a <> [] ->
  (forall p k, db_Get d' p k =
       if bool_decide ((p, k) = ([domain_bucket a], bytes_of_string domain)) then Some (AsSlice a)
       else if bool_decide (p = [domain_bucket a] /\ db_Get d [bucketFakeIP] (AsSlice a) = Some k) then None
       else if bool_decide ((p, k) = ([bucketFakeIP], AsSlice a)) then Some (bytes_of_string domain) else db_Get d p k) ->
  file_ok (c <| cf_DB := Some d' |>) /\ stored file_address c a domain (c <| cf_DB := Some d' |>).
Proof.
  intros Hc Ha Hd Hne Hna Hget. pose proof Hc as (_ & _ & _ & Hcd). destruct (Hcd d Hd) as [Hkeys Hbytes].
  pose proof (domain_bucket_family a) as Hdb. pose proof (buckets_apart (family a)) as Hap. rewrite <- Hdb in Hap.
  assert (Hdom : exists x l, bytes_of_string domain = x :: l) by (destruct domain; [done|cbn; eauto]).
  assert (Hok : file_ok (c <| cf_DB := Some d' |>)).
  { apply file_ok_with; [done| |].
    - intros p. rewrite Hget. destruct Hdom as (x & l & ->). rewrite bool_decide_false by done. case_bool_decide; [done|].
      rewrite bool_decide_false by congruence. apply Hkeys.
    - intros a' v. rewrite Hget, bool_decide_false by congruence. rewrite bool_decide_false by (intros [? _]; congruence).
      case_bool_decide; [intros [= <-]; apply bytes_of_string_range|apply Hbytes]. }
  split; [done|]. split.
  - intros a' Ha'. cbn [FakeIPLoad cache_file_storage]. rewrite !FakeIPLoad_file by done. unfold in_file. rewrite Hd.
    change (cf_DB (c <| cf_DB := Some d' |>)) with (Some d'). cbv beta iota. rewrite Hget, bool_decide_false by congruence.
    rewrite bool_decide_false by (intros [? _]; congruence). destruct (decide (a' = a)) as [->|Hn].
    + rewrite !bool_decide_true by done. destruct Hdom as (x & l & E). unfold file_domain. rewrite E, <- E. by rewrite string_of_bytes_of_string.
    + rewrite !bool_decide_false; [done|done|]. intros [= E]. apply Hn. by apply file_address_slice.
  - intros domain' v6. cbn [FakeIPLoadDomain FakeIPLoad cache_file_storage]. rewrite !FakeIPLoadDomain_file, FakeIPLoad_file by done. unfold in_file. rewrite Hd.
    change (cf_DB (c <| cf_DB := Some d' |>)) with (Some d'). cbv beta iota. rewrite Hget, Hdb.
    rewrite (bool_decide_false (([family_bucket v6], _) = ([bucketFakeIP], _))) by (intros [= E _]; by apply buckets_apart in E).
    destruct (Bool.eqb_spec v6 (family a)) as [->|Hv].
    + destruct (decide (domain' = domain)) as [->|Hn].
      * rewrite !bool_decide_true by done. unfold file_addr. destruct Ha as (H1 & H2 & H3). by rewrite AddrFromIP_slice, H2.
      * rewrite (bool_decide_false (_ = (_, bytes_of_string domain))) by (intros [= E]; by apply Hn, bytes_of_string_inj).
        rewrite (bool_decide_false (domain' = domain)) by done.
        destruct (db_Get d [bucketFakeIP] (AsSlice a)) as [[|x l]|] eqn:Ho; cbn [file_domain].
        -- rewrite (bool_decide_false (None = _)) by done. case_bool_decide as E; [|done]. destruct E as [_ [= E]]. by rewrite <- E, Hkeys.
        -- assert (Hb := Hbytes a _ Ho). assert (Hiff : Some (x :: l) = Some (bytes_of_string domain') <-> Some (string_of_bytes (x :: l)) = Some domain').
           { split; intros E%Some_inj; [by rewrite E, string_of_bytes_of_string|]. by rewrite <- E, bytes_of_string_of_bytes. }
           destruct (decide (Some (x :: l) = Some (bytes_of_string domain'))) as [E|E].
           ++ by rewrite (bool_decide_true (_ /\ _)), (bool_decide_true (Some (string_of_bytes _) = _)) by (first [by apply Hiff|done]).
           ++ rewrite (bool_decide_false (_ /\ _)) by (by intros [_ ?]). by rewrite (bool_decide_false (Some (string_of_bytes _) = _)) by (by rewrite <- Hiff).
        -- rewrite (bool_decide_false (_ /\ _)) by (by intros [_ ?]). by rewrite (bool_decide_false (None = _)).
    + rewrite bool_decide_false by (intros [= E _]; by apply family_bucket_inj in E).
      rewrite bool_decide_false by (intros [[= E] _]; by apply family_bucket_inj in E). done.
Qed.

(** Changes of the metadata are no changes of the entries. *)
Lemma metadata_file c d d' v : file_ok c -> cf_DB c = Some d ->
  (forall p k, db_Get d' p k = if bool_decide ((p, k) = ([bucketFakeIP], keyMetadata)) then v else db_Get d p k) ->
  file_ok (c <| cf_DB := Some d' |>) /\ same_entries file_address c (c <| cf_DB := Some d' |>).
Proof.
  intros Hc Hd Hget. pose proof Hc as (_ & _ & _ & Hcd). destruct (Hcd d Hd) as [Hkeys Hbytes].
  assert (Hok : file_ok (c <| cf_DB := Some d' |>)).
  { apply file_ok_with; [done| |].
    - intros p. rewrite Hget, bool_decide_false by done. apply Hkeys.
    - intros a v'. rewrite Hget, bool_decide_false by (intros [= E]; by apply metadata_key_apart in E). apply Hbytes. }
  split; [done|]. apply file_same; [done|done|]. intros p k _ Hne. unfold in_file. rewrite Hd.
  change (cf_DB (c <| cf_DB := Some d' |>)) with (Some d'). cbv beta iota. rewrite Hget, bool_decide_false; [done|]. intros [= ??]. naive_solver.
Qed.

Lemma load_metadata_file c : file_ok c ->
  file_ok (CacheFile_FakeIPMetadata c).2
  /\ (same_entries file_address c (CacheFile_FakeIPMetadata c).2 \/ no_entries file_address (CacheFile_FakeIPMetadata c).2).
Proof.
  intros Hc. assert (Hsame : same_entries file_address c c) by by apply file_same.
  unfold CacheFile_FakeIPMetadata, CacheFile_batch. destruct (cf_DB c) as [d|] eqn:Hd; [|by auto].
  destruct (negb _); [by auto|]. destruct (db_Get d _ _) as [[|x l]|]; [by auto| |by auto].
  destruct (db_Delete _ _ _) as [d'|e|r|] eqn:E; cbn [res_bind]; [|by auto|by destruct (reset_none c d Hc); auto|by auto].
  destruct (FakeIPMetadata_UnmarshalBinary _) as [m|e|r|]; cbn [res_bind]; [|by auto|by destruct (reset_none c d Hc); auto|by auto].
  destruct (db_Commit d d'); [by auto|]. cbn [snd].
  destruct (metadata_file c d d' None Hc Hd (db_Get_Delete _ _ _ _ E)); auto.
Qed.

(** A reset that succeeded removed all three buckets. *)
Lemma reset_file c d d' : file_ok c -> cf_DB c = Some d ->
  (let! d := db_DeleteBucket [bucketFakeIP] d in
   let! d := db_DeleteBucket [bucketFakeIPDomain4] d in
   db_DeleteBucket [bucketFakeIPDomain6] d) = Ok d' ->
  file_ok (c <| cf_DB := Some d' |>) /\ no_entries file_address (c <| cf_DB := Some d' |>).
Proof.
  intros Hc Hd H. apply res_bind_ok in H as (d1 & H1 & H). apply res_bind_ok in H as (d2 & H2 & H3).
  pose proof Hc as (_ & _ & _ & Hcd). destruct (Hcd d Hd) as [Hkeys Hbytes].
  assert (Hget : forall p k, db_Get d' p k = None \/ db_Get d' p k = db_Get d p k /\ p ∉ [[bucketFakeIP]; [family_bucket true]; [family_bucket false]]).
  { intros p k. rewrite (db_Get_DeleteBucket _ _ _ H3), (db_Get_DeleteBucket _ _ _ H2), (db_Get_DeleteBucket _ _ _ H1).
    repeat (case_bool_decide; [by left|]). right. split; [done|]. rewrite !elem_of_cons, elem_of_nil.
    intros [-> |[-> |[-> |?]]]; done. }
  assert (Hok : file_ok (c <| cf_DB := Some d' |>)).
  { apply file_ok_with; [done| |].
    - intros p. destruct (Hget p []) as [?|[-> _]]; [done|apply Hkeys].
    - intros a v. destruct (Hget [bucketFakeIP] (AsSlice a)) as [->|[-> _]]; [done|apply Hbytes]. }
  split; [done|]. apply file_none; [done|]. intros p k Hp. unfold in_file.
  change (cf_DB (c <| cf_DB := Some d' |>)) with (Some d'). cbv beta iota. by destruct (Hget p k) as [?|[_ ?]].
Qed.

(** The cache file keeps the laws of a storage. *)
#[export] Instance cache_file_laws : FakeIPStorageLaws CacheFile.
Proof.
  refine {| storable := file_address; storage_ok := file_ok |}.
  - intros c a domain Hc Ha. cbn [FakeIPStore cache_file_storage]. unfold CacheFile_FakeIPStore.
    match goal with |- context [batch_ c ?fn] => pose proof (batch_outcome c fn Hc) as Hout end. destruct Hout as [(d & d' & Hd & Hfn & ->)|(He & Hok & Hk)].
    + destruct (store_tx c a domain d d' Hd Hfn) as (Hne & Hna & Hget). destruct (store_file c a domain d d' Hc Ha Hd Hne Hna Hget). auto.
    + revert He Hok Hk. destruct (batch_ _ _) as [err c']. cbn [fst snd]. auto.
  - intros c m Hc. split; [exact Hc|]. by apply file_same.
  - intros c m Hc. cbn [FakeIPSaveMetadata cache_file_storage]. unfold CacheFile_FakeIPSaveMetadata.
    match goal with |- context [batch_ c ?fn] => pose proof (batch_outcome c fn Hc) as Hout end. destruct Hout as [(d & d' & Hd & Hfn & ->)|(He & Hok & Hk)].
    + apply res_bind_ok in Hfn as (d1 & H1 & H2).
      destruct (metadata_file c d d' (Some (FakeIPMetadata_MarshalBinary m)) Hc Hd); [|by auto].
      intros p k. by rewrite (db_Get_Put _ _ _ _ _ H2), (db_Get_Create _ _ _ H1).
    + revert He Hok Hk. destruct (batch_ _ _) as [err c']. cbn [fst snd]. auto.
  - intros c Hc. cbn [FakeIPMetadata_load cache_file_storage]. pose proof (load_metadata_file c Hc) as H.
    by destruct (CacheFile_FakeIPMetadata c).
  - intros c Hc. cbn [FakeIPReset cache_file_storage]. unfold CacheFile_FakeIPReset.
    unfold batch_, CacheFile_batch.
    assert (Hsame : same_entries file_address c c) by by apply file_same.
    destruct (cf_DB c) as [d|] eqn:Hd; [|by auto].
    match goal with |- context [let! d := ?x in Ok (tt, d)] => destruct x as [d'|e|r|] eqn:E end; cbn [res_bind]; [|by auto|by destruct (reset_none c d Hc); auto|by auto].
    destruct (db_Commit d d'); [by auto|]. destruct (reset_file c d d' Hc Hd E). auto.
Defined.

End FakeIPFile.

(** * Evaluations *)

#[export] Instance example_addr_laws : AddrFromIPLaws (MPkg := metadata_pkg).
Proof. split; [|done]. intros a Hw Hv _. cbn. by rewrite AddrFromSlice_AsSlice. Qed.

(** An empty file is a storage to start with, for ranges such as those of the
    examples. *)
Lemma empty_file_startable : startable example_range4 zeroPrefix empty_file.
Proof.
  assert (Hok : file_ok empty_file).
  { split_and!; [done..|]. intros d [= <-]. split; [intros p; cbn; unfold mem_Get; by destruct (mem_Bucket _ p)|].
    intros a v. cbn. unfold mem_Get. by destruct (mem_Bucket _ _). }
  split; [exact Hok|]. split; [|intros m Hm; vm_compute in Hm; discriminate Hm]. apply consistent_empty. apply file_none; [exact Hok|].
  intros p k _. unfold in_file, empty_file. cbn. unfold mem_Get. by destruct (mem_Bucket _ p).
Qed.

Lemma range4_file a : current_in example_range4 a -> file_address a.
Proof.
  intros Ha. pose proof example_range4_usable as Hu. pose proof (current_in_valid _ _ Hu Ha) as [Hv H4]. split_and!; [|done|].
  - destruct Hu as [Hp _]. destruct Ha as [Hz Ha]. rewrite (addr_eta a _ _ eq_refl Hz). apply wf_in_range; [done|].
    pose proof (prefix_bounds _ Hp). lia.
  - unfold Is4In6, Is6, Is4 in *. destruct (z a); done.
Qed.

Lemma file_store_ok : store_ok fake_store.
Proof.
  pose proof (start_ok example_range4 zeroPrefix empty_file) as H. destruct H as (Hs & _).
  - right. split; [apply example_range4_usable|]. split; [done|apply range4_file].
  - by left.
  - apply empty_file_startable.
  - pose proof Hs as ((st & Hst & _) & _). unfold fake_store. destruct (Store_Create _ _ _) as [r s'] eqn:E.
    exact (proj1 (Store_Create_post _ _ _ _ _ _ Hs Hst E)).
Qed.
