(* ===== verification/DNSCacheProofs.v ===== *)
(** The answers of DNS servers in the cache file: what is loaded is what was saved
    last, while goroutines write the pending answers one after the other, some
    writes fail, and answers are deleted, cleaned up and cleared. *)

From S2P Require Import Prelude NetAddr GoStrings Binary FakeIP Bolt CacheFile CacheFileProofs.

(** An undamaged file: operations on buckets that exist do not panic. *)
Class BoltSound `{Bolt} : Prop := {
  sound_Put p k v d r : db_Bucket d p = true -> db_Put p k v d <> Panic r;
  sound_Delete p k d r : db_Bucket d p = true -> db_Delete p k d <> Panic r;
  sound_Create p n d r : p = [] \/ db_Bucket d p = true -> db_CreateBucketIfNotExists (p ++ [n]) d <> Panic r;
  sound_DeleteBucket p n d r : p = [] \/ db_Bucket d p = true -> db_DeleteBucket (p ++ [n]) d <> Panic r;
}.

#[export] Instance memory_sound : BoltSound.
Proof.
  split; cbn.
  - intros p k v d r H. unfold mem_Put. rewrite H. cbn. by destruct (negb _).
  - intros p k d r H. unfold mem_Delete. by rewrite H.
  - intros p n d r H. unfold mem_Create. destruct (mem_Bucket d (p ++ [n])); [done|]. rewrite rev_app_distr. cbn.
    destruct H as [->|H]; [done|]. rewrite rev_involutive, H. by rewrite orb_true_r.
  - intros p n d r H. unfold mem_DeleteBucket. by destruct (negb _).
Qed.

(** * What transactions on answers do *)

Section Effects.
Context {BDB : Bolt} {BSound : BoltSound} {VPkg : VarbinPkg} {MPkg : MetadataPkg}.

Notation sound := (wp (fun _ => False)).

Lemma sound_ok {A} (m : res A) : (forall r, m <> Panic r) -> sound m (fun a => m = Ok a).
Proof. destruct m as [| |r|]; cbn; try done. intros H. by destruct (H r). Qed.

Lemma batch_sound c fn Q : cf_DB c <> None -> (forall d, cf_DB c = Some d -> sound (fn d) (Q d)) ->
  (exists d d', cf_DB c = Some d /\ Q d d' /\ batch_ c fn = (Ok tt, c <| cf_DB := Some d' |>))
  \/ exists r, r <> Ok tt /\ batch_ c fn = (r, c).
Proof.
  intros Hc H. unfold batch_, CacheFile_batch. destruct (cf_DB c) as [d|] eqn:Hd; [|done]. specialize (H d eq_refl).
  destruct (fn d) as [d'|e|s|]; cbn in *; [|right; eexists; split; [|reflexivity]; done|done|right; eexists; split; [|reflexivity]; done].
  destruct (db_Commit d d'); [right; eexists; split; [|reflexivity]; done|left; by exists d, d'].
Qed.

Lemma createBucket_sound c b d : sound (CacheFile_createBucket c b d) (fun d' =>
  (forall p k, db_Get d' p k = db_Get d p k) /\ db_Bucket d' (CacheFile_bucket c b) = true).
Proof.
  eapply wp_mono.
  - apply sound_ok. unfold CacheFile_createBucket. destruct (cf_cacheID c) as [id|].
    + intros r. destruct (db_CreateBucketIfNotExists [id] d) as [d1| | |] eqn:E; cbn; try done.
      * apply (sound_Create [id]). right. by rewrite (db_Bucket_Create _ _ _ E), bool_decide_true.
      * intros _. by apply (sound_Create [] id d message); [left|].
    + intros r. apply (sound_Create []). by left.
  - cbn. intros d' E. split; [exact (createBucket_get _ _ _ _ E)|exact (createBucket_bucket _ _ _ _ E)].
Qed.

Lemma put_in_sound c b k v d : sound (put_in c b k v d) (fun d' => put_in c b k v d = Ok d').
Proof.
  apply sound_ok. intros r H. unfold put_in in H. pose proof (createBucket_sound c b d) as H1.
  destruct (CacheFile_createBucket c b d) as [d1| | |]; cbn in H, H1; try done. destruct H1 as [_ H1].
  destruct (db_CreateBucketIfNotExists _ d1) as [d2| |s|] eqn:E2; cbn in H; try done.
  - revert H. apply sound_Put. by rewrite (db_Bucket_Create _ _ _ E2), bool_decide_true.
  - revert E2. apply sound_Create. by right.
Qed.

Lemma delete_keys_sound q keys : forall d, db_Bucket d q = true -> sound (delete_keys q keys d) (fun d' =>
  (forall p, db_Bucket d' p = db_Bucket d p)
  /\ forall p k, db_Get d' p k = if bool_decide (p = q /\ k ∈ keys) then None else db_Get d p k).
Proof.
  induction keys as [|k0 keys IH]; intros d Hq; cbn [delete_keys].
  - cbn. split; [done|]. intros p k. rewrite bool_decide_false; [done|]. rewrite elem_of_nil. tauto.
  - apply wp_bind. eapply wp_mono; [apply sound_ok; intros r; by apply sound_Delete|]. cbn. intros d1 E1.
    eapply wp_mono; [apply IH; by rewrite (db_Bucket_Delete _ _ _ _ E1)|]. cbn. intros d' [Hb Hg]. split.
    + intros p. by rewrite Hb, (db_Bucket_Delete _ _ _ _ E1).
    + intros p k. rewrite Hg, (db_Get_Delete _ _ _ _ E1). destruct (decide (p = q)) as [->|Hp].
      * destruct (decide (k = k0)) as [->|Hk].
        -- rewrite (bool_decide_true ((q, k0) = (q, k0))), (bool_decide_true (q = q /\ k0 ∈ k0 :: keys)) by set_solver.
           by destruct (bool_decide _).
        -- rewrite (bool_decide_false ((q, k) = (q, k0))) by congruence.
           by rewrite (bool_decide_ext (q = q /\ k ∈ keys) (q = q /\ k ∈ k0 :: keys)) by set_solver.
      * rewrite !bool_decide_false by (try tauto; congruence). done.
Qed.

(** What is left of a value by a cleanup. *)
Definition sweep (expired : list Z -> bool) (x : option (list Z)) : option (list Z) :=
  match x with Some v => if expired v then None else Some v | None => None end.
Lemma sweep_sweep expired x : sweep expired (sweep expired x) = sweep expired x.
Proof. destruct x as [v|]; [|done]. cbn. destruct (expired v) eqn:E; [done|]. cbn. by rewrite E. Qed.

Lemma expired_keys d q expired k :
  k ∈ map fst (List.filter (fun kv => expired (snd kv)) (db_ForEach d q)) <-> exists v, db_Get d q k = Some v /\ expired v = true.
Proof.
  rewrite list_elem_of_In, in_map_iff. setoid_rewrite filter_In. setoid_rewrite <- list_elem_of_In. split.
  - intros ([k' v] & <- & Hin & He). exists v. split; [by apply db_ForEach_Get|done].
  - intros (v & Hg & He). exists (k, v). split; [done|]. split; [by apply db_ForEach_Get|done].
Qed.

Lemma sweep_bucket d q expired : db_Bucket d q = true ->
  sound (delete_keys q (map fst (List.filter (fun kv => expired (snd kv)) (db_ForEach d q))) d) (fun d' =>
    (forall p, db_Bucket d' p = db_Bucket d p)
    /\ forall p k, db_Get d' p k = if bool_decide (p = q) then sweep expired (db_Get d p k) else db_Get d p k).
Proof.
  intros Hq. eapply wp_mono; [by apply delete_keys_sound|]. cbn. intros d' [Hb Hg]. split; [done|]. intros p k. rewrite Hg.
  destruct (decide (p = q)) as [->|Hp]; [|rewrite !bool_decide_false by tauto; done].
  rewrite (bool_decide_true (q = q)) by done. case_bool_decide as H.
  - destruct H as [_ H]. apply expired_keys in H as (v & -> & He). cbn. by rewrite He.
  - destruct (db_Get d q k) as [v|] eqn:E; [|done]. cbn. destruct (expired v) eqn:He; [|done].
    destruct H. split; [done|]. apply expired_keys. eauto.
Qed.

Lemma cleanup_transports_sound p expired names : forall d, Forall (fun n => db_Bucket d (p ++ [n]) = true) names ->
  sound (cleanup_transports p expired names d) (fun '(empty, d') =>
    (forall q, db_Bucket d' q = db_Bucket d q)
    /\ (forall m k, db_Get d' (p ++ [m]) k
          = if bool_decide (m ∈ names) then sweep expired (db_Get d (p ++ [m]) k) else db_Get d (p ++ [m]) k)
    /\ (forall n k, n ∈ empty -> db_Get d' (p ++ [n]) k = None)).
Proof.
  induction names as [|n names IH]; intros d Hn; cbn [cleanup_transports].
  - cbn. split_and!; [done| |intros n k; by rewrite elem_of_nil]. intros m k. by rewrite bool_decide_false by apply not_elem_of_nil.
  - apply Forall_cons in Hn as [Hn Hns]. apply wp_bind. eapply wp_mono; [by apply sweep_bucket|]. cbn. intros d1 [Hb1 Hg1].
    apply wp_bind. eapply wp_mono; [apply IH; eapply Forall_impl; [exact Hns|]; intros m; by rewrite Hb1|].
    cbn. intros [empty d'] (Hb & Hg & He). cbn.
    assert (Hg' : forall m k, db_Get d' (p ++ [m]) k
      = if bool_decide (m ∈ n :: names) then sweep expired (db_Get d (p ++ [m]) k) else db_Get d (p ++ [m]) k).
    { intros m k. rewrite Hg, Hg1. destruct (decide (m = n)) as [->|Hm].
      - rewrite (bool_decide_true (p ++ [n] = p ++ [n])), (bool_decide_true (n ∈ n :: names)) by set_solver.
        rewrite sweep_sweep. by destruct (bool_decide _).
      - rewrite (bool_decide_false (p ++ [m] = p ++ [n])) by (intros H; apply app_inv_head in H; congruence).
        by rewrite (bool_decide_ext (m ∈ names) (m ∈ n :: names)) by set_solver. }
    split_and!; [intros q; by rewrite Hb, Hb1|exact Hg'|]. intros m k.
    destruct (nonempty (db_ForEach d1 (p ++ [n]))) eqn:Hne; cbn [negb andb]; [apply He|].
    destruct (nonempty (db_ForEachBucket d1 (p ++ [n]))); cbn [negb]; [apply He|].
    rewrite elem_of_cons. intros [->|Hm]; [|by apply He]. rewrite Hg.
    assert (Hnone : db_Get d1 (p ++ [n]) k = None).
    { destruct (db_Get d1 (p ++ [n]) k) as [v|] eqn:E; [|done]. apply db_ForEach_Get in E.
      destruct (db_ForEach d1 (p ++ [n])); [by apply elem_of_nil in E|done]. }
    rewrite Hnone. by destruct (bool_decide _).
Qed.

Lemma delete_buckets_sound p names : forall d, p = [] \/ db_Bucket d p = true ->
  (forall n k, n ∈ names -> db_Get d (p ++ [n]) k = None) ->
  sound (delete_buckets p names d) (fun d' => forall m k, db_Get d' (p ++ [m]) k = db_Get d (p ++ [m]) k).
Proof.
  induction names as [|n names IH]; intros d Hp Hn; cbn [delete_buckets]; [done|].
  apply wp_bind. eapply wp_mono; [apply sound_ok; intros r; by apply sound_DeleteBucket|]. cbn. intros d1 E1.
  assert (Hg : forall m k, db_Get d1 (p ++ [m]) k = db_Get d (p ++ [m]) k).
  { intros m k. rewrite (db_Get_DeleteBucket _ _ _ E1). case_bool_decide as H; [|done].
    apply prefix_app_inv in H. destruct H as [l H]. injection H as -> _. symmetry. apply Hn. set_solver. }
  eapply wp_mono; [apply IH|].
  - destruct Hp as [->|Hp]; [by left|right]. rewrite (db_Bucket_DeleteBucket _ _ _ E1), Hp, bool_decide_false; [done|].
    intros H. apply prefix_length in H. rewrite length_app in H. cbn in H. lia.
  - intros m k Hm. rewrite Hg. apply Hn. set_solver.
  - cbn. intros d' H m k. by rewrite H, Hg.
Qed.

Lemma cleanup_sound c b expired : cf_DB c <> None ->
  cleanup_bucket c b expired = c \/ exists d d', cf_DB c = Some d /\ cleanup_bucket c b expired = c <| cf_DB := Some d' |>
    /\ forall m k, db_Get d' (CacheFile_bucket c b ++ [m]) k = sweep expired (db_Get d (CacheFile_bucket c b ++ [m]) k).
Proof.
  intros Hc. unfold cleanup_bucket. set (p := CacheFile_bucket c b).
  edestruct (batch_sound c (fun d =>
    if negb (db_Bucket d p) then Ok d else
    let! ' (emptyTransports, d) := cleanup_transports p expired (db_ForEachBucket d p) d in
    delete_buckets p emptyTransports d)
    (fun d d' => forall m k, db_Get d' (p ++ [m]) k = sweep expired (db_Get d (p ++ [m]) k)) Hc)
    as [(d & d' & Hd & HQ & E)|(r & _ & E)].
  - intros d Hd. destruct (db_Bucket d p) eqn:Hp; cbn [negb].
    + apply wp_bind. eapply wp_mono; [apply cleanup_transports_sound, Forall_forall; intros n; apply db_ForEachBucket_Bucket|].
      cbn. intros [empty d1] (Hb & Hg & He). eapply wp_mono; [apply delete_buckets_sound; [right; by rewrite Hb|done]|].
      cbn. intros d' H m k. rewrite H, Hg. case_bool_decide as Hm; [done|].
      rewrite (db_Get_Bucket d (p ++ [m])); [done|]. destruct (db_Bucket d (p ++ [m])) eqn:E; [|done].
      by apply db_ForEachBucket_Bucket in E.
    + cbn. intros m k. rewrite db_Get_Bucket; [done|]. apply not_true_iff_false. intros H. apply db_Bucket_parent in H; [congruence|].
      unfold p, CacheFile_bucket. by destruct (cf_cacheID c).
  - right. exists d, d'. by rewrite E.
  - left. by rewrite E.
Qed.

End Effects.

(** * Runs *)

Section Answers.
Context {BDB : Bolt} {BSound : BoltSound} {VPkg : VarbinPkg} {MPkg : MetadataPkg}.

(** The file with the goroutines that write pending answers. *)
Record world := mkWorld { w_file : CacheFile; w_flushers : list (saveCacheKey * flusher) }.

Inductive label :=
| LSave (k : saveCacheKey) (raw : list Z) (expire : Z)
| LFlush (i : nat)
| LDelete (k : saveCacheKey) (raw : list Z)
| LCleanup (now : Z)
| LClear.

Inductive wstep : label -> world -> world -> Prop :=
| ws_save k raw e c fl start c' :
    key_ok k -> CacheFile_queueDNSCacheSave c k raw e = (start, c') ->
    wstep (LSave k raw e) (mkWorld c fl) (mkWorld c' (if start then fl ++ [(k, FlushHead)] else fl))
| ws_flush i c fl k f next c' :
    fl !! i = Some (k, f) -> CacheFile_flushPendingDNSCache c k f = (next, c') ->
    wstep (LFlush i) (mkWorld c fl) (mkWorld c' (match next with Some f' => <[i := (k, f')]> fl | None => delete i fl end))
| ws_delete k raw c fl : key_ok k ->
    wstep (LDelete k raw) (mkWorld c fl) (mkWorld (CacheFile_DeleteDNSCache c k raw) fl)
| ws_cleanup now c fl : wstep (LCleanup now) (mkWorld c fl) (mkWorld (CacheFile_cleanupDNSCache c now) fl)
| ws_clear c c' : CacheFile_ClearDNSCache c = (Ok tt, c') -> wstep LClear (mkWorld c []) (mkWorld c' []).

Inductive wrun (w : world) : list label -> world -> Prop :=
| wrun_nil : wrun w [] w
| wrun_snoc tr l w1 w2 : wrun w tr w1 -> wstep l w1 w2 -> wrun w (tr ++ [l]) w2.

(** The answer saved last since the cache was cleared, and the same if nothing may
    have removed it. *)
Notation answers := (gmap saveCacheKey (list Z * Z)).
Definition newest1 (m : answers) (l : label) : answers :=
  match l with LSave k raw e => <[k := (raw, e)]> m | LClear => ∅ | _ => m end.
Definition expired_by (c : CacheFile) (now : Z) (e : Z) : bool :=
  negb (cf_disableExpire c) && (trunc e + cf_optimisticTimeout c <? now).
Definition kept1 (c : CacheFile) (m : answers) (l : label) : answers :=
  match l with
  | LSave k raw e => <[k := (raw, e)]> m
  | LDelete k raw => match m !! k with Some (raw', _) => if bool_decide (raw' = raw) then delete k m else m | None => m end
  | LCleanup now => filter (fun x => expired_by c now (snd (snd x)) = false) m
  | LClear => ∅
  | LFlush _ => m
  end.
Definition newest (tr : list label) : answers := fold_left newest1 tr ∅.
Definition kept (c : CacheFile) (tr : list label) : answers := fold_left (kept1 c) tr ∅.

(** * The invariant *)

Definition encode (x : list Z * Z) : list Z := time_bytes (snd x) ++ fst x.
#[local] Arguments encode : simpl never.
Definition content (c : CacheFile) (k : saveCacheKey) : option (list Z) :=
  in_file c (transport_path c bucketDNSCache k) (question_key k).
Definition pending (c : CacheFile) (k : saveCacheKey) : option saveDNSCacheEntry := cf_saveDNSCache c !! k.
Definition answer (e : saveDNSCacheEntry) : list Z * Z := (rawMessage e, expireAt e).

(** ** One key *)

(** What ties the pending entry [p], the content [x] of the file and the goroutine
    [f] of a key to the answer [a] saved last, and to [b], the same if it may not be
    lost; no entry has a sequence number above [n].  The entry a goroutine read is
    the pending one if it has its number, and then the file has it once written. *)
Definition known (p : option saveDNSCacheEntry) (en : saveDNSCacheEntry) : Prop :=
  forall e, p = Some e -> sequence en <= sequence e /\ (sequence e = sequence en -> answer e = answer en).

Definition flusher_ok (p : option saveDNSCacheEntry) (x : option (list Z)) (b : option (list Z * Z)) (f : flusher) : Prop :=
  match f with
  | FlushHead => True
  | FlushRead en => known p en
  | FlushWritten en r =>
      known p en
      /\ (r = Ok tt ->
          (forall y, x = Some y -> y = encode (answer en))
          /\ forall e, p = Some e -> sequence e = sequence en -> b <> None -> x = Some (encode (answer en)))
  end.

Record key_inv (n : Z) (a b : option (list Z * Z)) (p : option saveDNSCacheEntry) (x : option (list Z)) (f : option flusher) : Prop := {
  ki_pending e : p = Some e -> a = Some (answer e) /\ 0 <= sequence e <= n;
  ki_saving : f <> None <-> exists e, p = Some e /\ saving e = true;
  ki_file y : p = None -> x = Some y -> exists z, a = Some z /\ y = encode z;
  ki_kept z : b = Some z -> a = Some z /\ (p = None -> x = Some (encode z));
  ki_flusher g : f = Some g -> flusher_ok p x b g;
}.

Lemma key_empty n : key_inv n None None None None None.
Proof. split; try done. split; [done|]. by intros (e & ? & _). Qed.

Lemma key_mono n n' a b p x f : n <= n' -> key_inv n a b p x f -> key_inv n' a b p x f.
Proof. intros Hn [H1 H2 H3 H4 H5]. split; try done. intros e He. destruct (H1 e He). split; [done|lia]. Qed.

(** Nothing is lost by forgetting that an answer is kept. *)
Lemma key_forget n a b p x f : key_inv n a b p x f -> key_inv n a None p x f.
Proof.
  intros [H1 H2 H3 H4 H5]. split; try done. intros g Hg. specialize (H5 g Hg). destruct g as [|en|en r]; cbn in *; try done.
  destruct H5 as [Hk H5]. split; [done|]. intros Hr. destruct (H5 Hr) as [H6 _]. split; [done|]. by intros.
Qed.

Lemma key_save n a b p x f raw e :
  0 <= n -> n + 1 < 2 ^ 64 -> key_inv n a b p x f ->
  let old := default (mkSaveDNSCacheEntry [] 0 0 false) p in
  key_inv (n + 1) (Some (raw, e)) (Some (raw, e)) (Some (mkSaveDNSCacheEntry raw e (u64 (sequence old + 1)) true)) x
    (if negb (saving old) then Some FlushHead else f).
Proof.
  intros Hn0 Hn [H1 H2 H3 H4 H5] old.
  assert (Hold : 0 <= sequence old <= n) by (destruct p as [o|]; cbn; [by destruct (H1 o eq_refl)|lia]).
  assert (Hf : saving old = true -> p = Some old /\ f <> None).
  { destruct p as [o|]; cbn; [|done]. intros Hs. split; [done|]. apply H2. eauto. }
  rewrite wrap_small by (unfold is_u; lia). split; try done.
  - intros e' [= <-]. cbn. split; [done|lia].
  - split; [|intros _; destruct (saving old); [by apply Hf|done]]. intros _. by eexists.
  - intros g Hg. destruct (saving old); cbn in Hg; [|by simplify_eq]. destruct (Hf eq_refl) as [Hp _]. specialize (H5 g Hg).
    assert (Hk : forall en, known p en -> sequence en <= sequence old).
    { intros en Hk. by destruct (Hk old Hp). }
    destruct g as [|en|en r]; cbn in *; [done| |destruct H5 as [H5 H6]]; specialize (Hk _ H5).
    + intros e' [= <-]. cbn. split; [lia|]. lia.
    + split; [intros e' [= <-]; cbn; split; [lia|lia]|]. intros Hr. destruct (H6 Hr) as [H7 _]. split; [done|].
      intros e' [= <-]. cbn. lia.
Qed.

Lemma key_head n a b p x : key_inv n a b p x (Some FlushHead) -> exists e, p = Some e /\ key_inv n a b p x (Some (FlushRead e)).
Proof.
  intros [H1 H2 H3 H4 H5]. destruct (proj1 H2) as (e & -> & Hs); [done|]. exists e. split; [done|]. split; try done.
  - split; [|done]. intros _. eauto.
  - intros g [= <-]. cbn. intros e' [= <-]. split; [lia|done].
Qed.

Lemma key_written n a b p x en r x' :
  key_inv n a b p x (Some (FlushRead en)) -> (r = Ok tt -> x' = Some (encode (answer en))) -> (r <> Ok tt -> x' = x) ->
  key_inv n a b p x' (Some (FlushWritten en r)).
Proof.
  intros [H1 H2 H3 H4 H5] Hok Herr. destruct (proj1 H2) as (e & -> & Hs); [done|]. split; try done.
  - split; [|done]. intros _. eauto.
  - intros z Hz. destruct (H4 z Hz). split; [done|]. done.
  - intros g [= <-]. cbn. specialize (H5 _ eq_refl). cbn in H5. split; [done|]. intros Hr. specialize (Hok Hr). subst x'.
    split; [by intros y [= <-]|]. by intros.
Qed.

(** The last step of a goroutine's round. *)
Lemma key_settle n a b p x en r :
  key_inv n a b p x (Some (FlushWritten en r)) ->
  exists e, p = Some e
  /\ (sequence e <> sequence en -> key_inv n a b p x (Some FlushHead))
  /\ (sequence e = sequence en -> r = Ok tt -> key_inv n a b None x None)
  /\ (sequence e = sequence en -> key_inv n a b (Some (e <| saving := false |>)) x None).
Proof.
  intros [H1 H2 H3 H4 H5]. destruct (proj1 H2) as (e & -> & Hs); [done|]. exists e. split; [done|].
  destruct (H1 e eq_refl) as [Ha Hq]. destruct (H5 _ eq_refl) as [Hk H6]. destruct (Hk e eq_refl) as [_ Hk']. split_and!.
  - intros _. split; try done; [split; [|done]; intros _; eauto|]. by intros g [= <-].
  - intros Hseq Hr. specialize (Hk' Hseq). destruct (H6 Hr) as [H7 H8]. split; try done.
    + split; [done|]. by intros (? & ? & _).
    + intros y _ Hy. exists (answer e). split; [done|]. rewrite Hk'. by apply H7.
    + intros z Hz. destruct (H4 z Hz) as [Hz' _]. split; [done|]. intros _.
      assert (z = answer e) as -> by congruence. rewrite Hk'. apply (H8 e eq_refl Hseq). by rewrite Hz.
  - intros Hseq. split; try done.
    + intros e' [= <-]. by destruct e.
    + split; [done|]. intros (e' & [= <-] & Hs'). by destruct e.
    + intros z Hz. destruct (H4 z Hz). split; [done|]. done.
Qed.

Lemma encode_raw x : drop 8 (encode x) = fst x.
Proof. apply drop_time. Qed.

Lemma key_delete n a b x y raw :
  key_inv n a b None x None -> x = Some y -> drop 8 y = raw ->
  key_inv n a (match b with Some (raw', _) => if bool_decide (raw' = raw) then None else b | None => None end) None None None.
Proof.
  intros [H1 H2 H3 H4 H5] -> Hy. split; try done. destruct b as [z|]; [|done]. intros z' Hz'.
  destruct (H4 z eq_refl) as [_ Hz]. specialize (Hz eq_refl). injection Hz as ->. rewrite encode_raw in Hy.
  destruct z as [raw' e']. cbn in *. by rewrite bool_decide_true in Hz'.
Qed.

Lemma dns_expired_encode c now x : dns_expired c now (encode x) = expired_by c now (snd x).
Proof. unfold dns_expired, encode. rewrite length_time, file_time_bytes. done. Qed.

Lemma key_cleanup n a b p x f c now :
  key_inv n a b p x f ->
  key_inv n a (match b with Some z => if expired_by c now (snd z) then None else b | None => None end) p (sweep (dns_expired c now) x) f.
Proof.
  intros [H1 H2 H3 H4 H5].
  assert (Hs : forall y, sweep (dns_expired c now) x = Some y -> x = Some y).
  { intros y. destruct x as [v|]; [|done]. cbn. by destruct (dns_expired c now v). }
  assert (Hb : forall z, match b with Some z => if expired_by c now (snd z) then None else b | None => None end = Some z ->
    b = Some z /\ expired_by c now (snd z) = false).
  { intros z. destruct b as [z'|]; [|done]. destruct (expired_by c now (snd z')) eqn:E; [done|]. intros [= <-]. done. }
  assert (Hx : forall z, expired_by c now (snd z) = false -> x = Some (encode z) -> sweep (dns_expired c now) x = Some (encode z)).
  { intros z Hz ->. unfold sweep. by rewrite dns_expired_encode, Hz. }
  split; try done.
  - intros y Hp Hy. eauto.
  - intros z Hz. apply Hb in Hz as [Hz He]. destruct (H4 z Hz) as [Ha Hf]. split; [done|]. intros Hp. by apply Hx; [|apply Hf].
  - intros g Hg. specialize (H5 g Hg). destruct g as [|en|en r]; cbn in *; try done. destruct H5 as [Hk H5]. split; [done|].
    intros Hr. destruct (H5 Hr) as [H6 H7]. split; [intros y Hy; apply H6; eauto|]. intros e Hp Hseq Hn.
    destruct (H1 e Hp) as [Ha _]. destruct (Hk e Hp) as [_ Hk']. specialize (Hk' Hseq).
    destruct b as [z|]; [|done]. destruct (expired_by c now (snd z)) eqn:E; [done|].
    destruct (H4 z eq_refl) as [Ha' _]. assert (z = answer en) as -> by congruence. apply Hx; [done|]. by apply (H7 e).
Qed.

(** ** All keys *)

Definition flusher_of (fl : list (saveCacheKey * flusher)) : gmap saveCacheKey flusher := list_to_map fl.

Lemma nodup_fst (l l' : list (saveCacheKey * flusher)) : l ≡ₚ l' -> NoDup (map fst l) -> NoDup (map fst l').
Proof. intros H. by rewrite (Permutation_map fst H). Qed.

Lemma at_index (fl : list (saveCacheKey * flusher)) i k f : NoDup (map fst fl) -> fl !! i = Some (k, f) ->
  (forall f', NoDup (map fst (<[i := (k, f')]> fl)) /\ flusher_of (<[i := (k, f')]> fl) = <[k := f']> (flusher_of fl))
  /\ NoDup (map fst (delete i fl)) /\ flusher_of (delete i fl) = delete k (flusher_of fl)
  /\ flusher_of fl !! k = Some f.
Proof.
  intros Hnd Hi. pose proof (take_drop_middle fl i _ Hi) as Hfl. set (l1 := take i fl) in *. set (l2 := drop (S i) fl) in *.
  assert (Hperm : forall f', l1 ++ (k, f') :: l2 ≡ₚ (k, f') :: l1 ++ l2) by (intros f'; symmetry; apply Permutation_middle).
  assert (Hk : NoDup (k :: map fst (l1 ++ l2))).
  { rewrite <- Hfl in Hnd. exact (nodup_fst _ _ (Hperm f) Hnd). }
  assert (Hn' : forall f', NoDup (map fst (l1 ++ (k, f') :: l2))).
  { intros f'. apply (nodup_fst ((k, f') :: l1 ++ l2)); [symmetry; apply Hperm|exact Hk]. }
  assert (Hm : forall f', flusher_of (l1 ++ (k, f') :: l2) = <[k := f']> (flusher_of (l1 ++ l2))).
  { intros f'. unfold flusher_of. by rewrite (list_to_map_proper _ _ (Hn' f') (Hperm f')). }
  apply NoDup_cons in Hk as [Hk Hk2].
  assert (Hnone : flusher_of (l1 ++ l2) !! k = None) by by apply not_elem_of_list_to_map.
  assert (Hflm : flusher_of fl = <[k := f]> (flusher_of (l1 ++ l2))).
  { transitivity (flusher_of (l1 ++ (k, f) :: l2)); [by rewrite Hfl|apply Hm]. }
  split_and!; rewrite ?Hflm.
  - intros f'. rewrite (insert_take_drop fl i (k, f')) by (by eapply lookup_lt_Some). fold l1 l2. split; [apply Hn'|].
    by rewrite Hm, insert_insert_eq.
  - rewrite delete_take_drop. exact Hk2.
  - rewrite delete_take_drop. fold l1 l2. by rewrite delete_insert_id.
  - by rewrite lookup_insert_eq.
Qed.

Lemma flusher_of_snoc (fl : list (saveCacheKey * flusher)) k f : NoDup (map fst fl) -> flusher_of fl !! k = None ->
  NoDup (map fst (fl ++ [(k, f)])) /\ flusher_of (fl ++ [(k, f)]) = <[k := f]> (flusher_of fl).
Proof.
  intros Hnd Hk. apply not_elem_of_list_to_map in Hk.
  assert (Hperm : fl ++ [(k, f)] ≡ₚ (k, f) :: fl) by (rewrite Permutation_app_comm; done).
  assert (Hn : NoDup (map fst (fl ++ [(k, f)]))).
  { apply (nodup_fst ((k, f) :: fl)); [by symmetry|]. cbn. by constructor. }
  split; [done|]. unfold flusher_of. by rewrite (list_to_map_proper _ _ Hn Hperm).
Qed.

Record dns_inv (c0 : CacheFile) (N K : answers) (n : Z) (c : CacheFile) (fl : list (saveCacheKey * flusher)) : Prop := {
  inv_ID : cf_cacheID c = cf_cacheID c0;
  inv_expire : cf_disableExpire c = cf_disableExpire c0 /\ cf_optimisticTimeout c = cf_optimisticTimeout c0;
  inv_open : cf_DB c <> None;
  inv_nodup : NoDup (map fst fl);
  inv_keys k : pending c k <> None \/ flusher_of fl !! k <> None \/ K !! k <> None -> key_ok k;
  inv_key k : key_ok k -> key_inv n (N !! k) (K !! k) (pending c k) (content c k) (flusher_of fl !! k);
}.

(** A step that changes one key. *)
Lemma inv_one_key c0 N K n c fl N' K' n' c' fl' k :
  dns_inv c0 N K n c fl -> key_ok k ->
  cf_cacheID c' = cf_cacheID c -> cf_disableExpire c' = cf_disableExpire c -> cf_optimisticTimeout c' = cf_optimisticTimeout c ->
  cf_DB c' <> None -> NoDup (map fst fl') -> n <= n' ->
  (forall k', k' <> k -> pending c' k' = pending c k' /\ flusher_of fl' !! k' = flusher_of fl !! k'
                        /\ N' !! k' = N !! k' /\ K' !! k' = K !! k') ->
  (forall k', k' <> k -> key_ok k' -> content c' k' = content c k') ->
  key_inv n' (N' !! k) (K' !! k) (pending c' k) (content c' k) (flusher_of fl' !! k) ->
  dns_inv c0 N' K' n' c' fl'.
Proof.
  intros [H1 H2 H3 H4 H5 H6] Hk E1 E2 E3 Ho Hn Hle Hother Hcontent Hkey. split; try congruence; try done.
  - intros k'. destruct (decide (k' = k)) as [->|Hne]; [done|]. destruct (Hother k' Hne) as (-> & -> & _ & ->). apply H5.
  - intros k' Hk'. destruct (decide (k' = k)) as [->|Hne]; [done|]. destruct (Hother k' Hne) as (-> & -> & -> & ->).
    rewrite Hcontent by done. eapply key_mono; [exact Hle|by apply H6].
Qed.

Lemma content_DB c d k : content (c <| cf_DB := Some d |>) k = db_Get d (transport_path c bucketDNSCache k) (question_key k).
Proof. done. Qed.

Lemma content_open c d k : cf_DB c = Some d -> content c k = db_Get d (transport_path c bucketDNSCache k) (question_key k).
Proof. unfold content, in_file. by intros ->. Qed.

Lemma inv_save c0 N K n c fl k raw e start c' :
  0 <= n -> n + 1 < 2 ^ 64 -> dns_inv c0 N K n c fl -> key_ok k -> CacheFile_queueDNSCacheSave c k raw e = (start, c') ->
  dns_inv c0 (<[k := (raw, e)]> N) (<[k := (raw, e)]> K) (n + 1) c' (if start then fl ++ [(k, FlushHead)] else fl).
Proof.
  intros Hn0 Hn Hinv Hk Hq. pose proof (inv_key _ _ _ _ _ _ Hinv k Hk) as Hkey. unfold CacheFile_queueDNSCacheSave in Hq.
  injection Hq as Hstart Hc'. pose proof (key_save _ _ _ _ _ _ raw e Hn0 Hn Hkey) as Hsave. cbn zeta in Hsave.
  fold (pending c k) in Hstart, Hc'. set (old := default _ (pending c k)) in *.
  assert (Hfl : let fl' := if start then fl ++ [(k, FlushHead)] else fl in
    NoDup (map fst fl') /\ flusher_of fl' = if start then <[k := FlushHead]> (flusher_of fl) else flusher_of fl).
  { destruct start; cbn; [|split; [apply Hinv|done]]. apply flusher_of_snoc; [apply Hinv|].
    destruct (flusher_of fl !! k) as [g|] eqn:E; [|done]. exfalso. destruct (proj1 (ki_saving _ _ _ _ _ _ Hkey)) as (e' & Hp & Hs); [done|].
    unfold old in Hstart. rewrite Hp in Hstart. cbn in Hstart. by rewrite Hs in Hstart. }
  destruct Hfl as [Hnd Hfl]. cbv zeta in Hnd, Hfl. subst c'.
  eapply (inv_one_key c0 N K n c fl _ _ _ _ _ k); try done; [apply Hinv|lia| |].
  - intros k' Hne. rewrite Hfl, !lookup_insert_ne by done. split_and!; try done.
    + unfold pending. cbn. unfold constant. by rewrite lookup_insert_ne.
    + destruct start; [by rewrite lookup_insert_ne|done].
  - rewrite Hfl, !lookup_insert_eq. unfold pending at 1. cbn. unfold constant. rewrite lookup_insert_eq.
    rewrite Hstart in Hsave. destruct start; [by rewrite lookup_insert_eq|exact Hsave].
Qed.

Lemma inv_flush_fl c0 N K n c fl i k f next c' fl' :
  dns_inv c0 N K n c fl -> fl !! i = Some (k, f) ->
  fl' = match next with Some f' => <[i := (k, f')]> fl | None => delete i fl end ->
  cf_cacheID c' = cf_cacheID c -> cf_disableExpire c' = cf_disableExpire c -> cf_optimisticTimeout c' = cf_optimisticTimeout c ->
  cf_DB c' <> None ->
  (forall k', k' <> k -> pending c' k' = pending c k') ->
  (forall k', k' <> k -> key_ok k' -> content c' k' = content c k') ->
  (key_ok k -> key_inv n (N !! k) (K !! k) (pending c k) (content c k) (Some f) ->
   key_inv n (N !! k) (K !! k) (pending c' k) (content c' k) next) ->
  dns_inv c0 N K n c' fl'.
Proof.
  intros Hinv Hi Hfl' E1 E2 E3 Ho Hp Hc Hkey.
  destruct (at_index fl i k f (inv_nodup _ _ _ _ _ _ Hinv) Hi) as (Hins & Hdn & Hd & Hf).
  assert (Hk : key_ok k) by (apply (inv_keys _ _ _ _ _ _ Hinv); right; left; by rewrite Hf).
  assert (Hfl : NoDup (map fst fl') /\ forall k', flusher_of fl' !! k' = if bool_decide (k' = k) then next else flusher_of fl !! k').
  { rewrite Hfl'. destruct next as [f'|]; [destruct (Hins f') as [H1 H2]|]; (split; [done|]); intros k'.
    - rewrite H2. case_bool_decide; [subst; by rewrite lookup_insert_eq|by rewrite lookup_insert_ne].
    - rewrite Hd. case_bool_decide; [subst; by rewrite lookup_delete_eq|by rewrite lookup_delete_ne]. }
  destruct Hfl as [Hnd Hfl].
  eapply (inv_one_key c0 N K n c fl _ _ _ _ _ k); try done.
  - intros k' Hne. rewrite Hfl, bool_decide_false by done. split_and!; auto.
  - rewrite Hfl, bool_decide_true by done. apply Hkey; [done|]. rewrite <- Hf. by apply Hinv.
Qed.

Lemma flush_settle_cases c k e en r next c' :
  pending c k = Some e -> flush_settle c k en r = (next, c') ->
  (sequence e <> sequence en /\ next = Some FlushHead /\ c' = c)
  \/ (sequence e = sequence en /\ r = Ok tt /\ next = None /\ c' = c <| cf_saveDNSCache := delete k (cf_saveDNSCache c) |>)
  \/ (sequence e = sequence en /\ r <> Ok tt /\ next = None
      /\ c' = c <| cf_saveDNSCache := <[k := e <| saving := false |>]> (cf_saveDNSCache c) |>).
Proof.
  unfold pending, flush_settle. intros -> Hf. destruct (sequence e =? sequence en) eqn:Hs.
  - apply Z.eqb_eq in Hs. right. destruct r as [[]| | |]; cbv beta iota delta [negb] in Hf; apply pair_equal_spec in Hf as [<- <-];
      [by left|right..]; done.
  - apply Z.eqb_neq in Hs. left. destruct r as [[]| | |]; cbv beta iota delta [negb] in Hf; apply pair_equal_spec in Hf as [<- <-]; done.
Qed.

Lemma inv_flush c0 N K n c fl i k f next c' :
  dns_inv c0 N K n c fl -> fl !! i = Some (k, f) -> CacheFile_flushPendingDNSCache c k f = (next, c') ->
  dns_inv c0 N K n c' (match next with Some f' => <[i := (k, f')]> fl | None => delete i fl end).
Proof.
  intros Hinv Hi Hf. pose proof (inv_open _ _ _ _ _ _ Hinv) as Ho. destruct f as [|en|en r]; unfold CacheFile_flushPendingDNSCache in Hf.
  - injection Hf as Hnext Hc'. subst c'. apply (inv_flush_fl c0 N K n c fl i k FlushHead next); try done. intros _ Hkey.
    apply key_head in Hkey as (e & Hp & Hkey). fold (pending c k) in Hnext. rewrite Hp in Hnext. cbn in Hnext. by subst next.
  - unfold CacheFile_SaveDNSCache in Hf.
    destruct (batch_sound c (put_in c bucketDNSCache k (time_bytes (expireAt en) ++ rawMessage en)) _ Ho
      (fun d _ => put_in_sound c bucketDNSCache k _ d)) as [(d & d' & Hd & HQ & E)|(r & Hr & E)];
      rewrite E in Hf; cbv beta iota in Hf; apply pair_equal_spec in Hf as [Hnx Hc']; subst next c'.
    + assert (Hg := put_in_get _ _ _ _ _ _ HQ).
      apply (inv_flush_fl c0 N K n c fl i k (FlushRead en) (Some (FlushWritten en (Ok tt)))); try done.
      * intros k' Hne Hk'. rewrite content_DB, (content_open c d), Hg by done. rewrite bool_decide_false; [done|].
        intros Heq. apply Hne. eapply place_inj; [done| |exact Heq].
        apply (inv_keys _ _ _ _ _ _ Hinv). right. left.
        destruct (at_index fl i k (FlushRead en) (inv_nodup _ _ _ _ _ _ Hinv) Hi) as (_ & _ & _ & Hf). by rewrite Hf.
      * intros _ Hkey. eapply key_written; [exact Hkey| |done]. intros _. rewrite content_DB, Hg. by rewrite bool_decide_true.
    + apply (inv_flush_fl c0 N K n c fl i k (FlushRead en) (Some (FlushWritten en r))); try done. intros _ Hkey. by eapply key_written.
  - destruct (at_index fl i k _ (inv_nodup _ _ _ _ _ _ Hinv) Hi) as (_ & _ & _ & Hfk).
    assert (Hp : exists e, pending c k = Some e).
    { destruct (proj1 (ki_saving _ _ _ _ _ _ (inv_key _ _ _ _ _ _ Hinv k (inv_keys _ _ _ _ _ _ Hinv k ltac:(right; left; by rewrite Hfk)))))
        as (e & Hp & _); [by rewrite Hfk|by exists e]. }
    destruct Hp as [e Hp]. destruct (flush_settle_cases _ _ _ _ _ _ _ Hp Hf) as [(Hs & -> & ->)|[(Hs & Hr & -> & ->)|(Hs & Hr & -> & ->)]].
    + apply (inv_flush_fl c0 N K n c fl i k (FlushWritten en r) (Some FlushHead)); try done.
      intros _ Hkey. apply key_settle in Hkey as (e' & Hp' & H1 & _). apply H1. congruence.
    + apply (inv_flush_fl c0 N K n c fl i k (FlushWritten en r) None); try done; [intros k' Hne; apply lookup_delete_ne; congruence|].
      intros _ Hkey. apply key_settle in Hkey as (e' & Hp' & _ & H2 & _). unfold pending at 1. cbn. unfold constant.
      rewrite lookup_delete_eq. apply H2; [congruence|done].
    + apply (inv_flush_fl c0 N K n c fl i k (FlushWritten en r) None); try done; [intros k' Hne; apply lookup_insert_ne; congruence|].
      intros _ Hkey. apply key_settle in Hkey as (e' & Hp' & _ & _ & H3). unfold pending at 1. cbn. unfold constant.
      rewrite lookup_insert_eq. assert (e' = e) as -> by congruence. by apply H3.
Qed.

(** ** Deleting, cleaning up and clearing *)

Lemma inv_forget c0 N K K' n c fl :
  (forall k, K' !! k = K !! k \/ K' !! k = None) -> dns_inv c0 N K n c fl -> dns_inv c0 N K' n c fl.
Proof.
  intros HK [H1 H2 H3 H4 H5 H6]. split; try done.
  - intros k. destruct (HK k) as [->| ->]; [apply H5|]. intros H. apply H5. tauto.
  - intros k Hk. destruct (HK k) as [->| ->]; [by apply H6|]. eapply key_forget. by apply H6.
Qed.

Lemma kept_delete c0 K k raw k' :
  kept1 c0 K (LDelete k raw) !! k' =
  if bool_decide (k' = k) then match K !! k with Some (raw', _) => if bool_decide (raw' = raw) then None else K !! k | None => None end
  else K !! k'.
Proof.
  cbn [kept1]. destruct (K !! k) as [[raw' e]|] eqn:E; [destruct (bool_decide (raw' = raw))|]; case_bool_decide; subst; try done.
  - apply lookup_delete_eq.
  - by apply lookup_delete_ne.
Qed.

Lemma inv_delete c0 N K n c fl k raw : key_ok k -> dns_inv c0 N K n c fl ->
  dns_inv c0 N (kept1 c0 K (LDelete k raw)) n (CacheFile_DeleteDNSCache c k raw) fl.
Proof.
  intros Hk Hinv. assert (Hforget : dns_inv c0 N (kept1 c0 K (LDelete k raw)) n c fl).
  { apply (inv_forget _ _ K); [|done]. intros k'. rewrite kept_delete. case_bool_decide; [subst|by left].
    destruct (K !! k) as [[raw' e]|]; [|by left]. case_bool_decide; [by right|by left]. }
  unfold CacheFile_DeleteDNSCache. fold (pending c k). destruct (pending c k) as [e|] eqn:Hp; [done|].
  set (p := transport_path c bucketDNSCache k).
  edestruct (batch_sound c (fun d => match bucket_Get d p (question_key k) with
      | Some content => if (length content <? 8)%nat || negb (bool_decide (drop 8 content = raw)) then Ok d else db_Delete p (question_key k) d
      | None => Ok d end)
    (fun d d' => d' = d \/ exists y, db_Get d p (question_key k) = Some y /\ drop 8 y = raw /\ db_Delete p (question_key k) d = Ok d')
    (inv_open _ _ _ _ _ _ Hinv)) as [(d & d' & Hd & HQ & E)|(r & _ & E)].
  - intros d Hd. rewrite bucket_Get_Get. destruct (db_Get d p (question_key k)) as [y|] eqn:Hy; [|by left].
    destruct (length y <? 8)%nat; cbn [orb]; [by left|]. case_bool_decide as Hraw; cbn [negb]; [|by left].
    eapply wp_mono; [apply sound_ok; intros r; apply sound_Delete|].
    + destruct (db_Bucket d p) eqn:Hb; [done|]. by rewrite db_Get_Bucket in Hy.
    + cbn. intros d' Hd'. right. by exists y.
  - rewrite E. cbn [snd]. destruct HQ as [->|(y & Hy & Hraw & Hdel)].
    + eapply (inv_one_key c0 N (kept1 c0 K (LDelete k raw)) n c fl _ _ _ _ _ k); try done; [apply Hinv| |].
      * intros k' Hne Hk'. by rewrite content_DB, (content_open c d).
      * change (pending (c <| cf_DB := Some d |>) k) with (pending c k). rewrite content_DB, <- (content_open c d) by done. by apply Hforget.
    + eapply (inv_one_key c0 N K n c fl _ _ _ _ _ k); try done; [apply Hinv| | |].
      * intros k' Hne. by rewrite kept_delete, bool_decide_false.
      * intros k' Hne Hk'. rewrite content_DB, (content_open c d), (db_Get_Delete _ _ _ _ Hdel) by done. rewrite bool_decide_false; [done|].
        intros Heq. apply Hne. by eapply place_inj.
      * pose proof (inv_key _ _ _ _ _ _ Hinv k Hk) as Hkey. rewrite Hp in Hkey.
        assert (Hf : flusher_of fl !! k = None).
        { destruct (flusher_of fl !! k) eqn:Hf; [|done]. destruct (proj1 (ki_saving _ _ _ _ _ _ Hkey)) as (? & ? & _); done. }
        change (pending (c <| cf_DB := Some d' |>) k) with (pending c k). rewrite Hf, Hp in *.
        rewrite kept_delete, bool_decide_true, content_DB, (db_Get_Delete _ _ _ _ Hdel) by done. rewrite bool_decide_true by done.
        eapply key_delete; [exact Hkey| |exact Hraw]. by rewrite (content_open c d).
  - by rewrite E.
Qed.

Lemma inv_cleanup c0 N K n c fl now : dns_inv c0 N K n c fl ->
  dns_inv c0 N (kept1 c0 K (LCleanup now)) n (CacheFile_cleanupDNSCache c now) fl.
Proof.
  intros Hinv. destruct (inv_expire _ _ _ _ _ _ Hinv) as [He1 He2].
  assert (He : forall e, expired_by c now e = expired_by c0 now e) by (intros e; unfold expired_by; by rewrite He1, He2).
  assert (HK : forall k, kept1 c0 K (LCleanup now) !! k
    = match K !! k with Some z => if expired_by c now (snd z) then None else K !! k | None => None end).
  { intros k. cbn [kept1]. rewrite map_lookup_filter. destruct (K !! k) as [z|]; [|done]. cbn. rewrite He.
    destruct (expired_by c0 now (snd z)) eqn:E; cbn.
    - by rewrite option_guard_False by done.
    - by rewrite option_guard_True by done. }
  destruct (cleanup_sound c bucketDNSCache (dns_expired c now) (inv_open _ _ _ _ _ _ Hinv)) as [E|(d & d' & Hd & E & Hg)];
    unfold CacheFile_cleanupDNSCache; rewrite E.
  - apply (inv_forget _ _ K); [|done]. intros k. rewrite HK. destruct (K !! k) as [z|]; [|by left].
    destruct (expired_by c now (snd z)); [by right|by left].
  - destruct Hinv as [H1 H2 H3 H4 H5 H6]. split; try done.
    + intros k. rewrite HK. intros H. apply H5. destruct H as [H|[H|H]]; [by left|by right; left|right; right]. by destruct (K !! k).
    + intros k Hk. rewrite HK, content_DB. unfold transport_path. rewrite Hg. fold (transport_path c bucketDNSCache k).
      rewrite <- (content_open c d) by done. apply key_cleanup. by apply H6.
Qed.

Lemma inv_clear c0 N K n c c' : 0 <= n -> dns_inv c0 N K n c [] -> CacheFile_ClearDNSCache c = (Ok tt, c') ->
  dns_inv c0 ∅ ∅ n c' [].
Proof.
  intros Hn [H1 H2 H3 H4 H5 H6] Hc. unfold CacheFile_ClearDNSCache, clear_bucket in Hc.
  apply batch_ok in Hc as (d & d' & Hd & Hfn & ->). change (CacheFile_bucket (clear_pending c) bucketDNSCache) with (CacheFile_bucket c bucketDNSCache) in Hfn.
  assert (Hnone : forall k, content ((clear_pending c) <| cf_DB := Some d' |>) k = None).
  { intros k. rewrite content_DB. change (transport_path (clear_pending c)) with (transport_path c). unfold transport_path.
    destruct (db_Bucket d (CacheFile_bucket c bucketDNSCache)) eqn:Hb.
    - rewrite (db_Get_DeleteBucket _ _ _ Hfn), bool_decide_true; [done|]. by eexists.
    - injection Hfn as <-. apply db_Get_Bucket. apply not_true_iff_false. intros H. apply db_Bucket_parent in H; [congruence|].
      unfold CacheFile_bucket. by destruct (cf_cacheID c). }
  split; try done.
  - intros k. rewrite lookup_empty. cbn. unfold pending. cbn. unfold constant. rewrite lookup_empty. by intros [?|[?|?]].
  - intros k Hk. rewrite Hnone, !lookup_empty. unfold pending. cbn. unfold constant. rewrite !lookup_empty. apply key_empty.
Qed.

(** * What is loaded *)

(** An open file without answers. *)
Definition no_answers (c : CacheFile) : Prop :=
  cf_DB c <> None /\ cf_saveDNSCache c = ∅ /\ forall k, content c k = None.

Lemma inv_initial c0 : no_answers c0 -> dns_inv c0 ∅ ∅ 0 c0 [].
Proof.
  intros (Ho & Hp & Hc). split; try done; [constructor| |].
  - intros k. unfold pending. rewrite Hp, !lookup_empty. by intros [?|[?|?]].
  - intros k Hk. unfold pending. rewrite Hc, Hp, !lookup_empty. apply key_empty.
Qed.

Lemma inv_run c0 tr w : no_answers c0 -> wrun (mkWorld c0 []) tr w -> Z.of_nat (length tr) < 2 ^ 64 ->
  dns_inv c0 (newest tr) (kept c0 tr) (Z.of_nat (length tr)) (w_file w) (w_flushers w).
Proof.
  intros H0 Hrun. induction Hrun as [|tr l w1 w2 Hrun IH Hstep]; [intros _; by apply inv_initial|].
  rewrite length_app. cbn [length]. intros Hlen. specialize (IH ltac:(lia)).
  unfold newest, kept. rewrite !fold_left_app. cbn [fold_left]. fold (newest tr) (kept c0 tr).
  assert (Hmono : forall N K c fl, dns_inv c0 N K (Z.of_nat (length tr)) c fl -> dns_inv c0 N K (Z.of_nat (length tr + 1)) c fl).
  { intros N K c fl [H1 H2 H3 H4 H5 H6]. split; try done. intros k Hk. eapply key_mono; [|by apply H6]. lia. }
  destruct Hstep as [k raw e c fl start c' Hk Hq|i c fl k f next c' Hi Hf|k raw c fl Hk|now c fl|c c' Hc]; cbn [w_file w_flushers] in *.
  - replace (Z.of_nat (length tr + 1)) with (Z.of_nat (length tr) + 1) by lia. cbn [newest1 kept1].
    eapply inv_save; try done; lia.
  - apply Hmono. by eapply inv_flush.
  - apply Hmono. by apply inv_delete.
  - apply Hmono. by apply inv_cleanup.
  - apply Hmono. eapply inv_clear; [lia|exact IH|done].
Qed.

Lemma load_cases c k : cf_DB c <> None ->
  CacheFile_LoadDNSCache c k =
  (match pending c k with
   | Some e => Some (answer e)
   | None => match content c k with
             | Some y => if (length y <? 8)%nat then None else Some (drop 8 y, file_time y)
             | None => None
             end
   end, c).
Proof.
  intros Ho. unfold CacheFile_LoadDNSCache. fold (pending c k). destruct (pending c k) as [e|]; [done|].
  unfold CacheFile_view, content, in_file. destruct (cf_DB c) as [d|]; [|done]. rewrite bucket_Get_Get. by destruct (db_Get _ _ _).
Qed.

(** C27: the cache file gives the answer saved last.  However saves, the goroutines
    that write pending answers, failed writes, deletions, cleanups and clearing
    while nothing is written interleave, what is loaded for a question is the answer
    saved last since the cache was cleared, and it is loaded unless it was deleted
    or was expired at a cleanup; its expiry is that given, or cut to seconds. *)
Theorem last_answer_loaded c0 tr w k :
  no_answers c0 -> wrun (mkWorld c0 []) tr w -> Z.of_nat (length tr) < 2 ^ 64 -> key_ok k ->
  (forall raw e', fst (CacheFile_LoadDNSCache (w_file w) k) = Some (raw, e') ->
     exists e, newest tr !! k = Some (raw, e) /\ (e' = e \/ e' = trunc e))
  /\ (forall raw e, kept c0 tr !! k = Some (raw, e) ->
     exists e', fst (CacheFile_LoadDNSCache (w_file w) k) = Some (raw, e') /\ (e' = e \/ e' = trunc e)).
Proof.
  intros H0 Hrun Hlen Hk. pose proof (inv_run c0 tr w H0 Hrun Hlen) as Hinv.
  pose proof (inv_key _ _ _ _ _ _ Hinv k Hk) as [H1 _ H3 H4 _]. rewrite load_cases by apply Hinv. cbn [fst].
  destruct (pending (w_file w) k) as [en|] eqn:Hp.
  - destruct (H1 en eq_refl) as [Ha _]. split.
    + intros raw e' [= <- <-]. exists (expireAt en). by split; [|left].
    + intros raw e HK. destruct (H4 _ HK) as [Ha' _]. rewrite Ha in Ha'. injection Ha' as <- <-. exists (expireAt en). by split; [|left].
  - split.
    + intros raw e'. destruct (content (w_file w) k) as [y|] eqn:Hy; [|done]. destruct (length y <? 8)%nat; [done|]. intros [= <- <-].
      destruct (H3 y eq_refl eq_refl) as ([raw e] & Ha & ->). exists e. unfold encode. cbn [fst snd].
      rewrite drop_time, file_time_bytes. by split; [|right].
    + intros raw e HK. destruct (H4 _ HK) as [_ Hy]. specialize (Hy eq_refl). unfold encode in Hy. cbn [fst snd] in Hy.
      rewrite Hy, length_time, drop_time, file_time_bytes. exists (trunc e). by split; [|right].
Qed.

End Answers.

(** * Examples *)

(** A file in memory, a saved answer written by its goroutine, and another one. *)
Definition example_key : saveCacheKey := mkSaveCacheKey "local" "example.org." 1.
Definition queued (c : CacheFile) (raw : list Z) (e : Z) : CacheFile := snd (CacheFile_queueDNSCacheSave c example_key raw e).
Definition flushed (c : CacheFile) (f : flusher) : option flusher * CacheFile := CacheFile_flushPendingDNSCache c example_key f.

Definition example_saved : CacheFile := queued empty_file [1; 2; 3] (5 * second + 1).
Definition example_entry : saveDNSCacheEntry := mkSaveDNSCacheEntry [1; 2; 3] (5 * second + 1) 1 true.
Definition example_written : CacheFile := snd (flushed example_saved (FlushRead example_entry)).
Definition example_flushed : CacheFile := snd (flushed example_written (FlushWritten example_entry (Ok tt))).
Definition example_trace : list label := [LSave example_key [1; 2; 3] (5 * second + 1); LFlush 0; LFlush 0; LFlush 0].

Lemma example_run : wrun (mkWorld empty_file []) example_trace (mkWorld example_flushed []).
Proof.
  change example_trace with ((([] ++ [LSave example_key [1; 2; 3] (5 * second + 1)]) ++ [LFlush 0]) ++ [LFlush 0] ++ [LFlush 0]).
  rewrite app_assoc. eapply wrun_snoc; [eapply wrun_snoc; [eapply wrun_snoc; [eapply wrun_snoc; [constructor|]|]|]|].
  - by eapply (ws_save example_key [1; 2; 3] (5 * second + 1) empty_file [] true example_saved).
  - by eapply (ws_flush 0 example_saved [(example_key, FlushHead)] example_key FlushHead (Some (FlushRead example_entry)) example_saved).
  - by eapply (ws_flush 0 example_saved [(example_key, FlushRead example_entry)] example_key (FlushRead example_entry)
      (Some (FlushWritten example_entry (Ok tt))) example_written).
  - by eapply (ws_flush 0 example_written [(example_key, FlushWritten example_entry (Ok tt))] example_key (FlushWritten example_entry (Ok tt))
      None example_flushed).
Qed.

Lemma empty_file_no_answers : no_answers empty_file.
Proof.
  split; [done|]. split; [done|]. intros k. unfold content, in_file. cbn [cf_DB empty_file CacheFile_New].
  apply db_Get_Bucket. by eapply (db_Reopen_empty (Bolt := memory_bolt) (mkMemoryDB ∅ ∅ : @DB memory_bolt)).
Qed.

Lemma last_answer_loaded_witness :
  exists e', fst (CacheFile_LoadDNSCache example_flushed example_key) = Some ([1; 2; 3], e') /\ (e' = 5 * second + 1 \/ e' = trunc (5 * second + 1)).
Proof.
  assert (Hk : key_ok example_key) by (unfold key_ok, is_u; cbn; lia).
  apply (last_answer_loaded empty_file example_trace (mkWorld example_flushed []) example_key empty_file_no_answers example_run ltac:(done) Hk).
  vm_compute. reflexivity.
Defined.

(** Clearing while a goroutine is about to write: the answer is there again when it
    has written, and takes the place of an answer saved since. *)
Definition cleared_file : CacheFile := snd (CacheFile_ClearDNSCache example_saved).
Example cleared_answer_returns :
  let '(next, c) := flushed cleared_file (FlushRead example_entry) in
  fst (CacheFile_LoadDNSCache cleared_file example_key) = None
  /\ fst (CacheFile_LoadDNSCache c example_key) = Some ([1; 2; 3], 5 * second).
Proof. vm_compute. split; reflexivity. Qed.

Example stale_answer_replaces_new :
  let c := queued cleared_file [4; 5; 6] (9 * second) in
  let '(_, c) := flushed c (FlushRead example_entry) in
  let '(next, c) := flushed c (FlushWritten example_entry (Ok tt)) in
  next = None /\ fst (CacheFile_LoadDNSCache c example_key) = Some ([1; 2; 3], 5 * second).
Proof. vm_compute. split; reflexivity. Qed.
