(* ===== verification/StorageProofs.v ===== *)
(** The storage of the web interface in the cache file stays within its limits: the
    oldest entries make room for a new one. *)

From S2P Require Import Prelude NetAddr GoStrings Binary FakeIP Bolt CacheFile CacheFileProofs.
From Stdlib Require Import Sorting.Sorted.

(** * Sorting *)

Lemma key_lt_asym : forall a b, key_lt a b = true -> key_lt b a = false.
Proof.
  induction a as [|x a IH]; intros [|y b]; cbn; try done. rewrite (Z.eqb_sym y x). destruct (Z.eqb_spec x y); [apply IH|lia].
Qed.

Lemma key_ge_trans : forall a b c, key_lt b a = false -> key_lt c b = false -> key_lt c a = false.
Proof.
  induction a as [|x a IH]; intros [|y b] [|w c]; cbn; try done.
  destruct (Z.eqb_spec y x), (Z.eqb_spec w y), (Z.eqb_spec w x); subst; try done; try lia; eauto.
Qed.

Definition entry_le (a b : storageEntry) : Prop := entry_lt b a = false.

Lemma entry_lt_le a b : entry_lt a b = true -> entry_le a b.
Proof.
  unfold entry_le, entry_lt. rewrite (Z.eqb_sym (se_time b)). destruct (Z.eqb_spec (se_time a) (se_time b)); [apply key_lt_asym|lia].
Qed.

Lemma entry_le_trans a b c : entry_le a b -> entry_le b c -> entry_le a c.
Proof.
  unfold entry_le, entry_lt. destruct (Z.eqb_spec (se_time b) (se_time a)), (Z.eqb_spec (se_time c) (se_time b)),
    (Z.eqb_spec (se_time c) (se_time a)); try lia. eauto using key_ge_trans.
Qed.

Lemma insert_entry_perm e l : insert_entry e l ≡ₚ e :: l.
Proof. induction l as [|x l IH]; cbn; [done|]. destruct (entry_lt e x); [done|]. rewrite IH. apply Permutation_swap. Qed.

Lemma sort_entries_perm l : sort_entries l ≡ₚ l.
Proof. induction l as [|e l IH]; cbn; [done|]. by rewrite insert_entry_perm, IH. Qed.

Lemma insert_entry_sorted e l : StronglySorted entry_le l -> StronglySorted entry_le (insert_entry e l).
Proof.
  induction 1 as [|x l Hl IH Hx]; cbn; [repeat constructor|]. destruct (entry_lt e x) eqn:E.
  - constructor; [by constructor|]. constructor; [by apply entry_lt_le|]. eapply Forall_impl; [exact Hx|]. intros y.
    apply entry_le_trans. by apply entry_lt_le.
  - constructor; [done|]. rewrite insert_entry_perm. by constructor.
Qed.

Lemma sort_entries_sorted l : StronglySorted entry_le (sort_entries l).
Proof. induction l; cbn; [constructor|by apply insert_entry_sorted]. Qed.

(** * Eviction *)

(** What the loop removes. *)
Fixpoint evicted (size : Z) (entries : list storageEntry) (usedSize : Z) : list storageEntry :=
  if (storageSizeLimit <? usedSize + size) || (maxStorageEntries <=? zlen entries) then
    match entries with
    | [] => []
    | e :: entries' => e :: evicted size entries' (usedSize - zlen (se_data e))
    end
  else [].

Definition fits (size : Z) (l : list storageEntry) : Prop := used_size l + size <= storageSizeLimit /\ zlen l < maxStorageEntries.

(** The rest fits, and with the last entry removed it would not. *)
Lemma evicted_spec size : size <= storageSizeLimit -> forall entries, exists r,
  entries = evicted size entries (used_size entries) ++ r /\ fits size r
  /\ forall a e, evicted size entries (used_size entries) = a ++ [e] -> ~ fits size (e :: r).
Proof.
  intros Hsize. induction entries as [|e l (r & Hl & Hr & Hmin)].
  - exists []. cbn. rewrite Z.add_0_l. replace (storageSizeLimit <? size) with false by lia. cbn.
    split; [done|]. split; [split; [cbn [used_size foldr]; lia|reflexivity]|]. intros a e. by destruct a.
  - cbn [evicted used_size foldr]. fold (used_size l). replace (zlen (se_data e) + used_size l - zlen (se_data e)) with (used_size l) by lia.
    destruct ((storageSizeLimit <? zlen (se_data e) + used_size l + size) || (maxStorageEntries <=? zlen (e :: l))) eqn:E.
    + exists r. split; [cbn; by rewrite <- Hl|]. split; [done|]. intros a e' Ha. destruct a as [|a0 a].
      * injection Ha as <- Hnil. rewrite Hnil in Hl. cbn in Hl. subst r. intros [H1 H2]. cbn in H1. fold (used_size l) in H1. lia.
      * injection Ha as _ Ha. by apply (Hmin a).
    + exists (e :: l). split; [done|]. split; [|intros a e'; by destruct a]. split; cbn [used_size foldr]; fold (used_size l); lia.
Qed.

Section Storage.
Context {BDB : Bolt} {VPkg : VarbinPkg} {MPkg : MetadataPkg}.

Lemma delete_keys_get p ks : forall d d', delete_keys p ks d = Ok d' ->
  forall k, db_Get d' p k = if bool_decide (k ∈ ks) then None else db_Get d p k.
Proof.
  induction ks as [|k0 ks IH]; cbn; intros d d' H k; [injection H as <-; by rewrite bool_decide_false by apply not_elem_of_nil|].
  apply res_bind_ok in H as (d1 & H1 & H2). rewrite (IH _ _ H2), (db_Get_Delete _ _ _ _ H1).
  destruct (decide (k = k0)) as [->|Hk].
  - rewrite (bool_decide_true ((p, k0) = (p, k0))), (bool_decide_true (k0 ∈ k0 :: ks)) by set_solver. by destruct (bool_decide _).
  - rewrite (bool_decide_false ((p, k) = (p, k0))) by congruence. by rewrite (bool_decide_ext (k ∈ ks) (k ∈ k0 :: ks)) by set_solver.
Qed.

Lemma evict_loop_deletes p size : forall entries used d,
  evict_loop p size entries used d = delete_keys p (map se_key (evicted size entries used)) d.
Proof.
  induction entries as [|e l IH]; intros used d; cbn; [by destruct (_ || _)|]. destruct (_ || _); cbn; [|done].
  destruct (db_Delete p (se_key e) d); cbn; [apply IH|done..].
Qed.

Definition short (v : list Z) : bool := (length v <? storageTimeSize)%nat.
Definition short_keys (l : list (list Z * list Z)) : list (list Z) := map fst (List.filter (fun kv => short (snd kv)) l).
Definition entry_of (kv : list Z * list Z) : storageEntry :=
  mkStorageEntry (fst kv) (drop storageTimeSize (snd kv)) (int64 (be_combine (take storageTimeSize (snd kv)))).
Definition other_entries (key : list Z) (l : list (list Z * list Z)) : list storageEntry :=
  map entry_of (List.filter (fun kv => negb (short (snd kv)) && negb (bool_decide (fst kv = key))) l).

Lemma collect_deletes p key : forall l d,
  collect_entries p key l d = let! d' := delete_keys p (short_keys l) d in Ok (other_entries key l, d').
Proof.
  induction l as [|[k v] l IH]; intros d; [done|]. cbn [collect_entries]. unfold short_keys, other_entries. cbn [List.filter snd fst].
  fold (short v). destruct (short v); cbn [map negb andb delete_keys fst].
  - destruct (db_Delete p k d); cbn; [|done..]. apply IH.
  - rewrite IH. fold (short_keys l). destruct (delete_keys p (short_keys l) d); cbn; [|done..]. by case_bool_decide.
Qed.

Lemma other_entries_spec key l e :
  e ∈ other_entries key l <-> exists v, (se_key e, v) ∈ l /\ short v = false /\ se_key e <> key /\ e = entry_of (se_key e, v).
Proof.
  unfold other_entries. rewrite list_elem_of_In, in_map_iff. setoid_rewrite filter_In. setoid_rewrite <- list_elem_of_In. split.
  - intros ([k v] & <- & Hin & Hc). apply andb_true_iff in Hc as [Hc1 Hc2]. exists v. cbn in *.
    apply negb_true_iff in Hc1, Hc2. apply bool_decide_eq_false in Hc2. done.
  - intros (v & Hin & Hs & Hk & He). exists (se_key e, v). split; [done|]. split; [done|]. cbn [fst snd]. rewrite Hs.
    by rewrite bool_decide_false.
Qed.

Lemma other_entries_keys key l : NoDup (map fst l) -> NoDup (map se_key (other_entries key l)).
Proof.
  unfold other_entries. rewrite map_map. cbn [se_key entry_of]. intros H. apply NoDup_ListNoDup. apply NoDup_ListNoDup in H.
  induction l as [|[k v] l IH]; cbn; [constructor|]. inversion H as [|? ? Hn Hl]; subst. specialize (IH Hl).
  destruct (_ && _); cbn; [|done]. constructor; [|done]. intros Hin. apply Hn. apply in_map_iff in Hin as ([k' v'] & Hk & Hin).
  apply filter_In in Hin as [Hin _]. cbn in Hk. subst k'. apply in_map_iff. by exists (k, v').
Qed.

(** ** The entries of a bucket *)

Definition storage_entries (p : bucket_path) (d : DB) : list storageEntry :=
  map entry_of (List.filter (fun kv => negb (short (snd kv))) (db_ForEach d p)).

Lemma storage_entries_spec p d e :
  e ∈ storage_entries p d <-> exists v, db_Get d p (se_key e) = Some v /\ short v = false /\ e = entry_of (se_key e, v).
Proof.
  unfold storage_entries. rewrite list_elem_of_In, in_map_iff. setoid_rewrite filter_In. setoid_rewrite <- list_elem_of_In. split.
  - intros ([k v] & <- & Hin & Hc). apply negb_true_iff in Hc. apply db_ForEach_Get in Hin. by exists v.
  - intros (v & Hg & Hs & He). exists (se_key e, v). split; [done|]. split; [by apply db_ForEach_Get|]. cbn [snd]. by rewrite Hs.
Qed.

Lemma storage_entries_keys p d : NoDup (map se_key (storage_entries p d)).
Proof.
  unfold storage_entries. rewrite map_map. cbn [se_key entry_of]. pose proof (db_ForEach_NoDup d p) as H.
  apply NoDup_ListNoDup. apply NoDup_ListNoDup in H. revert H. generalize (db_ForEach d p) as l.
  induction l as [|[k v] l IH]; cbn; [constructor|]. intros H. inversion H as [|? ? Hn Hl]; subst. specialize (IH Hl).
  destruct (negb _); cbn; [|done]. constructor; [|done]. intros Hin. apply Hn. apply in_map_iff in Hin as ([k' v'] & Hk & Hin).
  apply filter_In in Hin as [Hin _]. cbn in Hk. subst k'. apply in_map_iff. by exists (k, v').
Qed.

Lemma nodup_keys (l : list storageEntry) : NoDup (map se_key l) -> NoDup l.
Proof. apply NoDup_fmap_1. Qed.

Lemma used_size_perm l l' : l ≡ₚ l' -> used_size l = used_size l'.
Proof. induction 1; unfold used_size in *; cbn [foldr]; lia. Qed.

(** What is in the bucket after a save: the new entry, and what was not evicted. *)
Lemma save_entries p key value d d1 d2 d' ev r :
  short value = false -> (forall k, db_Get d1 p k = db_Get d p k) ->
  delete_keys p (short_keys (db_ForEach d1 p)) d1 = Ok d2 ->
  (exists d3, delete_keys p (map se_key ev) d2 = Ok d3 /\ db_Put p key value d3 = Ok d') ->
  sort_entries (other_entries key (db_ForEach d1 p)) = ev ++ r ->
  storage_entries p d' ≡ₚ entry_of (key, value) :: r.
Proof.
  intros Hv Hd1 Hshort (d3 & Hev & Hput) Hsort.
  assert (Hperm : ev ++ r ≡ₚ other_entries key (db_ForEach d1 p)) by (rewrite <- Hsort; apply sort_entries_perm).
  assert (Hnd : NoDup (map se_key (ev ++ r))).
  { rewrite (Permutation_map se_key Hperm). apply other_entries_keys, db_ForEach_NoDup. }
  assert (Hin : forall e, e ∈ ev \/ e ∈ r <-> exists v, db_Get d p (se_key e) = Some v /\ short v = false /\ se_key e <> key /\ e = entry_of (se_key e, v)).
  { intros e. rewrite <- elem_of_app, Hperm, other_entries_spec. setoid_rewrite db_ForEach_Get. by setoid_rewrite Hd1. }
  assert (Hg : forall k, db_Get d' p k = if bool_decide (k = key) then Some value
    else if bool_decide (k ∈ map se_key ev) then None else if bool_decide (k ∈ short_keys (db_ForEach d1 p)) then None else db_Get d p k).
  { intros k. rewrite (db_Get_Put _ _ _ _ _ Hput), (delete_keys_get _ _ _ _ Hev), (delete_keys_get _ _ _ _ Hshort), Hd1.
    by rewrite (bool_decide_ext ((p, k) = (p, key)) (k = key)) by naive_solver. }
  assert (Hsk : forall k v, db_Get d p k = Some v -> k ∈ short_keys (db_ForEach d1 p) <-> short v = true).
  { intros k v Hk. unfold short_keys. rewrite list_elem_of_In, in_map_iff. setoid_rewrite filter_In. setoid_rewrite <- list_elem_of_In. split.
    - intros ([k' v'] & <- & Hi & Hs). apply db_ForEach_Get in Hi. rewrite Hd1 in Hi. cbn in *. congruence.
    - intros Hs. exists (k, v). split; [done|]. split; [apply db_ForEach_Get; by rewrite Hd1|done]. }
  assert (Hkr : forall e, e ∈ r -> se_key e <> key /\ se_key e ∉ map se_key ev).
  { intros e He. split; [by destruct (proj1 (Hin e) (or_intror He)) as (v & _ & _ & Hk & _)|]. intros Hk.
    rewrite map_app in Hnd. apply NoDup_app in Hnd as (_ & Hdis & _). apply (Hdis _ Hk). by apply list_elem_of_fmap_2. }
  apply NoDup_Permutation.
  - apply nodup_keys, storage_entries_keys.
  - constructor.
    + intros H. by destruct (Hkr _ H) as [Hne _].
    + apply nodup_keys. rewrite map_app in Hnd. by apply NoDup_app in Hnd as (_ & _ & ?).
  - intros e. rewrite storage_entries_spec, elem_of_cons. setoid_rewrite Hg. split.
    + intros (v & Hgv & Hs & He). case_bool_decide as Hk; [left; rewrite He, Hk; congruence|].
      case_bool_decide as Hke; [done|]. case_bool_decide as Hks; [done|]. right.
      destruct (proj2 (Hin e)) as [H|H]; [by exists v| |done]. by destruct Hke; apply list_elem_of_fmap_2.
    + intros [->|He]; [exists value; cbn [se_key entry_of fst]; by rewrite bool_decide_true|].
      destruct (Hkr e He) as [Hk Hke]. destruct (proj1 (Hin e) (or_intror He)) as (v & Hgv & Hs & _ & Heq). exists v.
      rewrite (bool_decide_false _ Hk), (bool_decide_false _ Hke), bool_decide_false; [done|].
      rewrite (Hsk _ _ Hgv). by rewrite Hs.
Qed.

Lemma other_storage p key d d1 e : (forall k, db_Get d1 p k = db_Get d p k) ->
  e ∈ other_entries key (db_ForEach d1 p) <-> e ∈ storage_entries p d /\ se_key e <> key.
Proof.
  intros H. rewrite other_entries_spec, storage_entries_spec. setoid_rewrite db_ForEach_Get. setoid_rewrite H. naive_solver.
Qed.

Lemma sorted_app (l r : list storageEntry) a b : StronglySorted entry_le (l ++ r) -> a ∈ l -> b ∈ r -> entry_le a b.
Proof.
  induction l as [|x l IH]; cbn; [intros _ H; by apply elem_of_nil in H|]. intros H. apply StronglySorted_inv in H as [Hs Hx].
  rewrite elem_of_cons. intros [->|Ha] Hb; [|by apply IH]. rewrite Forall_forall in Hx. apply Hx. set_solver.
Qed.

(** The transaction of a save, with the entries it evicts and those that stay. *)
Lemma save_storage_tx c now key data c' :
  0 < zlen (bytes_of_string key) <= storageKeySizeLimit -> zlen data <= storageSizeLimit ->
  CacheFile_SaveStorage c now key data = (Ok tt, c') ->
  let p := CacheFile_bucket c bucketStorage in let keyBytes := bytes_of_string key in
  let value := be_split 8 (u64 now) ++ data in
  exists d d' ev r, cf_DB c = Some d /\ c' = c <| cf_DB := Some d' |> /\ db_Get d' p keyBytes = Some value
  /\ storage_entries p d' ≡ₚ entry_of (keyBytes, value) :: r
  /\ (forall e, e ∈ ev ++ r <-> e ∈ storage_entries p d /\ se_key e <> keyBytes) /\ NoDup (ev ++ r)
  /\ StronglySorted entry_le (ev ++ r) /\ fits (zlen data) r /\ forall a e, ev = a ++ [e] -> ~ fits (zlen data) (e :: r).
Proof.
  intros Hkey Hdata Hsave p keyBytes value. unfold CacheFile_SaveStorage in Hsave. fold keyBytes in Hsave, Hkey.
  replace ((zlen keyBytes =? 0) || (storageKeySizeLimit <? zlen keyBytes)) with false in Hsave by lia.
  replace (storageSizeLimit <? zlen data) with false in Hsave by lia.
  apply batch_ok in Hsave as (d & d' & Hd & Hfn & ->). fold p in Hfn.
  apply res_bind_ok in Hfn as (d1 & H1 & Hfn). rewrite collect_deletes in Hfn.
  apply res_bind_ok in Hfn as ([entries d2] & H2 & Hfn). apply res_bind_ok in H2 as (d2' & H2 & [= <- <-]).
  apply res_bind_ok in Hfn as (d3 & H3 & Hput). rewrite evict_loop_deletes in H3.
  set (entries := other_entries keyBytes (db_ForEach d1 p)) in *.
  rewrite <- (used_size_perm _ _ (sort_entries_perm entries)) in H3.
  destruct (evicted_spec (zlen data) Hdata (sort_entries entries)) as (r & Hr & Hfit & Hmin).
  set (ev := evicted _ _ _) in *. assert (Hg1 : forall k, db_Get d1 p k = db_Get d p k) by (intros k; by apply (createBucket_get c bucketStorage)).
  exists d, d', ev, r. split; [done|]. split; [done|]. split; [rewrite (db_Get_Put _ _ _ _ _ Hput); by rewrite bool_decide_true|].
  split; [apply (save_entries p keyBytes value d d1 d2' d' ev r); try done|].
  - by exists d3.
  - split; [intros e; rewrite <- Hr, sort_entries_perm; by apply other_storage|].
    split; [apply nodup_keys; rewrite <- Hr, (Permutation_map se_key (sort_entries_perm entries)); apply other_entries_keys, db_ForEach_NoDup|].
    split; [rewrite <- Hr; apply sort_entries_sorted|]. done.
Qed.

(** C28: the storage stays within its limits.  After a value of at most a megabyte
    is saved under a key of at most 64 bytes, it is loaded back, all values together
    have at most a megabyte and there are at most 16384; the other values were there
    before.  Values are removed oldest first, and only if the rest with the last one
    removed would be too much. *)
Theorem storage_bounded c now key data c' :
  0 < zlen (bytes_of_string key) <= storageKeySizeLimit -> zlen data <= storageSizeLimit ->
  CacheFile_SaveStorage c now key data = (Ok tt, c') ->
  exists d d', cf_DB c = Some d /\ cf_DB c' = Some d'
  /\ let entries := storage_entries (CacheFile_bucket c bucketStorage) in
     let other e := se_key e <> bytes_of_string key in
     fst (CacheFile_LoadStorage c' key) = data
     /\ used_size (entries d') <= storageSizeLimit /\ zlen (entries d') <= maxStorageEntries
     /\ (forall e, e ∈ entries d' -> other e -> e ∈ entries d)
     /\ (forall e e', e ∈ entries d -> other e -> e ∉ entries d' -> e' ∈ entries d' -> other e' -> entry_le e e')
     /\ (forall e, e ∈ entries d -> other e -> e ∉ entries d' ->
          exists e0, e0 ∈ entries d /\ e0 ∉ entries d'
          /\ (storageSizeLimit < used_size (entries d') + zlen (se_data e0) \/ zlen (entries d') = maxStorageEntries)).
Proof.
  intros Hkey Hdata Hsave.
  destruct (save_storage_tx c now key data c' Hkey Hdata Hsave) as (d & d' & ev & r & Hd & -> & Hget & Hperm & Hin & Hnd & Hsort & Hfit & Hmin).
  exists d, d'. split; [done|]. split; [done|]. cbv zeta. set (p := CacheFile_bucket c bucketStorage) in *.
  set (keyBytes := bytes_of_string key) in *. set (new := entry_of _) in Hperm.
  assert (Hnew : se_data new = data) by (apply drop_app_length'; by rewrite be_split_length).
  assert (Hused : used_size (storage_entries p d') = zlen data + used_size r) by (rewrite (used_size_perm _ _ Hperm), <- Hnew; done).
  assert (Hlen : zlen (storage_entries p d') = 1 + zlen r) by (unfold zlen; rewrite (Permutation_length Hperm); cbn [length]; lia).
  assert (Hr : forall e, e ∈ storage_entries p d' -> se_key e <> keyBytes -> e ∈ r).
  { intros e He Hk. rewrite Hperm, elem_of_cons in He. by destruct He as [->|He]. }
  assert (Hev : forall e, e ∈ storage_entries p d -> se_key e <> keyBytes -> e ∉ storage_entries p d' -> e ∈ ev).
  { intros e He Hk Hn. destruct (proj1 (elem_of_app ev r e)) as [H|H]; [by apply Hin|done|]. destruct Hn. rewrite Hperm. set_solver. }
  destruct Hfit as [Hfit1 Hfit2]. split_and!.
  - unfold CacheFile_LoadStorage. fold keyBytes. replace (storageKeySizeLimit <? zlen keyBytes) with false by lia.
    change (CacheFile_bucket (c <| cf_DB := Some d' |>)) with (CacheFile_bucket c). fold p.
    rewrite (view_Get (c <| cf_DB := Some d' |>) p keyBytes (default [])) by done.
    change (in_file (c <| cf_DB := Some d' |>) p keyBytes) with (db_Get d' p keyBytes). rewrite Hget.
    apply drop_app_length'. by rewrite be_split_length.
  - lia.
  - lia.
  - intros e He Hk. apply (Hin e). specialize (Hr e He Hk). set_solver.
  - intros e e' He Hk Hn He' Hk'. eapply sorted_app; [exact Hsort|by apply Hev|by apply Hr].
  - intros e He Hk Hn. specialize (Hev e He Hk Hn). destruct ev as [|e0 ev _] using rev_ind; [by apply elem_of_nil in Hev|].
    exists e0. assert (He0 : e0 ∈ (ev ++ [e0]) ++ r) by set_solver. pose proof (proj1 (Hin e0) He0) as [He0' Hk0].
    split; [done|]. split.
    + intros H. apply Hr in H; [|done]. apply NoDup_app in Hnd as (_ & Hdis & _). apply (Hdis e0); [set_solver|done].
    + specialize (Hmin ev e0 eq_refl). unfold fits in Hmin. cbn [used_size foldr] in Hmin. fold (used_size r) in Hmin.
      rewrite zlen_cons in Hmin. lia.
Qed.

End Storage.

(** * Example *)

Definition stored_file : CacheFile := snd (CacheFile_SaveStorage empty_file second "panel" [1; 2; 3]).
Lemma storage_bounded_witness : fst (CacheFile_LoadStorage (snd (CacheFile_SaveStorage stored_file (2 * second) "panel" [4])) "panel") = [4].
Proof.
  set (c' := snd (CacheFile_SaveStorage stored_file (2 * second) "panel" [4])).
  assert (Hk : 0 < zlen (bytes_of_string "panel") <= storageKeySizeLimit) by done.
  assert (Hs : zlen [4] <= storageSizeLimit) by done.
  assert (Hsave : CacheFile_SaveStorage stored_file (2 * second) "panel" [4] = (Ok tt, c')) by (apply outcome; vm_compute; reflexivity).
  destruct (storage_bounded stored_file (2 * second) "panel" [4] c' Hk Hs Hsave) as (d & d' & _ & _ & H & _). exact H.
Defined.
