(* ===== verification/DNSRouter.v ===== *)
(** The DNS router's decisions: src/dns/router.go.

    A query is answered either by [exchangeLegacy], which matches rules before the
    lookup and checks the answer against the rule's addresses, or by
    [exchangeWithRules], which walks the rules and can evaluate servers along the
    way.  Evaluations run concurrently: each is a future, and every test whether
    one is done happens at a later moment than the one before.  The DNS client and
    the transports are the fields of [DNSEnv]; the query itself and the logging are
    left out, and the context of a query is not cancelled. *)

From S2P Require Import Prelude NetAddr GoStrings RuleContext RuleItems RuleEngine RuleAction.

(** * Options and actions *)

Definition DomainStrategyAsIS : Z := 0.
Definition DomainStrategyPreferIPv4 : Z := 1.
Definition DomainStrategyPreferIPv6 : Z := 2.
Definition DomainStrategyIPv4Only : Z := 3.
Definition DomainStrategyIPv6Only : Z := 4.

Definition TypeA : Z := 1.
Definition TypeAAAA : Z := 28.
Definition TypeHTTPS : Z := 65.
Definition RcodeRefused : Z := 5.
Definition DNSTypeFakeIP : string := "fakeip".

(** [adapter.DNSQueryOptions], without the fixed transport. *)
Record DNSQueryOptions := mkDNSQueryOptions {
  Strategy : Z;
  LookupStrategy : Z;
  DisableCache : bool;
  DisableOptimisticCache : bool;
  RewriteTTL : option Z;
  Timeout : Z;
  ClientSubnet : Prefix;
  RemoveClientSubnet : bool;
}.

Record RuleActionDNSRouteOptions := mkDNSRouteOptions {
  ro_Strategy : Z;
  ro_Timeout : Z;
  ro_DisableCache : bool;
  ro_DisableOptimisticCache : bool;
  ro_RewriteTTL : option Z;
  ro_ClientSubnet : Prefix;
  ro_RemoveClientSubnet : bool;
}.

Inductive DNSRuleAction :=
| RuleActionDNSRoute (Server : string) (Speculative : bool) (options : RuleActionDNSRouteOptions)
| RuleActionEvaluate (Server Tag : string) (Speculative : bool) (options : RuleActionDNSRouteOptions)
| RuleActionRespond
| RuleActionDNSRouteOptions_ (options : RuleActionDNSRouteOptions)
| RuleActionDNSReject (reject : RuleActionReject)
| RuleActionPredefined (response : Msg).

(** What the router uses of transports and of the client: the answer to the query
    by a transport with options and a check of the response. *)
Class DNSEnv := {
  Transport : Type;
  transport_Type : Transport -> string;
  manager_Transport : string -> option Transport;
  transport_Default : Transport;
  client_Exchange : Transport -> DNSQueryOptions -> option (Msg -> bool) -> Msg + error;
  followPredefinedCNAME : Msg -> DNSQueryOptions -> Msg;
}.

Section DNSRouter.
Context {Env : RuleEnv} {DEnv : DNSEnv}.

Record DNSRule := mkDNSRule { dns_rule : HeadlessRule; dns_action : DNSRuleAction; dns_disabled : bool }.

(** The router's own settings. *)
Record DNSRouter := mkDNSRouter { defaultDomainStrategy : Z; defaultRejectRcode : Z }.

Definition MatchResponseTag (r : HeadlessRule) : string :=
  match r with DefaultDNSRule _ _ tag _ => tag | _ => "" end.
Definition MatchResponseTags (r : HeadlessRule) : list string :=
  match r with
  | DefaultDNSRule _ _ tag _ => if str_empty tag then [] else [tag]
  | LogicalDNSRule _ tags _ _ => tags
  | _ => []
  end.
Definition MatchResponseAnonymous (r : HeadlessRule) : bool :=
  match r with
  | DefaultDNSRule _ matchResponse tag _ => matchResponse && str_empty tag
  | LogicalDNSRule _ _ anonymous _ => anonymous
  | _ => false
  end.
Definition Race (r : HeadlessRule) : bool :=
  match r with DefaultDNSRule _ _ _ race | LogicalDNSRule _ _ _ race => race | _ => false end.

Definition ErrResponseRejected : error := ENew "response rejected".
Definition ErrResponseRejectedCached : error := ECause ErrResponseRejected "cached".
Definition ErrDrop : error := ENew "packet dropped".

(** [errors.Is(err, ErrResponseRejected)] *)
Fixpoint is_rejected (e : error) : bool :=
  match e with
  | ECause e _ => is_rejected e
  | _ => bool_decide (e = ErrResponseRejected)
  end.

Definition resolveRejectRcode (actionRcode defaultRcode : Z) : Z :=
  if negb (actionRcode =? -1) then actionRcode
  else if negb (defaultRcode =? -1) then defaultRcode else RcodeRefused.

Definition dnsRejectResponse (actionRcode defaultRcode : Z) : Msg :=
  mkMsg (resolveRejectRcode actionRcode defaultRcode) [] [] [].

Definition finalizeExchangeOptions (r : DNSRouter) (o : DNSQueryOptions) : DNSQueryOptions :=
  if Strategy o =? DomainStrategyAsIS then o <| Strategy := defaultDomainStrategy r |> else o.

(** * Rules before the lookup *)

(** The part of the options both cases of [matchDNS] apply. *)
Definition legacy_options (o : DNSQueryOptions) (a : RuleActionDNSRouteOptions) (isFakeIP : bool) : DNSQueryOptions :=
  let o := if ro_Strategy a =? DomainStrategyAsIS then o else o <| Strategy := ro_Strategy a |> in
  let o := if isFakeIP || ro_DisableCache a then o <| DisableCache := true |> else o in
  let o := match ro_RewriteTTL a with Some t => o <| RewriteTTL := Some t |> | None => o end in
  let o := if 0 <? ro_Timeout a then o <| Timeout := ro_Timeout a |> else o in
  let o := if Prefix_IsValid (ro_ClientSubnet a)
           then o <| ClientSubnet := ro_ClientSubnet a |> <| RemoveClientSubnet := false |> else o in
  if ro_RemoveClientSubnet a then o <| ClientSubnet := zeroPrefix |> <| RemoveClientSubnet := true |> else o.

(** The loop of [matchDNS] over the rules left: a transport, the rule, its index,
    and what it leaves of the options and the metadata. *)
Fixpoint matchDNS_loop (rules : list DNSRule) (i : nat) (allowFakeIP isAddressQuery : bool) (o : DNSQueryOptions) (md : InboundContext)
    : option Transport * option (nat * DNSRule) * DNSQueryOptions * InboundContext :=
  match rules with
  | [] => (Some transport_Default, None, o, md)
  | r :: rules' =>
      let continue := matchDNS_loop rules' (S i) allowFakeIP isAddressQuery in
      if dns_disabled r then continue o md
      else if WithAddressLimit (dns_rule r) && negb isAddressQuery then continue o md
      else
        let '(matched, md) := LegacyPreMatch (dns_rule r) ((ResetRuleCache md) <| DestinationAddressMatchFromResponse := false |>) in
        if negb matched then continue o md
        else match dns_action r with
        | RuleActionDNSRoute server _ a =>
            match manager_Transport server with
            | None => continue o md
            | Some transport =>
                let isFakeIP := bool_decide (transport_Type transport = DNSTypeFakeIP) in
                if isFakeIP && negb allowFakeIP then continue o md
                else (Some transport, Some (i, r), legacy_options o a isFakeIP, md)
            end
        | RuleActionDNSRouteOptions_ a => continue (legacy_options o a false) md
        | RuleActionDNSReject _ | RuleActionPredefined _ => (None, Some (i, r), o, md)
        | RuleActionEvaluate _ _ _ _ | RuleActionRespond => continue o md
        end
  end.

(** [matchDNS], after the rule at [ruleIndex] if there is one. *)
Definition matchDNS (rules : list DNSRule) (allowFakeIP : bool) (ruleIndex : option nat) (isAddressQuery : bool)
    (o : DNSQueryOptions) (md : InboundContext) : option Transport * option (nat * DNSRule) * DNSQueryOptions * InboundContext :=
  let start := match ruleIndex with Some i => S i | None => O end in
  matchDNS_loop (drop start rules) start allowFakeIP isAddressQuery o md.

Definition isAddressQuery (questions : list Z) : bool :=
  existsb (fun qtype => inb qtype [TypeA; TypeAAAA; TypeHTTPS]) questions.

(** The check of the response, on a copy of the metadata. *)
Definition addressLimitResponseCheck (rule : option (nat * DNSRule)) (md : InboundContext) : option (Msg -> bool) :=
  match rule with
  | Some (_, r) => if WithAddressLimit (dns_rule r) then Some (fun response => MatchAddressLimit (dns_rule r) md (Some response)) else None
  | None => None
  end.

(** What an exchange ends with: the response and its transport, or an error. *)
Definition Answered : Type := res (option Msg * option Transport).

(** The loop of [exchangeLegacy].  Every rejected response moves past its rule, so
    one more round than there are rules is enough. *)
Fixpoint exchangeLegacy_loop (fuel : nat) (router : DNSRouter) (rules : list DNSRule) (ruleIndex : option nat) (isAddress : bool)
    (o : DNSQueryOptions) (md : InboundContext) : Answered :=
  match fuel with
  | O => OutOfFuel
  | S fuel =>
      let '(transport, rule, dnsOptions, md) := matchDNS rules true ruleIndex isAddress o md in
      let query :=
        match transport with
        | None => Panic "invalid memory address or nil pointer dereference"
        | Some t =>
            let check := addressLimitResponseCheck rule md in
            match client_Exchange t (finalizeExchangeOptions router dnsOptions) check, check with
            | inl m, _ => Ok (Some m, Some t)
            | inr e, Some _ =>
                if is_rejected e then exchangeLegacy_loop fuel router rules (fst <$> rule) isAddress o md else Err e
            | inr e, None => Err e
            end
        end in
      match rule with
      | Some (_, r) =>
          match dns_action r with
          | RuleActionDNSReject a =>
              if bool_decide (Method a = RuleActionRejectMethodDefault)
              then Ok (Some (dnsRejectResponse (Reject_Rcode a) (defaultRejectRcode router)), None)
              else if bool_decide (Method a = RuleActionRejectMethodDrop) then Err ErrDrop
              else query
          | RuleActionPredefined m => Ok (Some (followPredefinedCNAME m dnsOptions), None)
          | _ => query
          end
      | None => query
      end
  end.

Definition exchangeLegacy (router : DNSRouter) (rules : list DNSRule) (isAddress : bool) (o : DNSQueryOptions) (md : InboundContext) : Answered :=
  exchangeLegacy_loop (S (length rules)) router rules None isAddress o md.

(** * Rules with evaluations *)

Definition applyDNSRouteOptions (o : DNSQueryOptions) (a : RuleActionDNSRouteOptions) : DNSQueryOptions :=
  let o := if ro_DisableCache a then o <| DisableCache := true |> else o in
  let o := if ro_DisableOptimisticCache a then o <| DisableOptimisticCache := true |> else o in
  let o := match ro_RewriteTTL a with Some t => o <| RewriteTTL := Some t |> | None => o end in
  let o := if 0 <? ro_Timeout a then o <| Timeout := ro_Timeout a |> else o in
  let o := if Prefix_IsValid (ro_ClientSubnet a)
           then o <| ClientSubnet := ro_ClientSubnet a |> <| RemoveClientSubnet := false |> else o in
  if ro_RemoveClientSubnet a then o <| ClientSubnet := zeroPrefix |> <| RemoveClientSubnet := true |> else o.

Inductive dnsRouteStatus := dnsRouteStatusMissing | dnsRouteStatusSkipped | dnsRouteStatusResolved (t : Transport) (o : DNSQueryOptions).

Definition resolveDNSRoute (server : string) (a : RuleActionDNSRouteOptions) (allowFakeIP : bool) (o : DNSQueryOptions) : dnsRouteStatus :=
  match manager_Transport server with
  | None => dnsRouteStatusMissing
  | Some t =>
      let isFakeIP := bool_decide (transport_Type t = DNSTypeFakeIP) in
      if isFakeIP && negb allowFakeIP then dnsRouteStatusSkipped
      else
        let o := applyDNSRouteOptions o a in
        dnsRouteStatusResolved t (if isFakeIP then o <| DisableCache := true |> else o)
  end.

(** ** Futures *)

(** [f_result] is what the exchange will end with. *)
Record dnsEvaluatedFuture := mkFuture {
  f_tag : string;
  f_terminal : bool;
  f_transport : Transport;
  f_result : Msg + error;
  f_settled : bool;
}.

(** Futures are named by their position. *)
Record dnsArmedRule := mkArmedRule {
  armed_rule : DNSRule;
  armed_futures : list nat;
  armed_anonymous : option nat;
  armed_bindsAnonymous : bool;
  armed_options : DNSQueryOptions;
}.

(** [dnsRuleWalkState], with the metadata and the moments passed. *)
Record dnsRuleWalkState := mkWalkState {
  ruleIndex : nat;
  effectiveOptions : DNSQueryOptions;
  anonymousFuture : option nat;
  namedFutures : gmap string nat;
  namedResponses : gmap string Msg;
  namedTransports : gmap string Transport;
  futures : list dnsEvaluatedFuture;
  armedRules : list dnsArmedRule;
  terminalFuture : option (nat * nat);
  moment : nat;
  metadata : InboundContext;
}.

Record dnsPendingExchange := mkPending { p_transport : Transport; p_options : DNSQueryOptions; p_future : option nat }.

Inductive dnsWalkSuspension := SuspendAwait (future : nat) | SuspendDrain | SuspendPending (p : dnsPendingExchange).

(** [exchangeWithRulesResult] *)
Record exchangeWithRulesResult := mkExchangeResult {
  er_response : option Msg;
  er_transport : option Transport;
  er_reject : option RuleActionReject;
  er_err : option error;
}.
Definition answered (m : Msg) (t : option Transport) : exchangeWithRulesResult := mkExchangeResult (Some m) t None None.
Definition failed (e : error) : exchangeWithRulesResult := mkExchangeResult None None None (Some e).
Definition dnsRespondMissingResponseMessage : string :=
  "respond action requires an evaluated response from a preceding evaluate action".

(** When the exchange with this tag and position is done. *)
Variable done_at : string -> nat -> nat.

Definition future_tag (s : dnsRuleWalkState) (n : nat) : string := default "" (f_tag <$> futures s !! n).
Definition is_done (s : dnsRuleWalkState) (n : nat) : bool := Nat.leb (done_at (future_tag s n) n) (moment s).
Definition tick (s : dnsRuleWalkState) : dnsRuleWalkState := s <| moment := S (moment s) |>.

Definition resolved (n : nat) (s : dnsRuleWalkState) : bool * dnsRuleWalkState := (is_done s n, tick s).

(** [view]: the response of a future that is done without error. *)
Definition future_response (s : dnsRuleWalkState) (n : nat) : option Msg :=
  match futures s !! n with
  | Some f => match f_result f with inl m => Some m | inr _ => None end
  | None => None
  end.
Definition view (n : nat) (s : dnsRuleWalkState) : option Msg * dnsRuleWalkState :=
  let '(done, s) := resolved n s in (if done then future_response s n else None, s).

Definition anonymousResponse (s : dnsRuleWalkState) : option Msg * dnsRuleWalkState :=
  match anonymousFuture s with None => (None, s) | Some n => view n s end.

(** [launchDNSEvaluate]: the future and its position. *)
Definition launchDNSEvaluate (router : DNSRouter) (tag : string) (terminal : bool) (t : Transport) (o : DNSQueryOptions) (s : dnsRuleWalkState)
    : nat * dnsRuleWalkState :=
  (length (futures s),
   s <| futures := futures s ++ [mkFuture tag terminal t (client_Exchange t (finalizeExchangeOptions router o) None) false] |>).

(** The loop of [settleDNSFutures] from the future at [n] on. *)
Fixpoint settle_loop (todo : list dnsEvaluatedFuture) (n : nat) (s : dnsRuleWalkState) : dnsRuleWalkState :=
  match todo with
  | [] => s
  | f :: todo' =>
      if f_settled f then settle_loop todo' (S n) s
      else
        let '(done, s) := resolved n s in
        if negb done then settle_loop todo' (S n) s
        else
          let s := s <| futures := <[n := f <| f_settled := true |>]> (futures s) |> in
          if str_empty (f_tag f) then settle_loop todo' (S n) s
          else
            let '(response, s) := view n s in
            settle_loop todo' (S n)
              (s <| namedResponses := match response with Some m => <[f_tag f := m]> (namedResponses s) | None => delete (f_tag f) (namedResponses s) end |>
                 <| namedTransports := <[f_tag f := f_transport f]> (namedTransports s) |>)
  end.

Definition settleDNSFutures (s : dnsRuleWalkState) : dnsRuleWalkState := settle_loop (futures s) 0 s.

(** The metadata a rule is matched on. *)
Definition rule_metadata (anonymous : option Msg) (named : gmap string Msg) (md : InboundContext) : InboundContext :=
  (ResetRuleCache md) <| DNSResponse := anonymous |> <| NamedDNSResponses := named |> <| DestinationAddressMatchFromResponse := false |>.

Definition match_rule (r : HeadlessRule) (anonymous : option Msg) (s : dnsRuleWalkState) : bool * dnsRuleWalkState :=
  let '(matched, md) := Match r (rule_metadata anonymous (namedResponses s) (metadata s)) in
  (matched, s <| metadata := md |>).

(** The first future of the list that is not done. *)
Fixpoint first_pending (ns : list nat) (s : dnsRuleWalkState) : option nat * dnsRuleWalkState :=
  match ns with
  | [] => (None, s)
  | n :: ns => let '(done, s) := resolved n s in if done then first_pending ns s else (Some n, s)
  end.
(** All of them. *)
Fixpoint all_pending (ns : list nat) (s : dnsRuleWalkState) : list nat * dnsRuleWalkState :=
  match ns with
  | [] => ([], s)
  | n :: ns =>
      let '(done, s) := resolved n s in
      let '(rest, s) := all_pending ns s in
      (if done then rest else n :: rest, s)
  end.

(** The futures a rule's responses come from. *)
Definition bound_futures (r : HeadlessRule) (s : dnsRuleWalkState) : list nat :=
  omap (fun tag => namedFutures s !! tag) (MatchResponseTags r)
  ++ (if MatchResponseAnonymous r then match anonymousFuture s with Some n => [n] | None => [] end else []).

Definition reject_result (router : DNSRouter) (a : RuleActionReject) : option exchangeWithRulesResult :=
  if bool_decide (Method a = RuleActionRejectMethodDefault)
  then Some (mkExchangeResult (Some (dnsRejectResponse (Reject_Rcode a) (defaultRejectRcode router))) None (Some a) None)
  else if bool_decide (Method a = RuleActionRejectMethodDrop)
  then Some (mkExchangeResult None None (Some a) (Some ErrDrop))
  else None.

(** ** Rules that race *)

(** What a rule commits to: a result, or an exchange still to make. *)
Definition Commit : Type := exchangeWithRulesResult + dnsPendingExchange.

(** The action of an armed rule that matched; [None] goes on with the next. *)
Definition armed_commit (router : DNSRouter) (allowFakeIP : bool) (a : dnsArmedRule) (s : dnsRuleWalkState) : option Commit * dnsRuleWalkState :=
  let r := armed_rule a in
  match dns_action r with
  | RuleActionRespond =>
      let '(response, transport, s) :=
        if negb (str_empty (MatchResponseTag (dns_rule r)))
        then (namedResponses s !! MatchResponseTag (dns_rule r), namedTransports s !! MatchResponseTag (dns_rule r), s)
        else match (match armed_anonymous a with Some n => Some n | None => anonymousFuture s end) with
             | Some n => let '(response, s) := view n s in (response, f_transport <$> futures s !! n, s)
             | None => (None, None, s)
             end in
      (Some (inl (match response with
                  | Some m => answered m transport
                  | None => failed (ENew dnsRespondMissingResponseMessage)
                  end)), s)
  | RuleActionDNSRoute server _ options =>
      match resolveDNSRoute server options allowFakeIP (armed_options a) with
      | dnsRouteStatusResolved t o => (Some (inr (mkPending t o None)), s)
      | _ => (None, s)
      end
  | RuleActionDNSReject reject => (inl <$> reject_result router reject, s)
  | RuleActionPredefined m => (Some (inl (answered (followPredefinedCNAME m (armed_options a)) None)), s)
  | RuleActionEvaluate _ _ _ _ | RuleActionDNSRouteOptions_ _ => (None, s)
  end.

(** The loop of [sweepArmedDNSRules]: the armed rules passed over and those left. *)
Fixpoint sweep_loop (router : DNSRouter) (allowFakeIP : bool) (kept todo : list dnsArmedRule) (s : dnsRuleWalkState)
    : option Commit * dnsRuleWalkState :=
  match todo with
  | [] => (None, s <| armedRules := kept |>)
  | a :: todo' =>
      let '(pending, s) := first_pending (armed_futures a) s in
      match pending with
      | Some _ => sweep_loop router allowFakeIP (kept ++ [a]) todo' s
      | None =>
          let s := s <| armedRules := kept ++ todo' |> in
          if dns_disabled (armed_rule a) then sweep_loop router allowFakeIP kept todo' s
          else
            let '(anonymous, s) :=
              if armed_bindsAnonymous a
              then match armed_anonymous a with Some n => view n s | None => (None, s) end
              else anonymousResponse s in
            let '(matched, s) := match_rule (dns_rule (armed_rule a)) anonymous s in
            if negb matched then sweep_loop router allowFakeIP kept todo' s
            else match armed_commit router allowFakeIP a s with
                 | (Some c, s) => (Some c, s)
                 | (None, s) => sweep_loop router allowFakeIP kept todo' s
                 end
      end
  end.

Definition sweepArmedDNSRules (router : DNSRouter) (allowFakeIP : bool) (s : dnsRuleWalkState) : option Commit * dnsRuleWalkState :=
  sweep_loop router allowFakeIP [] (armedRules s) s.

(** ** The walk *)

Definition has_bindings (r : HeadlessRule) : bool := nonempty (MatchResponseTags r) || MatchResponseAnonymous r.

(** A rule that matched: what it returns, or the state to go on with. *)
Definition walk_action (router : DNSRouter) (allowFakeIP : bool) (r : DNSRule) (s : dnsRuleWalkState)
    : option (exchangeWithRulesResult + dnsWalkSuspension) * dnsRuleWalkState :=
  let armed := nonempty (armedRules s) in
  match dns_action r with
  | RuleActionDNSRouteOptions_ a => (None, s <| effectiveOptions := applyDNSRouteOptions (effectiveOptions s) a |>)
  | RuleActionEvaluate server tag speculative a =>
      match manager_Transport server with
      | None => (None, if str_empty tag then s <| anonymousFuture := None |> else s)
      | Some t =>
          if negb speculative && armed then (Some (inr SuspendDrain), s)
          else
            let '(n, s) := launchDNSEvaluate router tag false t (applyDNSRouteOptions (effectiveOptions s) a) s in
            (None, if str_empty tag then s <| anonymousFuture := Some n |> else s <| namedFutures := <[tag := n]> (namedFutures s) |>)
      end
  | RuleActionRespond =>
      if armed then (Some (inr SuspendDrain), s)
      else if negb (str_empty (MatchResponseTag (dns_rule r))) then
        (Some (inl (match namedResponses s !! MatchResponseTag (dns_rule r) with
                    | Some m => answered m (namedTransports s !! MatchResponseTag (dns_rule r))
                    | None => failed (ENew dnsRespondMissingResponseMessage)
                    end)), s)
      else
        let '(await, s) :=
          if has_bindings (dns_rule r) then (None, s)
          else first_pending (match anonymousFuture s with Some n => [n] | None => [] end) s in
        match await with
        | Some n => (Some (inr (SuspendAwait n)), s)
        | None =>
            let '(response, s) := anonymousResponse s in
            (Some (inl (match response, anonymousFuture s with
                        | Some m, Some n => answered m (f_transport <$> futures s !! n)
                        | _, _ => failed (ENew dnsRespondMissingResponseMessage)
                        end)), s)
        end
  | RuleActionDNSRoute server speculative a =>
      match resolveDNSRoute server a allowFakeIP (effectiveOptions s) with
      | dnsRouteStatusResolved t o =>
          if armed then
            (Some (inr SuspendDrain),
             match terminalFuture s with
             | None =>
                 if speculative then
                   let '(n, s) := launchDNSEvaluate router "" true t o s in s <| terminalFuture := Some (n, ruleIndex s) |>
                 else s
             | Some _ => s
             end)
          else
            let pending :=
              match terminalFuture s with
              | Some (n, i) =>
                  if bool_decide (i = ruleIndex s)
                  then mkPending (default t (f_transport <$> futures s !! n)) o (Some n)
                  else mkPending t o None
              | None => mkPending t o None
              end in
            (Some (inr (SuspendPending pending)), s)
      | _ => (None, s)
      end
  | RuleActionDNSReject a =>
      if armed then (Some (inr SuspendDrain), s) else (inl <$> reject_result router a, s)
  | RuleActionPredefined m =>
      if armed then (Some (inr SuspendDrain), s) else (Some (inl (answered (followPredefinedCNAME m (effectiveOptions s)) None)), s)
  end.

(** [walkDNSRules] on the rules from [ruleIndex] on. *)
Fixpoint walk_loop (router : DNSRouter) (allowFakeIP : bool) (rules : list DNSRule) (s : dnsRuleWalkState)
    : (exchangeWithRulesResult + dnsWalkSuspension) * dnsRuleWalkState :=
  match rules with
  | [] =>
      (inr (if nonempty (armedRules s) then SuspendDrain else SuspendPending (mkPending transport_Default (effectiveOptions s) None)), s)
  | r :: rules' =>
      let next s := walk_loop router allowFakeIP rules' (s <| ruleIndex := S (ruleIndex s) |>) in
      if dns_disabled r then next s
      else
        let bindings := has_bindings (dns_rule r) in
        let s := if bindings then settleDNSFutures s else s in
        if bindings && Race (dns_rule r) then
          let '(pending, s) := all_pending (bound_futures (dns_rule r) s) s in
          let binds := MatchResponseAnonymous (dns_rule r) in
          let a := mkArmedRule r pending (if binds then anonymousFuture s else None) binds (effectiveOptions s) in
          let s := s <| armedRules := armedRules s ++ [a] |> in
          if nonempty pending then next s
          else match sweepArmedDNSRules router allowFakeIP s with
               | (Some (inl result), s) => (inl result, s)
               | (Some (inr p), s) => (inr (SuspendPending p), s <| armedRules := [] |>)
               | (None, s) => next s
               end
        else
          let '(await, s) := if bindings then first_pending (bound_futures (dns_rule r) s) s else (None, s) in
          match await with
          | Some n => (inr (SuspendAwait n), s)
          | None =>
              let '(anonymous, s) := anonymousResponse s in
              let '(matched, s) := match_rule (dns_rule r) anonymous s in
              if negb matched then next s
              else match walk_action router allowFakeIP r s with
                   | (Some result, s) => (result, s)
                   | (None, s) => next s
                   end
          end
  end.

Definition walkDNSRules (router : DNSRouter) (allowFakeIP : bool) (rules : list DNSRule) (s : dnsRuleWalkState) :=
  walk_loop router allowFakeIP (drop (ruleIndex s) rules) s.

(** ** Waiting *)

(** The moment the next future is done. *)
Definition wait (s : dnsRuleWalkState) : dnsRuleWalkState :=
  let pending := List.filter (fun n => negb (is_done s n)) (seq 0 (length (futures s))) in
  s <| moment := match map (fun n => done_at (future_tag s n) n) pending with
                 | [] => S (moment s)
                 | t :: ts => fold_left Nat.min ts t
                 end |>.

Definition finishPendingExchange (router : DNSRouter) (p : dnsPendingExchange) (s : dnsRuleWalkState) : exchangeWithRulesResult :=
  let of_result (r : Msg + error) (t : Transport) :=
    match r with inl m => answered m (Some t) | inr e => mkExchangeResult None (Some t) None (Some e) end in
  match p_future p with
  | Some n =>
      match futures s !! n with
      | Some f => of_result (f_result f) (f_transport f)
      | None => failed (ENew "no future")
      end
  | None => of_result (client_Exchange (p_transport p) (finalizeExchangeOptions router (p_options p)) None) (p_transport p)
  end.

(** The loop of [resumeExchangeWithRules]. *)
Fixpoint resume_loop (fuel : nat) (router : DNSRouter) (allowFakeIP : bool) (rules : list DNSRule)
    (suspension : dnsWalkSuspension) (s : dnsRuleWalkState) : res exchangeWithRulesResult :=
  match fuel with
  | O => OutOfFuel
  | S fuel =>
      match sweepArmedDNSRules router allowFakeIP (settleDNSFutures s) with
      | (Some (inl result), s) => Ok result
      | (Some (inr p), s) => Ok (finishPendingExchange router p s)
      | (None, s) =>
          let walk s :=
            match walkDNSRules router allowFakeIP rules s with
            | (inl result, _) => Ok result
            | (inr suspension, s) => resume_loop fuel router allowFakeIP rules suspension s
            end in
          match suspension with
          | SuspendPending p => Ok (finishPendingExchange router p s)
          | SuspendAwait n =>
              let '(done, s) := resolved n s in
              if done then walk s else resume_loop fuel router allowFakeIP rules suspension (wait s)
          | SuspendDrain =>
              if nonempty (armedRules s) then resume_loop fuel router allowFakeIP rules suspension (wait s) else walk s
          end
      end
  end.

Definition walk_start (o : DNSQueryOptions) (md : InboundContext) : dnsRuleWalkState :=
  mkWalkState 0 o None ∅ ∅ ∅ [] [] None 0 md.

Definition exchangeWithRules (fuel : nat) (router : DNSRouter) (rules : list DNSRule) (o : DNSQueryOptions) (md : InboundContext) (allowFakeIP : bool)
    : res exchangeWithRulesResult :=
  match walkDNSRules router allowFakeIP rules (walk_start o md) with
  | (inl result, _) => Ok result
  | (inr suspension, s) => resume_loop fuel router allowFakeIP rules suspension s
  end.

End DNSRouter.
