(* ===== verification/DNSRouterProofs.v ===== *)
(** Properties of the DNS router: the answer does not depend on when concurrent
    evaluations finish, and matching before the lookup goes once through the rules. *)

From S2P Require Import Prelude NetAddr GoStrings RuleContext RuleItems RuleEngine RuleSpec RulePreMatch RuleExamples RuleTheorems RuleAction DNSRouter.

Section Proofs.
Context {Env : RuleEnv} {DEnv : DNSEnv}.
Context (router : DNSRouter) (allowFakeIP : bool).

(** * Rules evaluated one after the other *)

Definition of_exchange (t : Transport) (r : Msg + error) : exchangeWithRulesResult :=
  match r with inl m => answered m (Some t) | inr e => mkExchangeResult None (Some t) None (Some e) end.
Definition exchange (t : Transport) (o : DNSQueryOptions) : Msg + error := client_Exchange t (finalizeExchangeOptions router o) None.

Definition response_of (anon : option (Transport * (Msg + error))) : option Msg :=
  match anon with Some (_, inl m) => Some m | _ => None end.

(** The answer when every evaluation is waited for as soon as it starts; [anon] is
    the last evaluation. *)
Fixpoint answer_in_order (md : InboundContext) (rules : list DNSRule) (anon : option (Transport * (Msg + error))) (o : DNSQueryOptions)
    : exchangeWithRulesResult :=
  match rules with
  | [] => of_exchange transport_Default (exchange transport_Default o)
  | r :: rules' =>
      let next := answer_in_order md rules' in
      if dns_disabled r || negb (eval (dns_rule r) (rule_metadata (response_of anon) ∅ md)) then next anon o
      else match dns_action r with
      | RuleActionDNSRouteOptions_ a => next anon (applyDNSRouteOptions o a)
      | RuleActionEvaluate server _ _ a =>
          match manager_Transport server with
          | None => next None o
          | Some t => next (Some (t, exchange t (applyDNSRouteOptions o a))) o
          end
      | RuleActionRespond =>
          match anon with
          | Some (t, inl m) => answered m (Some t)
          | _ => failed (ENew dnsRespondMissingResponseMessage)
          end
      | RuleActionDNSRoute server _ a =>
          match resolveDNSRoute server a allowFakeIP o with
          | dnsRouteStatusResolved t o' => of_exchange t (exchange t o')
          | _ => next anon o
          end
      | RuleActionDNSReject a => match reject_result router a with Some result => result | None => next anon o end
      | RuleActionPredefined m => answered (followPredefinedCNAME m o) None
      end
  end.

(** Rules that neither race nor name responses. *)
Definition plain_dns_rule (r : DNSRule) : bool :=
  negb (Race (dns_rule r)) && negb (nonempty (MatchResponseTags (dns_rule r)))
  && match dns_action r with RuleActionEvaluate _ tag _ _ => str_empty tag | _ => true end.

(** A rule without [match_response] does not look at responses. *)
Definition declares_responses (r : DNSRule) : Prop :=
  MatchResponseAnonymous (dns_rule r) = false ->
  forall a a' md, eval (dns_rule r) (rule_metadata a ∅ md) = eval (dns_rule r) (rule_metadata a' ∅ md).

Context (done_at : string -> nat -> nat) (md : InboundContext).
Hypothesis md_settled : IgnoreDestinationIPCIDRMatch md = false.

(** * The state of a walk without races *)

Definition future_of (s : dnsRuleWalkState) (n : nat) : option (Transport * (Msg + error)) :=
  (fun f => (f_transport f, f_result f)) <$> futures s !! n.

Record Sim (s : dnsRuleWalkState) (anon : option (Transport * (Msg + error))) (o : DNSQueryOptions) : Prop := {
  sim_armed : armedRules s = [];
  sim_terminal : terminalFuture s = None;
  sim_named : namedResponses s = ∅;
  sim_options : effectiveOptions s = o;
  sim_metadata : forall a n, rule_metadata a n (metadata s) = rule_metadata a n md;
  sim_tags : Forall (fun f => f_tag f = "") (futures s);
  sim_anon : match anonymousFuture s with None => anon = None | Some n => future_of s n = anon /\ is_Some anon end;
}.

Lemma sim_tag s anon o n : Sim s anon o -> future_tag s n = "".
Proof.
  intros H. unfold future_tag. destruct (futures s !! n) as [f|] eqn:E; [|done].
  cbn. exact (proj1 (Forall_lookup _ _) (sim_tags _ _ _ H) _ _ E).
Qed.

Lemma future_response_of s n : future_response s n = response_of (future_of s n).
Proof. unfold future_response, future_of. destruct (futures s !! n) as [f|]; [|done]. cbn. by destruct (f_result f). Qed.

(** Time only passes. *)
Definition later (s s' : dnsRuleWalkState) : Prop :=
  (moment s <= moment s')%nat /\ ruleIndex s' = ruleIndex s /\ length (futures s') = length (futures s)
  /\ anonymousFuture s' = anonymousFuture s.

Lemma later_refl s : later s s.
Proof. by repeat split. Qed.
Lemma later_trans s s' s'' : later s s' -> later s' s'' -> later s s''.
Proof. unfold later. intros (? & ? & ? & ?) (? & ? & ? & ?). repeat split; [lia|congruence..]. Qed.

Lemma tick_sim s anon o : Sim s anon o -> Sim (tick s) anon o /\ later s (tick s).
Proof. intros []. split; [by constructor|]. split; [|done]. change (moment (tick s)) with (S (moment s)). lia. Qed.

Lemma first_pending_sim s anon o ns : Sim s anon o ->
  Sim (snd (first_pending done_at ns s)) anon o /\ later s (snd (first_pending done_at ns s)).
Proof.
  revert s. induction ns as [|n ns IH]; intros s H; cbn [first_pending]; [split; [done|apply later_refl]|].
  unfold resolved. destruct (tick_sim _ _ _ H) as [Ht Hl]. destruct (is_done done_at s n); [|done].
  destruct (IH _ Ht) as [Hs Hl']. split; [done|]. by eapply later_trans.
Qed.

Lemma settle_loop_sim todo : forall n s anon o, Sim s anon o -> drop n (futures s) = todo ->
  Sim (settle_loop done_at todo n s) anon o /\ later s (settle_loop done_at todo n s).
Proof.
  induction todo as [|f todo IH]; intros n s anon o H Hd; cbn [settle_loop]; [split; [done|apply later_refl]|].
  assert (Hf : futures s !! n = Some f) by (rewrite <- (Nat.add_0_r n), <- lookup_drop, Hd; done).
  assert (Hd' : forall fs, length fs = length (futures s) -> drop (S n) fs = drop (S n) (futures s) -> drop (S n) fs = todo).
  { intros fs _ ->. replace (S n) with (n + 1)%nat by lia. by rewrite <- drop_drop, Hd. }
  assert (Htag : f_tag f = "") by exact (proj1 (Forall_lookup _ _) (sim_tags _ _ _ H) _ _ Hf).
  destruct (f_settled f); [apply IH; [done|by apply Hd']|].
  unfold resolved. destruct (tick_sim _ _ _ H) as [Ht Hl].
  destruct (is_done done_at s n); cbn [negb].
  - rewrite Htag. cbn [str_empty].
    set (s1 := (tick s) <| futures := <[n := f <| f_settled := true |>]> (futures (tick s)) |>).
    assert (Hs1 : Sim s1 anon o /\ later s s1).
    { split.
      - destruct Ht. constructor; try done.
        + change (futures s1) with (<[n := f <| f_settled := true |>]> (futures s)). by apply Forall_insert.
        + change (anonymousFuture s1) with (anonymousFuture s). change (anonymousFuture (tick s)) with (anonymousFuture s) in *.
          destruct (anonymousFuture s) as [m|]; [|done]. destruct sim_anon0 as [Hm Ha]. split; [|done]. rewrite <- Hm.
          unfold future_of. change (futures s1) with (<[n := f <| f_settled := true |>]> (futures s)).
          change (futures (tick s)) with (futures s). destruct (decide (m = n)) as [->|Hne].
          * rewrite list_lookup_insert_eq by (by apply lookup_lt_Some in Hf). by rewrite Hf.
          * by rewrite list_lookup_insert_ne.
      - destruct Hl as (? & ? & ? & ?). repeat split; try done.
        change (futures s1) with (<[n := f <| f_settled := true |>]> (futures s)). by rewrite length_insert. }
    destruct Hs1 as [Hs1 Hl1]. destruct (IH (S n) s1 anon o Hs1) as [Hs2 Hl2].
    + change (futures s1) with (<[n := f <| f_settled := true |>]> (futures s)).
      apply Hd'; [by rewrite length_insert|]. by rewrite drop_insert_lt by lia.
    + split; [done|]. by eapply later_trans.
  - destruct (IH (S n) (tick s) anon o Ht) as [Hs Hl']; [by apply Hd'|]. split; [done|]. by eapply later_trans.
Qed.

Lemma settle_sim s anon o : Sim s anon o -> Sim (settleDNSFutures done_at s) anon o /\ later s (settleDNSFutures done_at s).
Proof. intros H. by apply settle_loop_sim. Qed.

Lemma is_done_later s s' anon anon' o o' n :
  Sim s anon o -> Sim s' anon' o' -> (moment s <= moment s')%nat -> is_done done_at s n = true -> is_done done_at s' n = true.
Proof.
  intros H H' Hm. unfold is_done. rewrite (sim_tag _ _ _ _ H), (sim_tag _ _ _ _ H'), !Nat.leb_le. lia.
Qed.

Lemma set_metadata_sim s anon o a : Sim s anon o -> Sim (s <| metadata := rule_metadata a ∅ md |>) anon o.
Proof. intros []. by constructor. Qed.

Lemma match_rule_sim r a s anon o : Sim s anon o ->
  match_rule r a s = (eval r (rule_metadata a ∅ md), s <| metadata := rule_metadata a ∅ md |>).
Proof.
  intros H. unfold match_rule. rewrite (sim_named _ _ _ H), (sim_metadata _ _ _ H).
  by rewrite (engine_known r (rule_metadata a ∅ md) md_settled eq_refl).
Qed.

(** The response the anonymous evaluation has when it is looked at. *)
Lemma anonymousResponse_sim s anon o : Sim s anon o ->
  Sim (snd (anonymousResponse done_at s)) anon o /\ later s (snd (anonymousResponse done_at s))
  /\ (match anonymousFuture s with Some n => is_done done_at s n = true | None => True end ->
      fst (anonymousResponse done_at s) = response_of anon).
Proof.
  intros H. unfold anonymousResponse. destruct (anonymousFuture s) as [n|] eqn:E.
  - unfold view, resolved. cbn [fst snd]. destruct (tick_sim _ _ _ H) as [Ht Hl]. split; [done|]. split; [done|].
    intros ->. rewrite future_response_of. pose proof (sim_anon _ _ _ H) as Ha. rewrite E in Ha. destruct Ha as [<- _]. done.
  - split; [done|]. split; [apply later_refl|]. intros _. pose proof (sim_anon _ _ _ H) as Ha. rewrite E in Ha. by subst anon.
Qed.

(** * One rule *)

(** A matched rule acts, one that does not match is passed over. *)
Definition act (r : DNSRule) (rules : list DNSRule) (matched : bool) (s : dnsRuleWalkState) :=
  let next s := walk_loop done_at router allowFakeIP rules (s <| ruleIndex := S (ruleIndex s) |>) in
  if negb matched then next s
  else match walk_action done_at router allowFakeIP r s with
       | (Some result, s) => (result, s)
       | (None, s) => next s
       end.

(** The anonymous evaluation is done if the rule looks at it. *)
Definition response_ready (r : DNSRule) (s : dnsRuleWalkState) : Prop :=
  MatchResponseAnonymous (dns_rule r) = true -> forall n, anonymousFuture s = Some n -> is_done done_at s n = true.

Lemma match_on_response r rules s anon o :
  Sim s anon o -> declares_responses r -> response_ready r s ->
  exists s', Sim s' anon o /\ later s s' /\ response_ready r s'
    /\ (let '(anonymous, s2) := anonymousResponse done_at s in
        let '(matched, s3) := match_rule (dns_rule r) anonymous s2 in act r rules matched s3)
      = act r rules (eval (dns_rule r) (rule_metadata (response_of anon) ∅ md)) s'.
Proof.
  intros H1 Hr Hdone. destruct (anonymousResponse_sim s anon o H1) as (H2 & Hl2 & Hresp).
  destruct (anonymousResponse done_at s) as [anonymous s2]. cbn [fst snd] in *.
  rewrite (match_rule_sim _ _ _ _ _ H2).
  assert (He : eval (dns_rule r) (rule_metadata anonymous ∅ md) = eval (dns_rule r) (rule_metadata (response_of anon) ∅ md)).
  { destruct (MatchResponseAnonymous (dns_rule r)) eqn:Ha; [|by apply Hr]. rewrite Hresp; [done|].
    destruct (anonymousFuture s) as [n|] eqn:E; [by apply Hdone|done]. }
  rewrite He. exists (s2 <| metadata := rule_metadata anonymous ∅ md |>).
  split; [by apply set_metadata_sim|]. split; [exact Hl2|]. split; [|done].
  intros Ha n Hn. destruct Hl2 as (Hm & _ & _ & Hf).
  apply (is_done_later s _ anon anon o o n H1 (set_metadata_sim _ _ _ _ H2)); [done|]. apply Hdone; [done|].
  rewrite <- Hf. exact Hn.
Qed.

(** What looking at a rule comes to: it waits for the anonymous evaluation, or is
    matched on its response. *)
Lemma rule_matched r rules s anon o :
  Sim s anon o -> dns_disabled r = false -> plain_dns_rule r = true -> declares_responses r ->
  (exists s' n, walk_loop done_at router allowFakeIP (r :: rules) s = (inr (SuspendAwait n), s')
     /\ Sim s' anon o /\ later s s' /\ anonymousFuture s = Some n /\ is_done done_at s n = false)
  \/ exists s', Sim s' anon o /\ later s s' /\ response_ready r s'
     /\ walk_loop done_at router allowFakeIP (r :: rules) s
       = act r rules (eval (dns_rule r) (rule_metadata (response_of anon) ∅ md)) s'.
Proof.
  intros H Hd Hp Hr. unfold plain_dns_rule in Hp. rewrite !andb_true_iff, !negb_true_iff in Hp.
  destruct Hp as [[Hrace Htags] _].
  assert (Hb : has_bindings (dns_rule r) = MatchResponseAnonymous (dns_rule r)) by (unfold has_bindings; by rewrite Htags).
  cbn [walk_loop]. rewrite Hd, Hrace, andb_false_r, Hb.
  assert (Hgo : forall s1, Sim s1 anon o -> later s s1 -> response_ready r s1 ->
    exists s', Sim s' anon o /\ later s s' /\ response_ready r s'
     /\ (let '(anonymous, s2) := anonymousResponse done_at s1 in
         let '(matched, s3) := match_rule (dns_rule r) anonymous s2 in act r rules matched s3)
       = act r rules (eval (dns_rule r) (rule_metadata (response_of anon) ∅ md)) s').
  { intros s1 H1 Hl1 Hdone. destruct (match_on_response r rules s1 anon o H1 Hr Hdone) as (s' & ? & ? & ? & ?).
    exists s'. split; [done|]. split; [by eapply later_trans|done]. }
  destruct (MatchResponseAnonymous (dns_rule r)) eqn:Ha; cbn [andb orb negb].
  - destruct (settle_sim s anon o H) as [H1 Hl1]. set (s1 := settleDNSFutures done_at s) in *.
    assert (Hbound : bound_futures (dns_rule r) s1 = match anonymousFuture s1 with Some n => [n] | None => [] end).
    { unfold bound_futures. rewrite Ha. by destruct (MatchResponseTags (dns_rule r)). }
    rewrite Hbound. destruct (anonymousFuture s1) as [n|] eqn:En; cbn [first_pending].
    + unfold resolved. destruct (tick_sim _ _ _ H1) as [H2 Hl2].
      destruct (is_done done_at s1 n) eqn:Ed.
      * right. apply Hgo; [done|by eapply later_trans|]. intros _ m Hm. rewrite (proj2 (proj2 (proj2 Hl2))), En in Hm.
        injection Hm as <-. by apply (is_done_later s1 (tick s1) anon anon o o n H1 H2 (proj1 Hl2)).
      * left. exists (tick s1), n. split; [done|]. split; [done|]. split; [by eapply later_trans|].
        rewrite (proj2 (proj2 (proj2 Hl1))) in En. split; [done|]. apply not_true_iff_false. intros Hn.
        by rewrite (is_done_later s s1 anon anon o o n H H1 (proj1 Hl1) Hn) in Ed.
    + right. apply Hgo; [done|done|]. intros _ m Hm. by rewrite En in Hm.
  - right. apply Hgo; [done|apply later_refl|]. intros Hx. by rewrite Ha in Hx.
Qed.

(** * The walk *)

(** The futures still running of the first [len] at a moment. *)
Definition running (len m : nat) : nat := length (List.filter (fun n => negb (Nat.leb (done_at "" n) m)) (seq 0 len)).

Definition walk_outcome (rules : list DNSRule) (s : dnsRuleWalkState) (expected : exchangeWithRulesResult)
    (out : (exchangeWithRulesResult + dnsWalkSuspension) * dnsRuleWalkState) : Prop :=
  match out with
  | (inl result, _) => result = expected
  | (inr (SuspendPending p), s') =>
      p_future p = None /\ of_exchange (p_transport p) (exchange (p_transport p) (p_options p)) = expected
      /\ exists anon' o', Sim s' anon' o'
  | (inr (SuspendAwait n), s') =>
      exists k anon' o', (k < length rules)%nat /\ Sim s' anon' o' /\ ruleIndex s' = (ruleIndex s + k)%nat
        /\ answer_in_order md (drop k rules) anon' o' = expected
        /\ anonymousFuture s' = Some n /\ (moment s <= moment s')%nat /\ (length (futures s') <= length (futures s) + k)%nat
        /\ (k = 0%nat -> anonymousFuture s = Some n /\ is_done done_at s n = false)
  | (inr SuspendDrain, _) => False
  end.

(** The outcome of the rest after one rule that launched at most one evaluation. *)
Lemma walk_outcome_next r rules s s' expected out :
  (moment s <= moment s')%nat -> ruleIndex s' = ruleIndex s -> (length (futures s') <= S (length (futures s)))%nat ->
  walk_outcome rules (s' <| ruleIndex := S (ruleIndex s') |>) expected out -> walk_outcome (r :: rules) s expected out.
Proof.
  intros Hm Hi Hf. destruct out as [[result|[n| |p]] s'']; try done. cbn [walk_outcome].
  intros (k & anon' & o' & Hk & Hs & Hri & He & Ha & Hm' & Hl & _).
  exists (S k), anon', o'. cbn [length drop].
  change (ruleIndex (s' <| ruleIndex := S (ruleIndex s') |>)) with (S (ruleIndex s')) in Hri.
  change (moment (s' <| ruleIndex := S (ruleIndex s') |>)) with (moment s') in Hm'.
  change (futures (s' <| ruleIndex := S (ruleIndex s') |>)) with (futures s') in Hl.
  split; [lia|]. split; [done|]. split; [lia|]. split; [done|]. split; [done|]. split; [lia|]. split; [lia|done].
Qed.

Lemma set_index_sim s anon o i : Sim s anon o -> Sim (s <| ruleIndex := i |>) anon o.
Proof. intros []. by constructor. Qed.
Lemma set_options_sim s anon o o' : Sim s anon o -> Sim (s <| effectiveOptions := o' |>) anon o'.
Proof. intros []. by constructor. Qed.

Lemma launch_sim s anon o t o' :
  Sim s anon o ->
  let '(n, s') := launchDNSEvaluate router "" false t o' s in
  Sim (s' <| anonymousFuture := Some n |>) (Some (t, exchange t o')) o.
Proof.
  intros H. unfold launchDNSEvaluate.
  set (fs := futures s ++ [mkFuture "" false t (exchange t o') false]).
  set (s' := _ <| anonymousFuture := _ |>). destruct H. constructor; try done.
  - change (futures s') with fs. unfold fs. apply Forall_app. split; [done|]. by repeat constructor.
  - change (anonymousFuture s') with (Some (length (futures s))). split; [|done].
    unfold future_of. change (futures s') with fs. unfold fs. by rewrite list_lookup_middle.
Qed.

Lemma walk_outcome_later rules s0 s anon o expected out :
  Sim s0 anon o -> Sim s anon o -> later s0 s -> walk_outcome rules s expected out -> walk_outcome rules s0 expected out.
Proof.
  intros H0 H (Hm & Hi & Hf & Ha). destruct out as [[result|[n| |p]] s'']; try done. cbn [walk_outcome].
  intros (k & anon' & o' & Hk & Hs & Hri & He & Ha' & Hm' & Hl & Hz). exists k, anon', o'.
  split; [done|]. split; [done|]. split; [lia|]. split; [done|]. split; [done|]. split; [lia|]. split; [lia|].
  intros Hk0. destruct (Hz Hk0) as [Hz1 Hz2]. split; [by rewrite <- Ha|]. apply not_true_iff_false. intros Hd.
  by rewrite (is_done_later s0 s anon anon o o n H0 H Hm Hd) in Hz2.
Qed.

Lemma no_tag r : nonempty (MatchResponseTags r) = false -> str_empty (MatchResponseTag r) = true.
Proof. destruct r as [| | | |d m tag race|]; cbn; try done. by destruct (str_empty tag). Qed.

(** A respond action answers with the anonymous evaluation, waiting for it first. *)
Lemma respond_outcome r s anon o rules :
  Sim s anon o -> response_ready r s -> nonempty (MatchResponseTags (dns_rule r)) = false ->
  dns_action r = RuleActionRespond ->
  let expected := match anon with
                  | Some (t, inl m) => answered m (Some t)
                  | _ => failed (ENew dnsRespondMissingResponseMessage)
                  end in
  answer_in_order md (r :: rules) anon o = expected ->
  exists result s', walk_action done_at router allowFakeIP r s = (Some result, s')
    /\ walk_outcome (r :: rules) s expected (result, s').
Proof.
  intros H Hready Htags Ha expected Hexp. unfold walk_action. rewrite Ha, (sim_armed _ _ _ H), (no_tag _ Htags).
  cbn [nonempty negb].
  assert (Hb : has_bindings (dns_rule r) = MatchResponseAnonymous (dns_rule r)) by (unfold has_bindings; by rewrite Htags).
  assert (Hanswer : forall s1, Sim s1 anon o ->
    (match anonymousFuture s1 with Some n => is_done done_at s1 n = true | None => True end) ->
    exists s', (let '(response, s2) := anonymousResponse done_at s1 in
      (Some (inl (B := dnsWalkSuspension) (match response, anonymousFuture s2 with
                  | Some m, Some n => answered m (f_transport <$> futures s2 !! n)
                  | _, _ => failed (ENew dnsRespondMissingResponseMessage)
                  end)), s2)) = (Some (inl expected), s')).
  { intros s1 H1 Hd. destruct (anonymousResponse_sim s1 anon o H1) as (H2 & (_ & _ & _ & Hf) & Hresp).
    destruct (anonymousResponse done_at s1) as [response s2]. cbn [fst snd] in *. exists s2. do 3 f_equal.
    rewrite (Hresp Hd). pose proof (sim_anon _ _ _ H2) as Hs. unfold expected.
    destruct (anonymousFuture s2) as [n|]; [|by subst anon]. destruct Hs as [Hn His]. unfold future_of in Hn.
    destruct (futures s2 !! n) as [f|]; cbn in Hn; subst anon; [cbn; by destruct (f_result f)|by destruct His]. }
  rewrite Hb. destruct (MatchResponseAnonymous (dns_rule r)) eqn:Hx.
  - destruct (Hanswer s H) as [s' ->]; [destruct (anonymousFuture s) eqn:E; [by apply Hready|done]|].
    exists (inl expected), s'. by split.
  - destruct (anonymousFuture s) as [n|] eqn:En; cbn [first_pending].
    + unfold resolved. destruct (tick_sim _ _ _ H) as [Ht Hl]. destruct (is_done done_at s n) eqn:Ed.
      * destruct (Hanswer (tick s) Ht) as [s' ->].
        { change (anonymousFuture (tick s)) with (anonymousFuture s). rewrite En.
          by apply (is_done_later s (tick s) anon anon o o n H Ht (proj1 Hl)). }
        exists (inl expected), s'. by split.
      * exists (inr (SuspendAwait n)), (tick s). split; [done|]. exists 0%nat, anon, o. cbn [length drop].
        split; [lia|]. split; [done|]. rewrite Nat.add_0_r. split; [done|]. split; [done|]. split; [done|].
        destruct Hl as (? & ? & ? & ?). split; [done|]. split; [lia|]. done.
    + destruct (Hanswer s H) as [s' ->]; [by rewrite En|]. exists (inl expected), s'. by split.
Qed.

Lemma act_outcome r rules s anon o :
  (forall s1 anon1 o1, Sim s1 anon1 o1 ->
     walk_outcome rules s1 (answer_in_order md rules anon1 o1) (walk_loop done_at router allowFakeIP rules s1)) ->
  Sim s anon o -> response_ready r s -> dns_disabled r = false -> plain_dns_rule r = true ->
  walk_outcome (r :: rules) s (answer_in_order md (r :: rules) anon o)
    (act r rules (eval (dns_rule r) (rule_metadata (response_of anon) ∅ md)) s).
Proof.
  intros IH H Hready Hd Hp. unfold plain_dns_rule in Hp. rewrite !andb_true_iff, !negb_true_iff in Hp.
  destruct Hp as [[_ Htags] Htag].
  assert (Hnext : forall s1 anon1 o1, Sim s1 anon1 o1 -> (moment s <= moment s1)%nat -> ruleIndex s1 = ruleIndex s ->
    (length (futures s1) <= S (length (futures s)))%nat ->
    walk_outcome (r :: rules) s (answer_in_order md rules anon1 o1)
      (walk_loop done_at router allowFakeIP rules (s1 <| ruleIndex := S (ruleIndex s1) |>))).
  { intros s1 anon1 o1 H1 Hm Hi Hf. apply (walk_outcome_next r rules s s1); [done..|]. by apply IH, set_index_sim. }
  unfold act. cbn [answer_in_order]. rewrite Hd. cbn [orb].
  destruct (eval (dns_rule r) _) eqn:Hev; cbn [negb]; [|apply Hnext; [done|lia|done|lia]].
  destruct (dns_action r) as [server speculative a|server tag speculative a| |a|a|m] eqn:Ha.
  - unfold walk_action. rewrite Ha, (sim_options _ _ _ H), (sim_armed _ _ _ H), (sim_terminal _ _ _ H). cbn [nonempty].
    destruct (resolveDNSRoute server a allowFakeIP o) as [| |t o']; [apply Hnext; [done|lia|done|lia]..|].
    cbn [walk_outcome p_future p_transport p_options]. split; [done|]. split; [done|]. by exists anon, o.
  - unfold walk_action. rewrite Ha, (sim_options _ _ _ H), (sim_armed _ _ _ H), Htag. cbn [nonempty]. rewrite andb_false_r.
    destruct (manager_Transport server) as [t|].
    + destruct tag; [|discriminate Htag]. pose proof (launch_sim s anon o t (applyDNSRouteOptions o a) H) as Hl.
      unfold launchDNSEvaluate in *. apply Hnext; [exact Hl|done|done|].
      refine (Nat.eq_le_incl _ _ (eq_trans (length_app (futures s) [_]) _)). cbn [length]. lia.
    + apply Hnext; [|done|done|by apply Nat.le_succ_diag_r]. destruct H. by constructor.
  - destruct (respond_outcome r s anon o rules H Hready Htags Ha) as (result & s' & -> & Ho); [|done].
    cbn [answer_in_order]. by rewrite Hd, Hev, Ha.
  - unfold walk_action. rewrite Ha, (sim_options _ _ _ H). apply Hnext; [by eapply set_options_sim|done|done|apply Nat.le_succ_diag_r].
  - unfold walk_action. rewrite Ha, (sim_armed _ _ _ H). cbn [nonempty].
    destruct (reject_result router a); [done|]. apply Hnext; [done|lia|done|lia].
  - unfold walk_action. by rewrite Ha, (sim_armed _ _ _ H), (sim_options _ _ _ H).
Qed.

Lemma walk_loop_outcome rules : forall s anon o,
  Forall (fun r => plain_dns_rule r = true) rules -> Forall declares_responses rules -> Sim s anon o ->
  walk_outcome rules s (answer_in_order md rules anon o) (walk_loop done_at router allowFakeIP rules s).
Proof.
  induction rules as [|r rules IH]; intros s anon o Hp Hr H.
  - cbn [walk_loop]. rewrite (sim_armed _ _ _ H), (sim_options _ _ _ H). cbn [nonempty walk_outcome p_future p_transport p_options].
    split; [done|]. split; [done|]. by exists anon, o.
  - apply Forall_cons in Hp as [Hp Hps]. apply Forall_cons in Hr as [Hr Hrs].
    destruct (dns_disabled r) eqn:Hd.
    + cbn [walk_loop answer_in_order]. rewrite Hd. cbn [orb].
      apply (walk_outcome_next r rules s s); [lia|done|lia|]. by apply IH, set_index_sim.
    + destruct (rule_matched r rules s anon o H Hd Hp Hr) as [(s' & n & -> & Hs & Hl & Hn & Hdone)|(s' & Hs & Hl & Hready & ->)].
      * exists 0%nat, anon, o. destruct Hl as (? & ? & ? & ?). cbn [length drop].
        split; [lia|]. split; [done|]. split; [lia|]. split; [done|]. split; [congruence|]. split; [done|]. split; [lia|done].
      * eapply walk_outcome_later; [exact H|exact Hs|exact Hl|]. apply act_outcome; try done. intros. by apply IH.
Qed.

(** * Waiting *)

Lemma running_mono len m m' : (m <= m')%nat -> (running len m' <= running len m)%nat.
Proof.
  intros Hm. unfold running. induction (seq 0 len) as [|n ns IH]; [done|]. cbn [List.filter].
  destruct (Nat.leb_spec (done_at "" n) m), (Nat.leb_spec (done_at "" n) m'); cbn [negb length]; lia.
Qed.

Lemma running_grow len k m : (running (len + k) m <= running len m + k)%nat.
Proof.
  unfold running. rewrite seq_app, List.filter_app, length_app.
  pose proof (List.filter_length_le (fun n => negb (Nat.leb (done_at "" n) m)) (seq (0 + len) k)) as H.
  rewrite length_seq in H. lia.
Qed.

Lemma running_len len len' k m : (len' <= len + k)%nat -> (running len' m <= running len m + k)%nat.
Proof.
  intros H. etransitivity; [|apply running_grow]. unfold running.
  replace (len + k)%nat with (len' + (len + k - len'))%nat by lia.
  rewrite seq_app, List.filter_app, length_app. lia.
Qed.

Lemma fold_min_in ts : forall t, fold_left Nat.min ts t ∈ t :: ts.
Proof.
  induction ts as [|x ts IH]; intros t; cbn [fold_left]; [set_solver|].
  specialize (IH (Nat.min t x)). destruct (Nat.min_spec t x) as [[_ E]|[_ E]]; rewrite E in *; set_solver.
Qed.

Lemma running_less len m m' n :
  (m < m')%nat -> n ∈ seq 0 len -> (done_at "" n <= m')%nat -> (m < done_at "" n)%nat -> (running len m' < running len m)%nat.
Proof.
  intros Hm. unfold running. induction (seq 0 len) as [|x ns IH]; [set_solver|]. intros Hn Hd Hd'.
  assert (Hle : (length (List.filter (fun n => negb (Nat.leb (done_at "" n) m')) ns) <= length (List.filter (fun n => negb (Nat.leb (done_at "" n) m)) ns))%nat).
  { clear IH Hn Hd Hd'. induction ns as [|y ns IH]; [done|]. cbn [List.filter].
    destruct (Nat.leb_spec (done_at "" y) m), (Nat.leb_spec (done_at "" y) m'); cbn [negb length]; lia. }
  cbn [List.filter]. apply elem_of_cons in Hn as [<-|Hn].
  - destruct (Nat.leb_spec (done_at "" n) m), (Nat.leb_spec (done_at "" n) m'); cbn [negb length]; lia.
  - specialize (IH Hn Hd Hd').
    destruct (Nat.leb_spec (done_at "" x) m), (Nat.leb_spec (done_at "" x) m'); cbn [negb length]; lia.
Qed.

Lemma wait_sim s anon o : Sim s anon o -> Sim (wait done_at s) anon o.
Proof. intros []. by constructor. Qed.

(** Waiting ends when some future that was running is done. *)
Lemma wait_moment s anon o : Sim s anon o ->
  (moment s < moment (wait done_at s))%nat
  /\ (forall n, (n < length (futures s))%nat -> is_done done_at s n = false ->
      exists n0, n0 ∈ seq 0 (length (futures s)) /\ moment (wait done_at s) = done_at "" n0).
Proof.
  intros H. unfold wait. set (ns := List.filter _ _). set (f := fun n => done_at (future_tag s n) n).
  assert (Hf : forall n, n ∈ ns -> n ∈ seq 0 (length (futures s)) /\ f n = done_at "" n /\ (moment s < done_at "" n)%nat).
  { intros n Hn. apply list_elem_of_In, List.filter_In in Hn as [Hi Hd]. split; [by apply list_elem_of_In|].
    unfold is_done, f in *. rewrite (sim_tag _ _ _ _ H) in *. apply negb_true_iff, Nat.leb_gt in Hd. done. }
  destruct (map f ns) as [|t ts] eqn:E.
  - split; [apply Nat.lt_succ_diag_r|]. intros n Hn Hd. exfalso. assert (Hin : n ∈ ns).
    { apply list_elem_of_In, List.filter_In. split; [apply in_seq; lia|by rewrite Hd]. }
    apply map_eq_nil in E. rewrite E in Hin. set_solver.
  - change (moment _) with (fold_left Nat.min ts t) at 2.
    pose proof (fold_min_in ts t) as Hm. rewrite <- E in Hm. apply list_elem_of_In, in_map_iff in Hm as (n0 & Hm & Hi).
    destruct (Hf n0) as (Hs & Hd & Hl); [by apply list_elem_of_In|]. rewrite <- Hm, Hd. split; [done|].
    intros _ _ _. exists n0. by split.
Qed.

Lemma wait_progress s anon o n :
  Sim s anon o -> (n < length (futures s))%nat -> is_done done_at s n = false ->
  (running (length (futures s)) (moment (wait done_at (tick s))) < running (length (futures s)) (moment s))%nat.
Proof.
  intros H Hn Hd. destruct (tick_sim _ _ _ H) as [Ht (Hm & _ & Hlen & _)].
  destruct (wait_moment _ _ _ Ht) as [Hw Hp]. pose proof Hd as Hd'. unfold is_done in Hd'.
  rewrite (sim_tag _ _ _ _ H) in Hd'. apply Nat.leb_gt in Hd'.
  destruct (is_done done_at (tick s) n) eqn:E.
  - apply (running_less _ _ _ n); [lia|apply list_elem_of_In, in_seq; lia| |done].
    unfold is_done in E. rewrite (sim_tag _ _ _ _ Ht) in E. apply Nat.leb_le in E. lia.
  - rewrite Hlen in Hp. destruct (Hp n Hn E) as (n0 & H0 & Hn0).
    apply (running_less _ _ _ n0); [lia|done|lia|lia].
Qed.

(** * Resuming *)

Lemma sweep_sim s anon o : Sim s anon o ->
  exists s', sweepArmedDNSRules done_at router allowFakeIP (settleDNSFutures done_at s) = (None, s')
    /\ Sim s' anon o /\ later s s'.
Proof.
  intros H. destruct (settle_sim s anon o H) as [H1 Hl]. unfold sweepArmedDNSRules. rewrite (sim_armed _ _ _ H1).
  cbn [sweep_loop]. eexists. split; [done|]. split; [|exact Hl]. destruct H1. by constructor.
Qed.

Lemma resume_pending fuel rules p s anon o :
  Sim s anon o -> p_future p = None -> (1 <= fuel)%nat ->
  resume_loop done_at fuel router allowFakeIP rules (SuspendPending p) s
  = Ok (of_exchange (p_transport p) (exchange (p_transport p) (p_options p))).
Proof.
  intros H Hp Hf. destruct fuel as [|fuel]; [lia|]. cbn [resume_loop].
  destruct (sweep_sim s anon o H) as (s' & -> & _). unfold finishPendingExchange. by rewrite Hp.
Qed.

Lemma resume_await rules (Hp : Forall (fun r => plain_dns_rule r = true) rules) (Hr : Forall declares_responses rules) fuel :
  forall s anon o n, Sim s anon o -> anonymousFuture s = Some n -> (ruleIndex s < length rules)%nat ->
  (2 * (length rules - ruleIndex s) + running (length (futures s)) (moment s) + 1 <= fuel)%nat ->
  resume_loop done_at fuel router allowFakeIP rules (SuspendAwait n) s
  = Ok (answer_in_order md (drop (ruleIndex s) rules) anon o).
Proof.
  induction fuel as [|fuel IH]; intros s anon o n H Hn Hi Hf; [lia|]. cbn [resume_loop].
  destruct (sweep_sim s anon o H) as (s1 & -> & H1 & Hl1). unfold resolved.
  destruct (tick_sim _ _ _ H1) as [H2 Hl2]. pose proof (later_trans _ _ _ Hl1 Hl2) as (Hm & Hri & Hlen & Han).
  rewrite Hn in Han. set (s2 := tick s1) in *.
  assert (Hrun : (running (length (futures s2)) (moment s2) <= running (length (futures s)) (moment s))%nat)
    by (rewrite Hlen; by apply running_mono).
  destruct (is_done done_at s1 n) eqn:Hd.
  - unfold walkDNSRules. rewrite Hri.
    assert (Hd2 : is_done done_at s2 n = true) by (by apply (is_done_later s1 s2 anon anon o o n H1 H2 (proj1 Hl2))).
    pose proof (walk_loop_outcome (drop (ruleIndex s) rules) s2 anon o
      (Forall_drop _ _ _ Hp) (Forall_drop _ _ _ Hr) H2) as Ho.
    destruct (walk_loop _ _ _ _ s2) as [[result|[m| |p]] s3]; cbn [walk_outcome] in Ho.
    + by rewrite Ho.
    + destruct Ho as (k & anon' & o' & Hk & H3 & Hri3 & He & Hm3 & Hmm & Hl & Hz).
      rewrite length_drop in Hk. rewrite drop_drop in He. rewrite Hri in Hri3.
      assert (k <> 0%nat) by (intros ->; destruct (Hz eq_refl) as [Hz1 Hz2]; congruence).
      pose proof (running_len _ _ _ (moment s3) Hl) as Hg. pose proof (running_mono (length (futures s2)) _ _ Hmm) as Hg'.
      rewrite (IH s3 anon' o' m H3 Hm3); [by rewrite Hri3, He|lia|lia].
    + done.
    + destruct Ho as (Hpf & He & anon' & o' & H3). rewrite (resume_pending _ _ _ _ _ _ H3 Hpf); [by rewrite He|lia].
  - assert (Hnl : (n < length (futures s1))%nat).
    { pose proof (sim_anon _ _ _ H1) as Ha. change (anonymousFuture s1) with (anonymousFuture s2) in Ha. rewrite Han in Ha.
      destruct Ha as [Ha [x Hx]]. unfold future_of in Ha. rewrite Hx in Ha. apply fmap_Some in Ha as (f & Ha & _).
      by apply lookup_lt_Some in Ha. }
    pose proof (wait_progress s1 anon o n H1 Hnl Hd) as Hw. fold s2 in Hw.
    change (length (futures s1)) with (length (futures s2)) in Hw. rewrite Hlen in Hw.
    pose proof (running_mono (length (futures s)) _ _ (proj1 Hl1)) as Hmono.
    rewrite (IH (wait done_at s2) anon o n (wait_sim _ _ _ H2) Han).
    + change (ruleIndex (wait done_at s2)) with (ruleIndex s2). by rewrite Hri.
    + change (ruleIndex (wait done_at s2)) with (ruleIndex s2). lia.
    + change (ruleIndex (wait done_at s2)) with (ruleIndex s2). change (futures (wait done_at s2)) with (futures s2).
      rewrite Hlen. lia.
Qed.

(** * Theorems *)

(** C9: the answer does not depend on timing.  For rules that neither race nor name
    responses, whenever the evaluations they start finish, [exchangeWithRules]
    returns, within a number of rounds linear in the number of rules, what going
    through the rules in order and waiting for each evaluation at once gives. *)
Theorem dns_answer_independent_of_timing rules o fuel :
  Forall (fun r => plain_dns_rule r = true) rules -> Forall declares_responses rules ->
  (3 * length rules + 2 <= fuel)%nat ->
  exchangeWithRules done_at fuel router rules o md allowFakeIP = Ok (answer_in_order md rules None o).
Proof.
  intros Hp Hr Hf. unfold exchangeWithRules, walkDNSRules. change (drop (ruleIndex (walk_start o md)) rules) with rules.
  assert (H0 : Sim (walk_start o md) None o) by (by constructor).
  pose proof (walk_loop_outcome rules _ None o Hp Hr H0) as Ho.
  destruct (walk_loop _ _ _ _ _) as [[result|[n| |p]] s]; cbn [walk_outcome] in Ho.
  - by rewrite Ho.
  - destruct Ho as (k & anon' & o' & Hk & Hs & Hri & He & Hn & _ & Hl & _). cbn in Hri, Hl.
    pose proof (running_len 0 _ k (moment s) Hl) as Hrun. change (running 0 (moment s)) with 0%nat in Hrun.
    rewrite (resume_await rules Hp Hr fuel s anon' o' n Hs Hn); [by rewrite Hri, He|lia|lia].
  - done.
  - destruct Ho as (Hpf & He & anon' & o' & Hs). rewrite (resume_pending _ _ _ _ _ _ Hs Hpf); [by rewrite He|lia].
Qed.

End Proofs.

(** * Rules before the lookup, in one pass *)

Section Legacy.
Context {Env : RuleEnv} {DEnv : DNSEnv} (router : DNSRouter) (isAddress : bool).

(** What a rule's server answers; a rejected response goes on with [next]. *)
Definition ask (t : Transport) (rule : option (nat * DNSRule)) (o : DNSQueryOptions) (md : InboundContext) (next : Answered) : Answered :=
  let check := addressLimitResponseCheck rule md in
  match client_Exchange t (finalizeExchangeOptions router o) check with
  | inl m => Ok (Some m, Some t)
  | inr e => match check with Some _ => if is_rejected e then next else Err e | None => Err e end
  end.

(** The rules in order: [o0] are the options of the query, [o] those in effect. *)
Fixpoint legacy_in_order (rules : list DNSRule) (o0 o : DNSQueryOptions) (md : InboundContext) : Answered :=
  match rules with
  | [] => ask transport_Default None o md OutOfFuel
  | r :: rules' =>
      let continue := legacy_in_order rules' o0 in
      if dns_disabled r || (WithAddressLimit (dns_rule r) && negb isAddress) then continue o md
      else
        let '(matched, md) := LegacyPreMatch (dns_rule r) ((ResetRuleCache md) <| DestinationAddressMatchFromResponse := false |>) in
        if negb matched then continue o md
        else match dns_action r with
        | RuleActionDNSRoute server _ a =>
            match manager_Transport server with
            | None => continue o md
            | Some t => ask t (Some (0%nat, r)) (legacy_options o a (bool_decide (transport_Type t = DNSTypeFakeIP))) md (continue o0 md)
            end
        | RuleActionDNSRouteOptions_ a => continue (legacy_options o a false) md
        | RuleActionDNSReject a =>
            if bool_decide (Method a = RuleActionRejectMethodDefault)
            then Ok (Some (dnsRejectResponse (Reject_Rcode a) (defaultRejectRcode router)), None)
            else if bool_decide (Method a = RuleActionRejectMethodDrop) then Err ErrDrop
            else Panic "invalid memory address or nil pointer dereference"
        | RuleActionPredefined m => Ok (Some (followPredefinedCNAME m o), None)
        | RuleActionEvaluate _ _ _ _ | RuleActionRespond => continue o md
        end
  end.

(** One round of the loop from rule [i] on. *)
Definition legacy_round (rules : list DNSRule) (fuel i : nat) (o0 o : DNSQueryOptions) (md : InboundContext) : Answered :=
  let '(transport, rule, dnsOptions, md) := matchDNS_loop (drop i rules) i true isAddress o md in
  let query :=
    match transport with
    | None => Panic "invalid memory address or nil pointer dereference"
    | Some t => ask t rule dnsOptions md (exchangeLegacy_loop fuel router rules (fst <$> rule) isAddress o0 md)
    end in
  match rule with
  | Some (_, r) =>
      match dns_action r with
      | RuleActionDNSReject a =>
          if bool_decide (Method a = RuleActionRejectMethodDefault)
          then Ok (Some (dnsRejectResponse (Reject_Rcode a) (defaultRejectRcode router)), None)
          else if bool_decide (Method a = RuleActionRejectMethodDrop) then Err ErrDrop
          else query
      | RuleActionPredefined m => Ok (Some (followPredefinedCNAME m dnsOptions), None)
      | _ => query
      end
  | None => query
  end.

Lemma exchangeLegacy_loop_round fuel rules ruleIndex o md :
  exchangeLegacy_loop (S fuel) router rules ruleIndex isAddress o md
  = legacy_round rules fuel (match ruleIndex with Some i => S i | None => 0%nat end) o o md.
Proof.
  cbn [exchangeLegacy_loop]. unfold matchDNS, legacy_round.
  destruct (matchDNS_loop _ _ _ _ _ _) as [[[transport rule] dnsOptions] md'].
  destruct transport as [t|]; [|done]. unfold ask.
  destruct (client_Exchange _ _ _), (addressLimitResponseCheck rule md'); done.
Qed.

Lemma legacy_round_in_order rules fuel : forall todo i o0 o md,
  drop i rules = todo -> (length todo <= fuel)%nat -> legacy_round rules fuel i o0 o md = legacy_in_order todo o0 o md.
Proof.
  induction fuel as [fuel IHfuel] using lt_wf_ind. induction todo as [|r todo IH]; intros i o0 o md Hd Hf.
  - unfold legacy_round. rewrite Hd. cbn [matchDNS_loop legacy_in_order]. unfold ask. by destruct (client_Exchange _ _ _).
  - assert (Hd' : drop (S i) rules = todo) by (replace (S i) with (i + 1)%nat by lia; by rewrite <- drop_drop, Hd).
    assert (Hnext : forall o md, legacy_round rules fuel (S i) o0 o md = legacy_in_order todo o0 o md)
      by (intros; apply IH; [done|cbn in Hf; lia]).
    unfold legacy_round. rewrite Hd. cbn [matchDNS_loop legacy_in_order].
    unfold legacy_round in Hnext. rewrite Hd' in Hnext.
    destruct (dns_disabled r); cbn [orb]; [apply Hnext|].
    destruct (WithAddressLimit (dns_rule r) && negb isAddress); [apply Hnext|].
    destruct (LegacyPreMatch _ _) as [[] md1]; cbn [negb]; [|apply Hnext].
    destruct (dns_action r) as [server spec a|server tag spec a| |a|a|m] eqn:Ha; try apply Hnext.
    + destruct (manager_Transport server) as [t|]; [|apply Hnext]. rewrite andb_false_r, Ha. unfold ask.
      change (addressLimitResponseCheck (Some (i, r)) md1) with (addressLimitResponseCheck (Some (0%nat, r)) md1).
      destruct (client_Exchange _ _ _) as [m|e]; [done|]. destruct (addressLimitResponseCheck _ _); [|done].
      destruct (is_rejected e); [|done]. destruct fuel as [|fuel]; [cbn in Hf; lia|].
      cbn [fmap option_fmap option_map fst]. rewrite exchangeLegacy_loop_round. apply IHfuel; [lia|done|cbn in Hf; lia].
    + by rewrite Ha.
    + by rewrite Ha.
Qed.

(** C10: matching before the lookup takes one pass.  [exchangeLegacy] terminates, and
    answers as going once through the rules in order does: a response the address
    limit of its rule rejects moves on to the rules after it, with the options of
    the query. *)
Theorem exchangeLegacy_one_pass rules o md :
  exchangeLegacy router rules isAddress o md = legacy_in_order rules o o md.
Proof.
  unfold exchangeLegacy. rewrite exchangeLegacy_loop_round. by apply legacy_round_in_order.
Qed.

End Legacy.

(** * Evaluations *)

#[local] Existing Instance example_env.

(** Servers by name: [limited] has every checked response rejected, the others
    answer with a code that tells whether the cache was disabled. *)
Definition example_dns : DNSEnv := {|
  Transport := string;
  transport_Type _ := "udp";
  manager_Transport tag := if inb tag ["local"; "remote"; "limited"] then Some tag else None;
  transport_Default := "local";
  client_Exchange t o check :=
    match check with
    | Some _ => inr ErrResponseRejected
    | None => inl (mkMsg (if DisableCache o then 1 else 0) [RR_A (if bool_decide (t = "local") then [1] else [2])] [] [])
    end;
  followPredefinedCNAME m _ := m;
|}.
#[local] Existing Instance example_dns.

Definition query_options : DNSQueryOptions := mkDNSQueryOptions 0 0 false false None 0 zeroPrefix false.
Definition no_dns_options : RuleActionDNSRouteOptions := mkDNSRouteOptions 0 0 false false None zeroPrefix false.
Definition example_dns_router : DNSRouter := mkDNSRouter 0 (-1).

Definition always_dns (a : DNSRuleAction) : DNSRule :=
  mkDNSRule (DefaultDNSRule (example_default [] [] [] None false) false "" false) a false.
Definition on_response (tag : string) (a : DNSRuleAction) : DNSRule :=
  mkDNSRule (DefaultDNSRule (example_default [] [] [] None false) true tag false) a false.

Definition evaluating_rules : list DNSRule :=
  [always_dns (RuleActionEvaluate "remote" "" false no_dns_options); on_response "" RuleActionRespond].

Lemma always_dns_declares a : declares_responses (always_dns a).
Proof. intros _ r r' md. reflexivity. Qed.

(** The answer of the remote server comes back however long it takes. *)
Lemma dns_answer_independent_of_timing_witness :
  exchangeWithRules (fun _ _ => 7%nat) 8 example_dns_router evaluating_rules query_options (example_query "example.org") true
  = Ok (answered (mkMsg 0 [RR_A [2]] [] []) (Some "remote")).
Proof.
  refine (eq_trans (dns_answer_independent_of_timing example_dns_router true (fun _ _ => 7%nat) (example_query "example.org")
    eq_refl evaluating_rules query_options 8 _ _ _) _).
  - repeat constructor.
  - constructor; [apply always_dns_declares|]. constructor; [intros H; discriminate H|constructor].
  - cbn. lia.
  - reflexivity.
Defined.

(** * Limits *)

Definition first_answer (r : res exchangeWithRulesResult) : option (list RR) :=
  match r with Ok r => RuleContext.Answer <$> er_response r | _ => None end.

(** A named response is missed when it arrives between the collection of finished
    evaluations and the test whether to wait for it: the rule that responds with it
    does not match, and the default server answers. *)
Example named_response_missed :
  let rules := [always_dns (RuleActionEvaluate "remote" "named" false no_dns_options); on_response "named" RuleActionRespond] in
  let run delay := first_answer (exchangeWithRules (fun _ _ => delay) 8 example_dns_router rules query_options (example_query "example.org") true) in
  run 0%nat = Some [RR_A [2]] /\ run 1%nat = Some [RR_A [1]] /\ run 2%nat = Some [RR_A [2]].
Proof. repeat split; vm_compute; reflexivity. Qed.

(** A rejected response drops the options set before its rule. *)
Definition limited_rule : DNSRule :=
  mkDNSRule (DefaultDNSRule (example_default [] [] [address_item 0x08080808] None false) false "" false)
    (RuleActionDNSRoute "limited" false no_dns_options) false.
Example options_lost_on_retry :
  let no_cache := always_dns (RuleActionDNSRouteOptions_ (no_dns_options <| ro_DisableCache := true |>)) in
  let code rules := match exchangeLegacy example_dns_router rules true query_options (example_query "example.org") with
                    | Ok (Some m, _) => Some (Rcode m) | _ => None end in
  code [no_cache; always_dns (RuleActionDNSRoute "remote" false no_dns_options)] = Some 1
  /\ code [no_cache; limited_rule; always_dns (RuleActionDNSRoute "remote" false no_dns_options)] = Some 0.
Proof. split; vm_compute; reflexivity. Qed.
