(* ===== verification/DNSMessage.v ===== *)
(** DNS messages as the client changes them: src/dns/client.go (lifetimes, rotation
    of answers, fixed responses, cache keys) and extension_edns0_subnet.go (client
    subnets), over the messages of github.com/miekg/dns. *)

From S2P Require Import Prelude NetAddr GoStrings RuleContext DNSRouter CacheFile.

(** * Messages of github.com/miekg/dns *)

Definition TypeCNAME : Z := 5.
Definition TypeOPT : Z := 41.
Definition ClassINET : Z := 1.
Definition RcodeFormatError : Z := 1.
Definition RcodeNameError : Z := 3.
Definition EDNS0SUBNET : Z := 8.
Definition EDNS0PADDING : Z := 12.
Definition SVCB_IPV4HINT : Z := 4.
Definition SVCB_IPV6HINT : Z := 6.

Inductive EDNS0 :=
| EDNS0_SUBNET (Family SourceNetmask : Z) (Address : list Z)
| EDNS0_Other (code : Z) (data : list Z).
Definition EDNS0_Option (o : EDNS0) : Z := match o with EDNS0_SUBNET _ _ _ => EDNS0SUBNET | EDNS0_Other code _ => code end.

(** The data of a record, by its Go type. *)
Inductive RData :=
| Data_A (a : list Z)
| Data_AAAA (a : list Z)
| Data_SOA (Minttl : Z)
| Data_OPT (options : list EDNS0)
| Data_HTTPS (values : list SVCBKeyValue)
| Data_CNAME (Target : string)
| Data_TXT (Txt : list string)
| Data_MX (Preference : Z) (Mx : string)
| Data_Other (content : list Z).

(** A record with its header. *)
Record Record_ := mkRecord { Hdr_Name : string; Hdr_Rrtype : Z; Hdr_Class : Z; Hdr_Ttl : Z; Hdr_Data : RData }.

Record Question := mkQuestion { q_Name : string; q_Qtype : Z; q_Qclass : Z }.
#[export] Instance Question_eq_dec : EqDecision Question.
Proof. solve_decision. Defined.
#[export] Instance Question_countable : Countable Question :=
  inj_countable' (fun q => (q_Name q, q_Qtype q, q_Qclass q)) (fun '(n, t, c) => mkQuestion n t c) ltac:(by intros []).

Record Message := mkMessage {
  m_Id : Z;
  m_Response : bool;
  m_Authoritative : bool;
  m_RecursionDesired : bool;
  m_RecursionAvailable : bool;
  m_Rcode : Z;
  m_Question : list Question;
  m_Answer : list Record_;
  m_Ns : list Record_;
  m_Extra : list Record_;
}.

Definition is_OPT (r : Record_) : bool := match Hdr_Data r with Data_OPT _ => true | _ => false end.

Definition SVCB_Key (v : SVCBKeyValue) : Z :=
  match v with SVCBIPv4Hint _ => SVCB_IPV4HINT | SVCBIPv6Hint _ => SVCB_IPV6HINT | SVCBOther key => key end.

(** The message as rules see it. *)
Definition to_RR (r : Record_) : RR :=
  match Hdr_Data r with
  | Data_A a => RR_A a
  | Data_AAAA a => RR_AAAA a
  | Data_HTTPS values => RR_HTTPS values
  | _ => RR_Other (Hdr_Rrtype r) ""
  end.
Definition to_Msg (m : Message) : Msg := mkMsg (m_Rcode m) (map to_RR (m_Answer m)) (map to_RR (m_Ns m)) (map to_RR (m_Extra m)).

(** [Msg.IsEdns0]: the last record of type OPT *)
Definition IsEdns0 (m : Message) : option Record_ := List.find (fun r => Hdr_Rrtype r =? TypeOPT) (rev (m_Extra m)).
Definition OPT_Version (r : Record_) : Z := Z.shiftr (Z.land (Hdr_Ttl r) 0x00FF0000) 16.
Definition OPT_Do (r : Record_) : bool := Z.land (Hdr_Ttl r) 0x8000 =? 0x8000.
(** [Msg.SetEdns0] *)
Definition SetEdns0 (m : Message) (udpsize : Z) (do : bool) : Message :=
  m <| m_Extra := m_Extra m ++ [mkRecord "." TypeOPT udpsize (if do then 0x8000 else 0) (Data_OPT [])] |>.

Definition FixedResponseStatus (message : Message) (rcode : Z) : Message :=
  mkMessage (m_Id message) true true true true rcode (m_Question message) [] [] [].

(** Responses of predefined records or of hosts. *)
Definition fixed_answer (id : Z) (question : Question) (answer : list Record_) : Message :=
  mkMessage id true true true true RcodeSuccess [question] answer [] [].
Definition address_record (question : Question) (timeToLive : Z) (address : Addr) : list Record_ :=
  if Is4 address && (q_Qtype question =? TypeA)
  then [mkRecord (q_Name question) TypeA ClassINET timeToLive (Data_A (AsSlice address))]
  else if Is6 address && (q_Qtype question =? TypeAAAA)
  then [mkRecord (q_Name question) TypeAAAA ClassINET timeToLive (Data_AAAA (AsSlice address))]
  else [].
Definition FixedResponse (id : Z) (question : Question) (addresses : list Addr) (timeToLive : Z) : Message :=
  fixed_answer id question (concat (map (address_record question timeToLive) addresses)).
Definition FixedResponseCNAME (id : Z) (question : Question) (record : string) (timeToLive : Z) : Message :=
  fixed_answer id question [mkRecord (q_Name question) TypeCNAME ClassINET timeToLive (Data_CNAME record)].
Definition FixedResponseTXT (id : Z) (question : Question) (records : list string) (timeToLive : Z) : Message :=
  fixed_answer id question [mkRecord (q_Name question) TypeA ClassINET timeToLive (Data_TXT records)].
Definition FixedResponseMX (id : Z) (question : Question) (records : list (Z * string)) (timeToLive : Z) : Message :=
  fixed_answer id question
    (map (fun '(pref, host) => mkRecord (q_Name question) TypeA ClassINET timeToLive (Data_MX pref host)) records).

(** * Client subnets *)

Fixpoint subnet_option (options : list EDNS0) : option (Z * list Z) :=
  match options with
  | [] => None
  | EDNS0_SUBNET _ mask address :: _ => Some (mask, address)
  | _ :: options' => subnet_option options'
  end.

Fixpoint clientSubnetFromMessage_loop (extra : list Record_) : Prefix :=
  match extra with
  | [] => zeroPrefix
  | r :: extra' =>
      match Hdr_Data r with
      | Data_OPT options =>
          match subnet_option options with
          | Some (mask, address) =>
              match AddrFromSlice address with
              | Some a => PrefixFrom (Unmap a) mask
              | None => zeroPrefix
              end
          | None => clientSubnetFromMessage_loop extra'
          end
      | _ => clientSubnetFromMessage_loop extra'
      end
  end.
Definition clientSubnetFromMessage (message : Message) : Prefix := clientSubnetFromMessage_loop (m_Extra message).

Definition filter_options (keep : EDNS0 -> bool) (r : Record_) : Record_ :=
  match Hdr_Data r with Data_OPT options => r <| Hdr_Data := Data_OPT (List.filter keep options) |> | _ => r end.

Definition removeClientSubnet (message : Message) : Message :=
  message <| m_Extra := map (filter_options (fun o => negb (EDNS0_Option o =? EDNS0SUBNET))) (m_Extra message) |>.

(** What the loop [findExists] ends with: the record at a position, and whether it
    has a subnet option; no record if the last one looked at is no OPT record. *)
Fixpoint findExists (extra : list Record_) (i : nat) (found : option nat) : option nat * bool :=
  match extra with
  | [] => (found, false)
  | r :: extra' =>
      match Hdr_Data r with
      | Data_OPT options =>
          match subnet_option options with
          | Some _ => (Some i, true)
          | None => findExists extra' (S i) (Some i)
          end
      | _ => findExists extra' (S i) None
      end
  end.

Definition new_subnet (p : Prefix) : EDNS0 := EDNS0_SUBNET (if Is4 (ip p) then 1 else 2) (u8 (Bits p)) (AsSlice (ip p)).

(** The first subnet option is replaced. *)
Fixpoint replace_subnet (p : Prefix) (options : list EDNS0) : list EDNS0 :=
  match options with
  | [] => []
  | EDNS0_SUBNET _ _ _ :: options' => new_subnet p :: options'
  | o :: options' => o :: replace_subnet p options'
  end.

Definition SetClientSubnet (message : Message) (p : Prefix) : Message :=
  match findExists (m_Extra message) 0 None with
  | (None, _) => message <| m_Extra := m_Extra message ++ [mkRecord "." TypeOPT 0 0 (Data_OPT [new_subnet p])] |>
  | (Some i, exists_) =>
      let change r :=
        match Hdr_Data r with
        | Data_OPT options => r <| Hdr_Data := Data_OPT (if exists_ then replace_subnet p options else options ++ [new_subnet p]) |>
        | _ => r
        end in
      message <| m_Extra := alter change i (m_Extra message) |>
  end.

(** * Lifetimes *)

Fixpoint extractNegativeTTL (ns : list Record_) : option Z :=
  match ns with
  | [] => None
  | r :: ns' =>
      match Hdr_Data r with
      | Data_SOA soaMinimum => Some (if Hdr_Ttl r <? soaMinimum then Hdr_Ttl r else soaMinimum)
      | _ => extractNegativeTTL ns'
      end
  end.

(** The loop over the three lists. *)
Fixpoint ttl_loop (records : list Record_) (timeToLive : Z) : Z :=
  match records with
  | [] => timeToLive
  | r :: records' =>
      if Hdr_Rrtype r =? TypeOPT then ttl_loop records' timeToLive
      else if (timeToLive =? 0) || ((0 <? Hdr_Ttl r) && (Hdr_Ttl r <? timeToLive)) then ttl_loop records' (Hdr_Ttl r)
      else ttl_loop records' timeToLive
  end.

Definition all_records (m : Message) : list Record_ := m_Answer m ++ m_Ns m ++ m_Extra m.

Definition computeTimeToLive (response : Message) : Z :=
  match (if nonempty (m_Answer response) then None else extractNegativeTTL (m_Ns response)) with
  | Some soaTTL => soaTTL
  | None => ttl_loop (all_records response) 0
  end.

Definition set_ttl (timeToLive : Z) (r : Record_) : Record_ := if Hdr_Rrtype r =? TypeOPT then r else r <| Hdr_Ttl := timeToLive |>.
Definition map_records (f : Record_ -> Record_) (m : Message) : Message :=
  m <| m_Answer := map f (m_Answer m) |> <| m_Ns := map f (m_Ns m) |> <| m_Extra := map f (m_Extra m) |>.
Definition normalizeTTL (response : Message) (timeToLive : Z) : Message := map_records (set_ttl timeToLive) response.

(** * Round robin *)

(** [steps % int32(len(slice))], then the two parts of the slice. *)
Definition rem32 (a b : Z) : res Z := if b =? 0 then Panic "integer divide by zero" else Ok (Z.rem a b).
Definition reverseRotateSlice {A} (l : list A) (steps : Z) : res (list A) :=
  if zlen l <=? 1 then Ok l
  else
    let! steps := rem32 steps (int32 (zlen l)) in
    let! front := slice_from l (zlen l - steps) in
    let! back := slice l 0 (zlen l - steps) in
    Ok (front ++ back).

Definition removeAnswersOfType (answers : list Record_) (rrType : Z) : list Record_ :=
  List.filter (fun r => negb (Hdr_Rrtype r =? rrType)) answers.

Definition is_A (r : Record_) : bool := match Hdr_Data r with Data_A _ => true | _ => false end.
Definition is_AAAA (r : Record_) : bool := match Hdr_Data r with Data_AAAA _ => true | _ => false end.

Record dnsMsg := mkDnsMsg { ipv4Index : Z; ipv6Index : Z; msg : Message }.

(** One kind of records: the next index, and the answers with them rotated. *)
Definition rotate (index : Z) (records : list Record_) (rrType : Z) (answers : list Record_) : res (Z * list Record_) :=
  if 1 <? zlen records then
    let! newIndex := rem32 (int32 (index + 1)) (int32 (zlen records)) in
    let! rotated := reverseRotateSlice records newIndex in
    Ok (newIndex, removeAnswersOfType answers rrType ++ rotated)
  else Ok (index, answers).

Definition applyRoundRobin (dm : dnsMsg) (m : Message) : res (dnsMsg * Message) :=
  let ipv4Answers := List.filter is_A (m_Answer m) in
  let ipv6Answers := List.filter is_AAAA (m_Answer m) in
  let! ' (i4, answers) := rotate (ipv4Index dm) ipv4Answers TypeA (m_Answer m) in
  let! ' (i6, answers) := rotate (ipv6Index dm) ipv6Answers TypeAAAA answers in
  Ok (dm <| ipv4Index := i4 |> <| ipv6Index := i6 |>, m <| m_Answer := answers |>).

Definition RoundRobin (dm : dnsMsg) : res (dnsMsg * Message) := applyRoundRobin dm (msg dm).

(** * Keys *)

(** A transport: its environment, if its answers depend on one. *)
Record DNSTransport := mkDNSTransport { t_Tag : string; t_Environment : option (list string) }.

Record dnsCacheKey := mkCacheKey {
  k_Question : Question;
  k_transportTag : string;
  k_clientSubnet : Prefix;
  k_environment : Z;
}.
#[export] Instance dnsCacheKey_eq_dec : EqDecision dnsCacheKey.
Proof. solve_decision. Defined.
#[export] Instance dnsCacheKey_countable : Countable dnsCacheKey :=
  inj_countable' (fun k => (k_Question k, k_transportTag k, ip (k_clientSubnet k), bitsPlusOne (k_clientSubnet k), k_environment k))
    (fun '(q, t, a, b, e) => mkCacheKey q t (mkPrefix a b) e) ltac:(by intros [?? [] ?]).

(** [strconv.FormatUint] *)
Definition digit_of (d : Z) : Ascii.ascii := byte_ascii (if d <? 10 then 48 + d else 87 + d).
Fixpoint format_digits (fuel : nat) (base n : Z) : list Ascii.ascii :=
  match fuel with
  | O => []
  | S f => (if n <? base then [] else format_digits f base (n / base)) ++ [digit_of (n mod base)]
  end.
Definition FormatUint (n base : Z) : string := of_chars (format_digits 64 base n).

(** [netip.Addr.String] and [Prefix.String] *)
Definition string4 (a : Z) : string :=
  FormatUint (Z.land (Z.shiftr a 24) 255) 10 +:+ "." +:+ FormatUint (Z.land (Z.shiftr a 16) 255) 10 +:+ "."
  +:+ FormatUint (Z.land (Z.shiftr a 8) 255) 10 +:+ "." +:+ FormatUint (Z.land a 255) 10.
Definition group16 (a : Z) (i : nat) : Z := Z.land (Z.shiftr a (16 * (7 - Z.of_nat i))) 0xffff.
Fixpoint zero_run (groups : list Z) : nat := match groups with 0 :: groups' => S (zero_run groups') | _ => 0 end.
Fixpoint longest_zeros (groups : list Z) (i start run : nat) : nat * nat :=
  match groups with
  | [] => (start, run)
  | _ :: groups' =>
      let l := zero_run groups in
      if (2 <=? l)%nat && (run <? l)%nat then longest_zeros groups' (S i) i l else longest_zeros groups' (S i) start run
  end.
Fixpoint hex_groups (groups : list Z) (sep : bool) : string :=
  match groups with
  | [] => ""
  | g :: groups' => (if sep then ":" else "") +:+ FormatUint g 16 +:+ hex_groups groups' true
  end.
Definition string6 (a : Z) : string :=
  let groups := map (group16 a) (seq 0 8) in
  let '(start, run) := longest_zeros groups 0 8 0 in
  if (run =? 0)%nat then hex_groups groups false
  else hex_groups (take start groups) false +:+ "::" +:+ hex_groups (drop (start + run) groups) false.
Definition Addr_String (a : Addr) : string :=
  match z a with
  | z0 => "invalid IP"
  | z4 => string4 (addr a)
  | z6 zone =>
      (if Is4In6 a then "::ffff:" +:+ string4 (addr a) else string6 (addr a)) +:+ (if bool_decide (zone = "") then "" else "%" +:+ zone)
  end.
Definition Prefix_String (p : Prefix) : string :=
  if negb (Prefix_IsValid p) then "invalid Prefix" else Addr_String (ip p) +:+ "/" +:+ FormatUint (Bits p) 10.

Definition separator (b : Z) : string := String (byte_ascii b) "".
Definition persistentName (k : dnsCacheKey) : string :=
  let name := k_transportTag k in
  let name := if Prefix_IsValid (k_clientSubnet k) then name +:+ separator 0 +:+ Prefix_String (k_clientSubnet k) else name in
  if negb (k_environment k =? 0) then name +:+ separator 1 +:+ FormatUint (k_environment k) 36 else name.
(** The key in the cache file, which has no class. *)
Definition store_key (k : dnsCacheKey) : saveCacheKey :=
  mkSaveCacheKey (persistentName k) (q_Name (k_Question k)) (q_Qtype (k_Question k)).

(** [hash/fnv]: the 64-bit FNV-1a hash *)
Definition fnv64a (l : list Z) : Z :=
  fold_left (fun h b => u64 (Z.lxor h b * 1099511628211)) l 14695981039346656037.

Definition environmentHash (networkEnvironment : Z) (t : DNSTransport) : Z :=
  match t_Environment t with
  | None => 0
  | Some [] => networkEnvironment
  | Some environment => fnv64a (concat (map (fun e => bytes_of_string e ++ [0]) environment) ++ be_split 8 networkEnvironment)
  end.

