(* ===== verification/DNSClient.v ===== *)
(** The DNS client: [Client] of src/dns/client.go.

    A query is answered from the cache or by its transport; queries for the same
    key wait for each other, and stale answers are refreshed in the background.
    Operations take the time and the network environment as arguments.  A cached
    message is an object with two counters, so the cache holds references into
    [st_heap].  [ClientEnv] has the LRU cache and the wire format, [AnswerStore] what
    the client relies on in the cache file.  Concurrent queries are the calls of a
    [client_world], each going on by the steps between which others may run. *)

From S2P Require Import Prelude NetAddr GoStrings RuleContext DNSRouter CacheFile DNSMessage.

(** * The cache in memory and the wire format *)

(** Records of a type have its data, lifetimes fit 32 bits, and the answers are counted
    by 16 bits. *)
Definition wf_record (r : Record_) : Prop :=
  is_A r = (Hdr_Rrtype r =? TypeA) /\ is_AAAA r = (Hdr_Rrtype r =? TypeAAAA) /\ is_OPT r = (Hdr_Rrtype r =? TypeOPT) /\ is_u 32 (Hdr_Ttl r)
  /\ match Hdr_Data r with Data_SOA minttl => is_u 32 minttl | _ => True end.
Definition wf_message (m : Message) : Prop := Forall wf_record (all_records m) /\ is_u 16 (zlen (m_Answer m)).

(** [lru_lookup] is what the cache of github.com/sagernet/sing/contrab/freelru holds
    for a key, an object and its expiry, which reading does not change; adding may
    drop other entries.  An entry with a lifetime expires at its end, cut to
    milliseconds.  [Pack] and [Unpack] are those of github.com/miekg/dns. *)
Class ClientEnv := {
  LRU : Type;
  lru_new : LRU;
  lru_Get : dnsCacheKey -> LRU -> LRU;
  lru_lookup : LRU -> dnsCacheKey -> option (nat * Z);
  lru_Add : dnsCacheKey -> nat -> option (Z * Z) -> LRU -> LRU;
  lru_Remove : dnsCacheKey -> LRU -> LRU;
  Pack : Message -> option (list Z);
  Unpack : list Z -> option Message;
  dns_IsFqdn : string -> bool;
  dns_Fqdn : string -> string;

  lru_Get_law : forall k k' c, lru_lookup (lru_Get k c) k' = lru_lookup c k';
  lru_new_law : forall k, lru_lookup lru_new k = None;
  lru_Add_law : forall k v life c, exists e,
    lru_lookup (lru_Add k v life c) k = Some (v, e)
    /\ match life with Some (now, lifetime) => now + lifetime - 1000000 < e <= now + lifetime | None => True end;
  lru_Add_other : forall k k' v life c x, k <> k' -> lru_lookup (lru_Add k v life c) k' = Some x -> lru_lookup c k' = Some x;
  lru_Remove_law : forall k k' c x, lru_lookup (lru_Remove k c) k' = Some x -> k <> k' /\ lru_lookup c k' = Some x;
  Unpack_wf : forall raw m, Unpack raw = Some m -> wf_message m;
}.

(** * The cache file, as the client sees it *)

(** After an operation there is no answer and no rejection that was not there before. *)
Definition no_more {S} (holds : S -> saveCacheKey -> list Z * Z -> Prop) (rejects : S -> saveCacheKey -> Prop) (s s' : S) : Prop :=
  forall k, key_ok k -> (forall x, holds s' k x -> holds s k x) /\ (rejects s' k -> rejects s k).

(** [as_holds s k x] says that the answer [x] may be loaded for [k] if nothing else
    is saved, and [as_rejects s k] that a rejection may.  Both grow by saving only;
    [as_later] is what the goroutines and cleanups of the file do in between. *)
Class AnswerStore := {
  AS : Type;
  as_LoadDNSCache : AS -> saveCacheKey -> option (list Z * Z) * AS;
  as_SaveDNSCacheAsync : AS -> saveCacheKey -> list Z -> Z -> AS;
  as_DeleteDNSCache : AS -> saveCacheKey -> list Z -> AS;
  as_ClearDNSCache : AS -> AS;
  as_LoadRDRC : AS -> Z -> saveCacheKey -> bool * AS;
  as_SaveRDRCAsync : AS -> saveCacheKey -> AS;
  as_later : AS -> AS -> Prop;
  as_holds : AS -> saveCacheKey -> list Z * Z -> Prop;
  as_rejects : AS -> saveCacheKey -> Prop;

  as_Load_law : forall s k, key_ok k ->
    no_more as_holds as_rejects s (snd (as_LoadDNSCache s k)) /\ forall x, fst (as_LoadDNSCache s k) = Some x -> as_holds s k x;
  as_Save_law : forall s k raw e k', key_ok k -> key_ok k' ->
    (forall x, as_holds (as_SaveDNSCacheAsync s k raw e) k' x ->
       as_holds s k' x \/ k' = k /\ fst x = raw /\ (snd x = e \/ snd x = trunc e))
    /\ (as_rejects (as_SaveDNSCacheAsync s k raw e) k' -> as_rejects s k');
  as_Load_Save : forall s k raw e, fst (as_LoadDNSCache (as_SaveDNSCacheAsync s k raw e) k) = Some (raw, e);
  as_Delete_law : forall s k raw, key_ok k -> no_more as_holds as_rejects s (as_DeleteDNSCache s k raw);
  as_Clear_law : forall s, no_more as_holds as_rejects s (as_ClearDNSCache s);
  as_LoadRDRC_law : forall s now k, key_ok k ->
    no_more as_holds as_rejects s (snd (as_LoadRDRC s now k)) /\ (fst (as_LoadRDRC s now k) = true -> as_rejects s k);
  as_SaveRDRC_law : forall s k k', key_ok k -> key_ok k' ->
    (forall x, as_holds (as_SaveRDRCAsync s k) k' x -> as_holds s k' x)
    /\ (as_rejects (as_SaveRDRCAsync s k) k' -> as_rejects s k' \/ k' = k);
  as_later_law : forall s s', as_later s s' -> no_more as_holds as_rejects s s';
}.

(** * The client *)

(** The fields of [Client] after [Start]. *)
Record Client := mkClient {
  c_disableCache : bool;
  c_disableExpire : bool;
  c_optimisticTimeout : Z;
  c_roundRobinCache : bool;
  c_minCacheTTL : Z;
  c_maxCacheTTL : Z;
  c_clientSubnet : Prefix;
  c_dnsCache : bool;   (* answers are kept in the cache file *)
  c_rdrc : bool;       (* so are rejections *)
}.

(** What [NewClient] makes of the options. *)
Definition NewClient (c : Client) : Client :=
  if (0 <? c_maxCacheTTL c) && (c_maxCacheTTL c <? c_minCacheTTL c) then c <| c_maxCacheTTL := c_minCacheTTL c |> else c.

Definition newCacheKey (c : Client) (networkEnvironment : Z) (t : DNSTransport) (question : Question) (message : Message)
    (o : DNSQueryOptions) : dnsCacheKey :=
  let clientSubnet :=
    if RemoveClientSubnet o then zeroPrefix
    else if Prefix_IsValid (ClientSubnet o) then ClientSubnet o
    else if Prefix_IsValid (c_clientSubnet c) then c_clientSubnet c
    else clientSubnetFromMessage message in
  mkCacheKey question (t_Tag t) clientSubnet (environmentHash networkEnvironment t).

Definition finishCacheKey (networkEnvironment : Z) (t : DNSTransport) (key : dnsCacheKey) : option dnsCacheKey :=
  let environment := environmentHash networkEnvironment t in
  if (environment =? k_environment key) || (k_environment key =? 0) then Some (key <| k_environment := environment |>) else None.

Section Client.
Context {CEnv : ClientEnv} {Store : AnswerStore}.

(** A channel is known by its number; [st_closed] says which are closed. *)
Record ClientState := mkClientState {
  st_heap : list dnsMsg;
  st_cache : LRU;
  st_roundRobinIndex : LRU;
  st_file : AS;
  st_cacheLock : gmap dnsCacheKey nat;
  st_closed : list bool;
  st_backgroundRefresh : gset dnsCacheKey;
}.
Definition started (file : AS) : ClientState := mkClientState [] lru_new lru_new file ∅ [] ∅.

(** ** Cache *)

Definition storeCache (c : Client) (now : Z) (key : dnsCacheKey) (message : Message) (timeToLive : Z) (st : ClientState) : ClientState :=
  if timeToLive =? 0 then st
  else if c_dnsCache c then
    match Pack message with
    | Some packed => st <| st_file := as_SaveDNSCacheAsync (st_file st) (store_key key) packed (now + second * timeToLive) |>
    | None => st
    end
  else if c_disableCache c then st
  else
    let life := if c_disableExpire c then None else Some (now, second * timeToLive) in
    st <| st_heap := st_heap st ++ [mkDnsMsg 0 0 message] |>
       <| st_cache := lru_Add key (length (st_heap st)) life (st_cache st) |>.

(** A copy of the message of an object, whose counters go on if answers rotate. *)
Definition getRoundRobin (c : Client) (response : nat) (st : ClientState) : res (Message * ClientState) :=
  match st_heap st !! response with
  | None => Panic "invalid memory address"
  | Some dm =>
      if c_roundRobinCache c then
        let! ' (dm, rotatedMsg) := RoundRobin dm in Ok (rotatedMsg, st <| st_heap := <[response := dm]> (st_heap st) |>)
      else Ok (msg dm, st)
  end.

(** [max(int(expireAt.Sub(timeNow).Seconds()), 0)] *)
Definition nowTTL (expireAt timeNow : Z) : Z := Z.max (Z.quot (expireAt - timeNow) second) 0.

(** What an expiry means: the lifetime to show and whether the answer is stale, or
    nothing if it may not be used any more. *)
Definition aged (c : Client) (timeNow expireAt : Z) : option (Z * bool) :=
  if expireAt <? timeNow then
    if (0 <? c_optimisticTimeout c) && (timeNow <? expireAt + c_optimisticTimeout c) then Some (1, true) else None
  else Some (nowTTL expireAt timeNow, false).

Definition loadPersistentResponse (c : Client) (now : Z) (key : dnsCacheKey) (st : ClientState) : option (Message * bool) * ClientState :=
  let '(r, file) := as_LoadDNSCache (st_file st) (store_key key) in
  let st := st <| st_file := file |> in
  match r with
  | None => (None, st)
  | Some (rawMessage, expireAt) =>
      match Unpack rawMessage with
      | None => (None, st <| st_file := as_DeleteDNSCache (st_file st) (store_key key) rawMessage |>)
      | Some response =>
          if c_disableExpire c then (Some (response, false), st)
          else match aged c now expireAt with
               | Some (ttl, isStale) => (Some (normalizeTTL response ttl, isStale), st)
               | None => (None, st)
               end
      end
  end.

(** The counters for the answers of the file, made when first needed. *)
Definition emptyMessage : Message := mkMessage 0 false false false false 0 [] [] [] [].
Definition round_robin_state (key : dnsCacheKey) (st : ClientState) : nat * ClientState :=
  match lru_lookup (st_roundRobinIndex st) key with
  | Some (state, _) => (state, st <| st_roundRobinIndex := lru_Get key (st_roundRobinIndex st) |>)
  | None =>
      let state := length (st_heap st) in
      (state, st <| st_heap := st_heap st ++ [mkDnsMsg 0 0 emptyMessage] |>
                 <| st_roundRobinIndex := lru_Add key state None (st_roundRobinIndex st) |>)
  end.
Definition rotate_persistent (key : dnsCacheKey) (response : Message) (st : ClientState) : res (Message * ClientState) :=
  let '(state, st) := round_robin_state key st in
  match st_heap st !! state with
  | Some dm => let! ' (dm, response) := applyRoundRobin dm response in Ok (response, st <| st_heap := <[state := dm]> (st_heap st) |>)
  | None => Panic "invalid memory address"
  end.

(** The response, whether it is stale, and the state. *)
Definition loadResponse (c : Client) (now : Z) (key : dnsCacheKey) (st : ClientState) : res (option (Message * bool) * ClientState) :=
  let some isStale (r : res (Message * ClientState)) := let! ' (m, st) := r in Ok (Some (m, isStale), st) in
  if c_dnsCache c then
    match loadPersistentResponse c now key st with
    | (Some (response, isStale), st) =>
        if c_roundRobinCache c then some isStale (rotate_persistent key response st) else Ok (Some (response, isStale), st)
    | r => Ok r
    end
  else if c_disableCache c then Ok (None, st)
  else
    match lru_lookup (st_cache st) key with
    | None => Ok (None, st <| st_cache := lru_Get key (st_cache st) |>)
    | Some (cached, expireAt) =>
        let st := st <| st_cache := lru_Get key (st_cache st) |> in
        if c_disableExpire c then some false (getRoundRobin c cached st)
        else match aged c now expireAt with
             | None => Ok (None, st <| st_cache := lru_Remove key (st_cache st) |>)
             | Some (ttl, isStale) =>
                 some isStale (let! ' (m, st) := getRoundRobin c cached st in Ok (normalizeTTL m ttl, st))
             end
    end.

Definition ClearCache (c : Client) (st : ClientState) : ClientState :=
  if c_dnsCache c then st <| st_file := as_ClearDNSCache (st_file st) |> else st <| st_cache := lru_new |>.

(** ** Queries *)

Definition prepareExchangeMessage (c : Client) (message : Message) (o : DNSQueryOptions) : Message :=
  if RemoveClientSubnet o then removeClientSubnet message
  else
    let clientSubnet := if Prefix_IsValid (ClientSubnet o) then ClientSubnet o else c_clientSubnet c in
    if Prefix_IsValid clientSubnet then SetClientSubnet message clientSubnet else message.

Definition isSimpleRequest (message : Message) : res bool :=
  if negb (length (m_Question message) =? 1)%nat || nonempty (m_Ns message) then Ok false
  else match m_Extra message with
       | [] => Ok true
       | [r] =>
           if (Hdr_Rrtype r =? TypeOPT) && (0 <? Hdr_Class r) && (Hdr_Ttl r =? 0) then
             match Hdr_Data r with
             | Data_OPT options => Ok (forallb (fun o => EDNS0_Option o =? EDNS0SUBNET) options)
             | _ => Panic "interface conversion"
             end
           else Ok false
       | _ => Ok false
       end.

(** What is asked of whom; the transport the query comes from, if it does. *)
Record request := mkRequest {
  r_transport : DNSTransport;
  r_message : Message;
  r_options : DNSQueryOptions;
  r_responseChecker : option (Message -> bool);
  r_contextTransport : option string;
}.

(** The key is absent if the cache is disabled; [op_releaseCond] is the entry of
    [st_cacheLock] to delete and the channel to close. *)
Record exchangeOperation := mkOperation {
  op_message : Message;
  op_question : Question;
  op_cacheKey : option dnsCacheKey;
  op_releaseCond : option (dnsCacheKey * nat);
}.

(** The response and the error of a query. *)
Notation result := (option Message * option error)%type.
Definition response_ (m : Message) : result := (Some m, None).
Definition failed (e : error) : result := (None, Some e).

Definition release (op : exchangeOperation) (st : ClientState) : ClientState :=
  match op_releaseCond op with
  | Some (key, cond) => st <| st_cacheLock := delete key (st_cacheLock st) |> <| st_closed := <[cond := true]> (st_closed st) |>
  | None => st
  end.

(** [beginExchange] up to taking the lock: a response, a channel to wait for, or an
    operation that goes on. *)
Inductive begun :=
| BeginDone (r : result)
| BeginWait (op : exchangeOperation) (cond : nat)
| BeginLoad (op : exchangeOperation).

Definition strategy_rejects (question : Question) (o : DNSQueryOptions) : bool :=
  ((q_Qtype question =? TypeA) && (Strategy o =? DomainStrategyIPv6Only))
  || ((q_Qtype question =? TypeAAAA) && (Strategy o =? DomainStrategyIPv4Only)).

Definition beginExchange (c : Client) (env : Z) (r : request) (st : ClientState) : res (begun * ClientState) :=
  match m_Question (r_message r) with
  | [] => Ok (BeginDone (response_ (FixedResponseStatus (r_message r) RcodeFormatError)), st)
  | question :: _ =>
      if strategy_rejects question (r_options r)
      then Ok (BeginDone (response_ (FixedResponseStatus (r_message r) RcodeSuccess)), st)
      else
        let! isSimple := isSimpleRequest (r_message r) in
        let message := prepareExchangeMessage c (r_message r) (r_options r) in
        if negb isSimple || c_disableCache c || DisableCache (r_options r)
        then Ok (BeginLoad (mkOperation message question None None), st)
        else
          let cacheKey := newCacheKey c env (r_transport r) question message (r_options r) in
          match st_cacheLock st !! cacheKey with
          | Some cond => Ok (BeginWait (mkOperation message question (Some cacheKey) None) cond, st)
          | None =>
              let cond := length (st_closed st) in
              Ok (BeginLoad (mkOperation message question (Some cacheKey) (Some (cacheKey, cond))),
                  st <| st_cacheLock := <[cacheKey := cond]> (st_cacheLock st) |> <| st_closed := st_closed st ++ [false] |>)
          end
  end.

(** After waiting, the key is made again: the network may have changed. *)
Definition woken (c : Client) (env : Z) (r : request) (op : exchangeOperation) : exchangeOperation :=
  op <| op_cacheKey := Some (newCacheKey c env (r_transport r) (op_question op) (op_message op) (r_options r)) |>.

(** Whether a goroutine has to be started to refresh the answer. *)
Definition backgroundRefreshDNS (key : dnsCacheKey) (st : ClientState) : bool * ClientState :=
  if bool_decide (key ∈ st_backgroundRefresh st) then (false, st)
  else (true, st <| st_backgroundRefresh := {[key]} ∪ st_backgroundRefresh st |>).

(** The rest of [beginExchange]: a result if there is one already, whether the
    answer is to be refreshed, and the state. *)
Definition rdrc_key (t : DNSTransport) (question : Question) : saveCacheKey :=
  mkSaveCacheKey (t_Tag t) (q_Name question) (q_Qtype question).

Definition begin_transport (c : Client) (now : Z) (r : request) (op : exchangeOperation) (st : ClientState) : option result * ClientState :=
  if bool_decide (r_contextTransport r = Some (t_Tag (r_transport r)))
  then (Some (failed (ENew "DNS query loopback in transport")), st)
  else
    match op_cacheKey op, r_responseChecker r with
    | Some _, Some _ =>
        if c_rdrc c then
          let '(rejected, file) := as_LoadRDRC (st_file st) now (rdrc_key (r_transport r) (op_question op)) in
          let st := st <| st_file := file |> in
          (if rejected then Some (failed ErrResponseRejectedCached) else None, st)
        else (None, st)
    | _, _ => (None, st)
    end.

Definition begin_load (c : Client) (now : Z) (r : request) (op : exchangeOperation) (st : ClientState)
    : res (option result * bool * ClientState) :=
  let transport st := let '(result, st) := begin_transport c now r op st in (result, false, st) in
  match op_cacheKey op with
  | None => Ok (transport st)
  | Some key =>
      let! ' (loaded, st) := loadResponse c now key st in
      match loaded with
      | Some (response, true) =>
          if DisableOptimisticCache (r_options r) then Ok (transport st)
          else
            let '(refresh, st) := backgroundRefreshDNS key st in
            Ok (Some (response_ (response <| m_Id := m_Id (op_message op) |>)), refresh, st)
      | Some (response, false) => Ok (Some (response_ (response <| m_Id := m_Id (op_message op) |>)), false, st)
      | None => Ok (transport st)
      end
  end.

(** [exchangeToTransport] and its form with a callback: what a transport answers,
    and the response made of it. *)
Inductive Reply := ReplyMessage (m : Message) | ReplyRcode (rcode : Z) | ReplyError (e : error).

Definition stripDNSPadding (response : Message) : Message :=
  response <| m_Extra := map (filter_options (fun o => negb (EDNS0_Option o =? EDNS0PADDING))) (m_Extra response) |>.

Definition exchangeToTransport (message : Message) (reply : Reply) : Message + error :=
  match reply with
  | ReplyMessage m => inl (stripDNSPadding m)
  | ReplyRcode rcode => inl (FixedResponseStatus message rcode)
  | ReplyError e => inr e
  end.

Definition hidden_hint (o : DNSQueryOptions) (r : Record_) : Record_ :=
  match Hdr_Data r with
  | Data_HTTPS values =>
      let hint := if Strategy o =? DomainStrategyIPv4Only then SVCB_IPV6HINT else SVCB_IPV4HINT in
      r <| Hdr_Data := Data_HTTPS (List.filter (fun v => negb (SVCB_Key v =? hint)) values) |>
  | _ => r
  end.

(** The lifetime of a response, which all its records get. *)
Definition cache_ttl (c : Client) (response : Message) (o : DNSQueryOptions) : Z :=
  let timeToLive := Z.max (computeTimeToLive response) (c_minCacheTTL c) in
  let timeToLive := if 0 <? c_maxCacheTTL c then Z.min timeToLive (c_maxCacheTTL c) else timeToLive in
  match RewriteTTL o with Some t => t | None => timeToLive end.

Definition applyResponseOptions (c : Client) (question : Question) (response : Message) (o : DNSQueryOptions) : Z * Message :=
  let response :=
    if (q_Qtype question =? TypeHTTPS) && inb (Strategy o) [DomainStrategyIPv4Only; DomainStrategyIPv6Only]
    then response <| m_Answer := map (hidden_hint o) (m_Answer response) |> else response in
  let timeToLive := cache_ttl c response o in
  (timeToLive, normalizeTTL response timeToLive).

Definition accepted_rcode (m : Message) : bool := inb (m_Rcode m) [RcodeSuccess; RcodeNameError].

(** Whether a response is rejected by the check of a rule. *)
Definition rejected_by (responseChecker : option (Message -> bool)) (response : Message) : bool :=
  match responseChecker with
  | None => false
  | Some check => negb (accepted_rcode response) || negb (check response)
  end.

Definition save_rejection (c : Client) (t : DNSTransport) (question : Question) (st : ClientState) : ClientState :=
  if c_rdrc c then st <| st_file := as_SaveRDRCAsync (st_file st) (rdrc_key t question) |> else st.

(** The EDNS record of the response, as the client of the query understands it. *)
Definition match_edns (request response : Message) : Message :=
  match IsEdns0 response with
  | None => response
  | Some responseOpt =>
      let stripped := response <| m_Extra := List.filter (fun r => negb (Hdr_Rrtype r =? TypeOPT)) (m_Extra response) |> in
      match IsEdns0 request with
      | None => stripped
      | Some requestOpt =>
          if OPT_Version requestOpt <? OPT_Version responseOpt
          then SetEdns0 stripped (Hdr_Class responseOpt) (OPT_Do responseOpt) else response
      end
  end.

Definition finishExchange (c : Client) (now env : Z) (r : request) (op : exchangeOperation) (response : Message) (st : ClientState)
    : result * ClientState :=
  let t := r_transport r in
  let key := if accepted_rcode response then op_cacheKey op else None in
  if rejected_by (r_responseChecker r) response then
    ((Some response, Some ErrResponseRejected), match key with Some _ => save_rejection c t (op_question op) st | None => st end)
  else
    let '(timeToLive, response) := applyResponseOptions c (op_question op) response (r_options r) in
    let st :=
      match key with
      | Some key =>
          match finishCacheKey env t key with Some key => storeCache c now key response timeToLive st | None => st end
      | None => st
      end in
    let response := response <| m_Id := m_Id (op_message op) |> in
    (response_ (match_edns (op_message op) response), st).

(** The goroutine of [backgroundRefreshDNS] when its transport has answered. *)
Definition finish_refresh (c : Client) (now env : Z) (t : DNSTransport) (key : dnsCacheKey) (message : Message) (o : DNSQueryOptions)
    (responseChecker : option (Message -> bool)) (reply : Reply) (st : ClientState) : ClientState :=
  let st :=
    match exchangeToTransport message reply with
    | inr _ => st
    | inl response =>
        if rejected_by responseChecker response then save_rejection c t (k_Question key) st
        else if negb (accepted_rcode response) then st
        else match finishCacheKey env t key with
             | None => st
             | Some storeKey =>
                 let '(timeToLive, response) := applyResponseOptions c (k_Question key) response o in
                 storeCache c now storeKey response timeToLive st
             end
    end in
  st <| st_backgroundRefresh := st_backgroundRefresh st ∖ {[key]} |>.

(** [Exchange] while no other query runs: the result and whether the transport was
    asked, given what it would answer. *)
Definition Exchange (c : Client) (now env : Z) (r : request) (reply : Message -> Reply) (st : ClientState)
    : res (result * bool * bool * ClientState) :=
  let! ' (b, st) := beginExchange c env r st in
  match b with
  | BeginDone result => Ok (result, false, false, st)
  | BeginWait _ _ => OutOfFuel
  | BeginLoad op =>
      let! ' (loaded, refresh, st) := begin_load c now r op st in
      match loaded with
      | Some result => Ok (result, false, refresh, release op st)
      | None =>
          match exchangeToTransport (op_message op) (reply (op_message op)) with
          | inr e => Ok (failed e, true, false, release op st)
          | inl response => let '(result, st) := finishExchange c now env r op response st in Ok (result, true, false, release op st)
          end
      end
  end.

(** ** Lookups *)

Definition FqdnToDomain (fqdn : string) : string := if dns_IsFqdn fqdn then take_str (String.length fqdn - 1) fqdn else fqdn.

Definition lookup_message (name : string) (qType : Z) : Message :=
  mkMessage 0 false false true false RcodeSuccess [mkQuestion name qType ClassINET] [] [] [].

(** The cached response to a question, and whether it is to be refreshed. *)
Definition questionCache (c : Client) (now env : Z) (r : request) (question : Question) (st : ClientState)
    : res (option Message * bool * ClientState) :=
  let cacheKey := newCacheKey c env (r_transport r) question (r_message r) (r_options r) in
  let! ' (loaded, st) := loadResponse c now cacheKey st in
  match loaded with
  | None => Ok (None, false, st)
  | Some (response, isStale) =>
      if isStale then
        if DisableOptimisticCache (r_options r) then Ok (None, false, st)
        else let '(refresh, st) := backgroundRefreshDNS cacheKey st in Ok (Some response, refresh, st)
      else Ok (Some response, false, st)
  end.

(** What [lookupToExchange] makes of a response or an error. *)
Definition lookup_addresses {MPkg : MetadataPkg} (r : result) : res (list Addr) :=
  match r with
  | (_, Some e) => Err e
  | (Some response, None) =>
      if negb (m_Rcode response =? RcodeSuccess) then Err (ECause (ENew "rcode") (Itoa (m_Rcode response)))
      else Ok (DNSResponseAddresses (Some (to_Msg response)))
  | (None, None) => Panic "invalid memory address"
  end.

(** The requests of [Lookup], one for each address family wanted. *)
Definition Lookup_strategy (o : DNSQueryOptions) : Z :=
  if negb (LookupStrategy o =? DomainStrategyAsIS) then LookupStrategy o else Strategy o.
Definition Lookup_requests (t : DNSTransport) (domain : string) (o : DNSQueryOptions) (responseChecker : option (Message -> bool))
    (contextTransport : option string) : list request :=
  let dnsName := dns_Fqdn (FqdnToDomain domain) in
  let strategy := Lookup_strategy o in
  let lookupOptions := if negb (LookupStrategy o =? DomainStrategyAsIS) then o <| Strategy := strategy |> else o in
  let ask qType := mkRequest t (lookup_message dnsName qType) lookupOptions responseChecker contextTransport in
  if strategy =? DomainStrategyIPv4Only then [ask TypeA]
  else if strategy =? DomainStrategyIPv6Only then [ask TypeAAAA]
  else [ask TypeA; ask TypeAAAA].

Definition sortAddresses (response4 response6 : list Addr) (strategy : Z) : list Addr :=
  if strategy =? DomainStrategyPreferIPv6 then response6 ++ response4 else response4 ++ response6.

(** What [Lookup] makes of the two lookups; [errors] joins the errors of the group. *)
Definition Lookup_join (errors : error -> error -> error) (strategy : Z) (r4 r6 : res (list Addr)) : res (list Addr) :=
  let addresses r := match r with Ok l => l | _ => [] end in
  if nonempty (addresses r4) || nonempty (addresses r6) then Ok (sortAddresses (addresses r4) (addresses r6) strategy)
  else match r4, r6 with
       | Err e4, Err e6 => Err (errors e4 e6)
       | Err e, _ | _, Err e => Err e
       | _, _ => Ok []
       end.

(** * Concurrent queries *)

(** Where a query is: looking for a cached answer of a lookup, about to enter
    [beginExchange] ([false]: must not wait), waiting for a channel, about to load
    from the cache, waiting for its transport, about to release its lock with a
    result, or done; or where a goroutine is that refreshes an answer. *)
Inductive call :=
| Asking (r : request)
| Called (allowWait : bool) (r : request)
| Waiting (r : request) (op : exchangeOperation) (cond : nat)
| Loading (r : request) (op : exchangeOperation)
| InFlight (r : request) (op : exchangeOperation)
| Releasing (r : request) (op : exchangeOperation) (rs : result)
| Returned (r : request) (rs : result)
| Refreshing (r : request) (key : dnsCacheKey) (message : Message)
| Refreshed.

(** A response of a transport: to which query, under which key if the cache is used,
    in which network environment and when. *)
Record answered := mkAnswered {
  a_request : request;
  a_question : Question;
  a_key : option dnsCacheKey;
  a_response : Message;
  a_refresh : bool;
  a_env : Z;
  a_now : Z;
}.

Record client_world := mkClientWorld {
  cw_now : Z;
  cw_state : ClientState;
  cw_calls : list call;
  cw_log : list answered;
}.

Definition log_of (r : request) (question : Question) (key : option dnsCacheKey) (response : Message + error) (refresh : bool) (env now : Z)
    : list answered :=
  match response with inl m => [mkAnswered r question key m refresh env now] | inr _ => [] end.

(** One step of a call: where it is then, the goroutine it starts, the response it
    logs and the state; [None] if it has to wait or cannot go on.  [reply] is what a
    transport answers in this step. *)
Definition call_step (c : Client) (now env : Z) (reply : Reply) (x : call) (st : ClientState)
    : option (call * list call * list answered * ClientState) :=
  match x with
  | Asking r =>
      match m_Question (r_message r) with
      | [] => None
      | question :: _ =>
          if c_disableCache c || DisableCache (r_options r) then Some (Called true r, [], [], st)
          else match questionCache c now env r question st with
               | Ok (Some m, refresh, st) =>
                   let key := newCacheKey c env (r_transport r) question (r_message r) (r_options r) in
                   let message := prepareExchangeMessage c (r_message r) (r_options r) in
                   Some (Returned r (response_ m), if refresh then [Refreshing r key message] else [], [], st)
               | Ok (None, _, st) => Some (Called true r, [], [], st)
               | _ => None
               end
      end
  | Called allowWait r =>
      match beginExchange c env r st with
      | Ok (BeginDone rs, st) => Some (Returned r rs, [], [], st)
      | Ok (BeginWait op cond, st) => Some (if allowWait then Waiting r op cond else Called true r, [], [], st)
      | Ok (BeginLoad op, st) => Some (Loading r op, [], [], st)
      | _ => None
      end
  | Waiting r op cond =>
      if default false (st_closed st !! cond) then Some (Loading r (woken c env r op), [], [], st) else None
  | Loading r op =>
      match begin_load c now r op st with
      | Ok (Some rs, refresh, st) =>
          let started := match op_cacheKey op with Some key => [Refreshing r key (op_message op)] | None => [] end in
          Some (Releasing r op rs, if refresh then started else [], [], st)
      | Ok (None, _, st) => Some (InFlight r op, [], [], st)
      | _ => None
      end
  | InFlight r op =>
      let response := exchangeToTransport (op_message op) reply in
      let log := log_of r (op_question op) (op_cacheKey op) response false env now in
      match response with
      | inr e => Some (Releasing r op (failed e), [], log, st)
      | inl m => let '(rs, st) := finishExchange c now env r op m st in Some (Releasing r op rs, [], log, st)
      end
  | Releasing r op rs => Some (Returned r rs, [], [], release op st)
  | Refreshing r key message =>
      let log := log_of r (k_Question key) (Some key) (exchangeToTransport message reply) true env now in
      Some (Refreshed, [], log, finish_refresh c now env (r_transport r) key message (r_options r) (r_responseChecker r) reply st)
  | Returned _ _ | Refreshed => None
  end.

(** What messages read from the wire and numbers of their Go types satisfy; the
    error of a cached rejection is the client's own. *)
Definition config_ok (c : Client) : Prop := is_u 32 (c_minCacheTTL c) /\ is_u 32 (c_maxCacheTTL c).
Definition request_ok (r : request) : Prop :=
  wf_message (r_message r) /\ Forall (fun q => is_u 16 (q_Qtype q)) (m_Question (r_message r))
  /\ match RewriteTTL (r_options r) with Some t => is_u 32 t | None => True end.
Definition reply_ok (reply : Reply) : Prop :=
  match reply with ReplyMessage m => wf_message m | ReplyRcode _ => True | ReplyError e => e <> ErrResponseRejectedCached end.
Definition ErrContext : error := ENew "context canceled".

(** A new query, a step of a query, the end of a query that waits, and what goes on
    in the cache file or clears it. *)
Inductive client_step (c : Client) : client_world -> client_world -> Prop :=
| cs_call now st calls log x r : request_ok r ->
    x = Asking r /\ m_Question (r_message r) <> [] \/ x = Called true r \/ x = Called false r ->
    client_step c (mkClientWorld now st calls log) (mkClientWorld now st (calls ++ [x]) log)
| cs_step now now' env reply st calls log i x x' new logged st' :
    now <= now' < 2 ^ 62 -> reply_ok reply -> calls !! i = Some x ->
    call_step c now' env reply x st = Some (x', new, logged, st') ->
    client_step c (mkClientWorld now st calls log) (mkClientWorld now' st' (<[i := x']> calls ++ new) (log ++ logged))
| cs_cancel now st calls log i r op cond :
    calls !! i = Some (Waiting r op cond) ->
    client_step c (mkClientWorld now st calls log) (mkClientWorld now st (<[i := Returned r (failed ErrContext)]> calls) log)
| cs_file now st calls log file :
    as_later (st_file st) file ->
    client_step c (mkClientWorld now st calls log) (mkClientWorld now (st <| st_file := file |>) calls log)
| cs_clear now st calls log :
    client_step c (mkClientWorld now st calls log) (mkClientWorld now (ClearCache c st) calls log).

(** A client that starts with a cache file; [log] has the responses of earlier runs. *)
Definition client_start (now : Z) (file : AS) (log : list answered) : client_world := mkClientWorld now (started file) [] log.

End Client.
