(* ===== verification/DNSMessageProofs.v ===== *)
(** Facts on DNS messages: the lifetime of a response, the rotation of its answers,
    and keys of the cache file that tell transports, subnets and networks apart. *)

From S2P Require Import Prelude NetAddr GoStrings RuleContext DNSRouter CacheFile DNSMessage DNSClient.

(** * Lifetimes *)

Definition counted (r : Record_) : bool := negb (Hdr_Rrtype r =? TypeOPT).
(** The lifetimes of the records that have one. *)
Definition lifetimes (m : Message) : list Z := map Hdr_Ttl (List.filter counted (all_records m)).

(** [t] is the least positive number of [l], or 0 if there is none. *)
Definition least_positive (l : list Z) (t : Z) : Prop :=
  (t = 0 /\ Forall (fun x => x <= 0) l) \/ (0 < t /\ t ∈ l /\ Forall (fun x => 0 < x -> t <= x) l).

Lemma ttl_loop_least records t0 seen : 0 <= t0 -> Forall (fun r => 0 <= Hdr_Ttl r) records -> least_positive seen t0 ->
  least_positive (seen ++ map Hdr_Ttl (List.filter counted records)) (ttl_loop records t0).
Proof.
  revert t0 seen. induction records as [|r records IH]; intros t0 seen H0 Hr Hs; cbn; [by rewrite app_nil_r|].
  apply Forall_cons in Hr as [Hr Hrs]. unfold counted at 1. destruct (Hdr_Rrtype r =? TypeOPT); cbn [negb map]; [by apply IH|].
  rewrite cons_middle, app_assoc.
  destruct ((t0 =? 0) || _) eqn:E; (apply IH; [lia|done|]); unfold least_positive in *; rewrite !Forall_app, !Forall_singleton.
  - destruct (decide (Hdr_Ttl r = 0)) as [Hz|Hz].
    + left. destruct Hs as [[-> Hs]|(Hp & _)]; [split; [done|split; [done|lia]]|lia].
    + right. split; [lia|]. split; [apply elem_of_app; right; by apply list_elem_of_singleton|].
      split; [|lia]. destruct Hs as [[-> Hs]|(Hp & _ & Hs)]; (eapply Forall_impl; [exact Hs|]); cbn; intros; lia.
  - right. destruct Hs as [[-> Hs]|(Hp & Hin & Hs)]; [done|]. split; [done|]. split; [set_solver|]. split; [done|lia].
Qed.

(** A response without answers lives as long as its SOA record says, any other as
    long as the record with the shortest life. *)
Lemma computeTimeToLive_least m : Forall (fun r => 0 <= Hdr_Ttl r) (all_records m) ->
  match (if nonempty (m_Answer m) then None else extractNegativeTTL (m_Ns m)) with
  | Some soaTTL => computeTimeToLive m = soaTTL
  | None => least_positive (lifetimes m) (computeTimeToLive m)
  end.
Proof.
  intros H. unfold computeTimeToLive. destruct (if nonempty (m_Answer m) then _ else _); [done|].
  apply (ttl_loop_least _ 0 []); [done|done|]. left. by split.
Qed.

(** * Rotation *)

(** The last [i] elements go before the others. *)
Definition rotated {A} (l : list A) (i : Z) : list A := drop (Z.to_nat (zlen l - i)) l ++ take (Z.to_nat (zlen l - i)) l.

Lemma rotated_perm {A} (l : list A) i : Permutation (rotated l i) l.
Proof. unfold rotated. rewrite Permutation_app_comm. by rewrite take_drop. Qed.

Lemma reverseRotateSlice_ok {A} (l : list A) i : 1 < zlen l < 2 ^ 31 -> 0 <= i < zlen l -> reverseRotateSlice l i = Ok (rotated l i).
Proof.
  intros Hn Hi. unfold reverseRotateSlice, rem32. replace (zlen l <=? 1) with false by lia. rewrite int32_small by lia.
  replace (zlen l =? 0) with false by lia. cbn [res_bind]. rewrite Z.rem_small by lia. rewrite slice_from_ok by lia. cbn [res_bind].
  rewrite slice_ok by lia. cbn [res_bind]. by rewrite Z.sub_0_r.
Qed.

Lemma reverseRotateSlice_perm {A} (l l' : list A) steps : reverseRotateSlice l steps = Ok l' -> Permutation l' l.
Proof.
  unfold reverseRotateSlice. destruct (zlen l <=? 1); [by intros [= <-]|]. intros H.
  apply res_bind_ok in H as (i & _ & H). apply res_bind_ok in H as (f & Hf & H). apply res_bind_ok in H as (b & Hb & [= <-]).
  unfold slice_from, slice in *. destruct (_ && _) eqn:E1 in Hf; [|done]. destruct (_ && _) eqn:E2 in Hb; [|done].
  injection Hf as <-. injection Hb as <-. rewrite Z.sub_0_r. rewrite drop_0, (take_ge (drop _ l)) by (rewrite length_drop; unfold zlen in *; lia).
  rewrite Permutation_app_comm. by rewrite take_drop.
Qed.

(** A rotation that does not panic: the index is a small one of 32 bits. *)
Definition index_ok (i : Z) : Prop := 0 <= i < 2 ^ 31 - 1.
Lemma rotate_ok index records rrType answers : index_ok index -> zlen records < 2 ^ 31 ->
  exists i l, rotate index records rrType answers = Ok (i, l) /\ index_ok i.
Proof.
  unfold index_ok. intros Hi Hn. unfold rotate. destruct (1 <? zlen records) eqn:E; [|by exists index, answers].
  unfold rem32. rewrite !int32_small by lia. replace (zlen records =? 0) with false by lia. cbn [res_bind].
  pose proof (Z.rem_bound_pos (index + 1) (zlen records) ltac:(lia) ltac:(lia)) as Hb.
  rewrite reverseRotateSlice_ok by lia. cbn [res_bind]. eexists _, _. split; [done|]. lia.
Qed.

Lemma rotate_inv index records rrType answers i l : rotate index records rrType answers = Ok (i, l) ->
  (1 < zlen records /\ exists l', reverseRotateSlice records i = Ok l' /\ l = removeAnswersOfType answers rrType ++ l')
  \/ (zlen records <= 1 /\ i = index /\ l = answers).
Proof.
  unfold rotate. destruct (1 <? zlen records) eqn:E; [|intros [= <- <-]; right; split_and!; [lia|done|done]]. intros H. left. split; [lia|].
  apply res_bind_ok in H as (j & _ & H). apply res_bind_ok in H as (l' & Hl & [= <- <-]). eauto.
Qed.

Lemma filter_partition {A} (f : A -> bool) l : Permutation (List.filter (fun x => negb (f x)) l ++ List.filter f l) l.
Proof.
  induction l as [|x l IH]; cbn; [done|]. destruct (f x); cbn; [|by constructor].
  rewrite <- Permutation_middle. by constructor.
Qed.


Lemma filter_ext_Forall {A} (f g : A -> bool) l : Forall (fun x => f x = g x) l -> List.filter f l = List.filter g l.
Proof. induction 1 as [|x l Hx _ IH]; cbn; [done|]. by rewrite Hx, IH. Qed.

Lemma rotate_perm index isT rrType answers answers0 i l :
  Permutation answers answers0 -> Forall (fun r => isT r = (Hdr_Rrtype r =? rrType)) answers0 ->
  rotate index (List.filter isT answers0) rrType answers = Ok (i, l) -> Permutation l answers0.
Proof.
  intros Hp HT H. apply rotate_inv in H as [(_ & l' & Hl & ->)|(_ & _ & ->)]; [|done].
  rewrite (reverseRotateSlice_perm _ _ _ Hl). unfold removeAnswersOfType. rewrite (filter_ext_Forall _ _ _ HT).
  rewrite (filter_perm (fun r => negb (Hdr_Rrtype r =? rrType)) _ _ Hp). apply filter_partition.
Qed.

Lemma applyRoundRobin_inv dm m dm' m' : applyRoundRobin dm m = Ok (dm', m') -> exists i4 l4 i6 l6,
  rotate (ipv4Index dm) (List.filter is_A (m_Answer m)) TypeA (m_Answer m) = Ok (i4, l4)
  /\ rotate (ipv6Index dm) (List.filter is_AAAA (m_Answer m)) TypeAAAA l4 = Ok (i6, l6)
  /\ dm' = dm <| ipv4Index := i4 |> <| ipv6Index := i6 |> /\ m' = m <| m_Answer := l6 |>.
Proof.
  unfold applyRoundRobin. intros H. apply res_bind_ok in H as ([i4 l4] & E4 & H). apply res_bind_ok in H as ([i6 l6] & E6 & H).
  exists i4, l4, i6, l6. injection H as <- <-. done.
Qed.

(** The counters of a cached message are small numbers of 32 bits, and rotating them
    never leaves a slice. *)
Definition counters_ok (dm : dnsMsg) : Prop := index_ok (ipv4Index dm) /\ index_ok (ipv6Index dm).
Lemma zlen_filter {A} (f : A -> bool) l : zlen (List.filter f l) <= zlen l.
Proof. unfold zlen. pose proof (filter_length_le f l). lia. Qed.
Lemma zlen_map {A B} (f : A -> B) l : zlen (map f l) = zlen l.
Proof. unfold zlen. by rewrite length_map. Qed.
Lemma applyRoundRobin_ok dm m : counters_ok dm -> wf_message m -> exists dm' m', applyRoundRobin dm m = Ok (dm', m') /\ counters_ok dm'.
Proof.
  intros [H4 H6] [_ Hn]. unfold is_u in Hn. unfold applyRoundRobin.
  pose proof (zlen_filter is_A (m_Answer m)). pose proof (zlen_filter is_AAAA (m_Answer m)).
  destruct (rotate_ok (ipv4Index dm) (List.filter is_A (m_Answer m)) TypeA (m_Answer m) H4) as (i4 & l4 & -> & Hi4); [lia|]. cbn [res_bind].
  destruct (rotate_ok (ipv6Index dm) (List.filter is_AAAA (m_Answer m)) TypeAAAA l4 H6) as (i6 & l6 & -> & Hi6); [lia|]. cbn [res_bind].
  eexists _, _. split; [reflexivity|]. by split.
Qed.

(** Rotating changes nothing but the order of the answers. *)
Lemma applyRoundRobin_perm dm m dm' m' : wf_message m -> applyRoundRobin dm m = Ok (dm', m') ->
  msg dm' = msg dm /\ m' = m <| m_Answer := m_Answer m' |> /\ Permutation (m_Answer m') (m_Answer m).
Proof.
  intros [Hwf _] H. apply applyRoundRobin_inv in H as (i4 & l4 & i6 & l6 & E4 & E6 & -> & ->). split; [done|]. split; [by destruct m|]. cbn.
  unfold all_records in Hwf. apply Forall_app in Hwf as [Hwf _].
  eapply rotate_perm; [|eapply Forall_impl; [exact Hwf|]|exact E6]; [|by intros r (_ & H6 & _)].
  eapply rotate_perm; [|eapply Forall_impl; [exact Hwf|]|exact E4]; [done|by intros r (H4 & _)].
Qed.

(** ** Fairness *)

Definition typed (isT : Record_ -> bool) (rrType : Z) (l : list Record_) : Prop := Forall (fun r => isT r = (Hdr_Rrtype r =? rrType)) l.

Lemma filter_filter {A} (f g : A -> bool) l : List.filter f (List.filter g l) = List.filter (fun x => g x && f x) l.
Proof. induction l as [|x l IH]; cbn; [done|]. destruct (g x); cbn; [|done]. by destruct (f x); rewrite IH. Qed.
Lemma filter_none {A} (f : A -> bool) l : Forall (fun x => f x = false) l -> List.filter f l = [].
Proof. induction 1 as [|x l Hx _ IH]; cbn; [done|]. by rewrite Hx. Qed.
Lemma filter_all {A} (f : A -> bool) l : Forall (fun x => f x = true) l -> List.filter f l = l.
Proof. induction 1 as [|x l Hx _ IH]; cbn; [done|]. by rewrite Hx, IH. Qed.
Lemma Forall_filter {A} (f : A -> bool) l : Forall (fun x => f x = true) (List.filter f l).
Proof. induction l as [|x l IH]; cbn; [done|]. destruct (f x) eqn:E; [by constructor|done]. Qed.
Lemma Forall_filter_sub {A} (P : A -> Prop) (f : A -> bool) l : Forall P l -> Forall P (List.filter f l).
Proof. induction 1 as [|x l Hx _ IH]; cbn; [done|]. destruct (f x); [by constructor|done]. Qed.

Lemma rotate_typed index isT rrType isU uType answers0 answers i l :
  Permutation answers answers0 -> typed isT rrType answers0 -> typed isU uType answers0 ->
  rotate index (List.filter isT answers0) rrType answers = Ok (i, l) -> typed isU uType l.
Proof. intros Hp HT HU H. unfold typed. by rewrite (rotate_perm _ _ _ _ _ _ _ Hp HT H). Qed.

(** Records of another type keep their place among themselves. *)
Lemma rotate_other index isT rrType isU uType answers0 answers i l : rrType <> uType ->
  typed isT rrType answers0 -> typed isU uType answers0 -> Permutation answers answers0 ->
  rotate index (List.filter isT answers0) rrType answers = Ok (i, l) -> List.filter isU l = List.filter isU answers.
Proof.
  intros Hne HT HU Hp H. apply rotate_inv in H as [(_ & l' & Hl & ->)|(_ & _ & ->)]; [|done].
  rewrite List.filter_app. unfold removeAnswersOfType. rewrite filter_filter. rewrite (filter_none isU l').
  - rewrite app_nil_r. apply filter_ext_Forall. unfold typed in HU. rewrite <- Hp in HU. eapply Forall_impl; [exact HU|]. cbn. intros r ->.
    destruct (Z.eqb_spec (Hdr_Rrtype r) rrType), (Z.eqb_spec (Hdr_Rrtype r) uType); try done. lia.
  - rewrite (reverseRotateSlice_perm _ _ _ Hl). rewrite (filter_ext_Forall _ _ _ HT).
    pose proof (Forall_filter (fun r => Hdr_Rrtype r =? rrType) answers0) as H1.
    pose proof (Forall_filter_sub _ (fun r => Hdr_Rrtype r =? rrType) _ HU) as H2.
    apply Forall_forall. intros r Hr. rewrite Forall_forall in H1, H2. rewrite (H2 r Hr). specialize (H1 r Hr). cbn in H1. lia.
Qed.

(** Those of the type are rotated. *)
Lemma rotate_own index isT rrType answers0 answers i l :
  typed isT rrType answers0 -> Permutation answers answers0 ->
  rotate index (List.filter isT answers0) rrType answers = Ok (i, l) ->
  1 < zlen (List.filter isT answers0) -> reverseRotateSlice (List.filter isT answers0) i = Ok (List.filter isT l).
Proof.
  intros HT Hp H Hn. apply rotate_inv in H as [(_ & l' & Hl & ->)|(? & _)]; [|lia]. rewrite Hl. f_equal. symmetry.
  rewrite List.filter_app. unfold removeAnswersOfType. rewrite filter_filter, filter_none, app_nil_l.
  - apply filter_all. rewrite (reverseRotateSlice_perm _ _ _ Hl). apply Forall_filter.
  - unfold typed in HT. rewrite <- Hp in HT. eapply Forall_impl; [exact HT|]. cbn. intros r ->. by destruct (_ =? _).
Qed.

(** The next index, and what comes first at it. *)
Lemma rotate_index index records rrType answers i l : 0 <= index < zlen records -> 1 < zlen records < 2 ^ 31 ->
  rotate index records rrType answers = Ok (i, l) -> i = (index + 1) mod zlen records.
Proof.
  intros Hi Hn. unfold rotate, rem32. replace (1 <? zlen records) with true by lia. rewrite !int32_small by lia.
  replace (zlen records =? 0) with false by lia. cbn [res_bind]. intros H. apply res_bind_ok in H as (l' & _ & [= <- _]). apply Z.rem_mod_nonneg; lia.
Qed.

Lemma rotated_head {A} (l : list A) i : 1 < zlen l -> 0 <= i < zlen l ->
  head (rotated l i) = l !! Z.to_nat ((- i) mod zlen l).
Proof.
  intros Hn Hi. unfold rotated. destruct (decide (i = 0)) as [->|H0].
  - rewrite Z.sub_0_r, drop_ge, take_ge by (unfold zlen; lia). cbn [app]. change (- 0) with 0. rewrite Z.mod_0_l by lia. by destruct l.
  - replace ((- i) mod zlen l) with (zlen l - i) by (rewrite Z.mod_opp_l_nz; rewrite ?Z.mod_small; lia).
    rewrite head_lookup, lookup_app_l by (rewrite length_drop; unfold zlen in *; lia). rewrite lookup_drop. f_equal. lia.
Qed.

Lemma opp_mod a n : (- (a mod n)) mod n = (- a) mod n.
Proof. rewrite <- !Z.sub_0_l. apply Zminus_mod_idemp_r. Qed.

(** The first records of a kind over [n] answers from the cache. *)
Fixpoint first_records (isT : Record_ -> bool) (n : nat) (dm : dnsMsg) : list (option Record_) :=
  match n with
  | O => []
  | S n => match RoundRobin dm with Ok (dm', m) => head (List.filter isT (m_Answer m)) :: first_records isT n dm' | _ => [] end
  end.

Definition index_of (isT : Record_ -> bool) (index : dnsMsg -> Z) (m : Message) (dm : dnsMsg) : Prop :=
  msg dm = m /\ counters_ok dm /\ 0 <= index dm < zlen (List.filter isT (m_Answer m)).

(** What one answer does for a kind of records: the index goes on by one, and tells
    which record is first. *)
Definition rotates (isT : Record_ -> bool) (index : dnsMsg -> Z) (m : Message) : Prop :=
  forall dm, index_of isT index m dm ->
  let records := List.filter isT (m_Answer m) in
  exists dm' m', RoundRobin dm = Ok (dm', m') /\ counters_ok dm' /\ msg dm' = m /\ index dm' = (index dm + 1) mod zlen records
  /\ List.filter isT (m_Answer m') = rotated records (index dm').

Lemma first_records_positions isT index m n dm : rotates isT index m -> 1 < zlen (List.filter isT (m_Answer m)) -> index_of isT index m dm ->
  let records := List.filter isT (m_Answer m) in
  first_records isT n dm = map (fun j => records !! Z.to_nat ((- (index dm + 1 + Z.of_nat j)) mod zlen records)) (seq 0 n).
Proof.
  intros Hrot Hn. cbv zeta. set (records := List.filter isT (m_Answer m)) in *. revert dm. induction n as [|n IH]; intros dm Hdm; [done|].
  cbn [first_records]. destruct (Hrot _ Hdm) as (dm' & m' & -> & Hc & Hm & Hi & Hl). fold records in Hi, Hl.
  pose proof (Z.mod_pos_bound (index dm + 1) (zlen records) ltac:(lia)) as Hb.
  cbn [seq map]. rewrite <- seq_shift, map_map. f_equal.
  - rewrite Hl, rotated_head by (rewrite ?Hi; lia). rewrite Hi. do 2 f_equal. rewrite Z.add_0_r. apply opp_mod.
  - rewrite IH by (split; [done|]; split; [done|]; fold records; lia). apply map_ext. intros j. do 2 f_equal. rewrite Hi.
    rewrite <- (opp_mod (index dm + 1 + Z.of_nat (S j))), <- opp_mod. do 2 f_equal.
    rewrite <- Z.add_assoc, Z.add_mod_idemp_l by lia. f_equal. lia.
Qed.

Lemma positions_perm a (n : nat) : Permutation (map (fun j => Z.to_nat ((- (a + Z.of_nat j)) mod Z.of_nat n)) (seq 0 n)) (seq 0 n).
Proof.
  apply submseteq_length_Permutation; [|by rewrite length_map]. apply NoDup_submseteq.
  - apply NoDup_fmap_2_strong; [|apply NoDup_seq]. intros j j' Hj Hj' H. apply elem_of_seq in Hj, Hj'.
    pose proof (Z.mod_pos_bound (- (a + Z.of_nat j)) (Z.of_nat n) ltac:(lia)).
    pose proof (Z.mod_pos_bound (- (a + Z.of_nat j')) (Z.of_nat n) ltac:(lia)).
    assert (Heq : (- (a + Z.of_nat j)) mod Z.of_nat n = (- (a + Z.of_nat j')) mod Z.of_nat n) by lia.
    apply (f_equal (fun x => (- x - a) mod Z.of_nat n)) in Heq.
    rewrite !(Zminus_mod (- _) a), !opp_mod, !Z.opp_involutive, <- !Zminus_mod in Heq.
    replace (a + Z.of_nat j - a) with (Z.of_nat j) in Heq by lia. replace (a + Z.of_nat j' - a) with (Z.of_nat j') in Heq by lia.
    rewrite !Z.mod_small in Heq by lia. lia.
  - intros x Hx. apply list_elem_of_fmap in Hx as (j & -> & Hj). apply elem_of_seq in Hj. apply elem_of_seq.
    pose proof (Z.mod_pos_bound (- (a + Z.of_nat j)) (Z.of_nat n) ltac:(lia)). lia.
Qed.

Lemma map_lookup_seq {A} (l : list A) : map (fun i => l !! i) (seq 0 (length l)) = map Some l.
Proof.
  apply list_eq. intros i. change (map (fun i => l !! i) (seq 0 (length l))) with ((fun i => l !! i) <$> seq 0 (length l)).
  change (map Some l) with (Some <$> l). rewrite !list_lookup_fmap.
  destruct (decide (i < length l)%nat) as [Hi|Hi].
  - rewrite lookup_seq_lt by done. cbn. destruct (lookup_lt_is_Some_2 l i Hi) as [x Hx]. by rewrite Hx.
  - rewrite lookup_seq_ge, lookup_ge_None_2 by lia. done.
Qed.

Lemma first_records_perm isT index m dm : rotates isT index m -> 1 < zlen (List.filter isT (m_Answer m)) -> index_of isT index m dm ->
  Permutation (first_records isT (length (List.filter isT (m_Answer m))) dm) (map Some (List.filter isT (m_Answer m))).
Proof.
  intros Hrot Hn Hdm. rewrite (first_records_positions isT index m) by done. set (records := List.filter isT (m_Answer m)).
  unfold zlen. rewrite <- map_lookup_seq.
  rewrite <- (Permutation_map (fun i => records !! i) (positions_perm (index dm + 1) (length records))). by rewrite map_map.
Qed.

Lemma typed_A m : wf_message m -> typed is_A TypeA (m_Answer m).
Proof. intros [H _]. apply Forall_app in H as [H _]. eapply Forall_impl; [exact H|]. by intros r (? & _). Qed.
Lemma typed_AAAA m : wf_message m -> typed is_AAAA TypeAAAA (m_Answer m).
Proof. intros [H _]. apply Forall_app in H as [H _]. eapply Forall_impl; [exact H|]. by intros r (_ & ? & _). Qed.

Lemma rotates_A m : wf_message m -> 1 < zlen (List.filter is_A (m_Answer m)) -> rotates is_A ipv4Index m.
Proof.
  intros Hwf Hn dm (Hm & Hc & Hi). pose proof (typed_A m Hwf) as H4. pose proof (typed_AAAA m Hwf) as H6.
  pose proof (zlen_filter is_A (m_Answer m)) as Hle. pose proof (proj2 Hwf) as Hu. unfold is_u in Hu.
  cbv zeta. unfold RoundRobin. rewrite Hm. destruct (applyRoundRobin_ok dm m Hc Hwf) as (dm' & m' & E & Hc'). exists dm', m'. split; [done|]. split; [done|].
  apply applyRoundRobin_inv in E as (i4 & l4 & i6 & l6 & E4 & E6 & -> & ->). split; [done|].
  change (ipv4Index (_ <| ipv6Index := i6 |>)) with i4. change (m_Answer (_ <| m_Answer := l6 |>)) with l6.
  pose proof (rotate_index _ _ _ _ _ _ Hi ltac:(lia) E4) as Hi4. split; [done|].
  pose proof (rotate_perm _ _ _ _ _ _ _ (reflexivity _) H4 E4) as Hp.
  rewrite (rotate_other _ _ _ _ _ _ _ _ _ (ltac:(done) : TypeAAAA <> TypeA) H6 H4 Hp E6).
  pose proof (rotate_own _ _ _ _ _ _ _ H4 (reflexivity _) E4 Hn) as Ho. rewrite reverseRotateSlice_ok in Ho; [by injection Ho|lia|].
  rewrite Hi4. apply Z.mod_pos_bound. lia.
Qed.

Lemma rotates_AAAA m : wf_message m -> 1 < zlen (List.filter is_AAAA (m_Answer m)) -> rotates is_AAAA ipv6Index m.
Proof.
  intros Hwf Hn dm (Hm & Hc & Hi). pose proof (typed_A m Hwf) as H4. pose proof (typed_AAAA m Hwf) as H6.
  pose proof (zlen_filter is_AAAA (m_Answer m)) as Hle. pose proof (proj2 Hwf) as Hu. unfold is_u in Hu.
  cbv zeta. unfold RoundRobin. rewrite Hm. destruct (applyRoundRobin_ok dm m Hc Hwf) as (dm' & m' & E & Hc'). exists dm', m'. split; [done|]. split; [done|].
  apply applyRoundRobin_inv in E as (i4 & l4 & i6 & l6 & E4 & E6 & -> & ->). split; [done|].
  change (ipv6Index (_ <| ipv6Index := i6 |>)) with i6. change (m_Answer (_ <| m_Answer := l6 |>)) with l6.
  pose proof (rotate_index _ _ _ _ _ _ Hi ltac:(lia) E6) as Hi6. split; [done|].
  pose proof (rotate_perm _ _ _ _ _ _ _ (reflexivity _) H4 E4) as Hp.
  pose proof (rotate_own _ _ _ _ _ _ _ H6 Hp E6 Hn) as Ho. rewrite reverseRotateSlice_ok in Ho; [by injection Ho|lia|].
  rewrite Hi6. apply Z.mod_pos_bound. lia.
Qed.

(** C30: rotation of cached answers is fair.  An answer from a cached object whose
    counters are small numbers of 32 bits is made without a panic, leaves them so, and
    has the records of the message the object was made with, none lost and none new;
    over as many answers as there are A records each of them is first once, and so for
    AAAA. *)
Theorem cached_answers_rotate dm : wf_message (msg dm) -> counters_ok dm ->
  (exists dm' m', RoundRobin dm = Ok (dm', m') /\ counters_ok dm' /\ msg dm' = msg dm /\ Permutation (m_Answer m') (m_Answer (msg dm))
     /\ m' = (msg dm) <| m_Answer := m_Answer m' |>)
  /\ (let records := List.filter is_A (m_Answer (msg dm)) in
      1 < zlen records -> 0 <= ipv4Index dm < zlen records ->
      Permutation (first_records is_A (length records) dm) (map Some records))
  /\ (let records := List.filter is_AAAA (m_Answer (msg dm)) in
      1 < zlen records -> 0 <= ipv6Index dm < zlen records ->
      Permutation (first_records is_AAAA (length records) dm) (map Some records)).
Proof.
  intros Hwf Hc. split; [|split].
  - destruct (applyRoundRobin_ok dm _ Hc Hwf) as (dm' & m' & E & Hc'). exists dm', m'. split; [done|]. split; [done|].
    by destruct (applyRoundRobin_perm _ _ _ _ Hwf E) as (? & ? & ?).
  - intros records Hn Hi. by apply (first_records_perm is_A ipv4Index); [apply rotates_A|..].
  - intros records Hn Hi. by apply (first_records_perm is_AAAA ipv6Index); [apply rotates_AAAA|..].
Qed.

Definition example_a (n : Z) : Record_ := mkRecord "example.org." TypeA ClassINET 300 (Data_A [192; 0; 2; n]).
Definition example_message : Message :=
  mkMessage 7 true false true true RcodeSuccess [mkQuestion "example.org." TypeA ClassINET] (map example_a [1; 2; 3]) [] [].
Lemma example_message_wf : wf_message example_message.
Proof. repeat constructor; vm_compute; congruence. Qed.

Lemma cached_answers_rotate_witness :
  Permutation (first_records is_A 3 (mkDnsMsg 1 0 example_message)) (map Some (map example_a [1; 2; 3]))
  /\ first_records is_A 3 (mkDnsMsg 1 0 example_message) = map Some (map example_a [2; 1; 3]).
Proof.
  split; [|vm_compute; reflexivity].
  destruct (cached_answers_rotate (mkDnsMsg 1 0 example_message) example_message_wf ltac:(by vm_compute)) as (_ & H & _).
  apply H; vm_compute; split; congruence.
Defined.
