(* ===== verification/DNSKeyProofs.v ===== *)
(** The names under which the cache file keeps answers: numbers, addresses and
    prefixes are printed injectively, and so are transport, subnet and network. *)

From S2P Require Import Prelude NetAddr GoStrings CacheFile DNSMessage.

Notation ascii_list := (list Ascii.ascii).

(** * Splitting at separators *)

(** [c] is a separator: it is not in what comes before it. *)
Lemma split_at (c : Ascii.ascii) (a a' b b' : ascii_list) : c ∉ a -> c ∉ a' -> a ++ c :: b = a' ++ c :: b' -> a = a' /\ b = b'.
Proof.
  revert a'. induction a as [|x a IH]; intros [|y a'] H H' Heq; cbn in Heq.
  - by injection Heq.
  - injection Heq as -> _. set_solver.
  - injection Heq as -> _. set_solver.
  - injection Heq as -> Heq. destruct (IH a') as [-> ->]; [set_solver..|done|done].
Qed.
Lemma no_split (c : Ascii.ascii) (a a' b : ascii_list) : c ∉ a -> a = a' ++ c :: b -> False.
Proof. intros H ->. set_solver. Qed.

(** What follows begins with a special character, if with any. *)
Definition begins (special : Ascii.ascii -> Prop) (b : ascii_list) : Prop := match b with [] => True | c :: _ => special c end.
Lemma split_special (special : Ascii.ascii -> Prop) (a a' b b' : ascii_list) :
  Forall (fun c => ~ special c) a -> Forall (fun c => ~ special c) a' -> begins special b -> begins special b' ->
  a ++ b = a' ++ b' -> a = a' /\ b = b'.
Proof.
  intros Ha. revert a'. induction Ha as [|x a Hx Ha IH]; intros a' Ha' Hb Hb' Heq; destruct Ha' as [|y a' Hy Ha']; cbn in Heq.
  - done.
  - subst b. done.
  - subst b'. done.
  - injection Heq as -> Heq. by destruct (IH a' Ha' Hb Hb' Heq) as [-> ->].
Qed.

(** * Numbers *)

Definition alnum (c : Ascii.ascii) : Prop := 48 <= ascii_byte c <= 57 \/ 97 <= ascii_byte c <= 122.
Definition digit_value (c : Ascii.ascii) : Z := if ascii_byte c <? 58 then ascii_byte c - 48 else ascii_byte c - 87.

Lemma ascii_byte_byte_ascii b : is_byte b -> ascii_byte (byte_ascii b) = b.
Proof.
  intros Hb. unfold ascii_byte, byte_ascii, is_byte, is_u in *. rewrite Ascii.N_ascii_embedding by lia. lia.
Qed.

Lemma byte_digit_of d : 0 <= d < 36 -> ascii_byte (digit_of d) = if d <? 10 then 48 + d else 87 + d.
Proof. intros Hd. unfold digit_of. apply ascii_byte_byte_ascii. unfold is_byte, is_u. destruct (d <? 10) eqn:E; lia. Qed.
Lemma digit_of_alnum d : 0 <= d < 36 -> alnum (digit_of d).
Proof. intros Hd. unfold alnum. rewrite byte_digit_of by done. destruct (d <? 10) eqn:E; lia. Qed.
Lemma digit_value_of d : 0 <= d < 36 -> digit_value (digit_of d) = d.
Proof. intros Hd. unfold digit_value. rewrite byte_digit_of by done. destruct (d <? 10) eqn:E; case_match; lia. Qed.

Definition value (base : Z) (l : ascii_list) : Z := fold_left (fun n c => n * base + digit_value c) l 0.

Section Digits.
Variable base : Z.
Hypothesis Hbase : 2 <= base <= 36.

Lemma format_digits_alnum fuel n : Forall alnum (format_digits fuel base n).
Proof.
  revert n. induction fuel as [|f IH]; intros n; cbn; [done|]. apply Forall_app. split; [by destruct (n <? base)|].
  apply Forall_singleton, digit_of_alnum. pose proof (Z.mod_pos_bound n base). lia.
Qed.

Lemma format_digits_value fuel n : 0 <= n < base ^ Z.of_nat fuel -> value base (format_digits fuel base n) = n.
Proof.
  revert n. induction fuel as [|f IH]; intros n Hn; [cbn in Hn; unfold value; cbn; lia|].
  cbn [format_digits]. unfold value. rewrite fold_left_app. cbn [fold_left]. fold (value base (if n <? base then [] else format_digits f base (n / base))).
  pose proof (Z.mod_pos_bound n base ltac:(lia)). rewrite digit_value_of by lia. pose proof (Z.div_mod n base ltac:(lia)).
  destruct (n <? base) eqn:E.
  - unfold value. cbn. rewrite Z.mod_small by lia. lia.
  - rewrite IH; [lia|]. split; [apply Z.div_pos; lia|]. apply Z.div_lt_upper_bound; [lia|].
    rewrite Nat2Z.inj_succ, Z.pow_succ_r in Hn by lia. lia.
Qed.

Lemma base_64 : 2 ^ 64 <= base ^ Z.of_nat 64.
Proof. change (Z.of_nat 64) with 64. apply Z.pow_le_mono_l. lia. Qed.

Lemma format_inj n n' : 0 <= n < 2 ^ 64 -> 0 <= n' < 2 ^ 64 -> format_digits 64 base n = format_digits 64 base n' -> n = n'.
Proof.
  intros Hn Hn' H. pose proof base_64. apply (f_equal (value base)) in H. rewrite !format_digits_value in H by lia. done.
Qed.

Lemma format_begins n : exists c l, format_digits 64 base n = c :: l /\ alnum c.
Proof.
  pose proof (format_digits_alnum 64 n) as H. destruct (format_digits 64 base n) as [|c l] eqn:E.
  - apply (f_equal length) in E. cbn [format_digits] in E. rewrite length_app in E. cbn in E. lia.
  - exists c, l. split; [done|]. by apply Forall_cons in H as [H _].
Qed.
End Digits.

Lemma chars_FormatUint n base : chars (FormatUint n base) = format_digits 64 base n.
Proof. apply chars_of_chars. Qed.
#[local] Arguments format_digits : simpl never.

Lemma alnum_not_in (c : Ascii.ascii) l : ~ alnum c -> Forall alnum l -> c ∉ l.
Proof. intros Hc Hl Hin. rewrite Forall_forall in Hl. by apply Hc, Hl. Qed.
Ltac not_alnum := let H := fresh in intros H; vm_compute in H; intuition congruence.
Ltac no_separator := apply alnum_not_in; [not_alnum|apply format_digits_alnum; lia].

(** * Addresses *)

Notation dec := (format_digits 64 10).
Notation hex := (format_digits 64 16).
Notation dot := "."%char.
Notation colon := ":"%char.

Definition octet (a : Z) (i : Z) : Z := Z.land (Z.shiftr a i) 255.
Definition dotted (a : Z) : ascii_list := dec (octet a 24) ++ dot :: dec (octet a 16) ++ dot :: dec (octet a 8) ++ dot :: dec (octet a 0).

Lemma chars_string4 a : chars (string4 a) = dotted a.
Proof. unfold string4, dotted, octet. rewrite !chars_app, !chars_FormatUint. by rewrite Z.shiftr_0_r. Qed.

Lemma octet_range a i : 0 <= octet a i < 2 ^ 8.
Proof. unfold octet. change 255 with (Z.ones 8). rewrite Z.land_ones by lia. apply Z.mod_pos_bound. lia. Qed.

Lemma dec_octet a a' i i' : dec (octet a i) = dec (octet a' i') -> octet a i = octet a' i'.
Proof. pose proof (octet_range a i). pose proof (octet_range a' i'). apply format_inj; lia. Qed.

Lemma dotted_inj a a' : dotted a = dotted a' -> octet a 24 = octet a' 24 /\ octet a 16 = octet a' 16 /\ octet a 8 = octet a' 8 /\ octet a 0 = octet a' 0.
Proof.
  unfold dotted. intros H. do 3 (apply split_at in H as [?%dec_octet H]; [|no_separator..]). by apply dec_octet in H.
Qed.

(** A number is known by its parts of [w] bits. *)
Lemma land_ones_bit a i w n : 0 <= i -> 0 <= n < w -> Z.testbit (Z.land (Z.shiftr a i) (Z.ones w)) n = Z.testbit a (n + i).
Proof.
  intros Hi Hn. rewrite Z.land_spec, Z.shiftr_spec by lia. rewrite Z.ones_spec_low by lia. apply andb_true_r.
Qed.

Lemma testbit_above a m j : 0 <= a < 2 ^ m -> 0 <= m <= j -> Z.testbit a j = false.
Proof. intros Ha Hm. rewrite <- (Z.mod_small a (2 ^ m)) by done. apply Z.mod_pow2_bits_high. lia. Qed.

Lemma parts_inj w (n : nat) a a' : 0 < w -> 0 <= a < 2 ^ (w * Z.of_nat n) -> 0 <= a' < 2 ^ (w * Z.of_nat n) ->
  (forall i, 0 <= i < Z.of_nat n -> Z.land (Z.shiftr a (w * i)) (Z.ones w) = Z.land (Z.shiftr a' (w * i)) (Z.ones w)) -> a = a'.
Proof.
  intros Hw Ha Ha' H. apply Z.bits_inj'. intros j Hj. destruct (decide (j < w * Z.of_nat n)) as [Hlt|Hge].
  - pose proof (Z.div_mod j w ltac:(lia)). pose proof (Z.mod_pos_bound j w Hw).
    assert (0 <= j / w < Z.of_nat n) by (split; [apply Z.div_pos; lia|apply Z.div_lt_upper_bound; lia]).
    specialize (H (j / w) ltac:(lia)). apply (f_equal (fun x => Z.testbit x (j mod w))) in H.
    rewrite !land_ones_bit in H by nia. replace (j mod w + w * (j / w)) with j in H by lia. done.
  - by rewrite !(testbit_above _ (w * Z.of_nat n)) by lia.
Qed.

Lemma octet_mod a i : 0 <= i <= 24 -> octet a i = octet (a mod 2 ^ 32) i.
Proof.
  intros Hi. unfold octet. change 255 with (Z.ones 8). apply Z.bits_inj'. intros j Hj. destruct (decide (j < 8)) as [Hlt|Hge].
  - rewrite !land_ones_bit by lia. by rewrite Z.mod_pow2_bits_low by lia.
  - rewrite !Z.land_spec, Z.ones_spec_high by lia. by rewrite !andb_false_r.
Qed.

(** The last 32 bits of an address are what is printed. *)
Lemma dotted_mod a a' : dotted a = dotted a' -> a mod 2 ^ 32 = a' mod 2 ^ 32.
Proof.
  intros H. apply dotted_inj in H as (H24 & H16 & H8 & H0). rewrite (octet_mod a) in * by lia. rewrite (octet_mod a') in * by lia.
  pose proof (Z.mod_pos_bound a (2 ^ 32) ltac:(lia)). pose proof (Z.mod_pos_bound a' (2 ^ 32) ltac:(lia)).
  apply (parts_inj 8 4); [lia|done|done|]. intros i Hi. change (Z.ones 8) with 255. fold (octet (a mod 2 ^ 32) (8 * i)) (octet (a' mod 2 ^ 32) (8 * i)).
  assert (i = 0 \/ i = 1 \/ i = 2 \/ i = 3) as [-> | [-> | [-> | ->]]] by lia; done.
Qed.

(** ** Groups *)

Fixpoint groups_text (gs : list Z) : ascii_list :=
  match gs with
  | [] => []
  | g :: gs' => hex g ++ match gs' with [] => [] | _ => colon :: groups_text gs' end
  end.

Lemma chars_hex_groups gs sep : chars (hex_groups gs sep) = match gs with [] => [] | _ => (if sep then [colon] else []) ++ groups_text gs end.
Proof.
  revert sep. induction gs as [|g gs IH]; intros sep; [done|]. cbn [hex_groups groups_text].
  rewrite !chars_app, chars_FormatUint, IH. destruct sep; destruct gs; cbn; by rewrite ?app_nil_r.
Qed.

Definition is_group (g : Z) : Prop := 0 <= g < 2 ^ 16.

Lemma hex_inj g g' : is_group g -> is_group g' -> hex g = hex g' -> g = g'.
Proof. unfold is_group. intros H H'. apply format_inj; lia. Qed.
Lemma hex_not_colon g : colon ∉ hex g.
Proof. no_separator. Qed.
Lemma hex_begins g l : hex g ++ l <> [] /\ forall l', hex g ++ l <> colon :: l'.
Proof.
  destruct (format_begins 16 ltac:(lia) g) as (c & l0 & -> & Hc). split; [done|]. intros l' [= -> _]. vm_compute in Hc. intuition congruence.
Qed.

Lemma groups_text_inj gs gs' : Forall is_group gs -> Forall is_group gs' -> groups_text gs = groups_text gs' -> gs = gs'.
Proof.
  intros Hg. revert gs'. induction Hg as [|g gs Hg Hgs IH]; intros gs' Hg' H; destruct Hg' as [|g' gs' Hg' Hgs']; cbn in H.
  - done.
  - symmetry in H. by apply hex_begins in H.
  - by apply hex_begins in H.
  - destruct gs as [|h gs], gs' as [|h' gs'].
    + rewrite !app_nil_r in H. by apply hex_inj in H as ->.
    + rewrite app_nil_r in H. by apply no_split in H; [|apply hex_not_colon].
    + rewrite app_nil_r in H. symmetry in H. by apply no_split in H; [|apply hex_not_colon].
    + apply split_at in H as [H1 H2]; [|apply hex_not_colon..]. apply hex_inj in H1 as ->; [|done..]. by rewrite (IH _ Hgs' H2).
Qed.

(** Where a run of zeros is left out can be told: before it there is no double colon. *)
Lemma gap_inj gs gs' l l' : Forall is_group gs -> Forall is_group gs' ->
  groups_text gs ++ colon :: colon :: l = groups_text gs' ++ colon :: colon :: l' -> gs = gs' /\ l = l'.
Proof.
  intros Hg. revert gs'. induction Hg as [|g gs Hg Hgs IH]; intros gs' Hg' H; destruct Hg' as [|g' gs' Hg' Hgs']; cbn in H.
  - by injection H.
  - symmetry in H. rewrite <- app_assoc in H. by apply hex_begins in H.
  - rewrite <- app_assoc in H. by apply hex_begins in H.
  - rewrite <- !app_assoc in H. destruct gs as [|h gs], gs' as [|h' gs']; cbn [app] in H;
      (apply split_at in H as [H1 H]; [|apply hex_not_colon..]); (apply hex_inj in H1 as ->; [|done..]).
    + by injection H as ->.
    + cbn in H. symmetry in H. rewrite <- app_assoc in H. by apply hex_begins in H.
    + cbn in H. rewrite <- app_assoc in H. by apply hex_begins in H.
    + destruct (IH _ Hgs' H) as [-> ->]. done.
Qed.

Lemma no_gap gs gs' l : Forall is_group gs -> gs <> [] -> groups_text gs = groups_text gs' ++ colon :: colon :: l -> False.
Proof.
  intros Hg. revert gs'. induction Hg as [|g gs Hg Hgs IH]; intros gs' Hne H; [done|]. destruct gs' as [|g' gs']; cbn in H; [by apply hex_begins in H|].
  rewrite <- app_assoc in H. destruct gs as [|h gs].
  - rewrite app_nil_r in H. destruct gs'; by (apply no_split in H; [|apply hex_not_colon]).
  - destruct gs' as [|h' gs']; cbn [app] in H; (apply split_at in H as [_ H]; [|apply hex_not_colon..]).
    + cbn in H. by apply hex_begins in H.
    + by apply (IH (h' :: gs')).
Qed.

(** ** IPv6 addresses *)

Lemma zero_run_spec gs : take (zero_run gs) gs = replicate (zero_run gs) 0 /\ (zero_run gs <= length gs)%nat.
Proof. induction gs as [|[|p|p] gs [IH1 IH2]]; cbn; [done| |split; [done|lia]..]. by rewrite IH1; split; [|lia]. Qed.

(** The run chosen is a run of zeros. *)
Definition zeros_at (gs : list Z) (start run : nat) : Prop :=
  run = 0%nat \/ (start + run <= length gs)%nat /\ take run (drop start gs) = replicate run 0.

Lemma longest_zeros_spec gs suffix i start run : suffix = drop i gs -> zeros_at gs start run ->
  let '(start', run') := longest_zeros suffix i start run in zeros_at gs start' run'.
Proof.
  revert i start run. induction suffix as [|g suffix IH]; intros i start run Hs Hz; cbn [longest_zeros]; [done|].
  assert (Hnext : suffix = drop (S i) gs) by (rewrite <- Nat.add_1_r, <- drop_drop, <- Hs; done).
  destruct (_ && _); [|by apply IH]. apply IH; [done|]. right. destruct (zero_run_spec (g :: suffix)) as [H1 H2].
  rewrite Hs in H1, H2 |- *. split; [|done]. rewrite length_drop in H2.
  assert (length (g :: suffix) = length gs - i)%nat by by rewrite Hs, length_drop. cbn in *. lia.
Qed.

Definition groups (a : Z) : list Z := map (group16 a) (seq 0 8).
Lemma groups_ok a : Forall is_group (groups a).
Proof.
  unfold groups. apply Forall_forall. intros g Hg. apply list_elem_of_fmap in Hg as (i & -> & _). unfold group16, is_group.
  change 0xffff with (Z.ones 16). rewrite Z.land_ones by lia. apply Z.mod_pos_bound. lia.
Qed.

Lemma groups_inj a a' : 0 <= a < 2 ^ 128 -> 0 <= a' < 2 ^ 128 -> groups a = groups a' -> a = a'.
Proof.
  intros Ha Ha' H. apply (parts_inj 16 8); [lia|done|done|]. intros i Hi. apply (f_equal (fun l => l !! Z.to_nat (7 - i))) in H.
  unfold groups in H. change (map ?f ?l) with (f <$> l) in H. rewrite !list_lookup_fmap, lookup_seq_lt in H by lia. cbn in H. injection H as H.
  unfold group16 in H. change 0xffff with (Z.ones 16) in H. rewrite !Z2Nat.id in H by lia. by replace (7 - (7 - i)) with i in H by lia.
Qed.

(** The text of groups, with the run of zeros left out. *)
Definition text6 (gs : list Z) (start run : nat) : ascii_list :=
  if (run =? 0)%nat then groups_text gs else groups_text (take start gs) ++ colon :: colon :: groups_text (drop (start + run) gs).

Lemma chars_string6 a : exists start run, zeros_at (groups a) start run /\ chars (string6 a) = text6 (groups a) start run.
Proof.
  unfold string6. fold (groups a). pose proof (longest_zeros_spec (groups a) (groups a) 0 8 0 eq_refl (or_introl eq_refl)) as H.
  destruct (longest_zeros _ _ _ _) as [start run]. exists start, run. split; [done|]. unfold text6.
  assert (Ht : forall gs, chars (hex_groups gs false) = groups_text gs) by (intros gs; rewrite chars_hex_groups; by destruct gs).
  destruct (run =? 0)%nat; [apply Ht|]. by rewrite !chars_app, !Ht.
Qed.

Lemma zeros_at_split gs start run : (run =? 0)%nat = false -> zeros_at gs start run ->
  gs = take start gs ++ replicate run 0 ++ drop (start + run) gs /\ (start + run <= length gs)%nat.
Proof.
  intros Hr%Nat.eqb_neq [H|[H1 H2]]; [done|]. split; [|done]. rewrite <- H2, <- drop_drop, take_drop. by rewrite take_drop.
Qed.

Lemma text6_inj gs gs' s r s' r' : Forall is_group gs -> Forall is_group gs' -> length gs = 8%nat -> length gs' = 8%nat ->
  zeros_at gs s r -> zeros_at gs' s' r' -> text6 gs s r = text6 gs' s' r' -> gs = gs'.
Proof.
  intros Hg Hg' Hl Hl' Hz Hz'. unfold text6.
  destruct (r =? 0)%nat eqn:Er, (r' =? 0)%nat eqn:Er'; intros H.
  - by apply groups_text_inj.
  - exfalso. eapply no_gap; [exact Hg| |exact H]. by destruct gs.
  - exfalso. eapply no_gap; [exact Hg'| |symmetry; exact H]. by destruct gs'.
  - apply gap_inj in H as [H1 H2]; [|by apply Forall_take..]. apply groups_text_inj in H2; [|by apply Forall_drop..].
    apply zeros_at_split in Hz as [Hz Hb]; [|done]. apply zeros_at_split in Hz' as [Hz' Hb']; [|done].
    apply (f_equal length) in H1 as L1. rewrite !length_take in L1. apply (f_equal length) in H2 as L2. rewrite !length_drop in L2.
    rewrite Hz, Hz', H1, H2. replace r with r' by lia. done.
Qed.

(** ** Addresses and prefixes *)

Definition colon_char (c : Ascii.ascii) : Prop := alnum c \/ c = colon.
Definition addr_char (c : Ascii.ascii) : Prop := alnum c \/ c = dot \/ c = colon.

Lemma digits_colon base n : 2 <= base <= 36 -> Forall colon_char (format_digits 64 base n).
Proof. intros Hb. eapply Forall_impl; [by apply format_digits_alnum|]. by left. Qed.
Lemma groups_text_chars gs : Forall colon_char (groups_text gs).
Proof.
  induction gs as [|g gs IH]; cbn; [done|]. apply Forall_app. split; [apply digits_colon; lia|]. destruct gs; [done|]. constructor; [by right|done].
Qed.
Lemma text6_chars gs start run : Forall colon_char (text6 gs start run).
Proof.
  unfold text6. destruct (_ =? _)%nat; [apply groups_text_chars|]. apply Forall_app. split; [apply groups_text_chars|].
  do 2 (constructor; [by right|]). apply groups_text_chars.
Qed.
Lemma dotted_chars a : Forall addr_char (dotted a).
Proof.
  unfold dotted. pose proof (fun n => Forall_impl _ addr_char _ (format_digits_alnum 10 ltac:(lia) 64 n) (fun c H => or_introl H)) as Hd.
  repeat first [apply Hd | apply Forall_app; split | constructor; [by right; left|]].
Qed.

(** What is printed of an address, by its kind. *)
Definition mapped_text : ascii_list := chars "::ffff:".
Inductive addr_text : Addr -> ascii_list -> Prop :=
| text_4 v : v4InV6 <= v < v4InV6 + 2 ^ 32 -> addr_text (mkAddr v z4) (dotted v)
| text_mapped v : v4InV6 <= v < v4InV6 + 2 ^ 32 -> addr_text (mkAddr v (z6 "")) (mapped_text ++ dotted v)
| text_6 v start run : 0 <= v < 2 ^ 128 -> zeros_at (groups v) start run -> addr_text (mkAddr v (z6 "")) (text6 (groups v) start run).

Lemma Addr_String_text a : wf_addr a -> IsValid a = true -> addr_text a (chars (Addr_String a)).
Proof.
  destruct a as [v [| |zone]]; unfold wf_addr, Addr_String; cbn [z addr]; intros Hwf Hv; [done| |].
  - rewrite chars_string4. by constructor.
  - destruct Hwf as [Hwf ->]. rewrite bool_decide_true by done. unfold Is4In6. change (Is6 (mkAddr v (z6 ""))) with true. cbn [andb addr].
    destruct (Z.eqb_spec (Z.shiftr v 32) 0xffff) as [H|_].
    + rewrite !chars_app, chars_string4. change (chars "") with (@nil Ascii.ascii). rewrite app_nil_r. apply text_mapped.
      rewrite Z.shiftr_div_pow2 in H by lia. pose proof (Z.div_mod v (2 ^ 32) ltac:(lia)). pose proof (Z.mod_pos_bound v (2 ^ 32) ltac:(lia)).
      unfold v4InV6. lia.
    + rewrite chars_app. change (chars "") with (@nil Ascii.ascii). rewrite app_nil_r. destruct (chars_string6 v) as (start & run & Hz & ->). by apply text_6.
Qed.

Lemma dot_in_dotted a : dot ∈ dotted a.
Proof. unfold dotted. apply elem_of_app. right. by left. Qed.
Lemma dot_not_in_6 gs start run : dot ∉ text6 gs start run.
Proof.
  intros H. pose proof (text6_chars gs start run) as Hc. rewrite Forall_forall in Hc.
  destruct (Hc _ H) as [Hd|]; [vm_compute in Hd; intuition congruence|done].
Qed.
Lemma dotted_not_mapped a l : dotted a <> mapped_text ++ l.
Proof.
  unfold dotted. destruct (format_begins 10 ltac:(lia) (octet a 24)) as (c & l0 & -> & Hc). intros [= -> _]. vm_compute in Hc. intuition congruence.
Qed.
Lemma mapped_inj v v' : v4InV6 <= v < v4InV6 + 2 ^ 32 -> v4InV6 <= v' < v4InV6 + 2 ^ 32 -> dotted v = dotted v' -> v = v'.
Proof.
  intros H H' Heq%dotted_mod. unfold v4InV6 in *. replace v with (v - 0xffff00000000 + 65535 * 2 ^ 32) in Heq by lia.
  replace v' with (v' - 0xffff00000000 + 65535 * 2 ^ 32) in Heq by lia. rewrite !Z.mod_add, !Z.mod_small in Heq by lia. lia.
Qed.

Lemma addr_text_inj a a' t t' : addr_text a t -> addr_text a' t' -> t = t' -> a = a'.
Proof.
  intros [v Hv|v Hv|v s r Hv Hz] [v' Hv'|v' Hv'|v' s' r' Hv' Hz'] E.
  - f_equal. by apply mapped_inj.
  - by apply dotted_not_mapped in E.
  - destruct (dot_not_in_6 (groups v') s' r'). rewrite <- E. apply dot_in_dotted.
  - symmetry in E. by apply dotted_not_mapped in E.
  - apply app_inv_head in E. f_equal. by apply mapped_inj.
  - destruct (dot_not_in_6 (groups v') s' r'). rewrite <- E. apply elem_of_app. right. apply dot_in_dotted.
  - destruct (dot_not_in_6 (groups v) s r). rewrite E. apply dot_in_dotted.
  - destruct (dot_not_in_6 (groups v) s r). rewrite E. apply elem_of_app. right. apply dot_in_dotted.
  - f_equal. apply groups_inj; [done|done|]. apply (text6_inj _ _ s r s' r'); try done; apply groups_ok.
Qed.

Lemma addr_text_chars a t : addr_text a t -> Forall addr_char t.
Proof.
  destruct 1; [apply dotted_chars| |].
  - apply Forall_app. split; [|apply dotted_chars]. repeat (apply Forall_cons; split; [first [by right; right | left; right; vm_compute; split; congruence]|]); done.
  - eapply Forall_impl; [apply text6_chars|]. intros c [?| ->]; [by left|by right; right].
Qed.

Notation slash := "/"%char.

Lemma chars_prefix p : Prefix_IsValid p = true -> chars (Prefix_String p) = chars (Addr_String (ip p)) ++ slash :: dec (Bits p).
Proof. intros Hv. unfold Prefix_String. rewrite Hv. cbn [negb]. by rewrite !chars_app, chars_FormatUint. Qed.

Lemma prefix_range p : wf_prefix p -> 0 <= Bits p < 2 ^ 64 /\ addr_text (ip p) (chars (Addr_String (ip p))).
Proof.
  intros (Ha & Hv & Hb). split; [|by apply Addr_String_text]. unfold BitLen in Hb. destruct (z (ip p)); lia.
Qed.

Lemma Prefix_String_inj p p' : wf_prefix p -> wf_prefix p' -> Prefix_IsValid p = true -> Prefix_IsValid p' = true ->
  chars (Prefix_String p) = chars (Prefix_String p') -> p = p'.
Proof.
  intros (Hb & Ht)%prefix_range (Hb' & Ht')%prefix_range Hv Hv'. rewrite !chars_prefix by done. intros H.
  assert (Hs : forall a t, addr_text a t -> slash ∉ t).
  { intros a t Hat Hin. pose proof (addr_text_chars _ _ Hat) as Hc. rewrite Forall_forall in Hc.
    destruct (Hc _ Hin) as [Hd|[?|?]]; [vm_compute in Hd; intuition congruence|done..]. }
  apply split_at in H as [H1 H2]; [|by eapply Hs..]. apply format_inj in H2; [|lia..].
  pose proof (addr_text_inj _ _ _ _ Ht Ht' H1) as Hip. unfold Bits in H2. destruct p, p'; cbn in *. f_equal; [done|lia].
Qed.

Lemma Prefix_String_chars p : wf_prefix p -> Prefix_IsValid p = true -> Forall (fun c => 46 <= ascii_byte c) (chars (Prefix_String p)).
Proof.
  intros (Hb & Ht)%prefix_range Hv. rewrite chars_prefix by done. apply Forall_app. split.
  - eapply Forall_impl; [by eapply addr_text_chars|]. unfold addr_char, alnum. intros c [?|[-> | ->]]; [lia|by vm_compute..].
  - constructor; [by vm_compute|]. eapply Forall_impl; [apply format_digits_alnum; lia|]. unfold alnum. lia.
Qed.

(** * Names of the cache file *)

Definition special (c : Ascii.ascii) : Prop := ascii_byte c < 2.
(** The tag of a transport has no control characters, and a subnet has no zone. *)
Record nameable (k : dnsCacheKey) : Prop := {
  nm_tag : Forall (fun c => ~ special c) (chars (k_transportTag k));
  nm_subnet : Prefix_IsValid (k_clientSubnet k) = true -> wf_prefix (k_clientSubnet k);
  nm_environment : is_u 64 (k_environment k);
}.

Definition subnet_text (p : Prefix) : ascii_list := if Prefix_IsValid p then byte_ascii 0 :: chars (Prefix_String p) else [].
Definition environment_text (n : Z) : ascii_list := if n =? 0 then [] else byte_ascii 1 :: format_digits 64 36 n.

Lemma chars_persistentName k :
  chars (persistentName k) = chars (k_transportTag k) ++ subnet_text (k_clientSubnet k) ++ environment_text (k_environment k).
Proof.
  unfold persistentName, subnet_text, environment_text.
  destruct (Prefix_IsValid _), (k_environment k =? 0); cbn [negb]; rewrite ?chars_app, ?chars_FormatUint, <- ?app_assoc, ?app_nil_r; done.
Qed.

Lemma environment_text_begins n : begins special (environment_text n).
Proof. unfold environment_text. destruct (n =? 0); [done|]. by vm_compute. Qed.
Lemma subnet_text_begins p l : begins special l -> begins special (subnet_text p ++ l).
Proof. unfold subnet_text. destruct (Prefix_IsValid p); [|done]. intros _. by vm_compute. Qed.
Lemma environment_text_inj n n' : is_u 64 n -> is_u 64 n' -> environment_text n = environment_text n' -> n = n'.
Proof.
  unfold environment_text, is_u. intros H H'. destruct (Z.eqb_spec n 0), (Z.eqb_spec n' 0); try done; [by subst|].
  intros [= Heq]. by apply format_inj in Heq; [|lia..].
Qed.

Lemma subnet_text_inj p p' n n' :
  (Prefix_IsValid p = true -> wf_prefix p) -> (Prefix_IsValid p' = true -> wf_prefix p') ->
  subnet_text p ++ environment_text n = subnet_text p' ++ environment_text n' ->
  Prefix_IsValid p = Prefix_IsValid p' /\ (Prefix_IsValid p = true -> p = p') /\ environment_text n = environment_text n'.
Proof.
  intros Hp Hp'. unfold subnet_text.
  assert (Hplain : forall q, wf_prefix q -> Prefix_IsValid q = true -> Forall (fun c => ~ special c) (chars (Prefix_String q))).
  { intros q Hq Hv. eapply Forall_impl; [by apply Prefix_String_chars|]. unfold special. cbn. lia. }
  destruct (Prefix_IsValid p) eqn:Hv, (Prefix_IsValid p') eqn:Hv'; cbn [app]; intros H.
  - injection H as H. apply (split_special special) in H as [H1 H2]; [|auto..|apply environment_text_begins|apply environment_text_begins].
    split; [done|]. split; [|done]. intros _. by apply Prefix_String_inj; auto.
  - exfalso. unfold environment_text in H at 2. by destruct (n' =? 0).
  - exfalso. unfold environment_text in H at 1. by destruct (n =? 0).
  - done.
Qed.

(** C15: the cache file does not mix answers.  Two keys with the same place in the
    file are for the same name and type, the same transport and network, and the same
    client subnet if there is one. *)
Theorem file_keys_distinct k k' : nameable k -> nameable k' -> store_key k = store_key k' ->
  k_transportTag k = k_transportTag k'
  /\ q_Name (k_Question k) = q_Name (k_Question k') /\ q_Qtype (k_Question k) = q_Qtype (k_Question k')
  /\ k_environment k = k_environment k'
  /\ Prefix_IsValid (k_clientSubnet k) = Prefix_IsValid (k_clientSubnet k')
  /\ (Prefix_IsValid (k_clientSubnet k) = true -> k_clientSubnet k = k_clientSubnet k').
Proof.
  intros [Ht Hs He] [Ht' Hs' He'] H. unfold store_key in H. injection H as Hn Hname Htype.
  apply (f_equal chars) in Hn. rewrite !chars_persistentName in Hn.
  apply (split_special special) in Hn as [Htag Hrest]; [|done|done|apply subnet_text_begins, environment_text_begins..].
  apply subnet_text_inj in Hrest as (Hv & Hp & Henv); [|done..]. apply environment_text_inj in Henv; [|done..].
  apply chars_inj in Htag. done.
Qed.

Definition example_key (env : Z) : dnsCacheKey :=
  mkCacheKey (mkQuestion "example.org." 28 1) "google" (mkPrefix (AddrFrom16 (0x20010db8 * 2 ^ 96)) 33) env.
Lemma example_key_nameable n : is_u 64 n -> nameable (example_key n).
Proof.
  intros Hn. split; cbn [example_key k_transportTag k_clientSubnet k_environment].
  - repeat (apply Forall_cons; split; [vm_compute; congruence|]). done.
  - intros _. unfold wf_prefix, wf_addr, AddrFrom16, IsValid, Bits, BitLen. cbn [z ip addr bitsPlusOne]. split; [split; [lia|done]|]. split; [done|lia].
  - exact Hn.
Qed.

(** Keys of two networks have different places; keys that differ in the class have the
    same one. *)
Lemma file_keys_distinct_witness :
  persistentName (example_key 3) = "google" +:+ separator 0 +:+ "2001:db8::/32" +:+ separator 1 +:+ "3"
  /\ store_key (example_key 3) <> store_key (example_key 4)
  /\ let chaos := (example_key 3) <| k_Question := mkQuestion "example.org." 28 3 |> in
     example_key 3 <> chaos /\ k_clientSubnet (example_key 3) = k_clientSubnet chaos.
Proof.
  assert (H3 : nameable (example_key 3)) by (apply example_key_nameable; unfold is_u; lia).
  assert (H4 : nameable (example_key 4)) by (apply example_key_nameable; unfold is_u; lia).
  split; [vm_compute; reflexivity|]. split.
  - intros E. destruct (file_keys_distinct (example_key 3) (example_key 4) H3 H4 E) as (_ & _ & _ & He & _). discriminate He.
  - split; [discriminate|].
    assert (Hc : nameable ((example_key 3) <| k_Question := mkQuestion "example.org." 28 3 |>)) by (destruct H3; by split).
    destruct (file_keys_distinct (example_key 3) ((example_key 3) <| k_Question := mkQuestion "example.org." 28 3 |>) H3 Hc eq_refl)
      as (_ & _ & _ & _ & _ & Hsub). apply Hsub. reflexivity.
Defined.

(** The class of a question is not part of its place in the file, so a question of
    the CHAOS class is answered with an answer of the Internet class. *)
Example classes_share_answers :
  store_key (example_key 0) = store_key ((example_key 0) <| k_Question := mkQuestion "example.org." 28 3 |>).
Proof. reflexivity. Qed.
