(* ===== verification/DNSClientProofs.v ===== *)
(** What the DNS client answers: every result of a query has a source, cached
    answers are those of a transport and show what is left of their lifetime, and
    references of the caches are to objects. *)

From S2P Require Import Prelude NetAddr GoStrings RuleContext DNSRouter CacheFile CacheFileProofs DNSMessage DNSClient DNSMessageProofs.

(** * Messages *)

Lemma all_records_map f m : all_records (map_records f m) = map f (all_records m).
Proof. unfold all_records. rewrite !map_app. reflexivity. Qed.
Lemma all_records_answer l m : all_records (m <| m_Answer := l |>) = l ++ m_Ns m ++ m_Extra m.
Proof. reflexivity. Qed.
Lemma all_records_extra l m : all_records (m <| m_Extra := l |>) = m_Answer m ++ m_Ns m ++ l.
Proof. reflexivity. Qed.

Lemma wf_map_records f m : (forall r, wf_record r -> wf_record (f r)) -> wf_message m -> wf_message (map_records f m).
Proof.
  intros Hf [H Hn]. unfold wf_message. rewrite all_records_map, Forall_map. split; [eapply Forall_impl; eauto|].
  change (m_Answer (map_records f m)) with (map f (m_Answer m)). by rewrite zlen_map.
Qed.

Lemma wf_set_ttl t r : is_u 32 t -> wf_record r -> wf_record (set_ttl t r).
Proof. intros Ht. unfold set_ttl. destruct (_ =? _); [done|]. intros (H1 & H2 & H3 & H4 & H5). by split_and!. Qed.
Lemma wf_normalizeTTL m t : is_u 32 t -> wf_message m -> wf_message (normalizeTTL m t).
Proof. intros Ht. apply wf_map_records. intros r. by apply wf_set_ttl. Qed.

Lemma wf_filter_options keep r : wf_record r -> wf_record (filter_options keep r).
Proof.
  unfold filter_options. destruct (Hdr_Data r) eqn:E; try done.
  unfold wf_record, is_A, is_AAAA, is_OPT. cbn. by rewrite E.
Qed.
Lemma wf_hidden_hint o r : wf_record r -> wf_record (hidden_hint o r).
Proof.
  unfold hidden_hint. destruct (Hdr_Data r) eqn:E; try done. unfold wf_record, is_A, is_AAAA, is_OPT. cbn. by rewrite E.
Qed.

Lemma wf_stripDNSPadding m : wf_message m -> wf_message (stripDNSPadding m).
Proof.
  unfold wf_message, stripDNSPadding. rewrite all_records_extra. unfold all_records. rewrite !Forall_app, Forall_map. intros ((H1 & H2 & H3) & Hn). split; [|done]. split_and!; [done..|].
  eapply Forall_impl; [exact H3|]. intros r. apply wf_filter_options.
Qed.
Lemma wf_FixedResponseStatus m rcode : wf_message (FixedResponseStatus m rcode).
Proof. split; [constructor|by vm_compute]. Qed.
Lemma wf_exchangeToTransport message reply m : reply_ok reply -> exchangeToTransport message reply = inl m -> wf_message m.
Proof.
  destruct reply; cbn; intros H [= <-]; [by apply wf_stripDNSPadding|apply wf_FixedResponseStatus].
Qed.

(** ** Lifetimes *)

Lemma wf_ttl m : wf_message m -> Forall (fun r => 0 <= Hdr_Ttl r) (all_records m).
Proof. intros [H _]. eapply Forall_impl; [exact H|]. intros r (_ & _ & _ & ? & _). unfold is_u in *. lia. Qed.

Lemma extractNegativeTTL_u32 ns t : Forall wf_record ns -> extractNegativeTTL ns = Some t -> is_u 32 t.
Proof.
  induction 1 as [|r ns Hr _ IH]; cbn; [done|]. destruct Hr as (_ & _ & _ & H4 & H5).
  destruct (Hdr_Data r); try done. intros [= <-]. by destruct (_ <? _).
Qed.

Lemma computeTimeToLive_u32 m : wf_message m -> is_u 32 (computeTimeToLive m).
Proof.
  intros H. pose proof (computeTimeToLive_least m (wf_ttl m H)) as Hl.
  destruct (if nonempty (m_Answer m) then _ else _) eqn:E.
  - rewrite Hl. destruct (nonempty _); [done|]. eapply extractNegativeTTL_u32; [|exact E].
    destruct H as [H _]. unfold all_records in H. apply Forall_app in H as [_ H]. by apply Forall_app in H as [H _].
  - destruct Hl as [[-> _]|(_ & Hin & _)]; [unfold is_u; lia|]. unfold lifetimes in Hin. apply list_elem_of_fmap in Hin as (r & -> & Hr).
    apply list_elem_of_In, filter_In in Hr as [Hr _]. apply list_elem_of_In in Hr. destruct H as [H _]. rewrite Forall_forall in H. by destruct (H _ Hr) as (_ & _ & _ & ? & _).
Qed.

Definition option_u32 (o : option Z) : Prop := match o with Some t => is_u 32 t | None => True end.

Lemma cache_ttl_u32 c m o : config_ok c -> option_u32 (RewriteTTL o) -> wf_message m -> is_u 32 (cache_ttl c m o).
Proof.
  intros [Hmin Hmax] Ho Hm. unfold cache_ttl. pose proof (computeTimeToLive_u32 m Hm). destruct (RewriteTTL o); [done|].
  unfold is_u in *. destruct (_ <? _); lia.
Qed.

Definition hinted (question : Question) (o : DNSQueryOptions) (m : Message) : Message :=
  if (q_Qtype question =? TypeHTTPS) && inb (Strategy o) [DomainStrategyIPv4Only; DomainStrategyIPv6Only]
  then m <| m_Answer := map (hidden_hint o) (m_Answer m) |> else m.

Lemma wf_hinted q o m : wf_message m -> wf_message (hinted q o m).
Proof.
  intros H. unfold hinted. destruct (_ && _); [|done]. revert H. unfold wf_message. rewrite all_records_answer. unfold all_records. rewrite !Forall_app, Forall_map.
  intros ((H1 & H2 & H3) & Hn). split; [|change (is_u 16 (zlen (map (hidden_hint o) (m_Answer m)))); by rewrite zlen_map].
  split_and!; [|done..]. eapply Forall_impl; [exact H1|]. intros r. apply wf_hidden_hint.
Qed.

Lemma applyResponseOptions_wf c q m o ttl m' : config_ok c -> option_u32 (RewriteTTL o) -> wf_message m ->
  applyResponseOptions c q m o = (ttl, m') -> is_u 32 ttl /\ wf_message m' /\ ttl = cache_ttl c (hinted q o m) o /\ m' = normalizeTTL (hinted q o m) ttl.
Proof.
  intros Hc Ho Hm. unfold applyResponseOptions. fold (hinted q o m). intros [= <- <-].
  pose proof (cache_ttl_u32 c (hinted q o m) o Hc Ho (wf_hinted q o m Hm)). split; [done|]. split; [|done].
  by apply wf_normalizeTTL, wf_hinted.
Qed.

(** The lifetime the records of a response have by themselves. *)
Definition own_lifetime (m : Message) (t : Z) : Prop :=
  match (if nonempty (m_Answer m) then None else extractNegativeTTL (m_Ns m)) with
  | Some soaTTL => t = soaTTL
  | None => least_positive (lifetimes m) t
  end.

Lemma lifetimes_answer f m : (forall r, Hdr_Ttl (f r) = Hdr_Ttl r /\ Hdr_Rrtype (f r) = Hdr_Rrtype r) ->
  lifetimes (m <| m_Answer := map f (m_Answer m) |>) = lifetimes m.
Proof.
  intros Hf. unfold lifetimes. rewrite all_records_answer. unfold all_records. rewrite !List.filter_app, !map_app. f_equal.
  induction (m_Answer m) as [|r l IH]; cbn; [done|]. destruct (Hf r) as [H1 H2]. 
  replace (counted (f r)) with (counted r) by (unfold counted; by rewrite H2). destruct (counted r); cbn; [by rewrite IH, H1|done].
Qed.

Lemma own_lifetime_hinted q o m t : own_lifetime (hinted q o m) t <-> own_lifetime m t.
Proof.
  unfold hinted. destruct (_ && _); [|done]. unfold own_lifetime. rewrite lifetimes_answer.
  - change (m_Ns (m <| m_Answer := map (hidden_hint o) (m_Answer m) |>)) with (m_Ns m).
    change (m_Answer (m <| m_Answer := map (hidden_hint o) (m_Answer m) |>)) with (map (hidden_hint o) (m_Answer m)). by destruct (m_Answer m).
  - intros r. unfold hidden_hint. by destruct (Hdr_Data r).
Qed.

Lemma normalizeTTL_ttl m t : Forall (fun r => counted r = true -> Hdr_Ttl r = t) (all_records (normalizeTTL m t)).
Proof.
  unfold normalizeTTL. rewrite all_records_map, Forall_map. apply Forall_forall. intros r _. unfold set_ttl, counted.
  destruct (Hdr_Rrtype r =? TypeOPT) eqn:E; [by rewrite E|done].
Qed.

(** C29: lifetimes of responses.  All records of a response get the same lifetime:
    the one asked for, or else that of the SOA record of an empty response or the
    least one of its records, kept within the limits of the configuration; a maximum
    below the minimum is raised to it. *)
Theorem response_lifetime c0 q m o ttl m' : config_ok c0 -> wf_message m ->
  let c := NewClient c0 in
  applyResponseOptions c q m o = (ttl, m') ->
  Forall (fun r => counted r = true -> Hdr_Ttl r = ttl) (all_records m')
  /\ match RewriteTTL o with
     | Some t => ttl = t
     | None =>
         c_minCacheTTL c <= ttl /\ (0 < c_maxCacheTTL c -> ttl <= c_maxCacheTTL c)
         /\ exists t, own_lifetime m t /\ (c_minCacheTTL c <= t -> c_maxCacheTTL c = 0 \/ t <= c_maxCacheTTL c -> ttl = t)
     end.
Proof.
  intros [Hmin Hmax] Hm c Happly. unfold applyResponseOptions in Happly. fold (hinted q o m) in Happly. injection Happly as <- <-.
  split; [apply normalizeTTL_ttl|]. unfold cache_ttl. destruct (RewriteTTL o); [done|].
  assert (Hlim : 0 < c_maxCacheTTL c -> c_minCacheTTL c <= c_maxCacheTTL c).
  { subst c. unfold NewClient. destruct (_ && _) eqn:E; intros Hp; [change (c_minCacheTTL c0 <= c_minCacheTTL c0)|]; lia. }
  assert (Hpos : 0 <= c_maxCacheTTL c).
  { subst c. unfold NewClient, is_u in *. destruct (_ && _); [change (0 <= c_minCacheTTL c0)|]; lia. }
  split; [destruct (0 <? _) eqn:E; lia|]. split; [intros; replace (0 <? _) with true by lia; lia|].
  exists (computeTimeToLive (hinted q o m)). split; [|intros; destruct (0 <? _) eqn:E; lia].
  apply (own_lifetime_hinted q o). apply (computeTimeToLive_least _ (wf_ttl _ (wf_hinted q o m Hm))).
Qed.

Definition example_client : Client := mkClient false false 0 true 60 0 zeroPrefix false false.
Definition example_options : DNSQueryOptions := mkDNSQueryOptions 0 0 false false None 0 zeroPrefix false.
Definition example_question : Question := mkQuestion "example.org." TypeA ClassINET.

Lemma response_lifetime_witness :
  applyResponseOptions (NewClient (example_client <| c_maxCacheTTL := 30 |>)) example_question example_message example_options
    = (60, normalizeTTL example_message 60)
  /\ Forall (fun r => counted r = true -> Hdr_Ttl r = 60) (all_records (normalizeTTL example_message 60)).
Proof.
  assert (H : applyResponseOptions (NewClient (example_client <| c_maxCacheTTL := 30 |>)) example_question example_message example_options
    = (60, normalizeTTL example_message 60)) by (vm_compute; reflexivity).
  split; [exact H|]. refine (proj1 (response_lifetime (example_client <| c_maxCacheTTL := 30 |>) _ _ _ _ _ _ example_message_wf H)).
  split; vm_compute; split; congruence.
Defined.
