(* ===== verification/DNSAnswerProofs.v ===== *)
(** Queries of the DNS client that run at the same time: every result has a source,
    and what comes from the cache is what a transport answered for the same key. *)

From S2P Require Import Prelude NetAddr GoStrings RuleContext DNSRouter CacheFile CacheFileProofs DNSMessage DNSClient DNSMessageProofs DNSClientProofs.

Section Answers.
Context {CEnv : ClientEnv} {Store : AnswerStore}.
Variable c : Client.

(** * What a response leaves behind *)

(** The key, message and lifetime under which a response is cached. *)
Definition stored_by (a : answered) : option (dnsCacheKey * Message * Z) :=
  let r := a_request a in
  if rejected_by (r_responseChecker r) (a_response a) || negb (accepted_rcode (a_response a)) then None
  else match a_key a with
       | None => None
       | Some key =>
           match finishCacheKey (a_env a) (r_transport r) key with
           | None => None
           | Some key =>
               let '(timeToLive, m) := applyResponseOptions c (a_question a) (a_response a) (r_options r) in
               if timeToLive =? 0 then None else Some (key, m, timeToLive)
           end
       end.

(** A response that makes the client remember that its transport was rejected. *)
Definition rejection (a : answered) : Prop :=
  rejected_by (r_responseChecker (a_request a)) (a_response a) = true /\ a_key a <> None
  /\ (a_refresh a = true \/ accepted_rcode (a_response a) = true).

(** * Sources of results *)

(** Whether [m0], which is in the cache for [key], is the stored message [m]: it is
    the same object, or read from what the file keeps under the same name. *)
Definition cached_as (key key' : dnsCacheKey) (m m0 : Message) : Prop :=
  if c_dnsCache c then store_key key' = store_key key /\ exists raw, Pack m = Some raw /\ Unpack raw = Some m0
  else key' = key /\ m0 = m.

(** What is shown of a lifetime of [ttl] seconds from [t0]: nothing if answers do
    not expire; a fresh answer shows at most the rest of it, in whole seconds, a
    stale one shows a second. *)
Definition lifetime_shown (t0 ttl now : Z) (stale : bool) (shown : option Z) : Prop :=
  if c_disableExpire c then shown = None /\ stale = false
  else
    let expire := t0 + second * ttl in
    if stale then shown = Some 1 /\ expire - second < now < expire + c_optimisticTimeout c
    else exists s, shown = Some s /\ 0 <= s /\ s * second <= expire - now < (s + 2) * second.

Definition show (shown : option Z) (m : Message) : Message := match shown with Some t => normalizeTTL m t | None => m end.

(** [m] is an answer from the cache for a key at a time. *)
Definition from_cache (log : list answered) (now : Z) (key : dnsCacheKey) (m : Message) (stale : bool) : Prop :=
  exists a key' m0 m1 answers ttl shown,
    a ∈ log /\ a_now a <= now /\ stored_by a = Some (key', m0, ttl) /\ cached_as key key' m0 m1
    /\ Permutation answers (m_Answer m1) /\ lifetime_shown (a_now a) ttl now stale shown /\ m = show shown (m1 <| m_Answer := answers |>).

Inductive sourced (log : list answered) (now : Z) (r : request) : option Message * option error -> Prop :=
| src_no_question : m_Question (r_message r) = [] ->
    sourced log now r (response_ (FixedResponseStatus (r_message r) RcodeFormatError))
| src_strategy q qs : m_Question (r_message r) = q :: qs -> strategy_rejects q (r_options r) = true ->
    sourced log now r (response_ (FixedResponseStatus (r_message r) RcodeSuccess))
| src_cached q qs env now' m stale id :
    m_Question (r_message r) = q :: qs -> now' <= now ->
    from_cache log now' (newCacheKey c env (r_transport r) q (r_message r) (r_options r)) m stale ->
    (stale = true -> DisableOptimisticCache (r_options r) = false) ->
    id = m_Id (r_message r) \/ id = m_Id m ->
    sourced log now r (response_ (m <| m_Id := id |>))
| src_rejected_before q qs a : m_Question (r_message r) = q :: qs ->
    a ∈ log -> rejection a -> rdrc_key (r_transport (a_request a)) (a_question a) = rdrc_key (r_transport r) q ->
    sourced log now r (failed ErrResponseRejectedCached)
| src_rejected a : a ∈ log -> a_request a = r -> a_refresh a = false -> rejected_by (r_responseChecker r) (a_response a) = true ->
    sourced log now r (Some (a_response a), Some ErrResponseRejected)
| src_exchanged a ttl m : a ∈ log -> a_request a = r -> a_refresh a = false -> rejected_by (r_responseChecker r) (a_response a) = false ->
    applyResponseOptions c (a_question a) (a_response a) (r_options r) = (ttl, m) ->
    let message := prepareExchangeMessage c (r_message r) (r_options r) in
    sourced log now r (response_ (match_edns message (m <| m_Id := m_Id (r_message r) |>)))
| src_failed e : e <> ErrResponseRejectedCached -> sourced log now r (failed e).

Lemma from_cache_mono log log' now key m stale : from_cache log now key m stale -> from_cache (log ++ log') now key m stale.
Proof. intros (a & key' & m0 & m1 & l & ttl & shown & Ha & H). exists a, key', m0, m1, l, ttl, shown. split; [set_solver|done]. Qed.
Lemma sourced_mono log log' now now' r rs : now <= now' -> sourced log now r rs -> sourced (log ++ log') now' r rs.
Proof.
  intros Hn H.
  destruct H as [Hq|q qs Hq Hs|q qs env n m stale id Hq Hle Hc Hs Hid|q qs a Hq Ha Hr Hk|a Ha Hr Hf Hrej|a ttl m Ha Hr Hf Hrej Happ message|e He].
  - by constructor.
  - by eapply src_strategy.
  - apply (src_cached _ _ _ q qs env n m stale id); [done|lia|by apply from_cache_mono|done|done].
  - apply (src_rejected_before _ _ _ q qs a); [done|set_solver|done..].
  - by apply src_rejected; [set_solver|..].
  - apply (src_exchanged _ _ _ a ttl); [set_solver|done..].
  - by constructor.
Qed.

(** * The invariant *)

Definition expiry_ok (t0 ttl e : Z) : Prop :=
  let expire := t0 + second * ttl in expire - second < e <= expire.

Record log_ok (now : Z) (a : answered) : Prop := {
  lo_time : 0 <= a_now a <= now;
  lo_bound : a_now a < 2 ^ 62;
  lo_request : request_ok (a_request a);
  lo_response : wf_message (a_response a);
  lo_type : is_u 16 (q_Qtype (a_question a));
  lo_key key : a_key a = Some key -> k_Question key = a_question a;
}.

Record state_ok (log : list answered) (st : ClientState) : Prop := {
  so_cache key ref e : lru_lookup (st_cache st) key = Some (ref, e) ->
    exists dm a ttl, st_heap st !! ref = Some dm /\ a ∈ log /\ stored_by a = Some (key, msg dm, ttl)
    /\ (c_disableExpire c = false -> expiry_ok (a_now a) ttl e);
  so_index key ref e : lru_lookup (st_roundRobinIndex st) key = Some (ref, e) -> exists dm, st_heap st !! ref = Some dm;
  so_holds k x : key_ok k -> as_holds (st_file st) k x ->
    exists a key m ttl, a ∈ log /\ stored_by a = Some (key, m, ttl) /\ store_key key = k /\ Pack m = Some (fst x) /\ expiry_ok (a_now a) ttl (snd x);
  so_rejects k : key_ok k -> as_rejects (st_file st) k ->
    exists a, a ∈ log /\ rejection a /\ rdrc_key (r_transport (a_request a)) (a_question a) = k;
  so_heap : Forall counters_ok (st_heap st);
}.

Definition op_ok (r : request) (op : exchangeOperation) : Prop :=
  request_ok r /\ exists q qs, m_Question (r_message r) = q :: qs /\ op_question op = q
  /\ op_message op = prepareExchangeMessage c (r_message r) (r_options r)
  /\ match op_cacheKey op with Some key => exists env, key = newCacheKey c env (r_transport r) q (r_message r) (r_options r) | None => True end.

Definition call_ok (log : list answered) (now : Z) (x : call) : Prop :=
  match x with
  | Asking r => request_ok r /\ m_Question (r_message r) <> []
  | Called _ r => request_ok r
  | Waiting r op _ => op_ok r op /\ op_releaseCond op = None
  | Loading r op | InFlight r op => op_ok r op
  | Releasing r _ rs | Returned r rs => sourced log now r rs
  | Refreshing r key message =>
      request_ok r /\ exists q qs env, m_Question (r_message r) = q :: qs /\ key = newCacheKey c env (r_transport r) q (r_message r) (r_options r)
  | Refreshed => True
  end.

Record world_ok (w : client_world) : Prop := {
  wo_time : 0 <= cw_now w;
  wo_log : Forall (log_ok (cw_now w)) (cw_log w);
  wo_state : state_ok (cw_log w) (cw_state w);
  wo_calls : Forall (call_ok (cw_log w) (cw_now w)) (cw_calls w);
}.

Lemma call_ok_mono log log' now now' x : now <= now' -> call_ok log now x -> call_ok (log ++ log') now' x.
Proof. intros Hn. destruct x; cbn; try done; by apply sourced_mono. Qed.
Lemma log_ok_mono now now' a : now <= now' -> log_ok now a -> log_ok now' a.
Proof. intros Hn [H1 H2 H3 H4 H5 H6]. split; try done. lia. Qed.
Lemma state_ok_mono log log' st : state_ok log st -> state_ok (log ++ log') st.
Proof.
  intros [H1 H2 H3 H4 H5]. split; try done.
  - intros key ref e H. destruct (H1 _ _ _ H) as (dm & a & ttl & Hh & Ha & Hr). exists dm, a, ttl. split; [done|]. split; [set_solver|done].
  - intros k x Hk H. destruct (H3 _ _ Hk H) as (a & key & m & ttl & Ha & Hr). exists a, key, m, ttl. split; [set_solver|done].
  - intros k Hk H. destruct (H4 _ Hk H) as (a & Ha & Hr). exists a. split; [set_solver|done].
Qed.

(** ** States that hold no more *)

Record less (st st' : ClientState) : Prop := {
  ls_heap i dm : st_heap st !! i = Some dm -> exists dm', st_heap st' !! i = Some dm' /\ msg dm' = msg dm;
  ls_cache key x : lru_lookup (st_cache st') key = Some x -> lru_lookup (st_cache st) key = Some x;
  ls_index key ref e : lru_lookup (st_roundRobinIndex st') key = Some (ref, e) ->
    lru_lookup (st_roundRobinIndex st) key = Some (ref, e) \/ exists dm, st_heap st' !! ref = Some dm;
  ls_file : no_more as_holds as_rejects (st_file st) (st_file st');
  ls_counters : Forall counters_ok (st_heap st) -> Forall counters_ok (st_heap st');
}.

Definition same_locks (st st' : ClientState) : Prop :=
  st_cacheLock st' = st_cacheLock st /\ st_closed st' = st_closed st /\ st_backgroundRefresh st' = st_backgroundRefresh st.

Lemma no_more_refl (file : AS) : no_more as_holds as_rejects file file.
Proof. by intros k Hk. Qed.
Lemma no_more_trans (f1 f2 f3 : AS) : no_more as_holds as_rejects f1 f2 -> no_more as_holds as_rejects f2 f3 -> no_more as_holds as_rejects f1 f3.
Proof. intros H1 H2 k Hk. destruct (H1 k Hk), (H2 k Hk). split; eauto. Qed.
#[local] Hint Resolve no_more_refl : core.

Lemma less_refl st : less st st.
Proof. split; eauto. Qed.
Lemma less_trans st1 st2 st3 : less st1 st2 -> less st2 st3 -> less st1 st3.
Proof.
  intros [H1 C1 I1 F1 N1] [H2 C2 I2 F2 N2]. split; [| | | |by auto].
  - intros i dm H. destruct (H1 _ _ H) as (dm2 & Hd2 & Hm2). destruct (H2 _ _ Hd2) as (dm3 & Hd3 & Hm3). exists dm3. split; [done|congruence].
  - eauto.
  - intros key ref e H. destruct (I2 _ _ _ H) as [H'|]; [|by right]. destruct (I1 _ _ _ H') as [|[dm Hd]]; [by left|right].
    destruct (H2 _ _ Hd) as (dm' & ? & _). eauto.
  - by eapply no_more_trans.
Qed.

Lemma state_ok_less log st st' : less st st' -> state_ok log st -> state_ok log st'.
Proof.
  intros [Hh Hc Hi Hf Hn] [S1 S2 S3 S4 S5]. split; [| | | |by auto].
  - intros key ref e H. destruct (S1 _ _ _ (Hc _ _ H)) as (dm & a & ttl & Hd & Ha & Hs & He).
    destruct (Hh _ _ Hd) as (dm' & Hd' & Hm). exists dm', a, ttl. by rewrite Hm.
  - intros key ref e H. destruct (Hi _ _ _ H) as [H'|]; [|done]. destruct (S2 _ _ _ H') as [dm Hd]. destruct (Hh _ _ Hd) as (dm' & ? & _). eauto.
  - intros k x Hk H. apply (S3 k x Hk). by apply Hf.
  - intros k Hk H. apply (S4 k Hk). by apply Hf.
Qed.

Lemma less_file st file : no_more as_holds as_rejects (st_file st) file -> less st (st <| st_file := file |>).
Proof. intros H. split; eauto. Qed.
Lemma less_cache st cache : (forall key x, lru_lookup cache key = Some x -> lru_lookup (st_cache st) key = Some x) -> less st (st <| st_cache := cache |>).
Proof. intros H. split; eauto. Qed.
Lemma less_heap st i dm dm' : st_heap st !! i = Some dm -> msg dm' = msg dm -> counters_ok dm' -> less st (st <| st_heap := <[i := dm']> (st_heap st) |>).
Proof.
  intros Hi Hm Hc. split; try done; eauto; [|by intros H; apply Forall_insert]. intros j d Hj. change (st_heap (st <| st_heap := <[i := dm']> (st_heap st) |>)) with (<[i := dm']> (st_heap st)).
  destruct (decide (i = j)) as [->|Hne].
  - rewrite list_lookup_insert_eq by (apply lookup_lt_is_Some_1; eauto). exists dm'. split; [done|]. congruence.
  - rewrite list_lookup_insert_ne by done. eauto.
Qed.
Lemma less_fields st st' : st_heap st' = st_heap st -> st_cache st' = st_cache st -> st_roundRobinIndex st' = st_roundRobinIndex st ->
  st_file st' = st_file st -> less st st'.
Proof. intros H1 H2 H3 H4. split; rewrite ?H1, ?H2, ?H3, ?H4; eauto. Qed.

(** ** Loading *)

Hypothesis Hconfig : config_ok c.

Lemma stored_by_wf now a key m ttl : log_ok now a -> stored_by a = Some (key, m, ttl) -> wf_message m /\ 0 < ttl < 2 ^ 32.
Proof.
  intros [_ _ (_ & _ & Ho) Hm _ _]. unfold stored_by. destruct (_ || _); [done|]. destruct (a_key a) as [key0|]; [|done].
  destruct (finishCacheKey _ _ _); [|done]. destruct (applyResponseOptions _ _ _ _) as [t m'] eqn:E.
  destruct (applyResponseOptions_wf _ _ _ _ _ _ Hconfig Ho Hm E) as (Ht & Hm' & _). destruct (t =? 0) eqn:E0; [done|]. intros [= _ <- <-].
  split; [done|]. unfold is_u in Ht. lia.
Qed.

Lemma getRoundRobin_ok ref dm st : st_heap st !! ref = Some dm -> counters_ok dm -> wf_message (msg dm) ->
  exists answers st', getRoundRobin c ref st = Ok ((msg dm) <| m_Answer := answers |>, st')
  /\ less st st' /\ same_locks st st' /\ Permutation answers (m_Answer (msg dm)).
Proof.
  intros Hd Hc Hwf. unfold getRoundRobin. rewrite Hd. destruct (c_roundRobinCache c).
  - unfold RoundRobin. destruct (applyRoundRobin_ok dm (msg dm) Hc Hwf) as (dm' & m' & E & Hc'). rewrite E. cbn [res_bind].
    destruct (applyRoundRobin_perm _ _ _ _ Hwf E) as (Hm & He & Hp). exists (m_Answer m'). eexists. rewrite <- He. split; [done|]. split; [by eapply less_heap|]. by split.
  - exists (m_Answer (msg dm)), st. split; [by destruct (msg dm)|]. split; [apply less_refl|]. by split.
Qed.

Lemma round_robin_state_ok key st : (forall ref e, lru_lookup (st_roundRobinIndex st) key = Some (ref, e) -> exists dm, st_heap st !! ref = Some dm) ->
  exists ref dm st', round_robin_state key st = (ref, st') /\ st_heap st' !! ref = Some dm /\ less st st' /\ same_locks st st'.
Proof.
  intros Hi. unfold round_robin_state. destruct (lru_lookup _ key) as [[ref e]|] eqn:E.
  - destruct (Hi _ _ eq_refl) as [dm Hd]. exists ref, dm. eexists. split; [done|]. split; [done|]. split; [|done].
    split; eauto. intros key' ref' e' H. left. by rewrite <- (lru_Get_law key key').
  - exists (length (st_heap st)), (mkDnsMsg 0 0 emptyMessage). eexists. split; [done|].
    split; [apply list_lookup_middle; done|]. split; [|done].
    set (st' := st <| st_heap := _ |> <| st_roundRobinIndex := _ |>).
    assert (Hh : st_heap st' = st_heap st ++ [mkDnsMsg 0 0 emptyMessage]) by done.
    split; eauto; [| |rewrite Hh; intros H; apply Forall_app; split; [done|by repeat constructor; vm_compute]].
    + intros i dm H. rewrite Hh. exists dm. split; [by apply lookup_app_l_Some|done].
    + intros key' ref' e'. change (st_roundRobinIndex st') with (lru_Add key (length (st_heap st)) None (st_roundRobinIndex st)).
      destruct (decide (key = key')) as [<-|Hne]; [|left; by eapply lru_Add_other].
      destruct (lru_Add_law key (length (st_heap st)) None (st_roundRobinIndex st)) as (e0 & He & _). rewrite He. intros [= <- _].
      right. rewrite Hh. exists (mkDnsMsg 0 0 emptyMessage). by apply list_lookup_middle.
Qed.

Lemma rotate_persistent_ok key m st : (forall ref e, lru_lookup (st_roundRobinIndex st) key = Some (ref, e) -> exists dm, st_heap st !! ref = Some dm) ->
  Forall counters_ok (st_heap st) -> wf_message m ->
  exists answers st', rotate_persistent key m st = Ok (m <| m_Answer := answers |>, st')
  /\ less st st' /\ same_locks st st' /\ Permutation answers (m_Answer m).
Proof.
  intros Hi Hn Hwf. unfold rotate_persistent. destruct (round_robin_state_ok key st Hi) as (ref & dm & st1 & -> & Hd & Hl & Hs). rewrite Hd.
  assert (Hc : counters_ok dm) by (by eapply Forall_lookup_1; [apply (ls_counters _ _ Hl)|]).
  destruct (applyRoundRobin_ok dm m Hc Hwf) as (dm' & m' & E & Hc'). rewrite E. cbn [res_bind]. destruct (applyRoundRobin_perm _ _ _ _ Hwf E) as (Hm & He & Hp).
  exists (m_Answer m'). eexists. rewrite <- He. split; [done|]. split; [|by split].
  eapply less_trans; [exact Hl|]. by eapply less_heap.
Qed.

(** What is shown of an answer whose expiry is known. *)
Lemma aged_shown t0 ttl e now shown stale : expiry_ok t0 ttl e -> c_disableExpire c = false -> aged c now e = Some (shown, stale) ->
  lifetime_shown t0 ttl now stale (Some shown) /\ 0 <= shown.
Proof.
  intros He Hd. unfold aged, lifetime_shown. rewrite Hd. unfold expiry_ok in He. cbv zeta in *.
  destruct (e <? now) eqn:E.
  - destruct (_ && _) eqn:E2; [|done]. intros [= <- <-]. split; [|lia]. split; [done|lia].
  - intros [= <- <-]. unfold nowTTL. rewrite Z.quot_div_nonneg by (unfold second; lia).
    pose proof (Z.div_mod (e - now) second ltac:(done)). pose proof (Z.mod_pos_bound (e - now) second ltac:(done)).
    assert (0 <= (e - now) / second) by (apply Z.div_pos; [lia|done]). rewrite Z.max_l by done. split; [|done].
    exists ((e - now) / second). split; [done|]. split; [done|]. nia.
Qed.

Lemma shown_u32 t0 ttl now stale shown : 0 < ttl < 2 ^ 32 -> t0 <= now -> lifetime_shown t0 ttl now stale (Some shown) -> is_u 32 shown.
Proof.
  intros Ht Hn. unfold lifetime_shown, is_u. destruct (c_disableExpire c); [by intros [? _]|]. cbv zeta.
  destruct stale; [intros [[= ->] _]; lia|]. intros (s & [= ->] & Hs & Hb & _). unfold second in *. lia.
Qed.

(** Rotating after the lifetimes are set is setting them after rotating. *)
Lemma rotated_normalizeTTL m t answers : Permutation answers (m_Answer (normalizeTTL m t)) ->
  exists answers', Permutation answers' (m_Answer m) /\ (normalizeTTL m t) <| m_Answer := answers |> = normalizeTTL (m <| m_Answer := answers' |>) t.
Proof.
  change (m_Answer (normalizeTTL m t)) with (map (set_ttl t) (m_Answer m)). intros H.
  apply Permutation_map_inv in H as (l & -> & Hp). exists l. split; [by symmetry|]. by destruct m.
Qed.

Lemma load_persistent_ok log now key st out st' : Forall (log_ok now) log -> state_ok log st -> key_ok (store_key key) -> c_dnsCache c = true ->
  loadPersistentResponse c now key st = (out, st') ->
  less st st' /\ same_locks st st'
  /\ forall m stale, out = Some (m, stale) -> wf_message m /\ exists a key' m0 m1 ttl shown,
       a ∈ log /\ a_now a <= now /\ stored_by a = Some (key', m0, ttl) /\ cached_as key key' m0 m1
       /\ lifetime_shown (a_now a) ttl now stale shown /\ m = show shown m1.
Proof.
  intros Hlog Hst Hk Hdc. unfold loadPersistentResponse. destruct (as_Load_law (st_file st) (store_key key) Hk) as [Hmore Hholds].
  destruct (as_LoadDNSCache _ _) as [x file]. cbn [fst snd] in *. apply less_file in Hmore as Hless.
  set (st1 := st <| st_file := file |>) in *. destruct x as [[raw e]|]; [|by intros [= <- <-]].
  destruct (Unpack raw) as [m1|] eqn:Hu.
  2:{ intros H. apply pair_equal_spec in H as [<- <-]. split; [|done]. eapply less_trans; [exact Hless|]. apply (less_file st1). by apply as_Delete_law. }
  destruct (so_holds _ _ Hst _ _ Hk (Hholds _ eq_refl)) as (a & key' & m0 & ttl & Ha & Hs & Hkey & Hpack & He). cbn [fst snd] in *.
  rewrite Forall_forall in Hlog. specialize (Hlog _ Ha) as Hlo. destruct (stored_by_wf _ _ _ _ _ Hlo Hs) as [_ Ht].
  pose proof (lo_time _ _ Hlo) as Hn. pose proof (Unpack_wf _ _ Hu) as Hwf.
  assert (Hc : cached_as key key' m0 m1) by (unfold cached_as; rewrite Hdc; eauto).
  destruct (c_disableExpire c) eqn:Hd.
  - intros [= <- <-]. split; [done|]. split; [done|]. intros m stale [= <- <-]. split; [done|].
    exists a, key', m0, m1, ttl, None. unfold lifetime_shown. rewrite Hd. by split_and!; try lia.
  - destruct (aged c now e) as [[shown stale]|] eqn:Hag; intros [= <- <-]; [|done]. split; [done|]. split; [done|]. intros m stale' [= <- <-].
    destruct (aged_shown _ _ _ _ _ _ He Hd Hag) as [Hsh _]. split.
    + apply wf_normalizeTTL; [|done]. eapply shown_u32; [exact Ht| |exact Hsh]. lia.
    + exists a, key', m0, m1, ttl, (Some shown). by split_and!; try lia.
Qed.

Lemma load_memory_ok log now key st : Forall (log_ok now) log -> state_ok log st -> c_dnsCache c = false ->
  exists out st', loadResponse c now key st = Ok (out, st') /\ less st st' /\ same_locks st st'
  /\ forall m stale, out = Some (m, stale) -> from_cache log now key m stale.
Proof.
  intros Hlog Hst Hdc. unfold loadResponse. rewrite Hdc. destruct (c_disableCache c); [exists None, st; split_and!; try done; apply less_refl|].
  set (st1 := st <| st_cache := lru_Get key (st_cache st) |>).
  assert (Hl1 : less st st1) by (apply less_cache; intros k x; by rewrite lru_Get_law).
  destruct (lru_lookup (st_cache st) key) as [[ref e]|] eqn:El; [|by exists None, st1].
  destruct (so_cache _ _ Hst _ _ _ El) as (dm & a & ttl & Hd & Ha & Hs & He). rewrite Forall_forall in Hlog. specialize (Hlog _ Ha) as Hlo.
  destruct (stored_by_wf _ _ _ _ _ Hlo Hs) as [Hwf Ht]. pose proof (lo_time _ _ Hlo) as Hn.
  assert (Hc : cached_as key key (msg dm) (msg dm)) by (unfold cached_as; by rewrite Hdc).
  assert (Hcn : counters_ok dm) by (by eapply Forall_lookup_1; [exact (so_heap _ _ Hst)|]).
  destruct (getRoundRobin_ok ref dm st1 Hd Hcn Hwf) as (answers & st2 & Hg & Hl2 & Hs2 & Hp).
  assert (Hl : less st st2) by (by eapply less_trans). assert (Hs' : same_locks st st2) by done.
  destruct (c_disableExpire c) eqn:Hde.
  - rewrite Hg. exists (Some ((msg dm) <| m_Answer := answers |>, false)), st2. split_and!; try done. intros m stale [= <- <-].
    exists a, key, (msg dm), (msg dm), answers, ttl, None. unfold lifetime_shown. rewrite Hde. split_and!; try done; lia.
  - destruct (aged c now e) as [[shown stale]|] eqn:Hag.
    + rewrite Hg. cbn [res_bind]. eexists _, st2. split_and!; try done. intros m stale' [= <- <-].
      destruct (aged_shown _ _ _ _ _ _ (He eq_refl) Hde Hag) as [Hsh _].
      exists a, key, (msg dm), (msg dm), answers, ttl, (Some shown). split_and!; try done; lia.
    + exists None. eexists. split_and!; [done| |done|done]. eapply less_trans; [exact Hl1|]. apply less_cache. intros k x H.
      apply lru_Remove_law in H as [_ H]. done.
Qed.

Lemma load_ok log now key st : Forall (log_ok now) log -> state_ok log st -> key_ok (store_key key) ->
  exists out st', loadResponse c now key st = Ok (out, st') /\ less st st' /\ same_locks st st'
  /\ forall m stale, out = Some (m, stale) -> from_cache log now key m stale.
Proof.
  intros Hlog Hst Hk. destruct (c_dnsCache c) eqn:Hdc; [|by apply load_memory_ok]. unfold loadResponse. rewrite Hdc.
  destruct (loadPersistentResponse c now key st) as [out st1] eqn:E. destruct (load_persistent_ok _ _ _ _ _ _ Hlog Hst Hk Hdc E) as (Hl & Hs & Hm).
  destruct out as [[m stale]|]; [|by exists None, st1].
  destruct (Hm _ _ eq_refl) as (Hwf & a & key' & m0 & m1 & ttl & shown & Ha & Hn & Hsb & Hc & Hsh & ->).
  destruct (c_roundRobinCache c).
  - destruct (rotate_persistent_ok key (show shown m1) st1) as (answers & st2 & -> & Hl2 & Hs2 & Hp); [|exact (so_heap _ _ (state_ok_less _ _ _ Hl Hst))|done|].
    { intros ref e H. by eapply (so_index _ _ (state_ok_less _ _ _ Hl Hst)). }
    eexists _, st2. split; [done|]. split; [by eapply less_trans|]. split; [by destruct Hs as (? & ? & ?), Hs2 as (? & ? & ?); split_and!; congruence|].
    intros m stale' [= <- <-]. destruct shown as [t|].
    + destruct (rotated_normalizeTTL _ _ _ Hp) as (answers' & Hp' & Heq). exists a, key', m0, m1, answers', ttl, (Some t). by split_and!.
    + by exists a, key', m0, m1, answers, ttl, None.
  - eexists _, st1. split; [done|]. split; [done|]. split; [done|]. intros m stale' [= <- <-].
    exists a, key', m0, m1, (m_Answer m1), ttl, shown. split_and!; try done. by destruct m1.
Qed.

(** ** Storing *)

Lemma finishCacheKey_question env t key key' : finishCacheKey env t key = Some key' -> k_Question key' = k_Question key.
Proof. unfold finishCacheKey. destruct (_ || _); [|done]. by intros [= <-]. Qed.

Lemma stored_by_key_ok now a key m ttl : log_ok now a -> stored_by a = Some (key, m, ttl) -> key_ok (store_key key).
Proof.
  intros Hlo. unfold stored_by. destruct (_ || _); [done|]. destruct (a_key a) as [key0|] eqn:Hk; [|done].
  destruct (finishCacheKey _ _ _) as [key1|] eqn:Hf; [|done]. destruct (applyResponseOptions _ _ _ _). destruct (_ =? 0); [done|]. intros [= <- _ _].
  unfold key_ok, store_key. cbn. rewrite (finishCacheKey_question _ _ _ _ Hf), (lo_key _ _ Hlo _ Hk). apply (lo_type _ _ Hlo).
Qed.

Lemma expiry_trunc a ttl e : log_ok (a_now a) a -> 0 < ttl < 2 ^ 32 -> e = a_now a + second * ttl \/ e = trunc (a_now a + second * ttl) -> expiry_ok (a_now a) ttl e.
Proof.
  intros Hlo Ht He. pose proof (lo_time _ _ Hlo). pose proof (lo_bound _ _ Hlo). unfold expiry_ok. cbv zeta. unfold second in *.
  destruct He as [->| ->]; [lia|]. pose proof (trunc_bounds (a_now a + 1000000000 * ttl)). unfold second in *. lia.
Qed.

Lemma storeCache_ok log a key m ttl st : a ∈ log -> log_ok (a_now a) a -> stored_by a = Some (key, m, ttl) -> state_ok log st ->
  state_ok log (storeCache c (a_now a) key m ttl st) /\ same_locks st (storeCache c (a_now a) key m ttl st).
Proof.
  intros Ha Hlo Hs Hst. destruct (stored_by_wf _ _ _ _ _ Hlo Hs) as [Hwf Ht]. pose proof (stored_by_key_ok _ _ _ _ _ Hlo Hs) as Hk.
  unfold storeCache. replace (ttl =? 0) with false by lia. destruct Hst as [S1 S2 S3 S4 S5]. destruct (c_dnsCache c).
  - destruct (Pack m) as [raw|] eqn:Hpack; [|done]. split; [|done].
    split; [done|done| | |done].
    + intros k x Hkk H. change (st_file (_ <| st_file := _ |>)) with (as_SaveDNSCacheAsync (st_file st) (store_key key) raw (a_now a + second * ttl)) in H.
      apply as_Save_law in H as [H|(-> & <- & He)]; [by apply S3| |done|done]. exists a, key, m, ttl. split_and!; try done. by apply expiry_trunc.
    + intros k Hkk H. change (st_file (_ <| st_file := _ |>)) with (as_SaveDNSCacheAsync (st_file st) (store_key key) raw (a_now a + second * ttl)) in H.
      apply as_Save_law in H; [by apply S4|done|done].
  - destruct (c_disableCache c); [done|]. split; [|done].
    set (life := if c_disableExpire c then None else _). set (st' := st <| st_heap := _ |> <| st_cache := _ |>).
    assert (Hh : st_heap st' = st_heap st ++ [mkDnsMsg 0 0 m]) by done.
    assert (Hc : st_cache st' = lru_Add key (length (st_heap st)) life (st_cache st)) by done.
    split; [| |done|done|rewrite Hh; apply Forall_app; split; [done|by repeat constructor; vm_compute]].
    + intros key' ref e. rewrite Hc, Hh. destruct (decide (key = key')) as [<-|Hne].
      * destruct (lru_Add_law key (length (st_heap st)) life (st_cache st)) as (e' & -> & He). intros [= <- <-].
        exists (mkDnsMsg 0 0 m), a, ttl. split; [by apply list_lookup_middle|]. split; [done|]. split; [done|]. intros Hd.
        unfold life in He. rewrite Hd in He. unfold expiry_ok, second in *. lia.
      * intros H. apply lru_Add_other in H; [|done]. destruct (S1 _ _ _ H) as (dm & a' & ttl' & Hd & Hr).
        exists dm, a', ttl'. split; [by apply lookup_app_l_Some|done].
    + intros key' ref e H. destruct (S2 _ _ _ H) as [dm Hd]. exists dm. rewrite Hh. by apply lookup_app_l_Some.
Qed.

Lemma save_rejection_ok log a st : a ∈ log -> rejection a -> is_u 16 (q_Qtype (a_question a)) -> state_ok log st ->
  let st' := save_rejection c (r_transport (a_request a)) (a_question a) st in state_ok log st' /\ same_locks st st'.
Proof.
  intros Ha Hr Hk [S1 S2 S3 S4 S5]. unfold save_rejection. destruct (c_rdrc c); cbv zeta; [|done]. split; [|done].
  assert (Hkey : key_ok (rdrc_key (r_transport (a_request a)) (a_question a))) by done.
  split; [done|done| | |done].
  - intros k x Hkk H. apply (S3 k x Hkk). by apply (as_SaveRDRC_law (st_file st) _ k Hkey Hkk).
  - intros k Hkk H. change (st_file (_ <| st_file := _ |>)) with (as_SaveRDRCAsync (st_file st) (rdrc_key (r_transport (a_request a)) (a_question a))) in H.
    apply as_SaveRDRC_law in H as [H| ->]; [by apply S4| |done|done]. by exists a.
Qed.

Lemma prepare_Id m o : m_Id (prepareExchangeMessage c m o) = m_Id m.
Proof.
  unfold prepareExchangeMessage. destruct (RemoveClientSubnet o); [done|]. destruct (Prefix_IsValid (if _ : bool then _ else _)); [|done].
  unfold SetClientSubnet. by destruct (findExists _ _ _) as [[]].
Qed.

(** Preparing the message does not change its key. *)
Lemma prepare_key env t q m o : newCacheKey c env t q (prepareExchangeMessage c m o) o = newCacheKey c env t q m o.
Proof.
  unfold newCacheKey, prepareExchangeMessage. destruct (RemoveClientSubnet o); [done|].
  destruct (Prefix_IsValid (ClientSubnet o)); [done|]. by destruct (Prefix_IsValid (c_clientSubnet c)).
Qed.

Lemma finishExchange_ok log r op m env now st rs st' :
  let a := mkAnswered r (op_question op) (op_cacheKey op) m false env now in
  log_ok now a -> op_ok r op -> state_ok log st -> finishExchange c now env r op m st = (rs, st') ->
  state_ok (log ++ [a]) st' /\ same_locks st st' /\ sourced (log ++ [a]) now r rs.
Proof.
  intros a Hlo (Hr & q & qs & Hq & Hoq & Hom & _) Hst. apply (state_ok_mono log [a]) in Hst.
  assert (Ha : a ∈ log ++ [a]) by (apply elem_of_app; right; by apply list_elem_of_singleton).
  unfold finishExchange. destruct (rejected_by (r_responseChecker r) m) eqn:Hrej.
  - intros [= <- <-]. split_and!; [..|by apply (src_rejected _ _ _ a)].
    + destruct (accepted_rcode m) eqn:Hacc; [|done]. destruct (op_cacheKey op) eqn:Hk; [|done].
      apply (save_rejection_ok _ a); [done| |apply (lo_type _ _ Hlo)|done]. split; [done|]. split; [cbn; by rewrite ?Hk|by right].
    + unfold save_rejection. by destruct (accepted_rcode m), (op_cacheKey op), (c_rdrc c).
  - destruct (applyResponseOptions c (op_question op) m (r_options r)) as [ttl m'] eqn:Happ. intros H. apply pair_equal_spec in H as [<- Hst'].
    assert (Hsrc : sourced (log ++ [a]) now r (response_ (match_edns (op_message op) (m' <| m_Id := m_Id (op_message op) |>)))).
    { assert (Hid : m_Id (op_message op) = m_Id (r_message r)) by (rewrite Hom; apply prepare_Id).
      rewrite Hid, Hom. by apply (src_exchanged _ _ _ a ttl m'). }
    destruct (accepted_rcode m) eqn:Hacc; [|by subst st'; split_and!].
    destruct (op_cacheKey op) as [key|] eqn:Hk; [|by subst st'; split_and!].
    destruct (finishCacheKey env (r_transport r) key) as [key'|] eqn:Hf; [|by subst st'; split_and!].
    destruct (decide (ttl = 0)) as [-> |Hz]; [unfold storeCache in Hst'; cbn in Hst'; by subst st'; split_and!|].
    assert (Hsb : stored_by a = Some (key', m', ttl)).
    { unfold stored_by. cbn [a_request a_response a_key a_env a_question a]. rewrite Hrej, Hacc, ?Hk, Hf, Happ. cbn. by replace (ttl =? 0) with false by lia. }
    subst st'. destruct (storeCache_ok (log ++ [a]) a key' m' ttl st Ha Hlo Hsb Hst) as [H1 H2]. by split_and!.
Qed.

Lemma finish_refresh_ok log r key message env now reply st :
  let response := exchangeToTransport message reply in
  let logged := log_of r (k_Question key) (Some key) response true env now in
  (forall m, response = inl m -> log_ok now (mkAnswered r (k_Question key) (Some key) m true env now)) -> state_ok log st ->
  let st' := finish_refresh c now env (r_transport r) key message (r_options r) (r_responseChecker r) reply st in
  state_ok (log ++ logged) st' /\ st_cacheLock st' = st_cacheLock st /\ st_closed st' = st_closed st
  /\ st_backgroundRefresh st' = st_backgroundRefresh st ∖ {[key]}.
Proof.
  intros response logged Hlo Hst st'. apply (state_ok_mono log logged) in Hst.
  assert (Hend : forall st1, state_ok (log ++ logged) st1 -> same_locks st st1 ->
    let st2 := st1 <| st_backgroundRefresh := st_backgroundRefresh st1 ∖ {[key]} |> in
    state_ok (log ++ logged) st2 /\ st_cacheLock st2 = st_cacheLock st /\ st_closed st2 = st_closed st
    /\ st_backgroundRefresh st2 = st_backgroundRefresh st ∖ {[key]}).
  { intros st1 H1 (L1 & L2 & L3). cbv zeta. split; [|by rewrite <- L1, <- L2, <- L3]. eapply state_ok_less; [|exact H1].
    by apply less_fields. }
  unfold finish_refresh in st'. fold response in st'. destruct response as [m|e] eqn:Er; [|by apply Hend].
  subst logged. cbn [log_of] in *. set (a := mkAnswered r (k_Question key) (Some key) m true env now) in *. specialize (Hlo m eq_refl).
  assert (Ha : a ∈ log ++ [a]) by (apply elem_of_app; right; by apply list_elem_of_singleton). subst st'.
  destruct (rejected_by _ m) eqn:Hrej.
  - destruct (save_rejection_ok (log ++ [a]) a st Ha) as [H1 H2]; [by split_and!; [|done|left]|apply (lo_type _ _ Hlo)|done|]. by apply Hend.
  - destruct (accepted_rcode m) eqn:Hacc; cbn [negb]; [|by apply Hend].
    destruct (finishCacheKey env (r_transport r) key) as [key'|] eqn:Hf; [|by apply Hend].
    destruct (applyResponseOptions c (k_Question key) m (r_options r)) as [ttl m'] eqn:Happ.
    destruct (decide (ttl = 0)) as [-> |Hz]; [by apply Hend|].
    assert (Hsb : stored_by a = Some (key', m', ttl)).
    { unfold stored_by. cbn [a_request a_response a_key a_env a_question a]. rewrite Hrej, Hacc, Hf, Happ. cbn. by replace (ttl =? 0) with false by lia. }
    destruct (storeCache_ok (log ++ [a]) a key' m' ttl st Ha Hlo Hsb Hst) as [H1 H2]. by apply Hend.
Qed.

(** ** Queries *)

Lemma less_refresh st st1 key refresh st' : less st st1 -> backgroundRefreshDNS key st1 = (refresh, st') -> less st st'.
Proof.
  intros Hl. unfold backgroundRefreshDNS. destruct (bool_decide _); intros [= <- <-]; [done|].
  eapply less_trans; [exact Hl|]. by apply less_fields.
Qed.

Lemma newCacheKey_ok env r q qs : request_ok r -> m_Question (r_message r) = q :: qs ->
  key_ok (store_key (newCacheKey c env (r_transport r) q (r_message r) (r_options r))) /\ is_u 16 (q_Qtype q).
Proof. intros (_ & Hq & _) E. rewrite E in Hq. by apply Forall_cons in Hq as [Hq _]. Qed.

Lemma questionCache_ok log now env r q qs st : Forall (log_ok now) log -> request_ok r -> m_Question (r_message r) = q :: qs -> state_ok log st ->
  exists out refresh st', questionCache c now env r q st = Ok (out, refresh, st') /\ less st st'
  /\ (out = None -> refresh = false) /\ forall m, out = Some m -> sourced log now r (response_ m).
Proof.
  intros Hlog Hr Hq Hst. destruct (newCacheKey_ok env r q qs Hr Hq) as [Hk _].
  unfold questionCache. destruct (load_ok _ _ _ _ Hlog Hst Hk) as (out & st1 & -> & Hl & _ & Hm). cbn [res_bind].
  destruct out as [[m stale]|]; [|by eexists None, false, st1].
  assert (Hsrc : (stale = true -> DisableOptimisticCache (r_options r) = false) -> sourced log now r (response_ m)).
  { intros Hs. replace m with (m <| m_Id := m_Id m |>) by (by destruct m). apply (src_cached _ _ _ q qs env now _ stale); auto; lia. }
  destruct stale; [|exists (Some m), false, st1; split_and!; try done; intros ? [= <-]; by apply Hsrc].
  destruct (DisableOptimisticCache _); [by eexists None, false, st1|].
  destruct (backgroundRefreshDNS _ st1) as [refresh st2] eqn:E. exists (Some m), refresh, st2. split_and!; try done.
  - exact (less_refresh _ _ _ _ _ Hl E).
  - intros ? [= <-]. by apply Hsrc.
Qed.

Lemma begin_transport_ok log now r op st out st' : Forall (log_ok now) log -> op_ok r op -> state_ok log st ->
  begin_transport c now r op st = (out, st') ->
  less st st' /\ same_locks st st' /\ forall rs, out = Some rs -> sourced log now r rs.
Proof.
  intros Hlog (Hr & q & qs & Hq & Hoq & _) Hst. unfold begin_transport.
  destruct (bool_decide _); [intros [= <- <-]; split_and!; [apply less_refl|done|intros rs [= <-]; by apply src_failed]|].
  destruct (op_cacheKey op), (r_responseChecker r); try (by intros [= <- <-]; split_and!; [apply less_refl|..]).
  destruct (c_rdrc c); [|by intros [= <- <-]; split_and!; [apply less_refl|..]].
  assert (Hk : key_ok (rdrc_key (r_transport r) q)) by apply (newCacheKey_ok 0 r q qs Hr Hq). rewrite Hoq.
  destruct (as_LoadRDRC_law (st_file st) now (rdrc_key (r_transport r) q) Hk) as [Hmore Hrej].
  destruct (as_LoadRDRC _ _ _) as [rejected file]. cbn [fst snd] in *. intros H. apply pair_equal_spec in H as [<- <-].
  split; [by apply (less_file st)|]. split; [done|]. destruct rejected; [|done]. intros rs [= <-].
  destruct (so_rejects _ _ Hst _ Hk (Hrej eq_refl)) as (a & Ha & Hra & Hka). by eapply src_rejected_before.
Qed.

Lemma begin_load_ok log now r op st : Forall (log_ok now) log -> op_ok r op -> state_ok log st ->
  exists out refresh st', begin_load c now r op st = Ok (out, refresh, st') /\ less st st'
  /\ (op_cacheKey op = None -> refresh = false) /\ (out = None -> refresh = false)
  /\ forall rs, out = Some rs -> sourced log now r rs.
Proof.
  intros Hlog Hop Hst.
  assert (Hnext : forall st1, less st st1 -> exists out st',
    Ok (let '(result, st) := begin_transport c now r op st1 in (result, false, st)) = Ok (out, false, st') /\ less st st'
    /\ forall rs, out = Some rs -> sourced log now r rs).
  { intros st1 Hl. destruct (begin_transport c now r op st1) as [out st2] eqn:E.
    destruct (begin_transport_ok _ _ _ _ _ _ _ Hlog Hop (state_ok_less _ _ _ Hl Hst) E) as (H1 & _ & H3). exists out, st2.
    split_and!; try done. by eapply less_trans. }
  unfold begin_load. destruct Hop as (Hr & q & qs & Hq & Hoq & Hom & Hkey). destruct (op_cacheKey op) as [key|] eqn:Hk.
  2:{ destruct (Hnext st (less_refl st)) as (out & st2 & H & Hl & Hs). by exists out, false, st2. }
  destruct Hkey as [env ->]. destruct (newCacheKey_ok env r q qs Hr Hq) as [Hko _].
  destruct (load_ok _ _ _ _ Hlog Hst Hko) as (out & st1 & -> & Hl & _ & Hm). cbn [res_bind].
  destruct (Hnext st1 Hl) as (out1 & st2 & Hn & Hl2 & Hs2).
  destruct out as [[m stale]|]; [|by exists out1, false, st2].
  assert (Hsrc : (stale = true -> DisableOptimisticCache (r_options r) = false) -> sourced log now r (response_ (m <| m_Id := m_Id (op_message op) |>))).
  { intros Hs. rewrite Hom, prepare_Id. apply (src_cached _ _ _ q qs env now _ stale); auto; lia. }
  destruct stale; [|eexists _, false, st1; split_and!; try done; intros rs [= <-]; by apply Hsrc].
  destruct (DisableOptimisticCache (r_options r)); [by exists out1, false, st2|].
  destruct (backgroundRefreshDNS _ st1) as [refresh st3] eqn:E. eexists _, refresh, st3. split_and!; try done.
  - exact (less_refresh _ _ _ _ _ Hl E).
  - intros rs [= <-]. by apply Hsrc.
Qed.

Lemma isSimpleRequest_ok m : wf_message m -> exists b, isSimpleRequest m = Ok b.
Proof.
  intros Hwf. unfold isSimpleRequest. destruct (_ || _); [by eexists|]. destruct (m_Extra m) as [|r [|]] eqn:E; [by eexists| |by eexists].
  destruct (Hdr_Rrtype r =? TypeOPT) eqn:Ht; cbn [andb]; [|by eexists]. destruct (_ && _); [|by eexists].
  assert (Hr : wf_record r).
  { destruct Hwf as [Hwf _]. unfold all_records in Hwf. rewrite E in Hwf. apply Forall_app in Hwf as [_ Hwf]. apply Forall_app in Hwf as [_ Hwf]. by apply Forall_cons in Hwf as [Hwf _]. }
  destruct Hr as (_ & _ & Hr & _). unfold is_OPT in Hr. rewrite Ht in Hr. destruct (Hdr_Data r); try done. by eexists.
Qed.

Definition begun_ok (log : list answered) (now : Z) (r : request) (b : begun) : Prop :=
  match b with
  | BeginDone rs => sourced log now r rs
  | BeginWait op _ => op_ok r op /\ op_releaseCond op = None
  | BeginLoad op => op_ok r op
  end.

Lemma beginExchange_ok log now env r st : request_ok r ->
  exists b st', beginExchange c env r st = Ok (b, st') /\ less st st' /\ begun_ok log now r b.
Proof.
  intros Hr. unfold beginExchange. destruct (m_Question (r_message r)) as [|q qs] eqn:Hq.
  { eexists _, st. split; [done|]. split; [apply less_refl|]. by apply src_no_question. }
  destruct (strategy_rejects q (r_options r)) eqn:Hs.
  { eexists _, st. split; [done|]. split; [apply less_refl|]. by eapply src_strategy. }
  destruct (isSimpleRequest_ok (r_message r)) as [simple ->]; [apply Hr|]. cbn [res_bind].
  assert (Hop : forall key cond, match key with Some key => exists env, key = newCacheKey c env (r_transport r) q (r_message r) (r_options r) | None => True end ->
    op_ok r (mkOperation (prepareExchangeMessage c (r_message r) (r_options r)) q key cond)) by (intros; split; [done|]; by exists q, qs).
  destruct (_ || _); [eexists _, st; split; [done|]; split; [apply less_refl|by apply Hop]|]. rewrite prepare_key.
  destruct (st_cacheLock st !! _) as [cond|].
  - eexists _, st. split; [done|]. split; [apply less_refl|]. split; [apply Hop; by eexists|done].
  - eexists. eexists. split; [done|]. split; [by apply less_fields|]. apply Hop. by eexists.
Qed.

Lemma release_less op st : less st (release op st).
Proof. unfold release. destruct (op_releaseCond op) as [[key cond]|]; [|apply less_refl]. by apply less_fields. Qed.

(** ** Steps *)

Definition step_ok (log : list answered) (now : Z) (s : call * list call * list answered * ClientState) : Prop :=
  let '(x, new, logged, st) := s in
  state_ok (log ++ logged) st /\ Forall (log_ok now) logged /\ call_ok (log ++ logged) now x /\ Forall (call_ok (log ++ logged) now) new.

Lemma step_ok_quiet log now x new st st' : state_ok log st -> less st st' -> call_ok log now x -> Forall (call_ok log now) new ->
  step_ok log now (x, new, [], st').
Proof. intros Hst Hl Hx Hn. unfold step_ok. rewrite app_nil_r. split_and!; try done. by eapply state_ok_less. Qed.

Lemma op_log_ok now env r op m : 0 <= now < 2 ^ 62 -> op_ok r op -> wf_message m ->
  log_ok now (mkAnswered r (op_question op) (op_cacheKey op) m false env now).
Proof.
  intros Hn (Hr & q & qs & Hq & Hoq & _ & Hk) Hm. split; cbn; try done; try lia.
  - rewrite Hoq. by apply (newCacheKey_ok 0 r q qs).
  - intros key Hkey. rewrite Hkey in Hk. destruct Hk as [e ->]. by rewrite Hoq.
Qed.

Lemma call_step_ok log now env reply x st s : 0 <= now < 2 ^ 62 -> reply_ok reply -> Forall (log_ok now) log -> state_ok log st ->
  call_ok log now x -> call_step c now env reply x st = Some s -> step_ok log now s.
Proof.
  intros Hnow Hreply Hlog Hst Hx. destruct x as [r|allowWait r|r op cond|r op|r op|r op rs|r rs|r key message|]; cbn [call_step call_ok] in *; try done.
  - destruct Hx as [Hr Hne]. destruct (m_Question (r_message r)) as [|q qs] eqn:Hq; [done|].
    destruct (_ || _); [intros [= <-]; by apply (step_ok_quiet _ _ _ _ st); [|apply less_refl|..]|].
    destruct (questionCache_ok log now env r q qs st Hlog Hr Hq Hst) as (out & refresh & st1 & -> & Hl & Hf & Hs).
    destruct out as [m|]; intros [= <-]; apply (step_ok_quiet _ _ _ _ st); try done; cbn; [by apply Hs|].
    destruct refresh; [|done]. apply Forall_singleton. split; [done|]. by exists q, qs, env.
  - destruct (beginExchange_ok log now env r st Hx) as (b & st1 & -> & Hl & Hb).
    destruct b as [rs|op cond|op]; intros [= <-]; apply (step_ok_quiet _ _ _ _ st); try done. by destruct allowWait.
  - destruct (default false _); [|done]. intros [= <-]. apply (step_ok_quiet _ _ _ _ st); try done; [apply less_refl|].
    destruct Hx as [(Hr & q & qs & Hq & Hoq & Hom & _) _]. split; [done|]. exists q, qs. split_and!; try done. cbn. exists env. by rewrite Hoq, Hom, prepare_key.
  - destruct (begin_load_ok log now r op st Hlog Hx Hst) as (out & refresh & st1 & -> & Hl & Hk & Hn & Hs).
    destruct out as [rs|]; intros [= <-]; apply (step_ok_quiet _ _ _ _ st); try done; cbn; [by apply Hs|].
    destruct refresh; [|done]. destruct Hx as (Hr & q & qs & Hq & Hoq & Hom & Hkey). destruct (op_cacheKey op) as [key|]; [|done].
    destruct Hkey as [e ->]. apply Forall_singleton. split; [done|]. by exists q, qs, e.
  - destruct (exchangeToTransport (op_message op) reply) as [m|e] eqn:E.
    + assert (Hlo : log_ok now (mkAnswered r (op_question op) (op_cacheKey op) m false env now)) by (apply op_log_ok; [done..|by eapply wf_exchangeToTransport]).
      destruct (finishExchange c now env r op m st) as [rs st1] eqn:Ef. intros [= <-].
      destruct (finishExchange_ok log r op m env now st rs st1 Hlo Hx Hst Ef) as (H1 & _ & H3). split_and!; try done. by apply Forall_singleton.
    + intros [= <-]. apply (step_ok_quiet _ _ _ _ st); try done; [apply less_refl|]. cbn. apply src_failed. by destruct reply; cbn in *; simplify_eq.
  - intros [= <-]. apply (step_ok_quiet _ _ _ _ st); try done. apply release_less.
  - intros [= <-]. destruct Hx as (Hr & q & qs & e & Hq & ->).
    assert (Hlo : forall m, exchangeToTransport message reply = inl m ->
      log_ok now (mkAnswered r q (Some (newCacheKey c e (r_transport r) q (r_message r) (r_options r))) m true env now)).
    { intros m Hm. split; cbn; try done; try lia; [by eapply wf_exchangeToTransport|by apply (newCacheKey_ok e r q qs)|by intros key [= <-]]. }
    destruct (finish_refresh_ok log r (newCacheKey c e (r_transport r) q (r_message r) (r_options r)) message env now reply st Hlo Hst) as [H1 _]. split_and!; [exact H1| |done|done].
    unfold log_of. destruct (exchangeToTransport message reply) as [m|]; [|done]. apply Forall_singleton. by apply Hlo.
Qed.

Lemma clear_less st : less st (ClearCache c st).
Proof.
  unfold ClearCache. destruct (c_dnsCache c); [apply (less_file st), as_Clear_law|]. apply (less_cache st). intros key x. by rewrite lru_new_law.
Qed.

Lemma world_step w w' : client_step c w w' -> world_ok w -> world_ok w'.
Proof.
  intros Hs [Ht Hl Hst Hc]. destruct Hs as [now st calls log x r Hr Hx|now now' env reply st calls log i x x' new logged st' Hn Hre Hi Hx|
    now st calls log i r op cond Hi|now st calls log file Hf|now st calls log]; cbn [cw_now cw_log cw_state cw_calls] in *.
  - split; try done. cbn. apply Forall_app. split; [done|]. apply Forall_singleton. by destruct Hx as [[-> ?]|[-> | ->]].
  - assert (Hl' : Forall (log_ok now') log) by (eapply Forall_impl; [exact Hl|]; intros a; apply log_ok_mono; lia).
    assert (Hc' : call_ok log now' x) by (rewrite <- (app_nil_r log); eapply call_ok_mono; [|eapply Forall_lookup_1; [exact Hc|exact Hi]]; lia).
    destruct (call_step_ok log now' env reply x st _ ltac:(lia) Hre Hl' Hst Hc' Hx) as (H1 & H2 & H3 & H4). split; cbn; try done; [lia|by apply Forall_app|].
    apply Forall_app. split; [|done]. apply Forall_insert; [|done]. eapply Forall_impl; [exact Hc|]. intros y. apply call_ok_mono. lia.
  - split; try done. cbn. apply Forall_insert; [done|]. by apply src_failed.
  - split; try done. cbn. eapply state_ok_less; [|exact Hst]. by apply (less_file st), as_later_law.
  - split; try done. cbn. eapply state_ok_less; [|exact Hst]. apply clear_less.
Qed.

(** A cache file holds only answers and rejections of the responses of a log. *)
Definition file_ok (log : list answered) (file : AS) : Prop :=
  (forall k x, key_ok k -> as_holds file k x ->
     exists a key m ttl, a ∈ log /\ stored_by a = Some (key, m, ttl) /\ store_key key = k /\ Pack m = Some (fst x) /\ expiry_ok (a_now a) ttl (snd x))
  /\ forall k, key_ok k -> as_rejects file k -> exists a, a ∈ log /\ rejection a /\ rdrc_key (r_transport (a_request a)) (a_question a) = k.

Lemma reachable_ok now file log w : 0 <= now -> Forall (log_ok now) log -> file_ok log file ->
  rtc (client_step c) (client_start now file log) w -> world_ok w.
Proof.
  intros Hn Hl [Hh Hr] Hrun. assert (H0 : world_ok (client_start now file log)).
  { split; try done. split; try done; cbn; intros key ref e; by rewrite lru_new_law. }
  clear Hn Hl Hh Hr. induction Hrun as [|w1 w2 w3 Hs _ IH]; [done|]. apply IH. by eapply world_step.
Qed.

End Answers.
