(* ===== verification/DNSLockProofs.v ===== *)
(** Locks of the DNS client: every lock is held by a query that is on its way to
    release it, so no query waits for ever and all of them end. *)

From S2P Require Import Prelude NetAddr GoStrings RuleContext DNSRouter CacheFile DNSMessage DNSClient DNSMessageProofs DNSClientProofs DNSAnswerProofs.

Section Locks.
Context {CEnv : ClientEnv} {Store : AnswerStore}.
Variable c : Client.

(** * Who holds what *)

(** The lock a call has to release, and the key it refreshes. *)
Definition holds (x : call) : option (dnsCacheKey * nat) :=
  match x with Loading _ op | InFlight _ op | Releasing _ op _ => op_releaseCond op | _ => None end.
Definition refreshes (x : call) : option dnsCacheKey := match x with Refreshing _ key _ => Some key | _ => None end.
Definition waits (x : call) : option nat := match x with Waiting _ _ cond => Some cond | _ => None end.

(** The locks held are those of the map, once each, and so are the refreshes; a
    channel is open exactly if it is in the map. *)
Record locks_ok (st : ClientState) (calls : list call) : Prop := {
  lk_held : Permutation (omap holds calls) (map_to_list (st_cacheLock st));
  lk_open cond : st_closed st !! cond = Some false <-> exists key, st_cacheLock st !! key = Some cond;
  lk_channel key key' cond : st_cacheLock st !! key = Some cond -> st_cacheLock st !! key' = Some cond -> key = key';
  lk_waits : Forall (fun x => forall cond, waits x = Some cond -> (cond < length (st_closed st))%nat) calls;
  lk_refresh : Permutation (omap refreshes calls) (elements (st_backgroundRefresh st));
}.

(** What a step of one call changes in a collection over all calls. *)
Lemma omap_step {A} (f : call -> option A) (calls new : list call) i x x' : calls !! i = Some x ->
  exists rest, Permutation (omap f calls) (option_list (f x) ++ rest)
  /\ Permutation (omap f (<[i := x']> calls ++ new)) (option_list (f x') ++ omap f new ++ rest).
Proof.
  intros Hi. pose proof (take_drop_middle _ _ _ Hi) as Heq. pose proof (lookup_lt_Some _ _ _ Hi) as Hl. exists (omap f (take i calls) ++ omap f (drop (S i) calls)). split.
  - replace (omap f calls) with (omap f (take i calls ++ x :: drop (S i) calls)) by by rewrite Heq.
    rewrite omap_app. cbn. destruct (f x); cbn; [by rewrite Permutation_middle|done].
  - rewrite insert_take_drop by done. rewrite !omap_app. cbn. destruct (f x'); cbn; [|by rewrite Permutation_app_comm].
    rewrite (Permutation_app_comm (_ ++ _)), app_assoc, <- Permutation_middle. by rewrite <- app_assoc.
Qed.

(** What a step may do to locks: nothing, take one, or release the one it holds;
    and to refreshes: start one, or end one. *)
Inductive lock_effect : ClientState -> ClientState -> call -> call -> list call -> Prop :=
| eff_none st st' x x' : same_locks st st' -> holds x' = holds x -> refreshes x = None -> refreshes x' = None ->
    (forall cond, waits x' = Some cond -> (cond < length (st_closed st))%nat) -> lock_effect st st' x x' []
| eff_take st st' x x' key : st_cacheLock st !! key = None -> holds x = None -> refreshes x = None -> refreshes x' = None -> waits x' = None ->
    holds x' = Some (key, length (st_closed st)) ->
    st_cacheLock st' = <[key := length (st_closed st)]> (st_cacheLock st) -> st_closed st' = st_closed st ++ [false] ->
    st_backgroundRefresh st' = st_backgroundRefresh st -> lock_effect st st' x x' []
| eff_release st st' x x' key cond : holds x = Some (key, cond) -> holds x' = None -> refreshes x = None -> refreshes x' = None -> waits x' = None ->
    st_cacheLock st' = delete key (st_cacheLock st) -> st_closed st' = <[cond := true]> (st_closed st) ->
    st_backgroundRefresh st' = st_backgroundRefresh st -> lock_effect st st' x x' []
| eff_refresh st st' x x' y key : st_cacheLock st' = st_cacheLock st -> st_closed st' = st_closed st ->
    key ∉ st_backgroundRefresh st -> st_backgroundRefresh st' = {[key]} ∪ st_backgroundRefresh st ->
    holds x' = holds x -> refreshes x = None -> refreshes x' = None -> waits x' = None ->
    holds y = None -> refreshes y = Some key -> waits y = None -> lock_effect st st' x x' [y]
| eff_refreshed st st' x x' key : st_cacheLock st' = st_cacheLock st -> st_closed st' = st_closed st ->
    st_backgroundRefresh st' = st_backgroundRefresh st ∖ {[key]} ->
    holds x = None -> holds x' = None -> refreshes x = Some key -> refreshes x' = None -> waits x' = None -> lock_effect st st' x x' [].

Lemma waits_step calls new i x' n n' : (n <= n')%nat ->
  Forall (fun x => forall cond, waits x = Some cond -> (cond < n)%nat) calls -> Forall (fun x => waits x = None) new ->
  (forall cond, waits x' = Some cond -> (cond < n')%nat) ->
  Forall (fun x => forall cond, waits x = Some cond -> (cond < n')%nat) (<[i := x']> calls ++ new).
Proof.
  intros Hn Hc Hnew Hx. apply Forall_app. split.
  - apply Forall_insert; [|done]. eapply Forall_impl; [exact Hc|]. cbn. intros x H cond Hw. specialize (H _ Hw). lia.
  - eapply Forall_impl; [exact Hnew|]. cbn. intros x -> cond. done.
Qed.

Lemma locks_step st st' calls i x x' new : calls !! i = Some x -> lock_effect st st' x x' new -> locks_ok st calls ->
  locks_ok st' (<[i := x']> calls ++ new).
Proof.
  intros Hi Heff [H1 H2 H3 H4 H5]. destruct (omap_step holds calls new i x x' Hi) as (held & Ph & Ph'). rewrite Ph in H1.
  destruct (omap_step refreshes calls new i x x' Hi) as (refreshed & Pr & Pr'). rewrite Pr in H5.
  destruct Heff as [st st' x x' (L1 & L2 & L3) Hh Hr Hr' Hw|st st' x x' key Hfree Hh Hr Hr' Hw' Hh' L1 L2 L3|
    st st' x x' key cond Hh Hh' Hr Hr' Hw' L1 L2 L3|st st' x x' y key L1 L2 Hfree L3 Hh Hr Hr' Hw' Hhy Hry Hwy|st st' x x' key L1 L2 L3 Hh Hh' Hr Hr' Hw'];
    cbn [omap list_omap] in *.
  - rewrite Hh in Ph'. rewrite Hr in H5. rewrite Hr' in Pr'. split; rewrite ?L1, ?L2, ?L3, ?Ph', ?Pr'; try done. by eapply waits_step.
  - rewrite Hh in H1. rewrite Hh' in Ph'. rewrite Hr in H5. rewrite Hr' in Pr'. cbn in *.
    assert (Hnew : forall k cond, st_cacheLock st !! k = Some cond -> (cond < length (st_closed st))%nat).
    { intros k cond Hk. eapply lookup_lt_Some, H2. eauto. }
    split; rewrite ?L1, ?L2, ?L3, ?Ph', ?Pr'; try done.
    + rewrite map_to_list_insert by done. by rewrite H1.
    + intros cond. rewrite lookup_snoc_Some. split.
      * intros [[_ Hc]|[<- _]]; [|exists key; by rewrite lookup_insert_eq]. apply H2 in Hc as [k Hk]. exists k.
        rewrite lookup_insert_ne; [done|]. intros <-. congruence.
      * intros [k Hk]. apply lookup_insert_Some in Hk as [[<- <-]|[Hne Hk]]; [by right|left]. split; [by eapply Hnew|]. apply H2. eauto.
    + intros k k' cond Hk Hk'. apply lookup_insert_Some in Hk as [[<- <-]|[Hne Hk]], Hk' as [[<- Heq]|[Hne' Hk']]; try done.
      * apply Hnew in Hk'. lia.
      * subst cond. apply Hnew in Hk. lia.
      * by eapply H3.
    + eapply waits_step; [|exact H4|done|by rewrite Hw']. rewrite length_app. lia.
  - rewrite Hh in H1. rewrite Hh' in Ph'. rewrite Hr in H5. rewrite Hr' in Pr'. cbn in *.
    assert (Hk : st_cacheLock st !! key = Some cond). { apply elem_of_map_to_list. rewrite <- H1. by left. }
    assert (Hc : (cond < length (st_closed st))%nat). { eapply lookup_lt_Some, H2. eauto. }
    split; rewrite ?L1, ?L2, ?L3, ?Ph', ?Pr'; try done.
    + apply (Permutation_cons_inv (a := (key, cond))). rewrite H1. rewrite <- (map_to_list_insert _ key cond) by apply lookup_delete_eq. by rewrite insert_delete_id.
    + intros cond'. destruct (decide (cond = cond')) as [<-|Hne].
      * rewrite list_lookup_insert_eq by done. split; [done|]. intros [k Hk']. apply lookup_delete_Some in Hk' as [Hne Hk']. by destruct Hne; eapply H3.
      * rewrite list_lookup_insert_ne by done. rewrite H2. split; intros [k Hk']; exists k.
        -- apply lookup_delete_Some. split; [|done]. intros <-. congruence.
        -- by apply lookup_delete_Some in Hk' as [_ Hk'].
    + intros k k' cond' Ha Hb. apply lookup_delete_Some in Ha as [_ Ha], Hb as [_ Hb]. by eapply H3.
    + eapply waits_step; [|exact H4|done|by rewrite Hw']. by rewrite length_insert.
  - rewrite Hhy, Hh in Ph'. rewrite Hr in H5. rewrite Hry, Hr' in Pr'. cbn in *. split; rewrite ?L1, ?L2, ?L3, ?Ph', ?Pr'; try done.
    + eapply waits_step; [|exact H4|by apply Forall_singleton|by rewrite Hw']. done.
    + rewrite elements_union_singleton by done. by rewrite H5.
  - rewrite Hh in H1. rewrite Hh' in Ph'. rewrite Hr in H5. rewrite Hr' in Pr'. cbn in *. split; rewrite ?L1, ?L2, ?L3, ?Ph', ?Pr'; try done.
    + eapply waits_step; [|exact H4|done|by rewrite Hw']. done.
    + assert (Hk : key ∈ st_backgroundRefresh st). { apply elem_of_elements. rewrite <- H5. by left. }
      apply (Permutation_cons_inv (a := key)). rewrite H5. rewrite <- elements_union_singleton by set_solver. f_equiv. apply leibniz_equiv_iff.
      set_unfold. intros k. destruct (decide (k = key)) as [->|]; naive_solver.
Qed.

(** * What operations do to locks *)

Lemma same_locks_refl (st : ClientState) : same_locks st st.
Proof. done. Qed.
Lemma same_locks_trans (st1 st2 st3 : ClientState) : same_locks st1 st2 -> same_locks st2 st3 -> same_locks st1 st3.
Proof. intros (? & ? & ?) (? & ? & ?). split_and!; congruence. Qed.
#[local] Hint Resolve same_locks_refl : core.

Lemma loadPersistent_locks now key st out st' : loadPersistentResponse c now key st = (out, st') -> same_locks st st'.
Proof.
  unfold loadPersistentResponse. destruct (as_LoadDNSCache _ _) as [[[raw e]|] file]; [|by intros [= _ <-]].
  destruct (Unpack raw); [|intros H; by apply pair_equal_spec in H as [_ <-]].
  destruct (c_disableExpire c); [by intros [= _ <-]|]. destruct (aged _ _ _) as [[]|]; by intros [= _ <-].
Qed.
Lemma rotate_persistent_locks key m st m' st' : rotate_persistent key m st = Ok (m', st') -> same_locks st st'.
Proof.
  unfold rotate_persistent, round_robin_state. destruct (lru_lookup _ _) as [[ref e]|].
  - destruct (st_heap _ !! _); [|done]. intros H. apply res_bind_ok in H as ([dm m1] & _ & H). injection H as _ H. by subst st'.
  - destruct (st_heap _ !! _); [|done]. intros H. apply res_bind_ok in H as ([dm m1] & _ & H). injection H as _ H. by subst st'.
Qed.
Lemma getRoundRobin_locks ref st m st' : getRoundRobin c ref st = Ok (m, st') -> same_locks st st'.
Proof.
  unfold getRoundRobin. destruct (st_heap st !! ref); [|done]. destruct (c_roundRobinCache c); [|by intros [= _ <-]].
  intros H. apply res_bind_ok in H as ([dm m1] & _ & H). injection H as _ H. by subst st'.
Qed.

Lemma load_locks now key st out st' : loadResponse c now key st = Ok (out, st') -> same_locks st st'.
Proof.
  unfold loadResponse. destruct (c_dnsCache c).
  - destruct (loadPersistentResponse c now key st) as [[[m stale]|] st1] eqn:E; apply loadPersistent_locks in E; [|by intros [= _ <-]].
    destruct (c_roundRobinCache c); [|by intros [= _ <-]]. intros H. apply res_bind_ok in H as ([m' st2] & Er & [= _ <-]).
    apply rotate_persistent_locks in Er. by eapply same_locks_trans.
  - destruct (c_disableCache c); [by intros [= _ <-]|]. destruct (lru_lookup _ _) as [[ref e]|]; [|intros H; injection H as _ H; by subst st'].
    set (st1 := st <| st_cache := _ |>). assert (H1 : same_locks st st1) by done.
    destruct (c_disableExpire c).
    + intros H. apply res_bind_ok in H as ([m st2] & E & [= _ <-]). apply getRoundRobin_locks in E. by eapply same_locks_trans.
    + destruct (aged _ _ _) as [[t stale]|]; [|intros H; injection H as _ H; by subst st'].
      intros H. apply res_bind_ok in H as ([m' st3] & H & [= _ <-]). apply res_bind_ok in H as ([m st2] & E & [= _ <-]). apply getRoundRobin_locks in E. by eapply same_locks_trans.
Qed.

Lemma storeCache_locks now key m ttl st : same_locks st (storeCache c now key m ttl st).
Proof. unfold storeCache. destruct (ttl =? 0), (c_dnsCache c), (Pack m), (c_disableCache c); done. Qed.
Lemma save_rejection_locks t q st : same_locks st (save_rejection c t q st).
Proof. unfold save_rejection. by destruct (c_rdrc c). Qed.

Lemma finishExchange_locks now env r op m st rs st' : finishExchange c now env r op m st = (rs, st') -> same_locks st st'.
Proof.
  unfold finishExchange. destruct (rejected_by _ m).
  - intros H. apply pair_equal_spec in H as [_ <-]. destruct (accepted_rcode m), (op_cacheKey op); try done; apply save_rejection_locks.
  - destruct (applyResponseOptions _ _ _ _) as [ttl m']. intros H. apply pair_equal_spec in H as [_ <-].
    destruct (accepted_rcode m), (op_cacheKey op); try done. destruct (finishCacheKey _ _ _); [apply storeCache_locks|done].
Qed.

Lemma finish_refresh_locks now env t key message o check reply st :
  let st' := finish_refresh c now env t key message o check reply st in
  st_cacheLock st' = st_cacheLock st /\ st_closed st' = st_closed st /\ st_backgroundRefresh st' = st_backgroundRefresh st ∖ {[key]}.
Proof.
  unfold finish_refresh. cbv zeta. set (st1 := match exchangeToTransport message reply with inl _ => _ | inr _ => _ end).
  assert (H : same_locks st st1).
  { subst st1. destruct (exchangeToTransport message reply) as [m|]; [|done]. destruct (rejected_by check m); [apply save_rejection_locks|].
    destruct (negb _); [done|]. destruct (finishCacheKey _ _ _); [|done]. destruct (applyResponseOptions _ _ _ _). apply storeCache_locks. }
  destruct H as (H1 & H2 & H3). rewrite <- H1, <- H2, <- H3. done.
Qed.

Lemma begin_transport_locks now r op st out st' : begin_transport c now r op st = (out, st') -> same_locks st st'.
Proof.
  unfold begin_transport. destruct (bool_decide _); [by intros [= _ <-]|]. destruct (op_cacheKey op), (r_responseChecker r); try by intros [= _ <-].
  destruct (c_rdrc c); [|by intros [= _ <-]]. destruct (as_LoadRDRC _ _ _). intros H. by apply pair_equal_spec in H as [_ <-].
Qed.

(** The locks stay as they are, or a refresh of [key] begins. *)
Definition refresh_effect (st st' : ClientState) (refresh : bool) (key : dnsCacheKey) : Prop :=
  if refresh then st_cacheLock st' = st_cacheLock st /\ st_closed st' = st_closed st /\ key ∉ st_backgroundRefresh st
    /\ st_backgroundRefresh st' = {[key]} ∪ st_backgroundRefresh st
  else same_locks st st'.

Lemma backgroundRefresh_locks st st1 key refresh st' : same_locks st st1 -> backgroundRefreshDNS key st1 = (refresh, st') -> refresh_effect st st' refresh key.
Proof.
  intros (H1 & H2 & H3). unfold backgroundRefreshDNS. destruct (bool_decide_reflect (key ∈ st_backgroundRefresh st1)) as [Hk|Hk]; intros [= <- <-]; [done|].
  cbn. rewrite <- H1, <- H2, <- H3. done.
Qed.

Lemma begin_load_locks now r op st out refresh st' : begin_load c now r op st = Ok (out, refresh, st') ->
  (refresh = false /\ same_locks st st') \/ exists key, op_cacheKey op = Some key /\ refresh_effect st st' refresh key /\ out <> None.
Proof.
  assert (Htr : forall st1, same_locks st st1 -> Ok (let '(result, st) := begin_transport c now r op st1 in (result, false, st)) = Ok (out, refresh, st') ->
    refresh = false /\ same_locks st st').
  { intros st1 Hl. destruct (begin_transport c now r op st1) as [o st2] eqn:E. apply begin_transport_locks in E. intros [= _ <- <-]. split; [done|]. by eapply same_locks_trans. }
  unfold begin_load. destruct (op_cacheKey op) as [key|]; [|intros H; left; by apply (Htr st)]. intros H.
  apply res_bind_ok in H as ([loaded st1] & Hload & H). apply load_locks in Hload. destruct loaded as [[m stale]|]; [|left; by apply (Htr st1)].
  destruct stale; [|injection H as _ <- <-; by left]. destruct (DisableOptimisticCache _); [left; by apply (Htr st1)|].
  destruct (backgroundRefreshDNS key st1) as [f st2] eqn:E. injection H as <- <- <-. right. exists key. split; [done|]. split; [by eapply backgroundRefresh_locks|done].
Qed.

Lemma questionCache_locks now env r q st out refresh st' : questionCache c now env r q st = Ok (out, refresh, st') ->
  refresh_effect st st' refresh (newCacheKey c env (r_transport r) q (r_message r) (r_options r)) /\ (refresh = true -> out <> None).
Proof.
  unfold questionCache. intros H. apply res_bind_ok in H as ([loaded st1] & Hload & H). apply load_locks in Hload.
  destruct loaded as [[m []]|]; [|by injection H as <- <- <-|by injection H as <- <- <-].
  destruct (DisableOptimisticCache _); [by injection H as <- <- <-|]. destruct (backgroundRefreshDNS _ st1) as [f st2] eqn:E.
  injection H as <- <- <-. split; [by eapply backgroundRefresh_locks|done].
Qed.

Lemma beginExchange_locks env r st b st' : beginExchange c env r st = Ok (b, st') ->
  match b with
  | BeginDone _ => same_locks st st'
  | BeginWait _ cond => same_locks st st' /\ exists key, st_cacheLock st !! key = Some cond
  | BeginLoad op =>
      (op_releaseCond op = None /\ same_locks st st')
      \/ exists key, st_cacheLock st !! key = None /\ op_releaseCond op = Some (key, length (st_closed st))
         /\ st_cacheLock st' = <[key := length (st_closed st)]> (st_cacheLock st) /\ st_closed st' = st_closed st ++ [false]
         /\ st_backgroundRefresh st' = st_backgroundRefresh st
  end.
Proof.
  unfold beginExchange. destruct (m_Question _) as [|q qs]; [by intros [= <- <-]|]. destruct (strategy_rejects _ _); [by intros [= <- <-]|].
  intros H. apply res_bind_ok in H as (simple & _ & H). destruct (_ || _); [injection H as <- <-; by left|].
  destruct (st_cacheLock st !! newCacheKey c env (r_transport r) q _ (r_options r)) as [cond|] eqn:E; [injection H as <- <-; by eauto|].
  apply (f_equal (fun x => match x with Ok y => y | _ => (b, st') end)) in H. apply pair_equal_spec in H as [<- <-]. right. eexists. by split_and!.
Qed.

Lemma call_step_effect log now env reply x st x' new logged st' :
  (forall key cond, st_cacheLock st !! key = Some cond -> (cond < length (st_closed st))%nat) -> call_ok c log now x ->
  call_step c now env reply x st = Some (x', new, logged, st') -> lock_effect st st' x x' new.
Proof.
  intros Hlt Hx. destruct x as [r|allowWait r|r op cond|r op|r op|r op rs|r rs|r key message|]; cbn [call_step call_ok] in *; try done.
  - destruct (m_Question (r_message r)) as [|q qs]; [done|]. destruct (_ || _); [intros [= <- <- _ <-]; by constructor|].
    destruct (questionCache c now env r q st) as [[[out refresh] st1]| | |] eqn:E; try done. apply questionCache_locks in E as [He Hne].
    destruct out as [m|]; [|destruct refresh; [by destruct Hne|]; intros [= <- <- _ <-]; by constructor].
    destruct refresh; intros [= <- <- _ <-]; [|by constructor]. destruct He as (L1 & L2 & Hk & L3). by eapply eff_refresh.
  - destruct (beginExchange c env r st) as [[b st1]| | |] eqn:E; try done. apply beginExchange_locks in E.
    destruct b as [rs|op cond|op].
    + intros [= <- <- _ <-]. by constructor.
    + destruct E as [Hs [key Hk]]. intros [= <- <- _ <-]. destruct allowWait; constructor; try done. intros cond' [= <-]. by eapply Hlt.
    + intros [= <- <- _ <-]. destruct E as [[Hn Hs]|(key & Hk & Hr & L1 & L2 & L3)]; [by constructor|by eapply eff_take].
  - destruct (default false _); [|done]. intros [= <- <- _ <-]. constructor; try done. change (op_releaseCond op = None). apply Hx.
  - destruct (begin_load c now r op st) as [[[out refresh] st1]| | |] eqn:E; try done. apply begin_load_locks in E.
    destruct E as [[-> Hs]|(key & Hk & He & Hne)].
    + destruct out as [rs|]; intros [= <- <- _ <-]; by constructor.
    + destruct out as [rs|]; [|done]. rewrite Hk. destruct refresh; intros [= <- <- _ <-]; [|by constructor].
      destruct He as (L1 & L2 & Hf & L3). by eapply eff_refresh.
  - destruct (exchangeToTransport _ _) as [m|e]; [|intros [= <- <- _ <-]; by constructor].
    destruct (finishExchange c now env r op m st) as [rs st1] eqn:E. apply finishExchange_locks in E. intros [= <- <- _ <-]. by constructor.
  - intros H. injection H as <- <- _ <-. unfold release. destruct (op_releaseCond op) as [[key cond]|] eqn:E; [by eapply eff_release|].
    by constructor.
  - intros H. injection H as <- <- _ <-. destruct (finish_refresh_locks now env (r_transport r) key message (r_options r) (r_responseChecker r) reply st) as (L1 & L2 & L3).
    by eapply eff_refreshed.
Qed.

(** * Reachable worlds *)

Hypothesis Hconfig : config_ok c.

Record world_locks_ok (w : client_world) : Prop := {
  wl_ok : world_ok c w;
  wl_time : cw_now w < 2 ^ 62;
  wl_locks : locks_ok (cw_state w) (cw_calls w);
}.

Lemma locks_new st calls x : holds x = None -> refreshes x = None -> waits x = None -> locks_ok st calls -> locks_ok st (calls ++ [x]).
Proof.
  intros Hh Hr Hw [H1 H2 H3 H4 H5]. split; try done.
  - rewrite omap_app. cbn. by rewrite Hh, app_nil_r.
  - apply Forall_app. split; [done|]. apply Forall_singleton. by rewrite Hw.
  - rewrite omap_app. cbn. by rewrite Hr, app_nil_r.
Qed.

Lemma locks_same st st' calls : same_locks st st' -> locks_ok st calls -> locks_ok st' calls.
Proof. intros (L1 & L2 & L3) [H1 H2 H3 H4 H5]. by split; rewrite ?L1, ?L2, ?L3. Qed.

Lemma world_locks_step w w' : client_step c w w' -> world_locks_ok w -> world_locks_ok w'.
Proof.
  intros Hs [Hw Ht Hl]. pose proof (world_step c Hconfig _ _ Hs Hw) as Hw'. split; [done|..].
  - destruct Hs; cbn in *; lia.
  - destruct Hs as [now st calls log x r Hr Hx|now now' env reply st calls log i x x' new logged st' Hn Hre Hi Hx|
      now st calls log i r op cond Hi|now st calls log file Hf|now st calls log]; cbn [cw_now cw_log cw_state cw_calls] in *.
    + apply locks_new; try done; by destruct Hx as [[-> ?]|[-> | ->]].
    + eapply locks_step; [exact Hi| |done].
      eapply (call_step_effect log now'); [| |exact Hx].
      * intros key cond Hk. eapply lookup_lt_Some, (lk_open _ _ Hl). eauto.
      * rewrite <- (app_nil_r log). eapply call_ok_mono; [|eapply Forall_lookup_1; [apply Hw|exact Hi]]. cbn. lia.
    + rewrite <- (app_nil_r (<[i:=_]> calls)). eapply locks_step; [exact Hi| |done]. by constructor.
    + by eapply locks_same; [|exact Hl].
    + eapply locks_same; [|exact Hl]. unfold ClearCache. by destruct (c_dnsCache c).
Qed.

Lemma reachable_locks now file log w : 0 <= now < 2 ^ 62 -> Forall (log_ok now) log -> file_ok c log file ->
  rtc (client_step c) (client_start now file log) w -> world_locks_ok w.
Proof.
  intros Hn Hl Hf Hrun. assert (H0 : world_locks_ok (client_start now file log)).
  { split; [eapply reachable_ok; [done|..|apply rtc_refl]; try done; lia|cbn; lia|]. split; try done.
    intros cond. split; [done|]. intros [key Hk]. change (st_cacheLock _) with (∅ : gmap dnsCacheKey nat) in Hk. by rewrite lookup_empty in Hk. }
  clear Hl Hf. induction Hrun as [|w1 w2 w3 Hs _ IH]; [done|]. apply IH. by eapply world_locks_step.
Qed.

(** * Progress *)

Definition finished (x : call) : bool := match x with Returned _ _ | Refreshed => true | _ => false end.

Lemma call_step_some log now env reply x st : Forall (log_ok now) log -> state_ok c log st -> call_ok c log now x -> finished x = false ->
  (forall cond, waits x = Some cond -> st_closed st !! cond = Some true) -> call_step c now env reply x st <> None.
Proof.
  intros Hlog Hst Hx Hf Hw. destruct x as [r|allowWait r|r op cond|r op|r op|r op rs|r rs|r key message|]; cbn [call_step call_ok] in *; try done.
  - destruct Hx as [Hr Hne]. destruct (m_Question (r_message r)) as [|q qs] eqn:Hq; [done|]. destruct (_ || _); [done|].
    destruct (questionCache_ok c Hconfig log now env r q qs st Hlog Hr Hq Hst) as (out & refresh & st1 & -> & _). by destruct out.
  - destruct (beginExchange_ok c log now env r st Hx) as (b & st1 & -> & _). by destruct b.
  - by rewrite (Hw cond eq_refl).
  - destruct (begin_load_ok c Hconfig log now r op st Hlog Hx Hst) as (out & refresh & st1 & -> & _). by destruct out.
  - destruct (exchangeToTransport _ _); [|done]. by destruct (finishExchange _ _ _ _ _ _ _).
Qed.

(** A call that waits for a channel waits for one that can go on. *)
Lemma some_enabled w : world_locks_ok w -> Forall (fun x => finished x = true) (cw_calls w) \/
  exists i x, cw_calls w !! i = Some x /\ finished x = false /\ forall cond, waits x = Some cond -> st_closed (cw_state w) !! cond = Some true.
Proof.
  intros [_ _ [H1 H2 _ H4 _]]. destruct (decide (Forall (fun x => finished x = true) (cw_calls w))) as [|Hn]; [by left|right].
  apply not_Forall_Exists in Hn; [|apply _]. apply Exists_exists in Hn as (x & Hin & Hf). apply not_true_is_false in Hf.
  apply list_elem_of_lookup in Hin as [i Hi]. destruct (waits x) as [cond|] eqn:Hw; [|exists i, x; split_and!; [done..|by rewrite Hw]].
  rewrite Forall_forall in H4. pose proof (H4 x ltac:(by eapply list_elem_of_lookup_2) cond Hw) as Hc.
  destruct (lookup_lt_is_Some_2 _ _ Hc) as [[] Hb]; [exists i, x; split_and!; [done..|rewrite Hw; by intros ? [= <-]]|].
  apply H2 in Hb as [key Hk]. apply elem_of_map_to_list in Hk. rewrite <- H1 in Hk. apply list_elem_of_omap in Hk as (y & Hy & Hh).
  apply list_elem_of_lookup in Hy as [j Hj]. exists j, y. by destruct y.
Qed.

(** How far a call may still go. *)
Definition weight (x : call) : nat :=
  match x with
  | Asking _ | Called false _ => 6 | Called true _ => 5 | Waiting _ _ _ => 4 | Loading _ _ => 3 | InFlight _ _ => 2
  | Releasing _ _ _ | Refreshing _ _ _ => 1 | Returned _ _ | Refreshed => 0
  end.
Definition total (calls : list call) : nat := sum_list_with weight calls.

Lemma call_step_weight now env reply x st x' new logged st' : call_step c now env reply x st = Some (x', new, logged, st') ->
  (weight x' + total new < weight x)%nat.
Proof.
  destruct x as [r|allowWait r|r op cond|r op|r op|r op rs|r rs|r key message|]; cbn [call_step]; try done; try (intros H; injection H as <- <- _ _; cbn; lia).
  - destruct (m_Question _); [done|]. destruct (_ || _); [intros [= <- <- _ _]; cbn; lia|].
    destruct (questionCache _ _ _ _ _ _) as [[[[m|] []] ?]| | |]; try done; intros [= <- <- _ _]; cbn; lia.
  - destruct (beginExchange _ _ _ _) as [[[]]| | |]; try done; intros [= <- <- _ _]; destruct allowWait; cbn; lia.
  - destruct (default false _); [|done]. intros [= <- <- _ _]. cbn. lia.
  - destruct (begin_load _ _ _ _ _) as [[[[rs|] []] ?]| | |]; try done; destruct (op_cacheKey op); intros [= <- <- _ _]; cbn; lia.
  - destruct (exchangeToTransport _ _); [destruct (finishExchange _ _ _ _ _ _ _)|]; intros [= <- <- _ _]; cbn; lia.
Qed.

Lemma total_step calls new i x x' : calls !! i = Some x -> (weight x' + total new < weight x)%nat -> (total (<[i := x']> calls ++ new) < total calls)%nat.
Proof.
  intros Hi Hw. unfold total in *. pose proof (lookup_lt_Some _ _ _ Hi). rewrite sum_list_with_app, insert_take_drop by done.
  rewrite <- (take_drop_middle _ _ _ Hi) at 3. rewrite !sum_list_with_app. cbn. lia.
Qed.

(** Steps of the calls there are. *)
Inductive own_step : client_world -> client_world -> Prop :=
| own_step_intro now now' env reply st calls log i x x' new logged st' :
    now <= now' < 2 ^ 62 -> reply_ok reply -> calls !! i = Some x ->
    call_step c now' env reply x st = Some (x', new, logged, st') ->
    own_step (mkClientWorld now st calls log) (mkClientWorld now' st' (<[i := x']> calls ++ new) (log ++ logged)).

Lemma own_step_total w w' : own_step w w' -> (total (cw_calls w') < total (cw_calls w))%nat.
Proof. intros [now now' env reply st calls log i x x' new logged st' _ _ Hi Hx]. cbn. eapply total_step; [exact Hi|]. by eapply call_step_weight. Qed.

Lemma nsteps_total n w w' : nsteps own_step n w w' -> (n + total (cw_calls w') <= total (cw_calls w))%nat.
Proof. induction 1 as [|n w1 w2 w3 Hs _ IH]; [lia|]. apply own_step_total in Hs. lia. Qed.

Lemma stuck_finished w : world_locks_ok w -> (forall w', ~ own_step w w') -> Forall (fun x => finished x = true) (cw_calls w).
Proof.
  intros Hw Hstuck. destruct (some_enabled w Hw) as [|(i & x & Hi & Hf & Hc)]; [done|]. destruct w as [now st calls log]. cbn in *.
  destruct Hw as [[Ht Hl Hst Hcalls] Hb _]. cbn in *.
  assert (Hsome : call_step c now 0 (ReplyRcode 0) x st <> None) by (apply (call_step_some log); try done; by eapply Forall_lookup_1).
  destruct (call_step c now 0 (ReplyRcode 0) x st) as [[[[x' new] logged] st']|] eqn:E; [|done].
  destruct (Hstuck (mkClientWorld now st' (<[i := x']> calls ++ new) (log ++ logged))). by eapply own_step_intro with (env := 0) (reply := ReplyRcode 0).
Qed.

End Locks.

(** C12: all queries end.  Whatever queries are made and however they interleave,
    each key is locked by at most one query and refreshed by at most one goroutine;
    a query waits only for one that goes on by itself, so that without new queries
    there is an end to the steps, and then all queries have returned. *)
Theorem queries_end {CEnv : ClientEnv} {Store : AnswerStore} c now file log w :
  config_ok c -> 0 <= now < 2 ^ 62 -> Forall (log_ok now) log -> file_ok c log file ->
  rtc (client_step c) (client_start now file log) w ->
  NoDup (map fst (omap holds (cw_calls w))) /\ NoDup (omap refreshes (cw_calls w))
  /\ (forall n w', nsteps (own_step c) n w w' -> (n <= total (cw_calls w))%nat)
  /\ forall w', rtc (own_step c) w w' -> (forall w'', ~ own_step c w' w'') -> Forall (fun x => finished x = true) (cw_calls w').
Proof.
  intros Hc Hn Hl Hf Hrun. pose proof (reachable_locks c Hc now file log w Hn Hl Hf Hrun) as Hw. split_and!.
  - rewrite (Permutation_map fst (lk_held _ _ (wl_locks _ _ Hw))). apply NoDup_fst_map_to_list.
  - rewrite (lk_refresh _ _ (wl_locks _ _ Hw)). apply NoDup_elements.
  - intros n w' H%nsteps_total. lia.
  - intros w' Hrun' Hstuck. apply (stuck_finished c Hc); [|done]. apply (reachable_locks c Hc now file log); try done.
    etrans; [exact Hrun|]. clear -Hrun'. induction Hrun' as [|w1 w2 w3 Hs _ IH]; [apply rtc_refl|]. eapply rtc_l; [|exact IH].
    destruct Hs. by eapply cs_step.
Qed.
