(* ===== verification/DNSStore.v ===== *)
(** The cache file keeps what the DNS client relies on: it implements the interface
    [AnswerStore], with the goroutines that write answers and rejections and with its
    cleanups. *)

From S2P Require Import Prelude NetAddr GoStrings RuleContext FakeIP DNSRouter Bolt CacheFile CacheFileProofs DNSCacheProofs DNSMessage DNSClient.

Section Store.
Context {BDB : Bolt} {VPkg : VarbinPkg} {MPkg : MetadataPkg}.

(** * What transactions leave *)

(** Values of a database after an operation are values before it. *)
Definition shrinks (d d' : DB) : Prop := forall p k y, db_Get d' p k = Some y -> db_Get d p k = Some y.
Definition deletes (fn : DB -> res DB) : Prop := forall d d', fn d = Ok d' -> shrinks d d'.

Lemma shrinks_refl d : shrinks d d.
Proof. by intros p k y H. Qed.
Lemma shrinks_trans d1 d2 d3 : shrinks d1 d2 -> shrinks d2 d3 -> shrinks d1 d3.
Proof. intros H1 H2 p k y H. by apply H1, H2. Qed.

Lemma delete_shrinks p k : deletes (db_Delete p k).
Proof. intros d d' E p' k' y. rewrite (db_Get_Delete _ _ _ _ E). by destruct (bool_decide _). Qed.
Lemma deleteBucket_shrinks p : deletes (db_DeleteBucket p).
Proof. intros d d' E p' k' y. rewrite (db_Get_DeleteBucket _ _ _ E). by destruct (bool_decide _). Qed.
Lemma delete_keys_shrinks p keys : deletes (delete_keys p keys).
Proof.
  induction keys as [|k keys IH]; intros d d' H; cbn in H; [injection H as <-; apply shrinks_refl|].
  apply res_bind_ok in H as (d1 & H1 & H2). eapply shrinks_trans; [by eapply delete_shrinks|by apply IH].
Qed.
Lemma delete_buckets_shrinks p names : deletes (delete_buckets p names).
Proof.
  induction names as [|n names IH]; intros d d' H; cbn in H; [injection H as <-; apply shrinks_refl|].
  apply res_bind_ok in H as (d1 & H1 & H2). eapply shrinks_trans; [by eapply deleteBucket_shrinks|by apply IH].
Qed.
Lemma cleanup_transports_shrinks p expired names d empty d' : cleanup_transports p expired names d = Ok (empty, d') -> shrinks d d'.
Proof.
  revert d empty d'. induction names as [|n names IH]; intros d empty d' H; cbn in H; [injection H as _ <-; apply shrinks_refl|].
  apply res_bind_ok in H as (d1 & H1 & H). apply res_bind_ok in H as ([empty1 d2] & H2 & [= _ <-]).
  eapply shrinks_trans; [by eapply delete_keys_shrinks|by eapply IH].
Qed.

(** The same for the file: its other parts stay as they are. *)
Record file_shrinks (c c' : CacheFile) : Prop := {
  fs_id : cf_cacheID c' = cf_cacheID c;
  fs_pending : cf_saveDNSCache c' = cf_saveDNSCache c;
  fs_rdrc : cf_saveRDRC c' = cf_saveRDRC c;
  fs_in_file p k y : in_file c' p k = Some y -> in_file c p k = Some y;
}.

Lemma file_shrinks_refl c : file_shrinks c c.
Proof. by split. Qed.
Lemma file_shrinks_trans c1 c2 c3 : file_shrinks c1 c2 -> file_shrinks c2 c3 -> file_shrinks c1 c3.
Proof. intros [A1 A2 A3 A4] [B1 B2 B3 B4]. split; [congruence..|eauto]. Qed.

Lemma reset_shrinks c d : file_shrinks c (CacheFile_resetDB c d).
Proof.
  split; try done. intros p k y. unfold in_file, CacheFile_resetDB. change (cf_DB (c <| cf_DB := db_Reopen d |>)) with (db_Reopen d).
  destruct (db_Reopen d) as [d'|] eqn:E; [|done]. by rewrite (db_Get_Bucket _ _ _ (db_Reopen_empty _ _ E p)).
Qed.

(** What a transaction leaves, given what it does to the values. *)
Lemma batch_values (P : bucket_path -> list Z -> list Z -> Prop) c fn :
  (forall d d', cf_DB c = Some d -> fn d = Ok d' -> forall p k y, db_Get d' p k = Some y -> db_Get d p k = Some y \/ P p k y) ->
  let c' := snd (batch_ c fn) in
  cf_cacheID c' = cf_cacheID c /\ cf_saveDNSCache c' = cf_saveDNSCache c /\ cf_saveRDRC c' = cf_saveRDRC c
  /\ forall p k y, in_file c' p k = Some y -> in_file c p k = Some y \/ P p k y.
Proof.
  intros Hfn. cbv zeta. unfold batch_, CacheFile_batch. destruct (cf_DB c) as [d|] eqn:Hd; [|by split_and!; auto].
  destruct (fn d) as [d'| |s|] eqn:E; cbn [res_bind snd]; [| |destruct (reset_shrinks c d) as [H1 H2 H3 H4]; split_and!; auto|]; try (by split_and!; auto).
  destruct (db_Commit d d'); [by split_and!; auto|]. split_and!; try done. intros p k y. cbn [snd]. unfold in_file. rewrite Hd. by apply Hfn.
Qed.

Lemma batch_shrinks c fn : deletes fn -> file_shrinks c (snd (batch_ c fn)).
Proof.
  intros Hfn. destruct (batch_values (fun _ _ _ => False) c fn) as (H1 & H2 & H3 & H4).
  - intros d d' _ E p k y Hy. left. by eapply Hfn.
  - split; try done. intros p k y Hy. by destruct (H4 _ _ _ Hy).
Qed.

Lemma view_shrinks {A} c (fn : DB -> res A) : file_shrinks c (snd (CacheFile_view c fn)).
Proof. unfold CacheFile_view. destruct (cf_DB c) as [d|]; [|apply file_shrinks_refl]. destruct (fn d); try apply file_shrinks_refl. apply reset_shrinks. Qed.

Lemma cleanup_shrinks c b expired : file_shrinks c (cleanup_bucket c b expired).
Proof.
  apply batch_shrinks. intros d d' H. destruct (negb _); [injection H as <-; apply shrinks_refl|].
  apply res_bind_ok in H as ([empty d1] & H1 & H2). eapply shrinks_trans; [by eapply cleanup_transports_shrinks|by eapply delete_buckets_shrinks].
Qed.
Lemma clear_shrinks c b : file_shrinks c (snd (clear_bucket c b)).
Proof. apply batch_shrinks. intros d d'. destruct (db_Bucket d _); [apply deleteBucket_shrinks|]. intros [= <-]. apply shrinks_refl. Qed.

Lemma put_values c b k v : let c' := snd (batch_ c (put_in c b k v)) in
  cf_cacheID c' = cf_cacheID c /\ cf_saveDNSCache c' = cf_saveDNSCache c /\ cf_saveRDRC c' = cf_saveRDRC c
  /\ forall p q y, in_file c' p q = Some y -> in_file c p q = Some y \/ (p, q) = (transport_path c b k, question_key k) /\ y = v.
Proof.
  apply (batch_values (fun p q y => (p, q) = (transport_path c b k, question_key k) /\ y = v)). intros d d' _ E p q y. rewrite (put_in_get _ _ _ _ _ _ E).
  case_bool_decide; [|by left]. intros [= <-]. by right.
Qed.

(** * The file with its goroutines *)

(** A goroutine that saves a rejection: [true] once it has written it. *)
Record dns_store := mkDnsStore {
  ds_file : CacheFile;
  ds_flushers : list (saveCacheKey * flusher);
  ds_savers : list (saveCacheKey * bool);
}.

Definition ds_LoadDNSCache (s : dns_store) (k : saveCacheKey) : option (list Z * Z) * dns_store :=
  let '(x, c) := CacheFile_LoadDNSCache (ds_file s) k in (x, s <| ds_file := c |>).
Definition ds_SaveDNSCacheAsync (s : dns_store) (k : saveCacheKey) (raw : list Z) (expire : Z) : dns_store :=
  let '(start, c) := CacheFile_queueDNSCacheSave (ds_file s) k raw expire in
  mkDnsStore c (if start then ds_flushers s ++ [(k, FlushHead)] else ds_flushers s) (ds_savers s).
Definition ds_DeleteDNSCache (s : dns_store) (k : saveCacheKey) (raw : list Z) : dns_store :=
  s <| ds_file := CacheFile_DeleteDNSCache (ds_file s) k raw |>.
Definition ds_ClearDNSCache (s : dns_store) : dns_store := s <| ds_file := snd (CacheFile_ClearDNSCache (ds_file s)) |>.
Definition ds_LoadRDRC (s : dns_store) (now : Z) (k : saveCacheKey) : bool * dns_store :=
  let '(x, c) := CacheFile_LoadRDRC (ds_file s) now k in (x, s <| ds_file := c |>).
Definition ds_SaveRDRCAsync (s : dns_store) (k : saveCacheKey) : dns_store :=
  mkDnsStore (CacheFile_SaveRDRCAsync (ds_file s) k) (ds_flushers s) (ds_savers s ++ [(k, false)]).

Definition rdrc_content (c : CacheFile) (k : saveCacheKey) : option (list Z) := in_file c (transport_path c bucketRDRC k) (question_key k).

(** What goes on in the file by itself; the last step is any other operation. *)
Inductive ds_later : dns_store -> dns_store -> Prop :=
| dl_flush c fl sv i k f next c' : key_ok k -> fl !! i = Some (k, f) -> CacheFile_flushPendingDNSCache c k f = (next, c') ->
    ds_later (mkDnsStore c fl sv) (mkDnsStore c' (match next with Some f' => <[i := (k, f')]> fl | None => delete i fl end) sv)
| dl_save c fl sv i k now : key_ok k -> sv !! i = Some (k, false) ->
    ds_later (mkDnsStore c fl sv) (mkDnsStore (snd (CacheFile_SaveRDRC c now k)) fl (<[i := (k, true)]> sv))
| dl_saved c fl sv i k : sv !! i = Some (k, true) -> ds_later (mkDnsStore c fl sv) (mkDnsStore (rdrc_saved c k) fl (delete i sv))
| dl_cleanup c fl sv now : ds_later (mkDnsStore c fl sv) (mkDnsStore (CacheFile_cleanupDNSCache c now) fl sv)
| dl_cleanup_rdrc c fl sv now : ds_later (mkDnsStore c fl sv) (mkDnsStore (CacheFile_cleanupRDRC c now) fl sv)
| dl_other c fl sv c' : cf_saveDNSCache c' = cf_saveDNSCache c -> cf_saveRDRC c' = cf_saveRDRC c ->
    (forall k, content c' k = content c k /\ rdrc_content c' k = rdrc_content c k) -> ds_later (mkDnsStore c fl sv) (mkDnsStore c' fl sv).

(** An entry that is or may be written for a key. *)
Definition source (s : dns_store) (k : saveCacheKey) (en : saveDNSCacheEntry) : Prop :=
  pending (ds_file s) k = Some en \/ (k, FlushRead en) ∈ ds_flushers s.
Definition written (c : CacheFile) (k : saveCacheKey) (x : list Z * Z) : Prop :=
  exists y, content c k = Some y /\ (length y <? 8)%nat = false /\ x = (drop 8 y, file_time y).
Definition gives (en : saveDNSCacheEntry) (x : list Z * Z) : Prop := fst x = rawMessage en /\ (snd x = expireAt en \/ snd x = trunc (expireAt en)).
Definition ds_holds (s : dns_store) (k : saveCacheKey) (x : list Z * Z) : Prop := (exists en, source s k en /\ gives en x) \/ written (ds_file s) k x.
Definition ds_rejects (s : dns_store) (k : saveCacheKey) : Prop :=
  k ∈ cf_saveRDRC (ds_file s) \/ (k, false) ∈ ds_savers s \/ rdrc_content (ds_file s) k <> None.

Notation less_store := (no_more ds_holds ds_rejects).

(** * Its laws *)

Lemma content_shrinks c c' k y : file_shrinks c c' -> content c' k = Some y -> content c k = Some y.
Proof. intros [H1 _ _ H4]. unfold content, transport_path, CacheFile_bucket. rewrite H1. apply H4. Qed.
Lemma rdrc_content_shrinks c c' k : file_shrinks c c' -> rdrc_content c' k <> None -> rdrc_content c k <> None.
Proof.
  intros [H1 _ _ H4]. unfold rdrc_content, transport_path, CacheFile_bucket. rewrite H1.
  intros H. destruct (in_file c' _ _) as [y|] eqn:E; [|done]. by rewrite (H4 _ _ _ E).
Qed.
Lemma written_shrinks c c' k x : file_shrinks c c' -> written c' k x -> written c k x.
Proof. intros Hs (y & Hy & Hr). exists y. split; [by eapply content_shrinks|done]. Qed.

(** A state with less in the file, no more pending, and no more goroutines. *)
Lemma less_store_intro s s' :
  (forall k en, source s' k en -> source s k en) -> (forall k x, written (ds_file s') k x -> written (ds_file s) k x) ->
  (forall k, ds_rejects s' k -> ds_rejects s k) -> less_store s s'.
Proof. intros H1 H2 H3 k _. split; [|apply H3]. intros x [(en & Hen & Hg)|Hw]; [left; eauto|right; by apply H2]. Qed.

Lemma less_store_file s c' : file_shrinks (ds_file s) c' -> less_store s (s <| ds_file := c' |>).
Proof.
  intros Hs. destruct s as [c fl sv]. cbn in Hs. change ((mkDnsStore c fl sv) <| ds_file := c' |>) with (mkDnsStore c' fl sv). apply less_store_intro.
  - intros k en. unfold source, pending. cbn. by rewrite (fs_pending _ _ Hs).
  - intros k x. by apply written_shrinks.
  - intros k. unfold ds_rejects. cbn. rewrite (fs_rdrc _ _ Hs). intros [?|[?|?]]; [by left|by right; left|right; right; by eapply rdrc_content_shrinks].
Qed.

Lemma load_shrinks c k : file_shrinks c (snd (CacheFile_LoadDNSCache c k)).
Proof.
  unfold CacheFile_LoadDNSCache. destruct (cf_saveDNSCache c !! k); [apply file_shrinks_refl|].
  match goal with |- context [CacheFile_view c ?fn] => pose proof (view_shrinks c fn) as H; destruct (CacheFile_view c fn) as [r c'] end. done.
Qed.

Lemma load_holds s k x : fst (CacheFile_LoadDNSCache (ds_file s) k) = Some x -> ds_holds s k x.
Proof.
  unfold CacheFile_LoadDNSCache, ds_holds, source, pending. destruct (cf_saveDNSCache (ds_file s) !! k) as [en|].
  - intros [= <-]. left. exists en. split; [by left|]. split; [done|by left].
  - unfold CacheFile_view. destruct (cf_DB (ds_file s)) as [d|] eqn:Hd; [|done]. rewrite bucket_Get_Get.
    destruct (db_Get d _ _) as [y|] eqn:Hy; [|done]. destruct (length y <? 8)%nat eqn:Hl; [done|]. intros [= <-]. right.
    exists y. split; [|done]. unfold content, in_file. by rewrite Hd.
Qed.

Lemma delete_file c k raw : file_shrinks c (CacheFile_DeleteDNSCache c k raw).
Proof.
  unfold CacheFile_DeleteDNSCache. destruct (cf_saveDNSCache c !! k); [apply file_shrinks_refl|]. apply batch_shrinks. intros d d'.
  destruct (bucket_Get d _ _); [|intros [= <-]; apply shrinks_refl]. destruct (_ || _); [intros [= <-]; apply shrinks_refl|]. apply delete_shrinks.
Qed.

Lemma rdrc_file c now k : file_shrinks c (snd (CacheFile_LoadRDRC c now k)).
Proof.
  unfold CacheFile_LoadRDRC. destruct (bool_decide _); [apply file_shrinks_refl|].
  match goal with |- context [CacheFile_view c ?fn] => pose proof (view_shrinks c fn) as H; destruct (CacheFile_view c fn) as [r c'] end.
  cbn [snd] in H. destruct r as [[rejected []]| | |]; try done. cbn [snd]. eapply file_shrinks_trans; [exact H|]. apply batch_shrinks. intros d d'.
  destruct (db_Bucket d _); [apply delete_shrinks|]. intros [= <-]. apply shrinks_refl.
Qed.

Lemma rdrc_loaded s now k : fst (CacheFile_LoadRDRC (ds_file s) now k) = true -> ds_rejects s k.
Proof.
  unfold CacheFile_LoadRDRC, ds_rejects. case_bool_decide as Hk; [by left|]. intros H. right; right. revert H.
  unfold CacheFile_view, rdrc_content, in_file. destruct (cf_DB (ds_file s)) as [d|]; [|done]. rewrite bucket_Get_Get.
  destruct (db_Get d _ _) as [y|]; [done|]. done.
Qed.

Lemma save_law s k raw e k' :
  (forall x, ds_holds (ds_SaveDNSCacheAsync s k raw e) k' x -> ds_holds s k' x \/ k' = k /\ fst x = raw /\ (snd x = e \/ snd x = trunc e))
  /\ (ds_rejects (ds_SaveDNSCacheAsync s k raw e) k' -> ds_rejects s k').
Proof.
  unfold ds_SaveDNSCacheAsync, CacheFile_queueDNSCacheSave. split; [|done].
  set (entry := default _ _). intros x [(en & Hen & Hg)|Hw]; [|left; by right].
  destruct Hen as [Hp|Hfl]; cbn in *.
  - unfold pending in Hp. destruct (decide (k = k')) as [<-|Hne].
    + change (cf_saveDNSCache _) with (<[k := mkSaveDNSCacheEntry raw e (u64 (sequence entry + 1)) true]> (cf_saveDNSCache (ds_file s))) in Hp.
      rewrite lookup_insert_eq in Hp. injection Hp as <-. right. split; [done|]. exact Hg.
    + change (cf_saveDNSCache _) with (<[k := mkSaveDNSCacheEntry raw e (u64 (sequence entry + 1)) true]> (cf_saveDNSCache (ds_file s))) in Hp.
      rewrite lookup_insert_ne in Hp by done. left. left. exists en. split; [by left|done].
  - left. left. exists en. split; [|done]. right. destruct (negb _); [|done]. apply elem_of_app in Hfl as [?|Hfl]; [done|].
    by apply list_elem_of_singleton in Hfl.
Qed.

Lemma clear_law s : less_store s (ds_ClearDNSCache s).
Proof.
  unfold ds_ClearDNSCache, CacheFile_ClearDNSCache. destruct s as [c fl sv]. cbn [ds_file]. pose proof (clear_shrinks (clear_pending c) bucketDNSCache) as Hs.
  set (c' := snd _) in *. change (less_store (mkDnsStore c fl sv) (mkDnsStore c' fl sv)). apply less_store_intro.
  - intros k en [Hp|?]; [|by right]. cbn in Hp. unfold pending in Hp. rewrite (fs_pending _ _ Hs) in Hp. change (cf_saveDNSCache (clear_pending c)) with (∅ : gmap saveCacheKey saveDNSCacheEntry) in Hp. by rewrite lookup_empty in Hp.
  - intros k x Hw. apply (written_shrinks _ _ _ _ Hs) in Hw. done.
  - intros k. unfold ds_rejects. cbn. rewrite (fs_rdrc _ _ Hs). intros [?|[?|Hr]]; [by left|by right; left|right; right].
    by apply (rdrc_content_shrinks _ _ _ Hs) in Hr.
Qed.

Lemma save_rdrc_law s k k' : (forall x, ds_holds (ds_SaveRDRCAsync s k) k' x -> ds_holds s k' x)
  /\ (ds_rejects (ds_SaveRDRCAsync s k) k' -> ds_rejects s k' \/ k' = k).
Proof.
  split; [done|]. intros [Hr|[Hr|Hr]]; [|cbn in Hr|left; by right; right].
  - change (cf_saveRDRC _) with ({[k]} ∪ cf_saveRDRC (ds_file s)) in Hr. apply elem_of_union in Hr as [Hr|Hr]; [right; set_solver|left; by left].
  - apply elem_of_app in Hr as [Hr|Hr]; [left; by right; left|right; set_solver].
Qed.

(** ** Steps of the file *)

Lemma same_path c c' b k : cf_cacheID c' = cf_cacheID c -> transport_path c' b k = transport_path c b k.
Proof. unfold transport_path, CacheFile_bucket. by intros ->. Qed.
Lemma place_buckets c b b' k k' (q q' : list Z) : b <> b' -> (transport_path c b k, q) <> (transport_path c b' k', q').
Proof.
  intros Hb H. apply pair_equal_spec in H as [H _]. unfold transport_path in H. apply app_inj_2 in H as [H _]; [|done].
  unfold CacheFile_bucket in H. destruct (cf_cacheID c); congruence.
Qed.

Lemma flush_read_law c fl sv i k en : key_ok k -> fl !! i = Some (k, FlushRead en) ->
  let '(err, c') := CacheFile_SaveDNSCache c k (rawMessage en) (expireAt en) in
  less_store (mkDnsStore c fl sv) (mkDnsStore c' (<[i := (k, FlushWritten en err)]> fl) sv).
Proof.
  intros Hk Hi. unfold CacheFile_SaveDNSCache. destruct (put_values c bucketDNSCache k (time_bytes (expireAt en) ++ rawMessage en)) as (H1 & H2 & H3 & H4).
  destruct (batch_ c _) as [err c']. cbn [snd] in *. intros k' Hk'. split.
  - intros x [(en' & Hen & Hg)|(y & Hy & Hl & ->)].
    + left. exists en'. split; [|done]. destruct Hen as [Hp|Hin]; cbn in *; [left; unfold pending in *; cbn in *; congruence|right].
      apply list_elem_of_lookup in Hin as [j Hj].
      destruct (decide (i = j)) as [->|Hne]; [rewrite list_lookup_insert_eq in Hj by (by eapply lookup_lt_Some); done|].
      rewrite list_lookup_insert_ne in Hj by done. by eapply list_elem_of_lookup_2.
    + cbn [ds_file] in Hy. unfold content in Hy. rewrite (same_path _ _ _ _ H1) in Hy.
      apply H4 in Hy as [Hy|[Heq ->]]; [right; by exists y|]. apply place_inj in Heq as <-; [|done|done].
      left. exists en. split; [right; by eapply list_elem_of_lookup_2|]. split; [by rewrite drop_time|right; by rewrite file_time_bytes].
  - intros [Hr|[Hr|Hr]]; [left; cbn in *; congruence|by right; left|right; right]. cbn [ds_file] in *.
    unfold rdrc_content in *. rewrite (same_path _ _ _ _ H1) in Hr. destruct (in_file c' _ _) as [y|] eqn:Hy; [|done].
    apply H4 in Hy as [Hy|[Heq _]]; [by rewrite Hy|]. by apply (place_buckets c bucketRDRC bucketDNSCache) in Heq.
Qed.

Lemma save_step_law c fl sv i k now : key_ok k -> sv !! i = Some (k, false) ->
  less_store (mkDnsStore c fl sv) (mkDnsStore (snd (CacheFile_SaveRDRC c now k)) fl (<[i := (k, true)]> sv)).
Proof.
  intros Hk Hi. unfold CacheFile_SaveRDRC. destruct (put_values c bucketRDRC k (time_bytes (now + cf_rdrcTimeout c))) as (H1 & H2 & H3 & H4).
  set (c' := snd _) in *. intros k' Hk'. split.
  - intros x [(en' & Hen & Hg)|(y & Hy & Hl & ->)].
    + left. exists en'. split; [|done]. destruct Hen as [Hp|Hin]; cbn in *; [left; unfold pending in *; cbn in *; congruence|by right].
    + cbn [ds_file] in Hy. unfold content in Hy. rewrite (same_path _ _ _ _ H1) in Hy.
      apply H4 in Hy as [Hy|[Heq _]]; [right; by exists y|]. by apply (place_buckets c bucketDNSCache bucketRDRC) in Heq.
  - intros [Hr|[Hr|Hr]]; cbn in *; [left; cbn in *; congruence|right; left|].
    + apply list_elem_of_lookup in Hr as [j Hj]. destruct (decide (i = j)) as [->|Hne]; [rewrite list_lookup_insert_eq in Hj by (by eapply lookup_lt_Some); done|].
      rewrite list_lookup_insert_ne in Hj by done. by eapply list_elem_of_lookup_2.
    + unfold rdrc_content in Hr. rewrite (same_path _ _ _ _ H1) in Hr. destruct (in_file c' _ _) as [y|] eqn:Hy; [|done].
      apply H4 in Hy as [Hy|[Heq _]]; [right; right; unfold rdrc_content; cbn [ds_file]; by rewrite Hy|].
      apply place_inj in Heq as <-; [|done|done]. right; left. by eapply list_elem_of_lookup_2.
Qed.

(** Settling only takes entries away, or marks them as not being saved. *)
Lemma settle_pending c k en err next c' : flush_settle c k en err = (next, c') ->
  (forall k' e', pending c' k' = Some e' -> exists e, pending c k' = Some e /\ answer e = answer e')
  /\ (next = None \/ next = Some FlushHead) /\ (forall k', content c' k' = content c k' /\ rdrc_content c' k' = rdrc_content c k')
  /\ cf_saveRDRC c' = cf_saveRDRC c.
Proof.
  intros H. destruct (pending c k) as [e|] eqn:E.
  - destruct (flush_settle_cases _ _ _ _ _ _ _ E H) as [(_ & -> & ->)|[(_ & _ & -> & ->)|(_ & _ & -> & ->)]]; split_and!; eauto; intros k' e'; unfold pending.
    + change (cf_saveDNSCache (c <| cf_saveDNSCache := _ |>)) with (delete k (cf_saveDNSCache c)). intros Hd. apply lookup_delete_Some in Hd as [_ Hd]. eauto.
    + change (cf_saveDNSCache (c <| cf_saveDNSCache := _ |>)) with (<[k := e <| saving := false |>]> (cf_saveDNSCache c)).
      intros Hi. apply lookup_insert_Some in Hi as [[<- <-]|[_ Hi]]; eauto.
  - unfold flush_settle, pending in *. rewrite E in H. destruct err as [[]| | |]; injection H as <- <-; split_and!; eauto.
Qed.

Lemma elem_of_changed {A} (l : list A) i y next : y ∈ match next with Some z => <[i := z]> l | None => delete i l end -> y ∈ l \/ next = Some y.
Proof.
  intros H. destruct next as [z|].
  - apply list_elem_of_lookup in H as [j Hj]. destruct (decide (i = j)) as [->|Hne].
    + destruct (decide (j < length l)%nat) as [Hl|Hl]; [rewrite list_lookup_insert_eq in Hj by done; right; congruence|].
      left. rewrite list_insert_ge in Hj by lia. by eapply list_elem_of_lookup_2.
    + left. rewrite list_lookup_insert_ne in Hj by done. by eapply list_elem_of_lookup_2.
  - left. rewrite delete_take_drop in H. apply elem_of_app in H as [H|H].
    + apply list_elem_of_lookup in H as [j Hj]. apply lookup_take_Some in Hj as [Hj _]. by eapply list_elem_of_lookup_2.
    + apply list_elem_of_lookup in H as [j Hj]. rewrite lookup_drop in Hj. by eapply list_elem_of_lookup_2.
Qed.

Lemma flush_law c fl sv i k f next c' : key_ok k -> fl !! i = Some (k, f) -> CacheFile_flushPendingDNSCache c k f = (next, c') ->
  less_store (mkDnsStore c fl sv) (mkDnsStore c' (match next with Some f' => <[i := (k, f')]> fl | None => delete i fl end) sv).
Proof.
  intros Hk Hi. destruct f as [|en|en err]; cbn [CacheFile_flushPendingDNSCache].
  - intros [= <- <-]. apply less_store_intro; [|done|done]. intros k' en [Hp|Hin]; [by left|]. cbn [ds_flushers] in Hin. fold (pending c k) in Hin.
    destruct (pending c k) as [e|] eqn:E; cbn [option_map] in Hin.
    + destruct (elem_of_changed fl i _ (Some (k, FlushRead e)) Hin) as [?|[= <- <-]]; [by right|by left].
    + right. by destruct (elem_of_changed fl i _ None Hin).
  - pose proof (flush_read_law c fl sv i k en Hk Hi) as H. destruct (CacheFile_SaveDNSCache _ _ _ _) as [err c1]. by intros [= <- <-].
  - intros H. destruct (settle_pending _ _ _ _ _ _ H) as (Hp & Hn & Hc & Hr). intros k' Hk'. split.
    + intros x [(en' & Hen & Hg)|(y & Hy & Hrest)]; [left|right; exists y; cbn [ds_file]; by rewrite <- (proj1 (Hc k'))]. destruct Hen as [Hpe|Hin]; cbn in *.
      * destruct (Hp _ _ Hpe) as (e & He & Hans). exists e. split; [by left|]. unfold gives in *. unfold answer in Hans. injection Hans as -> ->. done.
      * exists en'. split; [right|done]. cbn. destruct Hn as [->| ->].
        -- by destruct (elem_of_changed fl i _ None Hin).
        -- by destruct (elem_of_changed fl i _ (Some (k, FlushHead)) Hin).
    + intros [Hr'|[Hr'|Hr']]; cbn in *; [left; cbn; congruence|by right; left|right; right]. cbn. by rewrite <- (proj2 (Hc k')).
Qed.

Lemma saved_law c fl sv i k : less_store (mkDnsStore c fl sv) (mkDnsStore (rdrc_saved c k) fl (delete i sv)).
Proof.
  apply less_store_intro; [done|done|]. intros k' [Hr|[Hr|Hr]]; cbn [ds_file ds_savers] in *; [left|right; left|by right; right]; cbn.
  - change (cf_saveRDRC (rdrc_saved c k)) with (cf_saveRDRC c ∖ {[k]}) in Hr. set_solver.
  - by destruct (elem_of_changed sv i _ None Hr).
Qed.

Lemma later_law s s' : ds_later s s' -> less_store s s'.
Proof.
  intros [c fl sv i k f next c' Hk Hi Hf|c fl sv i k now Hk Hi|c fl sv i k Hi|c fl sv now|c fl sv now|c fl sv c' Hp Hr Hc].
  - by apply (flush_law c fl sv i k f).
  - by apply save_step_law.
  - apply saved_law.
  - apply (less_store_file (mkDnsStore c fl sv)), cleanup_shrinks.
  - apply (less_store_file (mkDnsStore c fl sv)), cleanup_shrinks.
  - apply less_store_intro.
    + intros k en [H|H]; [left|by right]. unfold pending in *. cbn in *. congruence.
    + intros k x (y & Hy & Hrest). exists y. cbn in *. by rewrite <- (proj1 (Hc k)).
    + intros k [H|[H|H]]; cbn in *; [left; cbn; congruence|by right; left|right; right]. cbn. by rewrite <- (proj2 (Hc k)).
Qed.

#[export] Instance cache_file_store : AnswerStore.
Proof.
  refine {|
  AS := dns_store;
  as_LoadDNSCache := ds_LoadDNSCache;
  as_SaveDNSCacheAsync := ds_SaveDNSCacheAsync;
  as_DeleteDNSCache := ds_DeleteDNSCache;
  as_ClearDNSCache := ds_ClearDNSCache;
  as_LoadRDRC := ds_LoadRDRC;
  as_SaveRDRCAsync := ds_SaveRDRCAsync;
  as_later := ds_later;
  as_holds := ds_holds;
  as_rejects := ds_rejects;
  |}.
  - intros s k _. unfold ds_LoadDNSCache. pose proof (load_shrinks (ds_file s) k) as Hs. pose proof (fun x => load_holds s k x) as Hh.
    destruct (CacheFile_LoadDNSCache (ds_file s) k) as [x c]. split; [by apply less_store_file|done].
  - intros s k raw e k' _ _. apply save_law.
  - intros s k raw e. unfold ds_LoadDNSCache, ds_SaveDNSCacheAsync, CacheFile_queueDNSCacheSave, CacheFile_LoadDNSCache. cbn [ds_file].
    change (cf_saveDNSCache (_ <| cf_saveDNSCache := ?m |>)) with m. by rewrite lookup_insert_eq.
  - intros s k raw _. by apply less_store_file, delete_file.
  - apply clear_law.
  - intros s now k _. unfold ds_LoadRDRC. pose proof (rdrc_file (ds_file s) now k) as Hs. pose proof (rdrc_loaded s now k) as Hr.
    destruct (CacheFile_LoadRDRC (ds_file s) now k) as [x c]. split; [by apply less_store_file|done].
  - intros s k k' _ _. apply save_rdrc_law.
  - apply later_law.
Defined.

End Store.
