(* ===== verification/DNSClientTheorems.v ===== *)
(** The DNS client as a whole: where results come from, that no query panics, that
    answers are served again from the cache; and a client over the cache file. *)

From S2P Require Import Prelude NetAddr GoStrings RuleContext DNSRouter FakeIP Bolt CacheFile CacheFileProofs DNSCacheProofs DNSMessage DNSClient DNSMessageProofs DNSClientProofs DNSAnswerProofs DNSLockProofs DNSStore.

(** C11: results have a source.  However queries, their transports, refreshes, the
    goroutines of the cache file and clearing interleave, and also after a restart,
    the result of a query is a fixed response to a query without question or against
    the strategy, the response of its own transport, an error, or an answer from the
    cache: what the same transport answered earlier for the same name, type, subnet and
    network, and for the same class if it is kept in memory, with its records in some
    order.  If answers expire, it shows no more than the rest of its lifetime, or it is
    stale, allowed to be, past its lifetime by less than the time for stale answers and
    shows a second; otherwise it may be of any age.  A query is refused without being
    sent only if an earlier response was rejected. *)
Theorem query_results_sourced {CEnv : ClientEnv} {Store : AnswerStore} c now file log w r rs :
  config_ok c -> 0 <= now -> Forall (log_ok now) log -> file_ok c log file ->
  rtc (client_step c) (client_start now file log) w -> Returned r rs ∈ cw_calls w ->
  sourced c (cw_log w) (cw_now w) r rs.
Proof.
  intros Hc Hn Hl Hf Hrun Hin. pose proof (wo_calls _ _ (reachable_ok c Hc now file log w Hn Hl Hf Hrun)) as H.
  rewrite Forall_forall in H. apply (H _ Hin).
Qed.

(** C13: the client does not panic.  In every state that queries reach, the references
    of both caches are to objects whose messages are well-formed and whose counters are
    small numbers of 32 bits, so that rotating the answers of well-formed messages never
    slices out of range; and every query that is not done goes on at any time, whatever
    its transport answers, unless it waits for a channel that is open. *)
Theorem queries_never_panic {CEnv : ClientEnv} {Store : AnswerStore} c now file log w :
  config_ok c -> 0 <= now < 2 ^ 62 -> Forall (log_ok now) log -> file_ok c log file ->
  rtc (client_step c) (client_start now file log) w ->
  let st := cw_state w in
  (forall key ref e, lru_lookup (st_cache st) key = Some (ref, e) -> exists dm, st_heap st !! ref = Some dm /\ counters_ok dm /\ wf_message (msg dm))
  /\ (forall key ref e, lru_lookup (st_roundRobinIndex st) key = Some (ref, e) -> exists dm, st_heap st !! ref = Some dm /\ counters_ok dm)
  /\ (forall ref dm m, st_heap st !! ref = Some dm -> wf_message m -> exists r, applyRoundRobin dm m = Ok r)
  /\ forall x now' env reply, x ∈ cw_calls w -> finished x = false -> cw_now w <= now' ->
     (forall cond, waits x = Some cond -> st_closed st !! cond = Some true) -> call_step c now' env reply x st <> None.
Proof.
  intros Hc Hn Hl Hf Hrun st. destruct (reachable_ok c Hc now file log w ltac:(lia) Hl Hf Hrun) as [Ht Hlog Hst Hcalls].
  assert (Hcn : forall ref dm, st_heap st !! ref = Some dm -> counters_ok dm) by (intros ref dm; apply Forall_lookup_1, (so_heap _ _ _ Hst)).
  split; [|split; [|split]].
  - intros key ref e H. destruct (so_cache _ _ _ Hst _ _ _ H) as (dm & a & ttl & Hd & Ha & Hs & _). exists dm. split; [done|]. split; [by eapply Hcn|].
    rewrite Forall_forall in Hlog. by destruct (stored_by_wf c Hc _ _ _ _ _ (Hlog _ Ha) Hs).
  - intros key ref e H. destruct (so_index _ _ _ Hst _ _ _ H) as [dm Hd]. exists dm. split; [done|]. by eapply Hcn.
  - intros ref dm m Hd Hwf. destruct (applyRoundRobin_ok dm m (Hcn _ _ Hd) Hwf) as (dm' & m' & E & _). by eexists.
  - intros x now' env reply Hin Hx Hle Hw. apply (call_step_some c Hc (cw_log w)); try done.
    + eapply Forall_impl; [exact Hlog|]. intros a. by apply log_ok_mono.
    + rewrite <- (app_nil_r (cw_log w)). eapply call_ok_mono; [exact Hle|]. rewrite Forall_forall in Hcalls. by apply Hcalls.
Qed.

(** * Answers are served again *)

Section Again.
Context {CEnv : ClientEnv} {Store : AnswerStore}.
Variable c : Client.

(** What is read of a message that is cached: itself, or what its packed form says. *)
Definition cached_form (m m0 : Message) : Prop :=
  if c_dnsCache c then exists raw, Pack m = Some raw /\ Unpack raw = Some m0 else m0 = m.

(** The cache, in memory or in the file, has the same entry for a key in both states. *)
Definition kept (key : dnsCacheKey) (st st' : ClientState) : Prop :=
  if c_dnsCache c then fst (as_LoadDNSCache (st_file st') (store_key key)) = fst (as_LoadDNSCache (st_file st) (store_key key))
  else lru_lookup (st_cache st') key = lru_lookup (st_cache st) key.

(** ** Cached objects keep their messages *)

Definition heap_grows (st st' : ClientState) : Prop :=
  forall i dm, st_heap st !! i = Some dm -> exists dm', st_heap st' !! i = Some dm' /\ msg dm' = msg dm.

Lemma heap_grows_same st st' : st_heap st' = st_heap st -> heap_grows st st'.
Proof. intros H i dm Hi. exists dm. by rewrite H. Qed.
Lemma heap_grows_trans st1 st2 st3 : heap_grows st1 st2 -> heap_grows st2 st3 -> heap_grows st1 st3.
Proof. intros H1 H2 i dm H. destruct (H1 _ _ H) as (dm2 & Hd & Hm). destruct (H2 _ _ Hd) as (dm3 & ? & ?). exists dm3. split; [done|congruence]. Qed.
Lemma storeCache_heap now key m ttl st : heap_grows st (storeCache c now key m ttl st).
Proof.
  unfold storeCache. destruct (ttl =? 0); [by apply heap_grows_same|]. destruct (c_dnsCache c); [destruct (Pack m); by apply heap_grows_same|].
  destruct (c_disableCache c); [by apply heap_grows_same|]. intros i dm H. exists dm. split; [by apply lookup_app_l_Some|done].
Qed.
Lemma save_rejection_heap t q st : heap_grows st (save_rejection c t q st).
Proof. unfold save_rejection. destruct (c_rdrc c); by apply heap_grows_same. Qed.

Lemma finishExchange_heap now env r op m st : heap_grows st (snd (finishExchange c now env r op m st)).
Proof.
  unfold finishExchange. destruct (rejected_by _ _).
  - destruct (if accepted_rcode m then _ else _); [apply save_rejection_heap|by apply heap_grows_same].
  - destruct (applyResponseOptions _ _ _ _). cbn [snd]. destruct (if accepted_rcode m then _ else _); [|by apply heap_grows_same].
    destruct (finishCacheKey _ _ _); [apply storeCache_heap|by apply heap_grows_same].
Qed.
Lemma finish_refresh_heap now env t key message o check reply st : heap_grows st (finish_refresh c now env t key message o check reply st).
Proof.
  unfold finish_refresh. set (st1 := match exchangeToTransport message reply with inl _ => _ | inr _ => _ end).
  apply (heap_grows_trans _ st1); [|by apply heap_grows_same]. subst st1. destruct (exchangeToTransport _ _) as [m|]; [|by apply heap_grows_same].
  destruct (rejected_by _ _); [apply save_rejection_heap|]. destruct (negb _); [by apply heap_grows_same|].
  destruct (finishCacheKey _ _ _); [|by apply heap_grows_same]. destruct (applyResponseOptions _ _ _ _). apply storeCache_heap.
Qed.

Hypothesis Hconfig : config_ok c.

Lemma call_step_heap log now env reply x st x' new logged st' : Forall (log_ok now) log -> state_ok c log st -> call_ok c log now x ->
  call_step c now env reply x st = Some (x', new, logged, st') -> heap_grows st st'.
Proof.
  intros Hlog Hst Hx. destruct x as [r|allowWait r|r op cond|r op|r op|r op rs|r rs|r key message|]; cbn [call_step call_ok] in *; try done.
  - destruct Hx as [Hr _]. destruct (m_Question (r_message r)) as [|q qs] eqn:Hq; [done|]. destruct (_ || _); [intros [= _ _ _ <-]; by apply heap_grows_same|].
    destruct (questionCache_ok c Hconfig log now env r q qs st Hlog Hr Hq Hst) as (out & refresh & st1 & -> & Hl & _).
    destruct out; intros [= _ _ _ <-]; exact (ls_heap _ _ Hl).
  - destruct (beginExchange_ok c log now env r st Hx) as (b & st1 & -> & Hl & _). destruct b; intros [= _ _ _ <-]; exact (ls_heap _ _ Hl).
  - destruct (default false _); [|done]. intros [= _ _ _ <-]. by apply heap_grows_same.
  - destruct (begin_load_ok c Hconfig log now r op st Hlog Hx Hst) as (out & refresh & st1 & -> & Hl & _). destruct out; intros [= _ _ _ <-]; exact (ls_heap _ _ Hl).
  - destruct (exchangeToTransport _ _) as [m|]; [|intros [= _ _ _ <-]; by apply heap_grows_same].
    pose proof (finishExchange_heap now env r op m st) as H. destruct (finishExchange _ _ _ _ _ _ _) as [rs st1]. by intros [= _ _ _ <-].
  - intros H. injection H as _ _ _ <-. exact (ls_heap _ _ (release_less op st)).
  - intros H. injection H as _ _ _ <-. apply finish_refresh_heap.
Qed.

Lemma client_step_heap w w' : world_ok c w -> client_step c w w' -> heap_grows (cw_state w) (cw_state w').
Proof.
  intros [Ht Hl Hst Hc] Hs. destruct Hs as [now st calls log x r Hr Hx|now now' env reply st calls log i x x' new logged st' Hn Hre Hi Hx|
    now st calls log i r op cond Hi|now st calls log file Hf|now st calls log]; cbn [cw_now cw_log cw_state cw_calls] in *; try by apply heap_grows_same.
  - eapply (call_step_heap log); [|done| |exact Hx].
    + eapply Forall_impl; [exact Hl|]. intros a. apply log_ok_mono. lia.
    + rewrite <- (app_nil_r log). eapply call_ok_mono; [|eapply Forall_lookup_1; [exact Hc|exact Hi]]. lia.
  - exact (ls_heap _ _ (clear_less c st)).
Qed.
Lemma run_heap w w' : world_ok c w -> rtc (client_step c) w w' -> world_ok c w' /\ heap_grows (cw_state w) (cw_state w').
Proof.
  intros Hw Hrun. revert Hw. induction Hrun as [w|w1 w2 w3 Hs _ IH]; intros Hw; [split; [done|by apply heap_grows_same]|].
  destruct (IH (world_step c Hconfig _ _ Hs Hw)) as [H3 Hh]. split; [done|]. eapply heap_grows_trans; [by apply client_step_heap|done].
Qed.

(** ** Loading what was stored *)

Lemma aged_fresh now' e : now' <= e -> aged c now' e = Some (nowTTL e now', false).
Proof. intros H. unfold aged. by replace (e <? now') with false by lia. Qed.

(** The lifetime shown of an answer that has an expiry, and the message with it. *)
Lemma fresh_shown now now' ttl e : 0 < ttl < 2 ^ 32 -> now <= now' <= e -> expiry_ok now ttl e -> c_disableExpire c = false ->
  lifetime_shown c now ttl now' false (Some (nowTTL e now')) /\ is_u 32 (nowTTL e now').
Proof.
  intros Ht Hle He Hd. destruct (aged_shown c _ _ _ now' (nowTTL e now') false He Hd) as [Hs _]; [apply aged_fresh; lia|].
  split; [done|]. apply (shown_u32 c now ttl now' false); [done|lia|done].
Qed.

Section Stored.
Variables (now now' ttl e : Z) (key : dnsCacheKey) (m m0 : Message) (log : list answered) (st : ClientState).
Hypothesis Hcache : c_disableCache c = false.
Hypothesis Httl : 0 < ttl < 2 ^ 32.
Hypothesis Hnow : now <= now'.
Hypothesis Hlife : c_disableExpire c = false -> expiry_ok now ttl e /\ now' <= e.
Hypothesis Hst : state_ok c log st.

Definition served (m : Message) (r : res (option (Message * bool) * ClientState)) : Prop :=
  exists answers shown st', r = Ok (Some (show shown (m <| m_Answer := answers |>), false), st')
  /\ Permutation answers (m_Answer m) /\ lifetime_shown c now ttl now' false shown.

Lemma load_kept_memory ref dm : c_dnsCache c = false -> lru_lookup (st_cache st) key = Some (ref, e) -> st_heap st !! ref = Some dm ->
  wf_message (msg dm) -> served (msg dm) (loadResponse c now' key st).
Proof.
  intros Hf He Hd Hwf. unfold served, loadResponse. rewrite Hf, Hcache, He. set (st2 := st <| st_cache := _ |>).
  assert (Hcn : counters_ok dm) by (by eapply Forall_lookup_1; [exact (so_heap _ _ _ Hst)|]).
  destruct (getRoundRobin_ok c ref dm st2 Hd Hcn Hwf) as (answers & st3 & -> & _ & _ & Hp). cbn [res_bind]. destruct (c_disableExpire c) eqn:Hde.
  - exists answers, None, st3. split; [done|]. split; [done|]. unfold lifetime_shown. by rewrite Hde.
  - destruct (Hlife eq_refl) as [Hx Hle]. rewrite aged_fresh by lia. exists answers, (Some (nowTTL e now')), st3. split; [done|]. split; [done|].
    apply fresh_shown; [done|lia|done|done].
Qed.

Lemma load_kept_file raw : c_dnsCache c = true -> fst (as_LoadDNSCache (st_file st) (store_key key)) = Some (raw, e) -> Unpack raw = Some m0 ->
  key_ok (store_key key) -> served m0 (loadResponse c now' key st).
Proof.
  intros Hf Hload Hunpack Hk. unfold served, loadResponse. rewrite Hf. pose proof (Unpack_wf _ _ Hunpack) as Hwf0.
  unfold loadPersistentResponse. destruct (as_Load_law (st_file st) (store_key key) Hk) as [Hmore _].
  destruct (as_LoadDNSCache _ (store_key key)) as [x file]. cbn [fst snd] in *. subst x. rewrite Hunpack. set (st2 := st <| st_file := file |>).
  assert (Hst2 : state_ok c log st2) by (eapply state_ok_less; [by apply (less_file st)|done]).
  assert (Hrot : forall shown, lifetime_shown c now ttl now' false shown -> wf_message (show shown m0) -> exists answers shown' st',
    (if c_roundRobinCache c then let! ' (m, st) := rotate_persistent key (show shown m0) st2 in Ok (Some (m, false), st)
     else Ok (Some (show shown m0, false), st2)) = Ok (Some (show shown' (m0 <| m_Answer := answers |>), false), st')
    /\ Permutation answers (m_Answer m0) /\ lifetime_shown c now ttl now' false shown').
  { intros shown Hs Hwf. destruct (c_roundRobinCache c).
    - destruct (rotate_persistent_ok key (show shown m0) st2) as (answers & st3 & -> & _ & _ & Hp);
        [intros ref x; apply (so_index _ _ _ Hst2)|exact (so_heap _ _ _ Hst2)|done|]. cbn [res_bind]. destruct shown as [t|].
      + destruct (rotated_normalizeTTL _ _ _ Hp) as (answers' & Hp' & Heq). exists answers', (Some t), st3. split; [by cbn [show] in *; rewrite Heq|done].
      + by exists answers, None, st3.
    - exists (m_Answer m0), shown, st2. split; [|done]. by destruct m0. }
  destruct (c_disableExpire c) eqn:Hd.
  - apply (Hrot None); [|done]. unfold lifetime_shown. by rewrite Hd.
  - destruct (Hlife eq_refl) as [Hx Hle]. rewrite aged_fresh by lia.
    destruct (fresh_shown now now' ttl e) as [Hs Hu]; [done|lia|done|done|].
    apply (Hrot (Some (nowTTL e now'))); [done|]. by apply wf_normalizeTTL.
Qed.

End Stored.

(** What storing an answer leaves, while it is kept. *)
Lemma stored_served now now' key m m0 ttl log st st' :
  c_disableCache c = false -> 0 < ttl < 2 ^ 32 -> wf_message m -> key_ok (store_key key) -> cached_form m m0 ->
  heap_grows (storeCache c now key m ttl st) st' -> kept key (storeCache c now key m ttl st) st' -> state_ok c log st' ->
  now <= now' -> (c_disableExpire c = false -> now' <= now + second * ttl - 1000000) ->
  served now now' ttl m0 (loadResponse c now' key st').
Proof.
  intros Hdc Ht Hwf Hk Hform Hh Hkept Hst Hle Hlife. unfold storeCache, kept, cached_form in *. replace (ttl =? 0) with false in * by lia.
  destruct (c_dnsCache c) eqn:Hf.
  - destruct Hform as (raw & Hpack & Hunpack). rewrite Hpack in *.
    change (st_file (st <| st_file := as_SaveDNSCacheAsync (st_file st) (store_key key) raw (now + second * ttl) |>))
      with (as_SaveDNSCacheAsync (st_file st) (store_key key) raw (now + second * ttl)) in Hkept. rewrite as_Load_Save in Hkept.
    eapply load_kept_file; try done. intros Hd. specialize (Hlife Hd). unfold expiry_ok, second in *. lia.
  - rewrite Hdc in *. subst m0. set (life := if c_disableExpire c then None else _) in *.
    destruct (lru_Add_law key (length (st_heap st)) life (st_cache st)) as (e & He & Hexp).
    destruct (Hh (length (st_heap st)) (mkDnsMsg 0 0 m)) as (dm & Hd & Hm); [by apply list_lookup_middle|]. cbn [msg] in Hm. subst m.
    apply (load_kept_memory now now' ttl e key log st' Hdc Ht Hle) with (ref := length (st_heap st)); try done; [|by rewrite Hkept].
    intros Hde. specialize (Hlife Hde). unfold life in Hexp. rewrite Hde in Hexp. unfold expiry_ok, second in *. lia.
Qed.

End Again.

(** C14: an answer is served again while it is kept.  Let the transport of a query
    have answered, with a response that is accepted, has a lifetime and is cached.
    After any further steps of any calls and of the cache file, as long as the cache
    has the entry for the key (it may have been dropped, overwritten or cleared), a
    query with this key that looks it up a millisecond before the end of the lifetime or
    earlier (the precision of the expiry) is answered without being sent: with the records of the response, as its packed form has them
    if it is kept in the file, in some order, the identifier of the new query, and the
    rest of the lifetime. *)
Theorem answer_served_again {CEnv : ClientEnv} {Store : AnswerStore} c t0 file log w w' i j r op now env reply response x new logged st key ttl m m0
    now' env' reply' r' op' :
  config_ok c -> 0 <= t0 -> Forall (log_ok t0) log -> file_ok c log file -> rtc (client_step c) (client_start t0 file log) w ->
  cw_calls w !! i = Some (InFlight r op) -> cw_now w <= now < 2 ^ 62 -> reply_ok reply ->
  call_step c now env reply (InFlight r op) (cw_state w) = Some (x, new, logged, st) ->
  exchangeToTransport (op_message op) reply = inl response ->
  rejected_by (r_responseChecker r) response = false -> accepted_rcode response = true ->
  op_cacheKey op = Some key -> k_environment key = environmentHash env (r_transport r) ->
  applyResponseOptions c (op_question op) response (r_options r) = (ttl, m) -> ttl <> 0 ->
  c_disableCache c = false -> cached_form c m m0 ->
  rtc (client_step c) (mkClientWorld now st (<[i := x]> (cw_calls w) ++ new) (cw_log w ++ logged)) w' ->
  kept c key st (cw_state w') -> cw_calls w' !! j = Some (Loading r' op') -> op_cacheKey op' = Some key ->
  cw_now w' <= now' -> now <= now' -> (c_disableExpire c = false -> now' <= now + second * ttl - 1000000) ->
  exists answers shown st',
    call_step c now' env' reply' (Loading r' op') (cw_state w')
    = Some (Releasing r' op' (response_ ((show shown (m0 <| m_Answer := answers |>)) <| m_Id := m_Id (op_message op') |>)), [], [], st')
    /\ Permutation answers (m_Answer m0) /\ lifetime_shown c now ttl now' false shown.
Proof.
  intros Hc Ht0 Hl Hf Hrun Hi Hnow Hreply Hstep Hresp Hrej Hacc Hk Henv Happ Hz Hdc Hform Hrun' Hkept Hj Hk' Hw' Hle Hlife.
  pose proof (reachable_ok c Hc t0 file log w Ht0 Hl Hf Hrun) as Hw.
  assert (Hs1 : client_step c w (mkClientWorld now st (<[i := x]> (cw_calls w) ++ new) (cw_log w ++ logged))).
  { destruct w as [nw sw cw lw]. by apply (cs_step c nw now env reply sw cw lw i (InFlight r op)). }
  pose proof (world_step c Hc _ _ Hs1 Hw) as Hw1. destruct (run_heap c Hc _ _ Hw1 Hrun') as [Hw2 Hh]. cbn [cw_state] in Hh.
  pose proof (Forall_lookup_1 _ _ _ _ (wo_calls _ _ Hw) Hi) as (Hr & q & qs & Hq & Hoq & _ & Hkey). rewrite Hk in Hkey. destruct Hkey as [e ->].
  destruct (newCacheKey_ok c e r q qs Hr Hq) as [Hko _]. destruct Hr as (_ & _ & Ho).
  destruct (applyResponseOptions_wf _ _ _ _ _ _ Hc Ho (wf_exchangeToTransport _ _ _ Hreply Hresp) Happ) as (Hu & Hm & _). unfold is_u in Hu.
  cbn [call_step] in Hstep. rewrite Hresp in Hstep. unfold finishExchange in Hstep. rewrite Hrej, Hacc, Hk, Happ in Hstep.
  set (key := newCacheKey _ _ _ _ _ _) in *. unfold finishCacheKey in Hstep. rewrite <- Henv, Z.eqb_refl in Hstep. cbn [orb] in Hstep.
  replace (key <| k_environment := k_environment key |>) with key in Hstep by by destruct key. injection Hstep as _ _ _ <-.
  destruct (stored_served c now now' key m m0 ttl (cw_log w') (cw_state w) (cw_state w')) as (answers & shown & st' & Hload & Hp & Hsh); try done; [lia|apply Hw2|].
  exists answers, shown, st'. split; [|done]. cbn [call_step]. unfold begin_load. by rewrite Hk', Hload.
Qed.

(** * A client over the cache file *)

(** The cache in memory as a map that forgets nothing, and a wire format for the
    responses of an example. *)
Fixpoint example_records (l : list Z) : option (list Record_) :=
  match l with
  | [] => Some []
  | ttl :: a :: b :: c :: d :: l' =>
      if (0 <=? ttl) && (ttl <? 2 ^ 32)
      then option_map (cons (mkRecord "example.org." TypeA ClassINET ttl (Data_A [a; b; c; d]))) (example_records l') else None
  | _ => None
  end.
Definition example_Unpack (raw : list Z) : option Message :=
  match raw with
  | id :: l =>
      match example_records l with
      | Some answers => if zlen answers <? 2 ^ 16 then Some (mkMessage id true false true true RcodeSuccess [example_question] answers [] []) else None
      | None => None
      end
  | [] => None
  end.
Definition example_Pack (m : Message) : option (list Z) :=
  Some (m_Id m :: concat (map (fun r => match Hdr_Data r with Data_A a => Hdr_Ttl r :: a | _ => [] end) (m_Answer m))).

Lemma example_records_wf n : forall l records, (length l <= n)%nat -> example_records l = Some records -> Forall wf_record records.
Proof.
  induction n as [|n IH]; intros l records Hn H.
  - destruct l; [|cbn in Hn; lia]. by injection H as <-.
  - destruct l as [|ttl [|a [|b [|c [|d l]]]]]; try done; [by injection H as <-|]. cbn [example_records] in H.
    destruct (_ && _) eqn:E; [|done]. destruct (example_records l) as [rest|] eqn:Er; [|done]. injection H as <-.
    constructor; [|apply (IH l); [cbn in Hn; lia|done]]. unfold wf_record, is_u. cbn. split_and!; try done; lia.
Qed.

#[export] Instance example_env : ClientEnv.
Proof.
  refine {| LRU := gmap dnsCacheKey (nat * Z); lru_new := ∅; lru_Get _ c := c; lru_lookup c k := c !! k;
    lru_Add k v life c := <[k := (v, match life with Some (now, l) => now / 1000000 * 1000000 + l | None => 0 end)]> c;
    lru_Remove k c := delete k c; Pack := example_Pack; Unpack := example_Unpack;
    dns_IsFqdn s := HasPrefix (of_chars (rev (chars s))) "."; dns_Fqdn s := s +:+ "." |}.
  - done.
  - intros k. apply lookup_empty.
  - intros k v life c. eexists. split; [apply lookup_insert_eq|]. destruct life as [[now l]|]; [|done].
    pose proof (Z.div_mod now 1000000). pose proof (Z.mod_pos_bound now 1000000). lia.
  - intros k k' v life c x Hne. by rewrite lookup_insert_ne.
  - intros k k' c x H. by apply lookup_delete_Some in H.
  - intros raw m. destruct raw as [|id l]; [done|]. unfold example_Unpack. destruct (example_records l) as [records|] eqn:E; [|done].
    destruct (_ <? _) eqn:Hn; [|done]. intros [= <-]. unfold wf_message, all_records. cbn [m_Answer m_Ns m_Extra]. rewrite !app_nil_r.
    split; [by eapply example_records_wf|]. unfold is_u. pose proof (zlen_nonneg records). lia.
Defined.

(** ** Schedules *)

(** A new query, or a step of the query at a position. *)
Inductive event := NewCall (r : request) | CallStep (i : nat) (now : Z) (reply : Reply).
Definition event_ok (e : event) : Prop := match e with NewCall r => request_ok r | CallStep _ _ reply => reply_ok reply end.

Section Schedule.
Context {Store : AnswerStore}.
Variable c : Client.

Definition run_event (w : client_world) (e : event) : option client_world :=
  match e with
  | NewCall r => Some (w <| cw_calls := cw_calls w ++ [Called true r] |>)
  | CallStep i now reply =>
      if (cw_now w <=? now) && (now <? 2 ^ 62) then
        match cw_calls w !! i with
        | Some x =>
            match call_step c now 0 reply x (cw_state w) with
            | Some (x', new, logged, st) => Some (mkClientWorld now st (<[i := x']> (cw_calls w) ++ new) (cw_log w ++ logged))
            | None => None
            end
        | None => None
        end
      else None
  end.
Fixpoint run_events (w : client_world) (l : list event) : option client_world :=
  match l with
  | [] => Some w
  | e :: l' => match run_event w e with Some w' => run_events w' l' | None => None end
  end.

Lemma run_event_step w e w' : event_ok e -> run_event w e = Some w' -> client_step c w w'.
Proof.
  intros He. destruct w as [now st calls log]. destruct e as [r|i now' reply]; cbn [run_event cw_now cw_calls cw_state cw_log].
  - intros H. injection H as <-. apply (cs_call c now st calls log _ r); [done|by right; left].
  - destruct (_ && _) eqn:E; [|done]. destruct (calls !! i) as [x|] eqn:Hi; [|done].
    destruct (call_step c now' 0 reply x st) as [[[[x' new] logged] st']|] eqn:Hs; [|done]. intros [= <-].
    apply (cs_step c now now' 0 reply st calls log i x x' new logged st'); [lia|done..].
Qed.
Lemma run_events_rtc l : forall w w', Forall event_ok l -> run_events w l = Some w' -> rtc (client_step c) w w'.
Proof.
  induction l as [|e l IH]; intros w w' Hl H; cbn in H; [injection H as <-; apply rtc_refl|].
  apply Forall_cons in Hl as [He Hl]. destruct (run_event w e) as [w1|] eqn:E; [|done]. eapply rtc_l; [by eapply run_event_step|]. by apply IH.
Qed.

End Schedule.

(** A client that keeps its answers in the cache file. *)
Definition file_client : Client := mkClient false false (3600 * second) true 60 0 zeroPrefix true true.
Definition example_transport : DNSTransport := mkDNSTransport "google" (Some []).
Definition example_query (id : Z) : Message := mkMessage id false false true false RcodeSuccess [example_question] [] [] [].
Definition example_request (id : Z) : request := mkRequest example_transport (example_query id) example_options None None.
Definition example_file : dns_store := mkDnsStore empty_file [] [].
Definition example_t0 : Z := 1000 * second.

(** Two queries for the same name: the second waits for the first, and is answered
    from the cache a hundred seconds later. *)
Definition example_schedule : list event :=
  let reply := ReplyMessage example_message in
  [NewCall (example_request 1); CallStep 0 example_t0 reply; NewCall (example_request 2); CallStep 1 example_t0 reply;
   CallStep 0 example_t0 reply; CallStep 0 (example_t0 + second) reply; CallStep 0 (example_t0 + second) reply;
   CallStep 1 (example_t0 + 101 * second) reply; CallStep 1 (example_t0 + 101 * second) reply; CallStep 1 (example_t0 + 101 * second) reply].
Definition example_start : client_world := client_start example_t0 (Store := cache_file_store) example_file [].
Definition example_answer (id ttl : Z) (l : list Z) : Message :=
  (normalizeTTL example_message ttl) <| m_Id := id |> <| m_Answer := map (fun n => (example_a n) <| Hdr_Ttl := ttl |>) l |>.

Lemma example_request_ok id : request_ok (example_request id).
Proof. split; [split; [constructor|by vm_compute]|]. split; [|done]. apply Forall_singleton. vm_compute. split; congruence. Qed.
Lemma example_schedule_ok : Forall event_ok example_schedule.
Proof. repeat (apply Forall_cons; split; [first [apply example_request_ok|apply example_message_wf]|]). done. Qed.
Lemma file_client_ok : config_ok file_client.
Proof. split; vm_compute; split; congruence. Qed.

Lemma example_file_ok : file_ok file_client (Store := cache_file_store) [] example_file.
Proof.
  assert (Hin : forall p k, in_file empty_file p k = None) by (intros p k; unfold in_file, empty_file; cbn; unfold mem_Get; by destruct (mem_Bucket _ _)).
  split.
  - intros k x _ [(en & [Hp|Hfl] & _)|(y & Hy & _)]; [done|by apply elem_of_nil in Hfl|]. unfold content in Hy. cbn [ds_file example_file] in Hy. by rewrite Hin in Hy.
  - intros k _ [Hr|[Hr|Hr]]; [by apply elem_of_empty in Hr|by apply elem_of_nil in Hr|]. unfold rdrc_content in Hr. cbn [ds_file example_file] in Hr. by rewrite Hin in Hr.
Qed.

Lemma example_results : option_map cw_calls (run_events (Store := cache_file_store) file_client example_start example_schedule)
  = Some [Returned (example_request 1) (response_ (example_answer 1 300 [1; 2; 3])); Returned (example_request 2) (response_ (example_answer 2 200 [3; 1; 2]))].
Proof. vm_compute. reflexivity. Qed.

Lemma example_schedule_run : exists w, rtc (client_step (Store := cache_file_store) file_client) example_start w
  /\ cw_calls w = [Returned (example_request 1) (response_ (example_answer 1 300 [1; 2; 3])); Returned (example_request 2) (response_ (example_answer 2 200 [3; 1; 2]))].
Proof.
  pose proof example_results as H. destruct (run_events file_client example_start example_schedule) as [w|] eqn:E; [|done].
  exists w. split; [eapply run_events_rtc; [apply example_schedule_ok|exact E]|]. cbn [option_map] in H. by injection H.
Qed.

Lemma query_results_sourced_witness : exists w,
  rtc (client_step (Store := cache_file_store) file_client) example_start w
  /\ sourced file_client (cw_log w) (cw_now w) (example_request 2) (response_ (example_answer 2 200 [3; 1; 2])).
Proof.
  destruct example_schedule_run as (w & Hrun & Hcalls). exists w. split; [exact Hrun|].
  apply (query_results_sourced (Store := cache_file_store) file_client example_t0 example_file [] w (example_request 2) _ file_client_ok ltac:(by vm_compute) (List.Forall_nil _) example_file_ok Hrun).
  rewrite Hcalls. right. by left.
Defined.

Lemma queries_never_panic_witness : exists w,
  rtc (client_step (Store := cache_file_store) file_client) example_start w
  /\ forall key ref e, lru_lookup (st_cache (cw_state w)) key = Some (ref, e) -> exists dm, st_heap (cw_state w) !! ref = Some dm /\ counters_ok dm /\ wf_message (msg dm).
Proof.
  destruct example_schedule_run as (w & Hrun & _). exists w. split; [exact Hrun|].
  apply (queries_never_panic (Store := cache_file_store) file_client example_t0 example_file [] w file_client_ok ltac:(by vm_compute) (List.Forall_nil _) example_file_ok Hrun).
Defined.

Lemma queries_end_witness : exists w,
  rtc (client_step (Store := cache_file_store) file_client) example_start w
  /\ forall n w', nsteps (own_step (Store := cache_file_store) file_client) n w w' -> (n <= 0)%nat.
Proof.
  destruct example_schedule_run as (w & Hrun & Hcalls). exists w. split; [exact Hrun|].
  destruct (queries_end (Store := cache_file_store) file_client example_t0 example_file [] w file_client_ok ltac:(by vm_compute) (List.Forall_nil _) example_file_ok Hrun) as (_ & _ & H & _).
  intros n w' Hn. specialize (H n w' Hn). rewrite Hcalls in H. exact H.
Defined.

(** A client that keeps its answers in memory, which gets the same schedule up to the
    answer for the first query, and after it. *)
Definition memory_client : Client := example_client <| c_optimisticTimeout := 3600 * second |>.
Definition example_cache_key : dnsCacheKey := newCacheKey memory_client 0 example_transport example_question (example_query 1) example_options.
Definition example_op (id : Z) (cond : option (dnsCacheKey * nat)) : exchangeOperation :=
  mkOperation (example_query id) example_question (Some example_cache_key) cond.
Definition run_from (w : client_world) (l : list event) : client_world := default w (run_events (Store := cache_file_store) memory_client w l).
Definition answering_world : client_world := run_from example_start (take 5 example_schedule).
Definition answering_step : call * list call * list answered * ClientState :=
  default (Refreshed, [], [], cw_state answering_world)
    (call_step (Store := cache_file_store) memory_client (example_t0 + second) 0 (ReplyMessage example_message)
       (InFlight (example_request 1) (example_op 1 (Some (example_cache_key, 0%nat)))) (cw_state answering_world)).
Definition answered_world : client_world :=
  let '(x, new, logged, st) := answering_step in
  mkClientWorld (example_t0 + second) st (<[0%nat := x]> (cw_calls answering_world) ++ new) (cw_log answering_world ++ logged).
Definition asking_world : client_world := run_from answered_world (take 2 (drop 6 example_schedule)).

Definition succeeds {A} (o : option A) : bool := match o with Some _ => true | None => false end.
Lemma run_from_rtc w l : Forall event_ok l -> succeeds (run_events (Store := cache_file_store) memory_client w l) = true ->
  rtc (client_step (Store := cache_file_store) memory_client) w (run_from w l).
Proof. intros Hl H. unfold run_from. destruct (run_events _ _ _) as [w'|] eqn:E; [|done]. by eapply run_events_rtc. Qed.
Lemma succeeds_default {A} (d : A) o : succeeds o = true -> o = Some (default d o).
Proof. by destruct o. Qed.

Lemma answer_served_again_witness : exists answers shown st',
  call_step (Store := cache_file_store) memory_client (example_t0 + 101 * second) 0 (ReplyError ErrContext) (Loading (example_request 2) (example_op 2 None)) (cw_state asking_world)
  = Some (Releasing (example_request 2) (example_op 2 None) (response_ ((show shown (example_message <| m_Answer := answers |>)) <| m_Id := 2 |>)), [], [], st')
  /\ Permutation answers (m_Answer example_message) /\ lifetime_shown memory_client (example_t0 + second) 300 (example_t0 + 101 * second) false shown.
Proof.
  assert (Hc : config_ok memory_client) by (split; vm_compute; split; congruence).
  assert (Hf : file_ok memory_client (Store := cache_file_store) [] example_file) by exact example_file_ok.
  assert (Hrun : rtc (client_step (Store := cache_file_store) memory_client) answered_world asking_world).
  { apply run_from_rtc; [apply Forall_take, Forall_drop, example_schedule_ok|vm_compute; reflexivity]. }
  assert (Hkept : kept (Store := cache_file_store) memory_client example_cache_key (cw_state answered_world) (cw_state asking_world)) by (vm_compute; reflexivity).
  unfold answered_world in Hrun, Hkept.
  pose proof (succeeds_default (Refreshed, [], [], cw_state answering_world)
    (call_step (Store := cache_file_store) memory_client (example_t0 + second) 0 (ReplyMessage example_message)
       (InFlight (example_request 1) (example_op 1 (Some (example_cache_key, 0%nat)))) (cw_state answering_world)) ltac:(vm_compute; reflexivity)) as Hstep.
  fold answering_step in Hstep. destruct answering_step as [[[x new] logged] st].
  refine (answer_served_again (Store := cache_file_store) memory_client example_t0 example_file [] answering_world asking_world 0 1
    (example_request 1) (example_op 1 (Some (example_cache_key, 0%nat))) (example_t0 + second) 0 (ReplyMessage example_message) example_message
    x new logged st example_cache_key 300 example_message example_message
    (example_t0 + 101 * second) 0 (ReplyError ErrContext) (example_request 2) (example_op 2 None)
    Hc _ (List.Forall_nil _) Hf _ _ _ example_message_wf Hstep _ _ _ _ _ _ _ _ _ Hrun Hkept _ _ _ _ _).
  - vm_compute. discriminate.
  - apply run_from_rtc; [apply Forall_take, example_schedule_ok|vm_compute; reflexivity].
  - vm_compute. reflexivity.
  - split; [vm_compute; discriminate|vm_compute; reflexivity].
  - reflexivity.
  - reflexivity.
  - reflexivity.
  - reflexivity.
  - reflexivity.
  - vm_compute. reflexivity.
  - done.
  - reflexivity.
  - reflexivity.
  - vm_compute. reflexivity.
  - reflexivity.
  - vm_compute. discriminate.
  - vm_compute. discriminate.
  - intros _. vm_compute. discriminate.
Defined.
