(* ===== verification/NetConn.v ===== *)
(** A connection that is written to, whose operations may fail. *)

From S2P Require Import Prelude.

(** What happens to an operation: it fails after some bytes were sent, or succeeds.
    [n_outcomes] lists what is to come; operations after its end succeed.  [n_sent]
    has what reached the connection, write by write. *)
Record net_conn := mkNetConn {
  n_outcomes : list (option (nat * error));
  n_sent : list (list Z);
}.

Definition next_outcome (n : net_conn) : option (nat * error) * net_conn :=
  match n_outcomes n with
  | [] => (None, n)
  | o :: l => (o, n <| n_outcomes := l |>)
  end.

(** [Write] of a connection, and an operation that sends nothing. *)
Definition conn_Write (payload : list Z) (n : net_conn) : option error * net_conn :=
  match next_outcome n with
  | (None, n) => (None, n <| n_sent := n_sent n ++ [payload] |>)
  | (Some (k, err), n) => (Some err, n <| n_sent := n_sent n ++ [take k payload] |>)
  end.
Definition conn_op (n : net_conn) : option error * net_conn :=
  match next_outcome n with (None, n) => (None, n) | (Some (_, err), n) => (Some err, n) end.

(** A sequence of operations that ends at the first error. *)
Definition conn_seq (f g : net_conn -> option error * net_conn) (n : net_conn) : option error * net_conn :=
  match f n with (None, n) => g n | r => r end.
Definition conn_skip (n : net_conn) : option error * net_conn := (None, n).

(** * What was sent *)

(** An operation sends all of [outs], write by write, or fails after a part of it. *)
Definition sends (outs : list (list Z)) (n : net_conn) (r : option error * net_conn) : Prop :=
  exists more, n_sent (snd r) = n_sent n ++ more /\ concat more `prefix_of` concat outs /\ (fst r = None -> more = outs).

Lemma sends_nil n : sends [] n (None, n).
Proof. exists []. by rewrite app_nil_r. Qed.
Lemma sends_write p n : sends [p] n (conn_Write p n).
Proof.
  unfold conn_Write, next_outcome. destruct (n_outcomes n) as [|[[k e]|] l].
  - by exists [p].
  - exists [take k p]. cbn. rewrite !app_nil_r. split; [done|]. split; [|done]. exists (drop k p). by rewrite take_drop.
  - by exists [p].
Qed.
Lemma sends_op n : sends [] n (conn_op n).
Proof. unfold conn_op, next_outcome. destruct (n_outcomes n) as [|[[k e]|] l]; exists []; by rewrite app_nil_r. Qed.

Lemma sends_then outs outs' n n1 r : sends outs n (None, n1) -> sends outs' n1 r -> sends (outs ++ outs') n r.
Proof.
  intros (more & Hs & _ & Hn) (more' & Hs' & Hp' & Hn'). cbn [fst snd] in *. rewrite (Hn eq_refl) in Hs.
  exists (outs ++ more'). rewrite Hs', Hs, <- app_assoc, !concat_app. split; [done|].
  split; [by apply prefix_app|]. intros H. by rewrite (Hn' H).
Qed.
Lemma sends_fail outs outs' n e n1 : sends outs n (Some e, n1) -> sends (outs ++ outs') n (Some e, n1).
Proof. intros (more & Hs & Hp & _). exists more. split; [done|]. split; [|done]. rewrite concat_app. by apply prefix_app_r. Qed.
Lemma sends_seq outs outs' n f g : sends outs n (f n) -> (forall n', sends outs' n' (g n')) -> sends (outs ++ outs') n (conn_seq f g n).
Proof.
  intros Hf Hg. unfold conn_seq. destruct (f n) as [[e|] n1]; [by apply sends_fail|]. eapply sends_then; [exact Hf|]. apply Hg.
Qed.
