(* ===== verification/TLSFragment.v ===== *)
(** Fragmentation of client hellos: src/common/tlsfragment/index.go, which finds the
    server name in a TLS record, and conn.go, which cuts the record there when it is
    written.  The constants of index.go are those of src/common/ja3 ([Ja3]). *)

From S2P Require Import Prelude GoStrings NetConn Ja3.

(** * Where the server name is *)

Record MyServerName := mkServerName {
  sn_Index : Z;
  sn_Length : Z;
  sn_ServerName : list Z;
  sn_ExtensionsListLengthIndex : Z;
}.

(** [for currentIndex := extensionsHeaderLen; len(exs) > 0;]; the sum [4+exLen] is one
    of 16-bit numbers. *)
Fixpoint fromExtensions_loop (fuel : nat) (currentIndex : Z) (exs : list Z) : res (option MyServerName) :=
  if 0 <? zlen exs then
    match fuel with
    | O => OutOfFuel
    | S fuel' =>
        if zlen exs <? extensionHeaderLen then Ok None else
        let! exType := uint16_at exs 0 in
        let! exLen := uint16_at exs 2 in
        if zlen exs <? extensionHeaderLen + exLen then Ok None else
        let! sex := slice exs extensionHeaderLen (extensionHeaderLen + exLen) in
        if exType =? sniExtensionType then
          if zlen sex <? sniExtensionHeaderLen then Ok None else
          let! sniType := index sex 2 in
          if negb (sniType =? 0) then Ok None else
          let! sniLen := uint16_at sex 3 in
          let! sex := slice_from sex sniExtensionHeaderLen in
          Ok (Some (mkServerName (currentIndex + extensionHeaderLen + sniExtensionHeaderLen) sniLen sex 0))
        else
          let! exs := slice_from exs (u16 (4 + exLen)) in
          fromExtensions_loop fuel' (currentIndex + (4 + exLen)) exs
    end
  else Ok None.

Definition indexTLSServerNameFromExtensions (exs : list Z) : res (option MyServerName) :=
  if zlen exs =? 0 then Ok None else
  if zlen exs <? extensionsHeaderLen then Ok None else
  let! exsLen := uint16_at exs 0 in
  let! exs := slice_from exs extensionsHeaderLen in
  if zlen exs <? exsLen then Ok None else
  fromExtensions_loop (length exs) extensionsHeaderLen exs.

Definition indexTLSServerNameFromHandshake (handshake : list Z) : res (option MyServerName) :=
  let prefix := handshakeHeaderLen + randomDataLen + sessionIDHeaderLen in
  if zlen handshake <? prefix then Ok None else
  let! handshakeType := index handshake 0 in
  if negb (handshakeType =? 1) then Ok None else
  let! b1 := index handshake 1 in let! b2 := index handshake 2 in let! b3 := index handshake 3 in
  let handshakeLen := Z.lor (Z.lor (Z.shiftl b1 16) (Z.shiftl b2 8)) b3 in
  let! body := slice_from handshake 4 in
  if negb (zlen body =? handshakeLen) then Ok None else
  let! tlsVersion := uint16_at handshake 4 in
  if negb (supported_version tlsVersion) then Ok None else
  let! sessionIDLen := index handshake 38 in
  let currentIndex := prefix + sessionIDLen in
  if zlen handshake <? currentIndex then Ok None else
  let! cipherSuites := slice_from handshake currentIndex in
  if zlen cipherSuites <? cipherSuiteHeaderLen then Ok None else
  let! csLen := uint16_at cipherSuites 0 in
  if zlen cipherSuites <? cipherSuiteHeaderLen + csLen + compressMethodHeaderLen then Ok None else
  let! compressMethodLen := index cipherSuites (cipherSuiteHeaderLen + csLen) in
  let currentIndex := currentIndex + (cipherSuiteHeaderLen + csLen + compressMethodHeaderLen + compressMethodLen) in
  if zlen handshake <? currentIndex then Ok None else
  let! exs := slice_from handshake currentIndex in
  let! serverName := indexTLSServerNameFromExtensions exs in
  Ok (option_map (fun s => s <| sn_Index := sn_Index s + currentIndex |> <| sn_ExtensionsListLengthIndex := currentIndex |>) serverName).

Definition IndexTLSServerName (payload : list Z) : res (option MyServerName) :=
  if zlen payload <? recordLayerHeaderLen then Ok None else
  let! contentType := index payload 0 in
  if negb (contentType =? 22) then Ok None else
  let! segmentLen := uint16_at payload 3 in
  if zlen payload <? recordLayerHeaderLen + segmentLen then Ok None else
  let! handshake := slice_from payload recordLayerHeaderLen in
  let! serverName := indexTLSServerNameFromHandshake handshake in
  Ok (option_map (fun s => s <| sn_Index := sn_Index s + recordLayerHeaderLen |>
                             <| sn_ExtensionsListLengthIndex := sn_ExtensionsListLengthIndex s + recordLayerHeaderLen |>) serverName).

(** * The connection *)

Record Conn := mkConn {
  c_Conn : net_conn;
  c_tcpConn : bool;
  c_firstPacketWritten : bool;
  c_splitPacket : bool;
  c_splitRecord : bool;
}.

(** A write, then waiting for the acknowledgement, which may fail and differs by
    system.  [c.tcpConn] is the TCP connection under [c.Conn] when that hands data on
    unchanged, so that both are one [net_conn] here. *)
Definition writeAndWaitAck (payload : list Z) : net_conn -> option error * net_conn := conn_seq (conn_Write payload) conn_op.

(** ** Where to cut *)

Section Fragment.
(** [publicsuffix.List.PublicSuffix] of golang.org/x/net, and what math/rand draws
    for each part of the name. *)
Context (PublicSuffix : string -> string) (rand : nat -> Z).

(** [rand.Intn] *)
Definition Intn (r n : Z) : res Z := if n <=? 0 then Panic "invalid argument to Intn" else Ok (r mod n).

Definition Count_dots (s : string) : Z := zlen (List.filter (fun c => bool_decide (c = "."%char)) (chars s)).

(** The parts of the name to cut, and the position of the first. *)
Definition name_splits (serverName : string) (currentIndex : Z) : res (list string * Z) :=
  let splits := Split serverName "."%char in
  let! splits := if negb (bool_decide (PublicSuffix serverName = ""))
                 then slice splits 0 (zlen splits - Count_dots serverName) else Ok splits in
  match splits with
  | s :: (_ :: _) as rest =>
      if bool_decide (s = "...") then Ok (rest, currentIndex + Z.of_nat (String.length s) + 1) else Ok (splits, currentIndex)
  | _ => Ok (splits, currentIndex)
  end.

Fixpoint split_indexes (i : nat) (splits : list string) (currentIndex : Z) : res (list Z) :=
  match splits with
  | [] => Ok []
  | split :: splits' =>
      let! splitAt := Intn (rand i) (Z.of_nat (String.length split)) in
      let currentIndex' := currentIndex + Z.of_nat (String.length split) in
      let! l := split_indexes (S i) splits' (if nonempty splits' then currentIndex' + 1 else currentIndex') in
      Ok (currentIndex + splitAt :: l)
  end.

(** The payload of round [i] of the loop that writes. *)
Definition fragment (splitRecord : bool) (b : list Z) (splitIndexes : list Z) (i : nat) : res (list Z) :=
  let n := length splitIndexes in
  if (i =? 0)%nat then
    let! j := index splitIndexes 0 in
    let! payload := slice b 0 j in
    if splitRecord then slice_from payload recordLayerHeaderLen else Ok payload
  else if (i =? n)%nat then
    let! j := index splitIndexes (Z.of_nat i - 1) in slice_from b j
  else
    let! j := index splitIndexes (Z.of_nat i - 1) in let! k := index splitIndexes (Z.of_nat i) in slice b j k.

Definition record (b payload : list Z) : res (list Z) :=
  let! header := slice b 0 3 in Ok (header ++ be_split 2 (u16 (zlen payload)) ++ payload).

(** Rounds [i], ... of the loop; [buffer] collects the records that are not written
    one by one. *)
Fixpoint write_loop (c : Conn) (rounds i : nat) (b : list Z) (splitIndexes : list Z) (buffer : list Z) (n : net_conn)
    : res (option error * list Z * net_conn) :=
  match rounds with
  | O => Ok (None, buffer, n)
  | S rounds' =>
      let! payload := fragment (c_splitRecord c) b splitIndexes i in
      let! ' (payload, buffer) :=
        if c_splitRecord c then
          let! r := record b payload in
          if c_splitPacket c then Ok (r, r) else Ok (payload, buffer ++ r)
        else Ok (payload, buffer) in
      let last := (i =? length splitIndexes)%nat in
      let '(err, n) :=
        if c_splitPacket c then
          if c_tcpConn c && negb last then writeAndWaitAck payload n else conn_Write payload n
        else (None, n) in
      match err with
      | Some _ => Ok (err, buffer, n)
      | None => write_loop c rounds' (S i) b splitIndexes buffer n
      end
  end.

(** The cuts and writes of a packet with a server name. *)
Definition write_fragments (b : list Z) (s : MyServerName) (c : Conn) : res (option error * net_conn) :=
  match (if c_splitPacket c && c_tcpConn c then conn_op (c_Conn c) else (None, c_Conn c)) with
  | (Some err, n) => Ok (Some err, n)
  | (None, n) =>
      let! ' (splits, currentIndex) := name_splits (string_of_bytes (sn_ServerName s)) (sn_Index s) in
      let! splitIndexes := split_indexes 0 splits currentIndex in
      let! ' (err, buffer, n) := write_loop c (S (length splitIndexes)) 0 b splitIndexes [] n in
      match err with
      | Some _ => Ok (err, n)
      | None =>
          Ok (conn_seq (if c_splitRecord c && negb (c_splitPacket c) then conn_Write buffer else conn_skip)
                       (if c_tcpConn c then conn_op else conn_skip) n)
      end
  end.

(** [Write]: the error if there is one; the number of bytes is that of [b] else. *)
Definition Conn_Write (b : list Z) (c : Conn) : res (option error * Conn) :=
  if c_firstPacketWritten c then let '(err, n) := conn_Write b (c_Conn c) in Ok (err, c <| c_Conn := n |>) else
  let! serverName := IndexTLSServerName b in
  let! ' (err, n) := match serverName with None => Ok (conn_Write b (c_Conn c)) | Some s => write_fragments b s c end in
  Ok (err, c <| c_Conn := n |> <| c_firstPacketWritten := true |>).

End Fragment.
