(* ===== verification/TLSFragmentProofs.v ===== *)
(** What the fragmentation of client hellos does: the server name is found where it
    is, and what is written piece by piece is read as the same data. *)

From S2P Require Import Prelude GoStrings Ja3 Ja3Proofs TLSFragment.

(** * Where the server name is *)

(** The name is at its index; [lo] bytes come before at least. *)
Definition located (lo : Z) (l : list Z) (s : MyServerName) : Prop :=
  exists pre post, l = pre ++ sn_ServerName s ++ post /\ sn_Index s = zlen pre /\ lo <= zlen pre.
Definition found (lo : Z) (l : list Z) (r : res (option MyServerName)) : Prop :=
  exists o, r = Ok o /\ match o with Some s => located lo l s | None => True end.

Lemma found_none lo l : found lo l (Ok None).
Proof. by exists None. Qed.
#[local] Hint Resolve found_none : go.

(** A name found in a part of the data, whose position is added to the index. *)
Lemma found_shift lo lo' a l f r : found lo l r ->
  (forall s, sn_Index (f s) = sn_Index s + zlen a /\ sn_ServerName (f s) = sn_ServerName s) -> lo' <= lo + zlen a ->
  found lo' (a ++ l) (let! s := r in Ok (option_map f s)).
Proof.
  intros (o & -> & Ho) Hf Hle. exists (option_map f o). split; [done|]. destruct o as [s|]; [|done]. cbn.
  destruct Ho as (pre & post & -> & Hi & Hlo), (Hf s) as [Hi' Hs]. exists (a ++ pre), post. rewrite Hs, Hi', Hi.
  split; [by rewrite <- app_assoc|]. zlen_solve.
Qed.

(** The first four bytes of an extension, and its data. *)
Lemma extension_split exs : Forall is_byte exs -> 4 <= zlen exs -> exists t n l, exs = be_split 2 t ++ be_split 2 n ++ l /\ is_u 16 t /\ is_u 16 n.
Proof.
  intros Hb Hn. destruct exs as [|x0 [|x1 [|y0 [|y1 l]]]]; try (unfold zlen in Hn; cbn in Hn; lia).
  apply Forall_cons in Hb as [Hx0 Hb]. apply Forall_cons in Hb as [Hx1 Hb].
  apply Forall_cons in Hb as [Hy0 Hb]. apply Forall_cons in Hb as [Hy1 Hb].
  exists (x0 * 256 + x1), (y0 * 256 + y1), l. rewrite <- !two_bytes by done. unfold is_u in *. split; [done|lia].
Qed.

Lemma take_part (l : list Z) n : 0 <= n <= zlen l -> exists a b, l = a ++ b /\ zlen a = n.
Proof.
  intros H. exists (take (Z.to_nat n) l), (drop (Z.to_nat n) l). rewrite take_drop. split; [done|].
  unfold zlen in *. rewrite length_take. lia.
Qed.

Lemma found_extensions_loop fuel : forall cur exs, Forall is_byte exs -> zlen exs < 2 ^ 16 -> (length exs <= fuel)%nat ->
  forall a, zlen a = cur -> found (cur + 9) (a ++ exs) (fromExtensions_loop fuel cur exs).
Proof.
  induction fuel as [|fuel IH]; intros cur exs Hb Hn Hf a Ha; cbn [fromExtensions_loop].
  { destruct exs; [|cbn in Hf; lia]. auto with go. }
  destruct (0 <? zlen exs); [|auto with go]. unfold extensionHeaderLen. destruct (zlen exs <? 4) eqn:E4; [auto with go|]. bsimpl.
  destruct (extension_split exs Hb E4) as (t & n & l & -> & Ht & Hm).
  rewrite (uint16_at_at _ [] t (be_split 2 n ++ l)) by at_pos. cbn [res_bind].
  rewrite (uint16_at_at _ (be_split 2 t) n l) by at_pos. cbn [res_bind].
  destruct (_ <? 4 + n) eqn:E; [auto with go|]. bsimpl.
  destruct (take_part l n) as (sex & post & -> & Hsex); [zlen_solve|].
  rewrite (slice_at _ (be_split 2 t ++ be_split 2 n) sex post) by at_pos. cbn [res_bind].
  apply Forall_app in Hb as [_ Hb]. apply Forall_app in Hb as [_ Hb]. apply Forall_app in Hb as [Hbs Hbp].
  destruct (t =? sniExtensionType) eqn:Et.
  - unfold sniExtensionHeaderLen. destruct (zlen sex <? 5) eqn:E5; [auto with go|]. bsimpl.
    destruct (index_safe sex 2) as (x & -> & _); [lia|]. cbn [res_bind]. destruct (negb _); [auto with go|].
    destruct (uint16_at_safe sex 3 Hbs) as (k & -> & _); [lia|lia|]. cbn [res_bind].
    destruct (slice_from_safe sex 5) as (h & name & -> & Hh & ->); [lia|]. cbn [res_bind].
    eexists. split; [done|]. exists (a ++ be_split 2 t ++ be_split 2 n ++ h), post. cbn [sn_ServerName sn_Index].
    split; [by rewrite <- !app_assoc|]. zlen_solve.
  - rewrite (slice_from_at _ (be_split 2 t ++ be_split 2 n ++ sex) post); [|at_pos|rewrite wrap_small; zlen_solve]. cbn [res_bind].
    rewrite !length_app, !be_split_length in Hf.
    destruct (IH (cur + (4 + n)) post Hbp ltac:(zlen_solve) ltac:(lia) (a ++ be_split 2 t ++ be_split 2 n ++ sex)) as (o & -> & Ho); [zlen_solve|].
    exists o. split; [done|]. destruct o as [s|]; [|done]. destruct Ho as (pre & p & Hl & Hi & Hlo). exists pre, p.
    split; [by rewrite <- Hl, <- !app_assoc|]. unfold is_u in Hm. lia.
Qed.

Lemma found_extensions exs : Forall is_byte exs -> zlen exs < 2 ^ 16 -> found 9 exs (indexTLSServerNameFromExtensions exs).
Proof.
  intros Hb Hn. unfold indexTLSServerNameFromExtensions, extensionsHeaderLen.
  destruct (_ =? _); [auto with go|]. destruct (_ <? _) eqn:E; [auto with go|]. bsimpl.
  destruct (uint16_at_safe exs 0 Hb) as (n & -> & _); [lia|lia|]. cbn [res_bind].
  destruct (slice_from_safe exs 2) as (a & b & -> & Ha & ->); [lia|]. cbn [res_bind]. apply Forall_app in Hb as [_ Hb].
  destruct (_ <? n); [auto with go|]. destruct (found_extensions_loop (length b) 2 b Hb ltac:(zlen_solve) ltac:(lia) a Ha) as (o & -> & Ho).
  exists o. split; [done|]. destruct o as [s|]; [|done]. destruct Ho as (pre & p & Hl & Hi & Hlo). exists pre, p. split; [done|lia].
Qed.

Lemma found_handshake hs : Forall is_byte hs -> zlen hs < 2 ^ 16 -> found 9 hs (indexTLSServerNameFromHandshake hs).
Proof.
  intros Hb Hn. unfold indexTLSServerNameFromHandshake, handshakeHeaderLen, randomDataLen, sessionIDHeaderLen. cbv zeta.
  destruct (_ <? _) eqn:E; [auto with go|]. bsimpl.
  destruct (index_safe hs 0) as (x0 & -> & _); [lia|]. cbn [res_bind]. destruct (negb _); [auto with go|].
  destruct (index_safe hs 1) as (x1 & -> & _); [lia|]. destruct (index_safe hs 2) as (x2 & -> & _); [lia|].
  destruct (index_safe hs 3) as (x3 & -> & _); [lia|]. cbn [res_bind].
  destruct (slice_from_safe hs 4) as (? & ? & _ & _ & ->); [lia|]. cbn [res_bind]. destruct (negb _); [auto with go|].
  destruct (uint16_at_safe hs 4 Hb) as (v & -> & _); [lia|lia|]. cbn [res_bind]. destruct (negb _); [auto with go|].
  destruct (index_safe hs 38) as (s & -> & Hs); [lia|]. cbn [res_bind]. apply (is_byte_nonneg hs) in Hs; [|done].
  destruct (_ <? _) eqn:E2; [auto with go|]. bsimpl.
  destruct (slice_from_safe hs (6 + 32 + 1 + s)) as (a & cs & Hcs & Ha & ->); [lia|]. cbn [res_bind].
  assert (Hbc : Forall is_byte cs) by (rewrite Hcs in Hb; by apply Forall_app in Hb as [_ ?]).
  unfold cipherSuiteHeaderLen, compressMethodHeaderLen. destruct (_ <? _) eqn:E3; [auto with go|]. bsimpl.
  destruct (uint16_at_safe cs 0 Hbc) as (n & -> & Hm); [lia|lia|]. cbn [res_bind]. unfold is_u in Hm.
  destruct (zlen cs <? 2 + n + 1) eqn:E4; [auto with go|]. bsimpl.
  destruct (index_safe cs (2 + n)) as (k & -> & Hk); [lia|]. cbn [res_bind]. apply (is_byte_nonneg cs) in Hk; [|done].
  destruct (_ <? _) eqn:E5; [auto with go|]. bsimpl.
  destruct (slice_from_safe hs (6 + 32 + 1 + s + (2 + n + 1 + k))) as (p & exs & Hp & Hpl & ->); [lia|]. cbn [res_bind].
  rewrite Hp in *. apply Forall_app in Hb as [_ Hb]. eapply found_shift; [apply found_extensions; [done|zlen_solve]| |zlen_solve].
  intros o. split; [|done]. etransitivity; [exact (eq_refl (sn_Index o + (6 + 32 + 1 + s + (2 + n + 1 + k))))|lia].
Qed.

Lemma found_record b : Forall is_byte b -> zlen b < 2 ^ 16 -> found 14 b (IndexTLSServerName b).
Proof.
  intros Hb Hn. unfold IndexTLSServerName, recordLayerHeaderLen. destruct (_ <? _) eqn:E; [auto with go|]. bsimpl.
  destruct (index_safe b 0) as (x & -> & _); [lia|]. cbn [res_bind]. destruct (negb _); [auto with go|].
  destruct (uint16_at_safe b 3 Hb) as (n & -> & _); [lia|lia|]. cbn [res_bind]. destruct (_ <? _); [auto with go|].
  destruct (slice_from_safe b 5) as (a & hs & -> & Ha & ->); [lia|]. cbn [res_bind]. apply Forall_app in Hb as [_ Hb].
  eapply found_shift; [apply found_handshake; [done|zlen_solve]| |lia]. intros s. split; [|done]. etransitivity; [exact (eq_refl (sn_Index s + 5))|lia].
Qed.

(** * A client hello as written *)

Lemma extensions_loop_at before name after : Forall extension_fits before -> Forall (fun e => extension_type e <> 0) before ->
  extension_fits (ServerName name) -> forall fuel cur,
  let exs := concat (map encode_extension (before ++ ServerName name :: after)) in
  (length exs <= fuel)%nat -> exists i, fromExtensions_loop fuel cur exs = Ok (Some (mkServerName i (zlen name) name 0)).
Proof.
  intros Hb Ht Hn. induction before as [|e es IH]; intros fuel cur exs Hf; unfold exs in *; cbn [app map concat] in *.
  - destruct Hn as [Hn _]. unfold encode_extension at 1 in Hf. rewrite !length_app, !be_split_length in Hf. destruct fuel as [|fuel]; [lia|].
    cbn [fromExtensions_loop]. set (rest := concat _). rewrite (proj2 (Z.ltb_lt _ _)) by (unfold encode_extension; zlen_solve).
    unfold encode_extension, extensionHeaderLen. set (body := extension_body (ServerName name)) in *. len_ok.
    rewrite (uint16_at_at _ [] 0 (be_split 2 (zlen body) ++ body ++ rest)) by at_pos. cbn [res_bind].
    rewrite (uint16_at_at _ (be_split 2 0) (zlen body) (body ++ rest)) by at_pos. cbn [res_bind]. len_ok.
    rewrite (slice_at _ (be_split 2 0 ++ be_split 2 (zlen body)) body rest) by at_pos. cbn [res_bind].
    change (0 =? sniExtensionType) with true. unfold sniExtensionHeaderLen, body, extension_body in *. len_ok.
    rewrite (index_at _ (be_split 2 (3 + zlen name)) 0 (be_split 2 (zlen name) ++ name)) by at_pos. cbn [res_bind negb Z.eqb].
    rewrite (uint16_at_at _ (be_split 2 (3 + zlen name) ++ [0]) (zlen name) name) by at_pos. cbn [res_bind].
    rewrite (slice_from_at _ (be_split 2 (3 + zlen name) ++ [0] ++ be_split 2 (zlen name)) name) by at_pos. by eexists.
  - apply Forall_cons in Hb as [He Hb]. apply Forall_cons in Ht as [Ht0 Ht]. pose proof (extension_type_u16 e He) as Hu. destruct He as [He _].
    set (rest := concat (map encode_extension (es ++ _))) in *.
    assert (Hlen : zlen (encode_extension e) = 4 + zlen (extension_body e)) by (unfold encode_extension; zlen_solve).
    rewrite length_app in Hf. destruct fuel as [|fuel]; [unfold zlen in Hlen; lia|]. cbn [fromExtensions_loop].
    rewrite (proj2 (Z.ltb_lt _ _)) by zlen_solve. unfold extensionHeaderLen. len_ok. unfold encode_extension at 1 2 3 4.
    rewrite (uint16_at_at _ [] (extension_type e) (be_split 2 (zlen (extension_body e)) ++ extension_body e ++ rest)) by at_pos. cbn [res_bind].
    rewrite (uint16_at_at _ (be_split 2 (extension_type e)) (zlen (extension_body e)) (extension_body e ++ rest)) by at_pos. cbn [res_bind].
    len_ok. rewrite (slice_at _ (be_split 2 (extension_type e) ++ be_split 2 (zlen (extension_body e))) (extension_body e) rest) by at_pos.
    cbn [res_bind]. unfold sniExtensionType. rewrite (proj2 (Z.eqb_neq _ _)) by done.
    rewrite (slice_from_at _ (encode_extension e) rest); [|done|rewrite wrap_small; zlen_solve]. cbn [res_bind].
    apply IH; [done|done|]. unfold zlen in Hlen. lia.
Qed.

Section Hello.
Variables (h : hello) (before after : list hello_extension) (name : list Z).
Hypothesis Hfit : hello_fits h.
Hypothesis Hext : h_extensions h = before ++ ServerName name :: after.
Hypothesis Hfirst : Forall (fun e => extension_type e <> 0) before.

Definition names (r : res (option MyServerName)) : Prop :=
  exists s, r = Ok (Some s) /\ sn_ServerName s = name /\ sn_Length s = zlen name.

Lemma names_map f r : names r -> (forall s, sn_ServerName (f s) = sn_ServerName s /\ sn_Length (f s) = sn_Length s) ->
  names (let! s := r in Ok (option_map f s)).
Proof. intros (s & -> & H1 & H2) Hf. exists (f s). destruct (Hf s) as [-> ->]. done. Qed.

Lemma extensions_at : names (indexTLSServerNameFromExtensions (be_split 2 (zlen (encode_extensions h)) ++ encode_extensions h)).
Proof.
  pose proof (fits_extensions h Hfit) as He. pose proof (fits_record h Hfit) as Hr.
  assert (Hn : zlen (encode_extensions h) < 2 ^ 16) by (unfold encode_handshake, hello_body, after_session in Hr; zlen_solve).
  unfold indexTLSServerNameFromExtensions, extensionsHeaderLen. rewrite (proj2 (Z.eqb_neq _ _)) by zlen_solve. len_ok.
  rewrite (uint16_at_at _ [] (zlen (encode_extensions h)) (encode_extensions h)) by at_pos. cbn [res_bind].
  rewrite (slice_from_at _ (be_split 2 (zlen (encode_extensions h))) (encode_extensions h)) by at_pos. cbn [res_bind]. len_ok.
  unfold encode_extensions. rewrite Hext in *. apply Forall_app in He as [Hb He]. apply Forall_cons in He as [Hs _].
  destruct (extensions_loop_at before name after Hb Hfirst Hs (length (concat (map encode_extension (before ++ ServerName name :: after)))) 2) as [i ->]; [done|].
  by eexists.
Qed.

Lemma handshake_at : names (indexTLSServerNameFromHandshake (encode_handshake h)).
Proof.
  pose proof (fits_random h Hfit) as Hr. pose proof (fits_version h Hfit) as Hv.
  pose proof (fits_record h Hfit) as Hn. unfold encode_handshake in *.
  assert (Hb : zlen (hello_body h) = 35 + zlen (h_session h) + zlen (after_session h)) by (unfold hello_body; zlen_solve).
  destruct (index_split3 1 (zlen (hello_body h)) (hello_body h)) as (b1 & b2 & b3 & E1 & E2 & E3 & Hlen); [zlen_solve|].
  unfold indexTLSServerNameFromHandshake, handshakeHeaderLen, randomDataLen, sessionIDHeaderLen. cbv zeta.
  len_ok. rewrite (index_at _ [] 1 (be_split 3 (zlen (hello_body h)) ++ hello_body h)) by at_pos. cbn [res_bind].
  len_ok. rewrite E1, E2, E3. cbn [res_bind]. rewrite Hlen. clear E1 E2 E3 Hlen.
  rewrite (slice_from_at _ ([1] ++ be_split 3 (zlen (hello_body h))) (hello_body h)) by at_pos. cbn [res_bind].
  len_ok. set (first := [1] ++ be_split 3 (zlen (hello_body h))). assert (Hfl : zlen first = 4) by done.
  set (ext := be_split 2 (zlen (encode_extensions h)) ++ encode_extensions h).
  set (ciphers := be_split 2 (2 * zlen (h_ciphers h)) ++ enc16s (h_ciphers h)).
  assert (Hc : zlen ciphers = 2 + 2 * zlen (h_ciphers h)) by (unfold ciphers; rewrite zlen_app, zlen_be_split, enc16s_length; lia).
  assert (Ha : after_session h = ciphers ++ [zlen (h_compression h)] ++ h_compression h ++ ext) by (unfold after_session, ciphers; by rewrite <- !app_assoc).
  assert (Hh : first ++ hello_body h = first ++ be_split 2 (h_version h) ++ h_random h ++ [zlen (h_session h)] ++ h_session h ++ after_session h) by done.
  rewrite app_assoc. fold first. rewrite Hh.
  rewrite (uint16_at_at _ first (h_version h) (h_random h ++ [zlen (h_session h)] ++ h_session h ++ after_session h)) by at_pos.
  cbn [res_bind]. rewrite supported_version_range by done. cbn [negb].
  rewrite (index_at _ (first ++ be_split 2 (h_version h) ++ h_random h) (zlen (h_session h)) (h_session h ++ after_session h)) by at_pos.
  cbn [res_bind]. len_ok.
  rewrite (slice_from_at _ (first ++ be_split 2 (h_version h) ++ h_random h ++ [zlen (h_session h)] ++ h_session h) (after_session h)) by at_pos.
  cbn [res_bind]. unfold cipherSuiteHeaderLen, compressMethodHeaderLen. rewrite Ha in *. len_ok.
  rewrite (uint16_at_at _ [] (2 * zlen (h_ciphers h)) (enc16s (h_ciphers h) ++ [zlen (h_compression h)] ++ h_compression h ++ ext));
    [|unfold ciphers; at_pos|done|zlen_solve]. cbn [res_bind]. len_ok.
  rewrite (index_at _ ciphers (zlen (h_compression h)) (h_compression h ++ ext)) by at_pos. cbn [res_bind]. len_ok.
  rewrite (slice_from_at _ (first ++ be_split 2 (h_version h) ++ h_random h ++ [zlen (h_session h)] ++ h_session h ++ ciphers
    ++ [zlen (h_compression h)] ++ h_compression h) ext) by at_pos.
  cbn [res_bind]. apply names_map; [apply extensions_at|done].
Qed.

Lemma record_at : names (IndexTLSServerName (encode_record h)).
Proof.
  pose proof (fits_record h Hfit) as Hn. unfold IndexTLSServerName, recordLayerHeaderLen, encode_record.
  pose proof handshake_at as Hh. set (hs := encode_handshake h) in *. len_ok.
  rewrite (index_at _ [] 22 (be_split 2 771 ++ be_split 2 (zlen hs) ++ hs)) by at_pos. cbn [res_bind]. len_ok.
  rewrite (uint16_at_at _ ([22] ++ be_split 2 771) (zlen hs) hs) by at_pos. cbn [res_bind]. len_ok.
  rewrite (slice_from_at _ ([22] ++ be_split 2 771 ++ be_split 2 (zlen hs)) hs) by at_pos. cbn [res_bind]. by apply names_map.
Qed.

End Hello.

(** C22: the server name is found.  Looking for it ends without a panic on all data
    shorter than 64 KiB; a name that is found is at its index; and in the record of
    every client hello that fits its length fields, the name of its first server
    name extension is found. *)
Theorem server_name_indexed b : Forall is_byte b -> zlen b < 2 ^ 16 ->
  exists o, IndexTLSServerName b = Ok o
  /\ (forall s, o = Some s -> slice b (sn_Index s) (sn_Index s + zlen (sn_ServerName s)) = Ok (sn_ServerName s))
  /\ forall h before name after, b = encode_record h -> hello_fits h -> h_extensions h = before ++ ServerName name :: after ->
     Forall (fun e => extension_type e <> 0) before -> exists s, o = Some s /\ sn_ServerName s = name /\ sn_Length s = zlen name.
Proof.
  intros Hb Hn. destruct (found_record b Hb Hn) as (o & E & Ho). exists o. split; [done|]. split.
  - intros s ->. destruct Ho as (pre & post & -> & -> & _). by apply (slice_at _ pre _ post).
  - intros h before name after -> Hfit Hext Hfirst. destruct (record_at h before after name Hfit Hext Hfirst) as (s & Hs & H1 & H2).
    exists s. split; [congruence|done].
Qed.

(** ** An extension of 65532 bytes *)

(** The length of the extension and its header wraps around to zero, and the loop
    stays where it is. *)
Example search_never_ends l fuel : zlen l = 65532 -> forall cur, fromExtensions_loop fuel cur (be_split 2 1 ++ be_split 2 65532 ++ l) = OutOfFuel.
Proof.
  intros Hl. set (exs := be_split 2 1 ++ be_split 2 65532 ++ l). assert (Hz : zlen exs = 65536) by (unfold exs; zlen_solve).
  induction fuel as [|fuel IH]; intros cur; cbn [fromExtensions_loop]; rewrite Hz; cbn [Z.ltb Z.compare]; [done|].
  unfold extensionHeaderLen. change (65536 <? 4) with false. cbv iota.
  rewrite (uint16_at_at exs [] 1 (be_split 2 65532 ++ l)) by (done || (unfold is_u; lia)). cbn [res_bind].
  rewrite (uint16_at_at exs (be_split 2 1) 65532 l) by (done || (unfold is_u; lia)). cbn [res_bind].
  change (65536 <? 4 + 65532) with false. cbv iota.
  rewrite (slice_at exs (be_split 2 1 ++ be_split 2 65532) l []); [|unfold exs; by rewrite app_nil_r|done|by rewrite Hl]. cbn [res_bind].
  change (1 =? sniExtensionType) with false. cbv iota. change (u16 (4 + 65532)) with 0.
  rewrite (slice_from_at exs [] exs) by done. cbn [res_bind]. apply IH.
Qed.
