(* ===== verification/FragmentTheorems.v ===== *)
(** What is written in fragments is read as what was to be written. *)

From S2P Require Import Prelude GoStrings NetConn Ja3 Ja3Proofs TLSFragment TLSFragmentProofs.

(** * Parts of a name *)

Lemma length_chars s : length (chars s) = String.length s.
Proof. unfold chars. induction s as [|c s IH]; cbn; [done|]. by rewrite IH. Qed.
Lemma length_of_chars l : String.length (of_chars l) = length l.
Proof. by rewrite <- length_chars, chars_of_chars. Qed.

(** The length of parts joined by a separator. *)
Fixpoint joined (splits : list string) : Z :=
  match splits with
  | [] => 0
  | s :: splits' => Z.of_nat (String.length s) + (if nonempty splits' then 1 + joined splits' else 0)
  end.

Lemma joined_nonneg splits : 0 <= joined splits.
Proof. induction splits as [|s [|t l] IH]; cbn [joined nonempty] in *; lia. Qed.

Lemma joined_split sep l : joined (map of_chars (split_chars sep l)) = Z.of_nat (length l).
Proof.
  induction l as [|c l IH]; [done|]. cbn [split_chars]. pose proof (split_chars_nonempty sep l) as Hne.
  destruct (split_chars sep l) as [|p ps]; [done|]. case_bool_decide; cbn [map joined nonempty length] in *; rewrite !length_of_chars in *; cbn [length]; lia.
Qed.
Lemma split_length sep l :
  length (split_chars sep l) = S (length (List.filter (fun c => bool_decide (c = sep)) l)).
Proof.
  induction l as [|c l IH]; [done|]. cbn [split_chars List.filter]. pose proof (split_chars_nonempty sep l) as Hne.
  destruct (split_chars sep l) as [|p ps]; [done|]. case_bool_decide; cbn [length] in *; lia.
Qed.
Lemma split_parts sep l p : p ∈ split_chars sep l -> sep ∉ p.
Proof.
  revert p. induction l as [|c l IH]; intros p H; cbn [split_chars] in H.
  - apply list_elem_of_singleton in H as ->. apply not_elem_of_nil.
  - destruct (split_chars sep l) as [|q qs] eqn:E; [by apply split_chars_nonempty in E|]. case_bool_decide as Hc.
    + apply elem_of_cons in H as [->|H]; [apply not_elem_of_nil|by apply IH].
    + apply elem_of_cons in H as [->|H]; [|apply IH; by right]. apply not_elem_of_cons. split; [congruence|]. apply IH. by left.
Qed.

Lemma name_splits_ok PublicSuffix name cur : Forall (fun p => p <> "") (Split name "."%char) ->
  exists splits, name_splits PublicSuffix name cur = Ok (splits, cur) /\ splits <> [] /\ Forall (fun p => p <> "") splits
    /\ joined splits <= Z.of_nat (String.length name).
Proof.
  intros Hne. assert (Hj : joined (Split name "."%char) = Z.of_nat (String.length name)) by (unfold Split; by rewrite joined_split, length_chars).
  assert (Hl : zlen (Split name "."%char) = 1 + Count_dots name) by (unfold zlen, Count_dots, Split; rewrite length_map, split_length; unfold zlen; lia).
  assert (Hdots : Forall (fun p => p <> "...") (Split name "."%char)).
  { apply Forall_forall. intros p Hp ->. apply list_elem_of_fmap in Hp as (q & Hq & Hin). apply split_parts in Hin. apply Hin.
    rewrite <- (chars_of_chars q), <- Hq. by left. }
  unfold name_splits. destruct (Split name "."%char) as [|s rest] eqn:Es; [cbn in Hl; unfold Count_dots in Hl; zlen_solve|].
  destruct (negb _).
  - rewrite Hl. replace (1 + Count_dots name - Count_dots name) with 1 by lia.
    rewrite (slice_at _ [] [s] rest) by done. cbn [res_bind]. exists [s]. split; [done|]. split; [done|]. apply Forall_cons in Hne as [Hs _].
    split; [by apply Forall_singleton|]. cbn [joined nonempty] in *. destruct (nonempty rest); pose proof (joined_nonneg rest); lia.
  - cbn [res_bind]. apply Forall_cons in Hdots as [Hd _]. exists (s :: rest). split; [|split; [done|]; split; [done|lia]].
    destruct rest; [done|]. by rewrite bool_decide_false.
Qed.

(** * Positions to cut at *)

(** Positions that grow, between two bounds. *)
Fixpoint cuts (lo : Z) (l : list Z) (hi : Z) : Prop :=
  match l with [] => lo < hi | j :: l' => lo < j /\ cuts j l' hi end.

Lemma cuts_bound lo l hi : cuts lo l hi -> lo < hi.
Proof. revert lo. induction l as [|j l IH]; intros lo H; cbn in H; [done|]. destruct H as [H1 H2]. apply IH in H2. lia. Qed.
Lemma cuts_lower lo lo' l hi : lo' <= lo -> cuts lo l hi -> cuts lo' l hi.
Proof. destruct l; cbn; [lia|]. intros H [H1 H2]. split; [lia|done]. Qed.
Lemma cuts_lookup lo l hi i a : cuts lo l hi -> (lo :: l) !! i = Some a ->
  lo <= a < hi /\ match l !! i with Some k => a < k < hi | None => True end.
Proof.
  revert lo i. induction l as [|j l IH]; intros lo i H Ha.
  - destruct i; [|done]. injection Ha as ->. cbn in *. lia.
  - pose proof (cuts_bound _ _ _ H). cbn in H. destruct H as [Hj H]. pose proof (cuts_bound _ _ _ H). destruct i as [|i].
    + injection Ha as <-. split; [lia|]. change (lo < j < hi). lia.
    + cbn in Ha |- *. destruct (IH j i H Ha) as [Hb Hk]. split; [lia|done].
Qed.

Lemma split_indexes_cuts rand splits : forall i cur, splits <> [] -> Forall (fun p => p <> "") splits ->
  exists l, split_indexes rand i splits cur = Ok l /\ length l = length splits
    /\ forall lo hi, lo < cur -> cur + joined splits <= hi -> cuts lo l hi.
Proof.
  induction splits as [|s rest IH]; intros i cur Hne Hs; [done|]. apply Forall_cons in Hs as [Hs Hrest]. cbn [split_indexes].
  assert (Hl : 0 < Z.of_nat (String.length s)) by (destruct s; [done|cbn; lia]).
  unfold Intn. replace (_ <=? 0) with false by lia. cbn [res_bind]. pose proof (Z.mod_pos_bound (rand i) _ Hl) as Hm.
  destruct rest as [|t rest]; cbn [nonempty].
  - cbn [split_indexes res_bind]. eexists. split; [done|]. split; [done|]. intros lo hi Hlo Hhi. cbn in *. lia.
  - destruct (IH (S i) (cur + Z.of_nat (String.length s) + 1)) as (l & -> & Hlen & Hc); [done|done|]. cbn [res_bind].
    eexists. split; [done|]. split; [cbn [length] in *; lia|]. intros lo hi Hlo Hhi. cbn [cuts]. split; [lia|]. apply Hc; [lia|].
    cbn [joined nonempty] in Hhi |- *. lia.
Qed.

(** ** Pieces *)

Definition from_to (lo k : Z) (b : list Z) : list Z := take (Z.to_nat (k - lo)) (drop (Z.to_nat lo) b).
Fixpoint pieces (b : list Z) (lo : Z) (l : list Z) : list (list Z) :=
  match l with
  | [] => [drop (Z.to_nat lo) b]
  | j :: l' => from_to lo j b :: pieces b j l'
  end.

Lemma pieces_length b lo l : length (pieces b lo l) = S (length l).
Proof. revert lo. induction l as [|j l IH]; intros lo; [done|]. cbn. by rewrite IH. Qed.
Lemma pieces_concat b lo l : 0 <= lo -> cuts lo l (zlen b) -> concat (pieces b lo l) = drop (Z.to_nat lo) b.
Proof.
  revert lo. induction l as [|j l IH]; intros lo Hlo H; cbn [pieces concat]; [by rewrite app_nil_r|]. destruct H as [Hj H]. rewrite IH by (done || lia).
  unfold from_to. rewrite <- (take_drop (Z.to_nat (j - lo)) (drop (Z.to_nat lo) b)) at 2. rewrite drop_drop. do 2 f_equal. lia.
Qed.
Lemma pieces_nonempty b lo l : 0 <= lo -> cuts lo l (zlen b) -> Forall (fun p => p <> []) (pieces b lo l).
Proof.
  revert lo. induction l as [|j l IH]; intros lo Hlo H; cbn [pieces].
  - constructor; [|done]. intros E%(f_equal length). rewrite length_drop in E. cbn in *. unfold zlen in H. lia.
  - pose proof (cuts_bound _ _ _ (proj2 H)). destruct H as [Hj H]. constructor; [|apply IH; [lia|done]].
    intros E%(f_equal length). unfold from_to in E. rewrite length_take, length_drop in E. cbn in E. unfold zlen in *. lia.
Qed.
Lemma pieces_lookup b lo l i a : (lo :: l) !! i = Some a ->
  pieces b lo l !! i = Some (match l !! i with Some k => from_to a k b | None => drop (Z.to_nat a) b end).
Proof.
  revert lo i. induction l as [|j l IH]; intros lo i Ha.
  - destruct i; [|done]. by injection Ha as ->.
  - destruct i as [|i]; [by injection Ha as ->|]. cbn in Ha |- *. by apply IH.
Qed.

(** * Writing *)

Lemma sends_ack p n : sends [p] n (writeAndWaitAck p n).
Proof. apply (sends_seq [p] []); [apply sends_write|]. intros. apply sends_op. Qed.

Section Written.
Variables (b : list Z) (l : list Z) (sr : bool).
Definition start : Z := if sr then 5 else 0.
Hypothesis Hl : l <> [].
Hypothesis Hcuts : cuts 5 l (zlen b).

Definition header_of (p : list Z) : list Z := take 3 b ++ be_split 2 (u16 (zlen p)).
Definition out (p : list Z) : list Z := if sr then header_of p ++ p else p.
Definition fragments : list (list Z) := pieces b start l.

Lemma start_cuts : cuts start l (zlen b).
Proof. apply (cuts_lower 5); [unfold start; destruct sr; lia|done]. Qed.

Lemma fragment_ok i : (i <= length l)%nat -> exists p, fragments !! i = Some p /\ fragment sr b l i = Ok p.
Proof.
  intros Hi. pose proof (cuts_bound _ _ _ Hcuts). destruct (lookup_lt_is_Some_2 (start :: l) i) as [a Ha]; [cbn; lia|].
  eexists. split; [by apply pieces_lookup|]. unfold fragment. destruct i as [|i].
  - injection Ha as <-. destruct l as [|j l']; [done|]. cbn [Nat.eqb]. cbn [lookup list_lookup]. destruct Hcuts as [Hj Hc]. pose proof (cuts_bound _ _ _ Hc).
    change (index (j :: l') 0) with (Ok j). cbn [res_bind]. rewrite slice_ok by lia. cbn [res_bind]. rewrite Z.sub_0_r. unfold start, from_to. destruct sr.
    + rewrite slice_from_ok by (unfold zlen in *; rewrite length_take, length_drop; unfold recordLayerHeaderLen; lia). change (Z.to_nat 0) with 0%nat.
      rewrite drop_0, skipn_firstn_comm. unfold recordLayerHeaderLen. do 3 f_equal. lia.
    + by rewrite Z.sub_0_r.
  - change (S i =? 0)%nat with false. cbv iota. destruct (cuts_lookup _ _ _ _ _ start_cuts Ha) as [Hb Hk]. assert (0 <= start) by (unfold start; destruct sr; lia).
    cbn [lookup list_lookup] in Ha. assert (Hidx : forall n x, l !! n = Some x -> index l (Z.of_nat n) = Ok x).
    { intros n x Hx. unfold index. rewrite (proj2 (Z.leb_le _ _)) by apply Nat2Z.is_nonneg. by rewrite Nat2Z.id, Hx. }
    replace (Z.of_nat (S i) - 1) with (Z.of_nat i) by lia. rewrite (Hidx _ _ Ha). cbn [res_bind].
    destruct (Nat.eqb_spec (S i) (length l)) as [E|E].
    + rewrite E, (proj2 (lookup_ge_None l (length l))) by lia. apply slice_from_ok. lia.
    + destruct (lookup_lt_is_Some_2 l (S i)) as [k Hk']; [lia|]. rewrite (Hidx _ _ Hk'), Hk' in *. cbn [res_bind]. by rewrite slice_ok by lia.
Qed.

Lemma record_ok p : record b p = Ok (header_of p ++ p).
Proof.
  unfold record. pose proof (cuts_bound _ _ _ Hcuts). rewrite slice_ok by lia. cbn [res_bind]. unfold header_of. by rewrite <- app_assoc.
Qed.

(** The loop, from round [i] on. *)
Lemma write_loop_ok c rounds : forall i buffer n, c_splitRecord c = sr -> (i + rounds = S (length l))%nat ->
  exists err buffer' n', write_loop c rounds i b l buffer n = Ok (err, buffer', n') /\
  let outs := map out (drop i fragments) in
  if c_splitPacket c then sends outs n (err, n') else err = None /\ n' = n /\ (sr = true -> buffer' = buffer ++ concat outs).
Proof.
  intros i buffer n Hsr. revert i buffer n. induction rounds as [|rounds IH]; intros i buffer n Hi; cbn [write_loop].
  - exists None, buffer, n. split; [done|]. rewrite drop_ge by (unfold fragments; rewrite pieces_length; lia). cbn.
    destruct (c_splitPacket c); [apply sends_nil|]. split; [done|]. split; [done|]. intros _. by rewrite app_nil_r.
  - destruct (fragment_ok i) as (p & Hp & Hf); [lia|]. rewrite Hsr, Hf, (drop_S _ _ _ Hp). cbn [res_bind map].
    destruct (c_splitPacket c) eqn:Esp.
    + replace (if sr then _ else Ok (p, buffer)) with (Ok (out p, if sr then out p else buffer))
        by (unfold out; destruct sr; [by rewrite record_ok|done]). cbn [res_bind]. set (buf := if sr then _ else _).
      set (r := if _ && _ then _ else _). assert (Hr : sends [out p] n r) by (unfold r; destruct (_ && _); [apply sends_ack|apply sends_write]).
      clearbody r. destruct r as [[e|] n1].
      * exists (Some e), buf, n1. split; [done|]. by apply (sends_fail [out p]).
      * destruct (IH (S i) buf n1) as (err & buf' & n2 & -> & H); [lia|]. exists err, buf', n2. split; [done|]. by apply (sends_then [out p] _ _ n1).
    + replace (if sr then _ else Ok (p, buffer)) with (Ok (p, if sr then buffer ++ out p else buffer))
        by (unfold out; destruct sr; [by rewrite record_ok|done]). cbn [res_bind].
      destruct (IH (S i) (if sr then buffer ++ out p else buffer) n) as (err & buf' & n2 & -> & H); [lia|]. exists err, buf', n2. split; [done|].
      destruct H as (-> & -> & Hb). split; [done|]. split; [done|]. intros E. rewrite (Hb E). destruct sr; [|done]. cbn [concat]. by rewrite app_assoc.
Qed.

End Written.

(** * What a peer reads *)

(** The records of a stream: the first three bytes of each, its type and version, and
    its data. *)
Fixpoint read_records (fuel : nat) (stream : list Z) : option (list (list Z * list Z)) :=
  match stream with
  | [] => Some []
  | t :: v1 :: v2 :: n1 :: n2 :: rest =>
      match fuel with
      | O => None
      | S fuel' =>
          let n := 256 * n1 + n2 in
          if zlen rest <? n then None
          else option_map (cons ([t; v1; v2], take (Z.to_nat n) rest)) (read_records fuel' (drop (Z.to_nat n) rest))
      end
  | _ => None
  end.
Definition records (stream : list Z) : option (list (list Z * list Z)) := read_records (length stream) stream.

Lemma read_records_out b ps t v1 v2 : take 3 b = [t; v1; v2] -> Forall (fun p => zlen p < 2 ^ 16) ps -> forall fuel, (length ps <= fuel)%nat ->
  read_records fuel (concat (map (out b true) ps)) = Some (map (fun p => ([t; v1; v2], p)) ps).
Proof.
  intros Hh Hps. induction Hps as [|p ps Hp Hps IH]; intros fuel Hf; [by destruct fuel|]. destruct fuel as [|fuel]; [cbn in Hf; lia|].
  pose proof (zlen_nonneg p) as Hp0. cbn [map concat]. unfold out at 1, header_of. rewrite wrap_small by (unfold is_u; lia). rewrite Hh.
  assert (Hn : be_split 2 (zlen p) = [zlen p / 256; zlen p mod 256]).
  { cbn [be_split]. change (256 ^ Z.of_nat 1) with 256. change (256 ^ Z.of_nat 0) with 1.
    rewrite Z.div_1_r, (Z.mod_small (zlen p / 256)) by (split; [apply Z.div_pos|apply Z.div_lt_upper_bound]; lia). done. }
  rewrite Hn. cbn [app read_records]. rewrite <- (Z.div_mod (zlen p) 256) by lia.
  rewrite (proj2 (Z.ltb_ge _ _)) by (rewrite zlen_app; pose proof (zlen_nonneg (concat (map (out b true) ps))); lia).
  unfold zlen at 1 2. rewrite Nat2Z.id, take_app_length, drop_app_length, IH; [done|]. cbn in Hf. lia.
Qed.

Lemma records_out b ps t v1 v2 : take 3 b = [t; v1; v2] -> Forall (fun p => zlen p < 2 ^ 16) ps ->
  records (concat (map (out b true) ps)) = Some (map (fun p => (take 3 b, p)) ps).
Proof.
  intros Hh Hps. unfold records. rewrite (read_records_out b ps t v1 v2 Hh Hps), Hh; [done|].
  clear Hps. induction ps as [|p ps IH]; [done|]. cbn [map concat length]. unfold out at 1, header_of. rewrite Hh, !length_app. cbn. lia.
Qed.

Lemma length_string_of_bytes l : String.length (string_of_bytes l) = length l.
Proof. induction l as [|x l IH]; [done|]. cbn. by rewrite IH. Qed.

Section Reassembled.
Variables (PublicSuffix : string -> string) (rand : nat -> Z) (b : list Z) (s : MyServerName) (c : Conn).
Hypothesis Hbytes : Forall is_byte b.
Hypothesis Hsize : zlen b < 2 ^ 16.
Hypothesis Hname : IndexTLSServerName b = Ok (Some s).
Hypothesis Hlabels : Forall (fun p => p <> "") (Split (string_of_bytes (sn_ServerName s)) "."%char).
Hypothesis Hsplit : c_splitPacket c || c_splitRecord c = true.

(** What [Write] does: it sends the records or pieces one by one, or all records at once. *)
Lemma write_fragments_sends : exists l err n, l <> [] /\ cuts 5 l (zlen b) /\ write_fragments PublicSuffix rand b s c = Ok (err, n) /\
  let outs := map (out b (c_splitRecord c)) (fragments b l (c_splitRecord c)) in
  sends (if c_splitPacket c then outs else [concat outs]) (c_Conn c) (err, n).
Proof.
  destruct (found_record b Hbytes Hsize) as (o & Ho & Hloc). rewrite Hname in Ho. injection Ho as <-. destruct Hloc as (pre & post & Hb & Hi & Hlo).
  destruct (name_splits_ok PublicSuffix _ (sn_Index s) Hlabels) as (splits & Hns & Hne & Hs & Hj). rewrite length_string_of_bytes in Hj.
  destruct (split_indexes_cuts rand splits 0 (sn_Index s) Hne Hs) as (l & Hl & Hlen & Hcuts).
  assert (Hl0 : l <> []) by (intros ->; destruct splits; done).
  assert (Hc5 : cuts 5 l (zlen b)) by (apply Hcuts; [lia|]; rewrite Hb; unfold zlen in *; rewrite !length_app; lia).
  unfold write_fragments.
  set (r := if _ && _ then conn_op (c_Conn c) else _). assert (Hr : sends [] (c_Conn c) r) by (unfold r; destruct (_ && _); [apply sends_op|apply sends_nil]).
  clearbody r. destruct r as [[e|] n1].
  { exists l, (Some e), n1. split; [done|]. split; [done|]. split; [done|]. by apply (sends_fail []). }
  rewrite Hns. cbn [res_bind]. rewrite Hl. cbn [res_bind].
  destruct (write_loop_ok b l (c_splitRecord c) Hl0 Hc5 c (S (length l)) 0 [] n1) as (err & buffer & n2 & -> & Hw); [done|lia|]. cbn [res_bind].
  rewrite drop_0 in Hw. cbv zeta in Hw. set (outs := map _ _) in *.
  assert (Hend : forall n, sends [] n ((if c_tcpConn c then conn_op else conn_skip) n)) by (intros n; destruct (c_tcpConn c); [apply sends_op|apply sends_nil]).
  destruct err as [e|].
  { destruct (c_splitPacket c); [|by destruct Hw]. exists l, (Some e), n2. split; [done|]. split; [done|]. split; [done|]. by apply (sends_then [] _ _ n1). }
  eexists l, _, _. split; [done|]. split; [done|]. split; [f_equal; apply surjective_pairing|]. cbv zeta. fold outs. rewrite <- surjective_pairing.
  apply (sends_then [] _ _ n1); [done|]. destruct (c_splitPacket c).
  - rewrite andb_false_r, <- (app_nil_r outs). apply (sends_then outs _ _ n2); [done|]. by apply (sends_seq [] []); [apply sends_nil|].
  - destruct Hw as (_ & -> & Hbuf). cbn [orb] in Hsplit. rewrite (Hbuf Hsplit), Hsplit. cbn [andb negb app]. by apply (sends_seq [_] []); [apply sends_write|].
Qed.

End Reassembled.

(** C21: fragments are read as the original.  When the first packet of a connection
    is a client hello of less than 64 KiB whose server name has no empty labels, what
    is sent, however the cuts are drawn and whichever operation on the connection
    fails, is a part of a stream, and all of it without an error.  The stream is the
    packet itself, or a sequence of at least two records with its type and version,
    none of them empty, whose data together is the data of its record.  If packets
    are split, it takes at least two writes, none of them empty. *)
Theorem fragments_reassemble PublicSuffix rand b s c :
  Forall is_byte b -> zlen b < 2 ^ 16 -> IndexTLSServerName b = Ok (Some s) ->
  Forall (fun p => p <> "") (Split (string_of_bytes (sn_ServerName s)) "."%char) ->
  c_firstPacketWritten c = false -> c_splitPacket c || c_splitRecord c = true -> n_sent (c_Conn c) = [] ->
  exists err c' stream, Conn_Write PublicSuffix rand b c = Ok (err, c') /\ c_firstPacketWritten c' = true
  /\ concat (n_sent (c_Conn c')) `prefix_of` stream
  /\ (err = None -> concat (n_sent (c_Conn c')) = stream
      /\ (c_splitPacket c = true -> (1 < length (n_sent (c_Conn c')))%nat /\ Forall (fun p => p <> []) (n_sent (c_Conn c'))))
  /\ if c_splitRecord c then exists ps, (1 < length ps)%nat /\ Forall (fun p => p <> []) ps /\ concat ps = drop 5 b
       /\ records stream = Some (map (fun p => (take 3 b, p)) ps)
     else stream = b.
Proof.
  intros Hb Hn Hi Hl Hf Hs Hsent. destruct (write_fragments_sends PublicSuffix rand b s c Hb Hn Hi Hl Hs) as (l & err & n & Hl0 & Hc & Hw & more & Hm & Hp & Hnone).
  unfold Conn_Write. rewrite Hf, Hi. cbn [res_bind]. rewrite Hw. cbn [res_bind].
  cbn [fst snd] in *. rewrite Hsent in Hm. cbn [app] in Hm. set (sr := c_splitRecord c) in *. set (ps := fragments b l sr) in *. set (outs := map (out b sr) ps) in *.
  pose proof (start_cuts b l sr Hc) as Hsc. assert (H0 : 0 <= start sr) by (unfold start; destruct sr; lia).
  assert (Hlen : (1 < length ps)%nat) by (unfold ps, fragments; rewrite pieces_length; destruct l; [done|cbn; lia]).
  pose proof (pieces_nonempty b _ l H0 Hsc) as Hne. pose proof (pieces_concat b _ l H0 Hsc) as Hcat. change (pieces b (start sr) l) with ps in Hne, Hcat.
  assert (Hstream : concat (if c_splitPacket c then outs else [concat outs]) = concat outs) by (destruct (c_splitPacket c); cbn; by rewrite ?app_nil_r).
  eexists err, _, (concat outs). split; [done|]. split; [done|].
  change (c_Conn (c <| c_Conn := n |> <| c_firstPacketWritten := true |>)) with n. rewrite Hm. split; [by rewrite <- Hstream|]. split.
  - intros E. rewrite (Hnone E). split; [done|]. intros ->. unfold outs. rewrite length_map. split; [done|]. apply Forall_map.
    eapply Forall_impl; [exact Hne|]. intros p Hp0. unfold out, header_of. destruct sr; [|done]. intros E'%(f_equal length). rewrite !length_app, be_split_length in E'. cbn in E'. lia.
  - unfold outs. clearbody ps. destruct sr.
    + exists ps. split; [done|]. split; [done|]. split; [done|]. pose proof (cuts_bound _ _ _ Hc) as Hb5.
      destruct b as [|t [|v1 [|v2 b']]]; try (unfold zlen in Hb5; cbn in Hb5; lia). apply (records_out _ _ t v1 v2); [done|].
      apply Forall_forall. intros p Hin. apply list_elem_of_split in Hin as (l1 & l2 & ->). apply (f_equal zlen) in Hcat.
      rewrite concat_app in Hcat. cbn [concat] in Hcat. rewrite !zlen_app in Hcat. unfold zlen in *. rewrite length_drop in Hcat. lia.
    + rewrite (map_ext _ id), map_id by (intros; reflexivity). exact Hcat.
Qed.

(** * Examples *)

Definition hello_record : list Z := encode_record example_hello.
Definition no_suffix (name : string) : string := "org".
Definition split_conn (packet record : bool) (outcomes : list (option (nat * error))) : Conn := mkConn (mkNetConn outcomes []) true false packet record.

Lemma server_name_indexed_witness : exists s, IndexTLSServerName hello_record = Ok (Some s) /\ sn_ServerName s = bytes_of_string "example.org"
  /\ slice hello_record (sn_Index s) (sn_Index s + 11) = Ok (bytes_of_string "example.org").
Proof.
  assert (Hb : Forall is_byte hello_record) by (repeat (apply Forall_cons; split; [vm_compute; split; congruence|]); apply Forall_nil; exact I).
  destruct (server_name_indexed hello_record Hb ltac:(vm_compute; reflexivity)) as (o & Ho & Hat & Hn).
  destruct (Hn example_hello [] (bytes_of_string "example.org") (tail (h_extensions example_hello)) eq_refl example_hello_fits eq_refl (List.Forall_nil _)) as (s & -> & Hs & _).
  exists s. split; [exact Ho|]. split; [exact Hs|]. specialize (Hat s eq_refl). rewrite Hs in Hat. exact Hat.
Defined.

Lemma hello_record_bytes : Forall is_byte hello_record.
Proof. repeat (apply Forall_cons; split; [vm_compute; split; congruence|]). done. Qed.

Lemma fragments_reassemble_witness : exists s err c' stream,
  IndexTLSServerName hello_record = Ok (Some s)
  /\ Conn_Write no_suffix (fun _ => 3) hello_record (split_conn true true []) = Ok (err, c')
  /\ concat (n_sent (c_Conn c')) `prefix_of` stream /\ err = None
  /\ exists ps, concat ps = drop 5 hello_record /\ records stream = Some (map (fun p => (take 3 hello_record, p)) ps).
Proof.
  assert (Hs : exists s, IndexTLSServerName hello_record = Ok (Some s) /\ sn_ServerName s = bytes_of_string "example.org")
    by (eexists; split; vm_compute; reflexivity).
  destruct Hs as (s & Hs & Hname).
  destruct (fragments_reassemble no_suffix (fun _ => 3) hello_record s (split_conn true true []) hello_record_bytes
    ltac:(vm_compute; reflexivity) Hs ltac:(rewrite Hname; vm_compute; repeat constructor; discriminate) eq_refl eq_refl eq_refl)
    as (err & c' & stream & Hw & _ & Hp & _ & ps & _ & _ & Hcat & Hr).
  exists s, err, c', stream. split; [exact Hs|]. split; [exact Hw|]. split; [exact Hp|]. split; [|exists ps; split; [exact Hcat|exact Hr]].
  assert (E : exists c1, Conn_Write no_suffix (fun _ => 3) hello_record (split_conn true true []) = Ok (None, c1)) by (eexists; vm_compute; reflexivity).
  destruct E as [c1 E]. rewrite Hw in E. by injection E.
Defined.

(** A name that is empty, or whose first label is, ends the process. *)
Example empty_name_panics :
  Conn_Write no_suffix (fun _ => 3) (encode_record (example_hello <| h_extensions := [ServerName []] |>)) (split_conn true false [])
  = Panic "invalid argument to Intn".
Proof. vm_compute. reflexivity. Qed.

(** Only the first label is ever cut, as the dots of the whole name are counted and
    not those of its public suffix; when the cut is drawn at its start, the name is
    sent whole. *)
Example name_sent_whole : exists a b, fmap (fun r => n_sent (c_Conn (snd r)))
    (match Conn_Write no_suffix (fun _ => 0) hello_record (split_conn true false []) with Ok r => Some r | _ => None end)
  = Some [a; bytes_of_string "example.org" ++ b].
Proof. eexists _, _. vm_compute. reflexivity. Qed.
