(* ===== verification/Trojan.v ===== *)
(** The Trojan protocol: src/transport/trojan/protocol.go, the two kinds of client
    connections, and service.go, which admits users.  A connection that is read is
    the list of segments that arrive; one that is written to is a [net_conn]. *)

From S2P Require Import Prelude NetAddr Binary NetConn.

Definition KeyLength : Z := 56.
Definition CommandTCP : Z := 1.
Definition CommandUDP : Z := 3.
Definition CommandMux : Z := 0x7f.
Definition CRLF : list Z := [13; 10].

(** [M.SocksaddrSerializer] of github.com/sagernet/sing, whose [AddrPortLen] is the
    length it writes, and which reads what it wrote if the address is in the form
    it returns ([plain]: a domain that is not an IP address, no mapped address);
    and SHA-224. *)
Class TrojanPkg := {
  AddrPortLen : Socksaddr -> Z;
  WriteAddrPort : Socksaddr -> error + list Z;
  ReadAddrPort : reader Socksaddr;
  plain : Socksaddr -> Prop;
  Sum224 : list Z -> list Z;

  AddrPortLen_law : forall d l, WriteAddrPort d = inr l -> zlen l = AddrPortLen d;
  ReadAddrPort_law : forall d l rest, plain d -> WriteAddrPort d = inr l -> ReadAddrPort (l ++ rest) = Ok (d, rest);
  Sum224_law : forall l, zlen (Sum224 l) = 28;
}.

(** A [buf.Buffer]: the room before its content, and the content. *)
Record buffer := mkBuffer { buf_Start : Z; buf_Bytes : list Z }.
Definition buf_Len (b : buffer) : Z := zlen (buf_Bytes b).

(** [buf.With(b.ExtendHeader(n))], filled with [header]; and a new buffer of [n] bytes
    that [header] is written to. *)
Definition ExtendHeader (n : Z) (header : list Z) (b : buffer) : res buffer :=
  if (buf_Start b <? n) || (n <? zlen header) then Panic "buffer overflow"
  else Ok (mkBuffer (buf_Start b - n) (header ++ buf_Bytes b)).
Definition NewSize (n : Z) (header : list Z) : res (list Z) :=
  if n <? zlen header then Panic "buffer overflow" else Ok header.

(** [E.Cause] of the error of a write. *)
Definition write_cause (message : string) (r : option error * net_conn) : option error * net_conn :=
  match r with (Some e, n) => (Some (ECause e message), n) | r => r end.

Section Trojan.
Context {Pkg : TrojanPkg}.

(** [hex.Encode] *)
Definition hex_digit (x : Z) : Z := if x <? 10 then 48 + x else 87 + x.
Definition hex_Encode (l : list Z) : list Z := concat (map (fun x => [hex_digit (x / 16); hex_digit (x mod 16)]) l).

Definition Key (password : string) : list Z := hex_Encode (Sum224 (bytes_of_string password)).

(** ** Client handshakes *)

Definition ClientHandshakeRaw (key : list Z) (command : Z) (destination : Socksaddr) (payload : list Z) : net_conn -> option error * net_conn :=
  conn_seq (conn_Write key) (conn_seq (conn_Write CRLF) (conn_seq (conn_Write [command])
    match WriteAddrPort destination with
    | inl err => fun n => (Some err, n)
    | inr addr =>
        conn_seq (conn_Write addr) (conn_seq (conn_Write CRLF) (if 0 <? zlen payload then conn_Write payload else conn_skip))
    end)).

Definition ClientHandshake (key : list Z) (destination : Socksaddr) (payload : list Z) (n : net_conn) : res (option error * net_conn) :=
  let headerLen := KeyLength + AddrPortLen destination + 5 in
  match WriteAddrPort destination with
  | inl err => Ok (Some err, n)
  | inr addr =>
      let! header := NewSize (headerLen + zlen payload) (key ++ CRLF ++ [CommandTCP] ++ addr ++ CRLF ++ payload) in
      Ok (write_cause "write request" (conn_Write header n))
  end.

Definition ClientHandshakeBuffer (key : list Z) (destination : Socksaddr) (payload : buffer) (n : net_conn) : res (option error * net_conn) :=
  let headerLen := KeyLength + AddrPortLen destination + 5 in
  if buf_Start payload <? headerLen then Panic "buffer overflow" else
  match WriteAddrPort destination with
  | inl err => Ok (Some err, n)
  | inr addr =>
      let! payload := ExtendHeader headerLen (key ++ CRLF ++ [CommandTCP] ++ addr ++ CRLF) payload in
      Ok (write_cause "write request" (conn_Write (buf_Bytes payload) n))
  end.

(** The first packet: the header is put before the payload if there is room, and is
    written on its own else.  The writes with the messages of their errors. *)
Definition handshake_writes (key : list Z) (destination : Socksaddr) (payload : buffer) : res (error + list (string * list Z)) :=
  let headerLen := KeyLength + 2 * AddrPortLen destination + 9 in
  let payloadLen := buf_Len payload in
  match WriteAddrPort destination with
  | inl err => Ok (inl err)
  | inr addr =>
      let header := key ++ CRLF ++ [CommandUDP] ++ addr ++ CRLF ++ addr ++ be_split 2 (u16 payloadLen) ++ CRLF in
      if headerLen <=? buf_Start payload then
        let! payload := ExtendHeader headerLen header payload in Ok (inr [("write payload", buf_Bytes payload)])
      else
        let! header := NewSize headerLen header in Ok (inr [("write request", header); ("write payload", buf_Bytes payload)])
  end.

Fixpoint run_writes (l : list (string * list Z)) : net_conn -> option error * net_conn :=
  match l with
  | [] => conn_skip
  | (message, p) :: l' => conn_seq (fun n => write_cause message (conn_Write p n)) (run_writes l')
  end.

Definition ClientHandshakePacket (key : list Z) (destination : Socksaddr) (payload : buffer) (n : net_conn) : res (option error * net_conn) :=
  let! writes := handshake_writes key destination payload in
  match writes with inl err => Ok (Some err, n) | inr l => Ok (run_writes l n) end.

(** ** Packets *)

(** [capacity] is the room of the buffer read into. *)
Definition ReadPacket (capacity : Z) : reader (Socksaddr * list Z) :=
  destination <- rcause "read destination" ReadAddrPort ;;
  length <- rcause "read chunk length" (rmap be_combine (ReadFull 2)) ;;
  _ <- rcause "skip crlf" (ReadFull 2) ;;
  payload <- (if capacity <? length then rfail (ENew "short buffer") else ReadFull (Z.to_nat length)) ;;
  rret (destination, payload).

Definition WritePacket (b : buffer) (destination : Socksaddr) (n : net_conn) : res (option error * net_conn) :=
  let bufferLen := buf_Len b in
  let headerLen := AddrPortLen destination + 4 in
  if buf_Start b <? headerLen then Panic "buffer overflow" else
  match WriteAddrPort destination with
  | inl err => Ok (Some err, n)
  | inr addr =>
      let! b := ExtendHeader headerLen (addr ++ be_split 2 (u16 bufferLen) ++ CRLF) b in
      Ok (write_cause "write packet" (conn_Write (buf_Bytes b) n))
  end.

(** ** Client connections *)

Record ClientConn := mkClientConn {
  cc_ExtendedConn : net_conn;
  cc_key : list Z;
  cc_destination : Socksaddr;
  cc_headerWritten : bool;
}.
Definition NewClientConn (conn : net_conn) (key : list Z) (destination : Socksaddr) : ClientConn := mkClientConn conn key destination false.

Definition handshaken (c : ClientConn) (r : option error * net_conn) : option error * ClientConn :=
  let '(err, n) := r in
  let c := c <| cc_ExtendedConn := n |> in
  match err with None => (None, c <| cc_headerWritten := true |>) | Some _ => (err, c) end.

Definition ClientConn_Write (p : list Z) (c : ClientConn) : res (option error * ClientConn) :=
  if cc_headerWritten c then let '(err, n) := conn_Write p (cc_ExtendedConn c) in Ok (err, c <| cc_ExtendedConn := n |>)
  else let! r := ClientHandshake (cc_key c) (cc_destination c) p (cc_ExtendedConn c) in Ok (handshaken c r).

Definition ClientConn_WriteBuffer (b : buffer) (c : ClientConn) : res (option error * ClientConn) :=
  if cc_headerWritten c then let '(err, n) := conn_Write (buf_Bytes b) (cc_ExtendedConn c) in Ok (err, c <| cc_ExtendedConn := n |>)
  else let! r := ClientHandshakeBuffer (cc_key c) (cc_destination c) b (cc_ExtendedConn c) in Ok (handshaken c r).

Record ClientPacketConn := mkClientPacketConn {
  cp_Conn : net_conn;
  cp_access : bool;
  cp_key : list Z;
  cp_headerWritten : bool;
}.
Definition NewClientPacketConn (conn : net_conn) (key : list Z) : ClientPacketConn := mkClientPacketConn conn false key false.

(** A call of [WritePacket]: about to read [headerWritten], waiting for the mutex,
    holding it, doing the writes of the handshake, about to set [headerWritten] and
    unlock, about to write without the mutex, or done. *)
Inductive writer :=
| Checking (b : buffer) (destination : Socksaddr)
| Locking (b : buffer) (destination : Socksaddr)
| Holding (b : buffer) (destination : Socksaddr)
| Writing (b : buffer) (destination : Socksaddr) (writes : list (string * list Z))
| Finishing (b : buffer) (destination : Socksaddr) (err : option error)
| Direct (b : buffer) (destination : Socksaddr)
| Written (b : buffer) (destination : Socksaddr) (err : option error).

(** One step of a call; [None] if it waits for the mutex, is done or panics. *)
Definition writer_step (x : writer) (c : ClientPacketConn) : option (writer * ClientPacketConn) :=
  match x with
  | Checking b d => Some (if cp_headerWritten c then Direct b d else Locking b d, c)
  | Locking b d => if cp_access c then None else Some (Holding b d, c <| cp_access := true |>)
  | Holding b d =>
      if cp_headerWritten c then Some (Direct b d, c <| cp_access := false |>)
      else match handshake_writes (cp_key c) d b with
           | Ok (inl err) => Some (Finishing b d (Some err), c)
           | Ok (inr l) => Some (Writing b d l, c)
           | _ => None
           end
  | Writing b d [] => Some (Finishing b d None, c)
  | Writing b d ((message, p) :: l) =>
      let '(err, n) := write_cause message (conn_Write p (cp_Conn c)) in
      Some (match err with None => Writing b d l | Some _ => Finishing b d err end, c <| cp_Conn := n |>)
  | Finishing b d err => Some (Written b d err, c <| cp_headerWritten := true |> <| cp_access := false |>)
  | Direct b d =>
      match WritePacket b d (cp_Conn c) with
      | Ok (err, n) => Some (Written b d err, c <| cp_Conn := n |>)
      | _ => None
      end
  | Written _ _ _ => None
  end.

(** ** The service *)

Section Service.
Context {K : Type} `{Countable K}.

Record Service := mkService {
  s_users : gmap K (list Z);
  s_keys : gmap (list Z) K;
  s_fallbackHandler : bool;
}.
Definition NewService (fallbackHandler : bool) : Service := mkService ∅ ∅ fallbackHandler.

Definition ErrUserExists : error := ENew "user already exists".

Fixpoint UpdateUsers_loop (i : nat) (userList : list K) (passwordList : list string) (users : gmap K (list Z)) (keys : gmap (list Z) K)
    : res (gmap K (list Z) * gmap (list Z) K) :=
  match userList with
  | [] => Ok (users, keys)
  | user :: userList' =>
      if bool_decide (is_Some (users !! user)) then Err ErrUserExists else
      let! password := index passwordList (Z.of_nat i) in
      let key := Key password in
      if bool_decide (is_Some (keys !! key)) then Err (ECause ErrUserExists "password used by") else
      UpdateUsers_loop (S i) userList' passwordList (<[user := key]> users) (<[key := user]> keys)
  end.
Definition UpdateUsers (userList : list K) (passwordList : list string) (s : Service) : res Service :=
  let! ' (users, keys) := UpdateUsers_loop 0 userList passwordList ∅ ∅ in
  Ok (s <| s_users := users |> <| s_keys := keys |>).

(** To whom a connection is given, with what is still to be read from it. *)
Inductive admission :=
| NewConnectionEx (user : K) (destination : Socksaddr) (rest : list Z)
| NewPacketConnectionEx (user : K) (destination : Socksaddr) (rest : list Z)
| HandleMuxConnection (user : K) (rest : list Z)
| FallbackEx (cached rest : list Z).

Definition fallback (s : Service) (header rest : list Z) (err : error) : res admission :=
  if s_fallbackHandler s then Ok (FallbackEx header rest) else Err (ECause err "fallback disabled").

(** The part of [NewConnection] after the user is known. *)
Definition read_request : reader (Z * Socksaddr) :=
  _ <- rcause "skip crlf" (ReadFull 2) ;;
  command <- rcause "read command" ReadByte ;;
  if negb (inb command [CommandTCP; CommandUDP; CommandMux]) then rfail (ENew "unknown command")
  else
    destination <- rcause "read destination" ReadAddrPort ;;
    _ <- rcause "skip crlf" (ReadFull 2) ;;
    rret (command, destination).

(** One [Read] gives what is left of the first segment, at most the size asked for. *)
Definition NewConnection (s : Service) (segments : list (list Z)) : res admission :=
  match segments with
  | [] => Err EOF
  | segment :: segments' =>
      let key := take (Z.to_nat KeyLength) segment in
      let rest := drop (Z.to_nat KeyLength) segment ++ concat segments' in
      if negb (zlen key =? KeyLength) then fallback s key rest (ENew "bad request size")
      else
        match s_keys s !! key with
        | None => fallback s key rest (ENew "bad request")
        | Some user =>
            let! ' ((command, destination), rest) := read_request rest in
            Ok (if command =? CommandTCP then NewConnectionEx user destination rest
                else if command =? CommandUDP then NewPacketConnectionEx user destination rest
                else HandleMuxConnection user rest)
        end
  end.

End Service.
End Trojan.
