(* ===== verification/TrojanProofs.v ===== *)
(** What a Trojan client writes is what the service hands on: streams and datagrams
    round trip, also when packets are written concurrently, and only users with a
    known password are admitted. *)

From S2P Require Import Prelude NetAddr Binary NetConn Trojan.

Section Proofs.
Context {Pkg : TrojanPkg}.

Lemma hex_Encode_length l : zlen (hex_Encode l) = 2 * zlen l.
Proof. unfold hex_Encode. induction l as [|x l IH]; [done|]. cbn [map concat]. zlen_solve. Qed.
Lemma Key_length password : zlen (Key password) = KeyLength.
Proof. unfold Key. by rewrite hex_Encode_length, Sum224_law. Qed.

(** * Users *)

Section Users.
Context {K : Type} `{Countable K}.
Variable passwordList : list string.

(** The two maps are inverses. *)
Definition inverse (users : gmap K (list Z)) (keys : gmap (list Z) K) : Prop := forall u k, users !! u = Some k <-> keys !! k = Some u.

Lemma inverse_insert users keys u k : inverse users keys -> users !! u = None -> keys !! k = None -> inverse (<[u := k]> users) (<[k := u]> keys).
Proof.
  intros Hi Hu Hk u' k'. rewrite !lookup_insert_Some. split.
  - intros [[-> ->]|[Hne H1]]; [by left|]. right. split; [|by apply Hi]. intros ->. apply Hi in H1. congruence.
  - intros [[-> ->]|[Hne H1]]; [by left|]. right. split; [|by apply Hi]. intros ->. apply Hi in H1. congruence.
Qed.

Lemma UpdateUsers_loop_ok userList : forall i users keys users' keys', inverse users keys ->
  UpdateUsers_loop i userList passwordList users keys = Ok (users', keys') ->
  inverse users' keys' /\ (forall u k, users' !! u = Some k <-> users !! u = Some k
    \/ exists j password, userList !! j = Some u /\ passwordList !! (i + j)%nat = Some password /\ k = Key password).
Proof.
  induction userList as [|user userList IH]; intros i users keys users' keys' Hi H1; cbn [UpdateUsers_loop] in H1.
  - injection H1 as <- <-. split; [done|]. intros u k. split; [by left|]. intros [?|(j & p & Hj & _)]; [done|by rewrite lookup_nil in Hj].
  - case_bool_decide as Hu; [done|]. apply res_bind_ok in H1 as (password & Hp & H1). case_bool_decide as Hk; [done|].
    apply eq_None_not_Some in Hu, Hk. unfold index in Hp. rewrite (proj2 (Z.leb_le _ _)), Nat2Z.id in Hp by lia.
    destruct (passwordList !! i) as [x|] eqn:Ex; [|done]. injection Hp as ->.
    destruct (IH _ _ _ _ _ (inverse_insert _ _ _ _ Hi Hu Hk) H1) as [Hi' Hm]. split; [done|]. intros u k. rewrite Hm, lookup_insert_Some. split.
    + intros [[[<- <-]|[_ Hl]]|(j & p & Hj & Hpj & ->)].
      * right. exists 0%nat, password. by rewrite Nat.add_0_r.
      * by left.
      * right. exists (S j), p. split; [done|]. split; [|done]. by rewrite Nat.add_succ_r.
    + intros [Hl|(j & p & Hj & Hpj & ->)].
      * left. right. split; [congruence|done].
      * destruct j as [|j]; [|right; exists j, p; rewrite Nat.add_succ_r in Hpj; done]. left. left. rewrite Nat.add_0_r, Ex in Hpj. injection Hpj as <-. by injection Hj.
Qed.

(** The keys of the service are those of the passwords of its users. *)
Lemma UpdateUsers_keys (userList : list K) s0 s u k : UpdateUsers userList passwordList s0 = Ok s ->
  s_keys s !! k = Some u <-> exists j password, userList !! j = Some u /\ passwordList !! j = Some password /\ k = Key password.
Proof.
  intros H1. apply res_bind_ok in H1 as ((users & keys) & Hl & [= <-]). change (s_keys _) with keys.
  destruct (UpdateUsers_loop_ok _ _ _ _ _ _ ltac:(intros ? ?; by rewrite !lookup_empty) Hl) as [Hi Hm]. rewrite <- (Hi u k), (Hm u k), lookup_empty. naive_solver.
Qed.

End Users.

(** * Requests *)

Lemma ReadFull_n l rest n : zlen l = Z.of_nat n -> ReadFull n (l ++ rest) = Ok (l, rest).
Proof. intros Hl. apply ReadFull_app. unfold zlen in Hl. lia. Qed.

Lemma read_request_ok command d addr rest : command ∈ [CommandTCP; CommandUDP; CommandMux] -> plain d -> WriteAddrPort d = inr addr ->
  read_request (CRLF ++ [command] ++ addr ++ CRLF ++ rest) = Ok ((command, d), rest).
Proof.
  intros Hc Hd Ha. unfold read_request.
  rewrite (rbind_ok _ _ _ CRLF ([command] ++ addr ++ CRLF ++ rest)) by (apply rcause_ok; by apply ReadFull_n).
  rewrite (rbind_ok _ _ _ command (addr ++ CRLF ++ rest)) by (by apply rcause_ok).
  rewrite (proj2 (inb_true command _) Hc). cbn [negb].
  rewrite (rbind_ok _ _ _ d (CRLF ++ rest)) by (apply rcause_ok; by apply ReadAddrPort_law).
  by rewrite (rbind_ok _ _ _ CRLF rest) by (apply rcause_ok; by apply ReadFull_n).
Qed.

(** Segments that arrive, the first long enough for the key. *)
Definition arrives (stream : list Z) (segments : list (list Z)) : Prop :=
  concat segments = stream /\ match segments with s :: _ => KeyLength <= zlen s | [] => False end.

Lemma NewConnection_key {K} `{Countable K} (s : Service (K := K)) key rest segments : zlen key = KeyLength -> arrives (key ++ rest) segments ->
  NewConnection s segments = match s_keys s !! key with
    | None => fallback s key rest (ENew "bad request")
    | Some user => let! ' ((command, destination), rest) := read_request rest in
        Ok (if command =? CommandTCP then NewConnectionEx user destination rest
            else if command =? CommandUDP then NewPacketConnectionEx user destination rest else HandleMuxConnection user rest)
    end.
Proof.
  intros Hk [Hc Hs]. destruct segments as [|seg segs]; [done|]. cbn [concat] in Hc. unfold NewConnection.
  assert (take (Z.to_nat KeyLength) seg = key /\ drop (Z.to_nat KeyLength) seg ++ concat segs = rest) as [-> ->].
  { rewrite <- (take_drop (Z.to_nat KeyLength) seg), <- app_assoc in Hc. apply app_inj_1 in Hc as [H1 H2]; [done|].
    unfold zlen in *. rewrite length_take. lia. }
  by rewrite Hk, Z.eqb_refl.
Qed.

(** ** Packets *)

Definition frame (p : Socksaddr * list Z) : list Z :=
  match WriteAddrPort (fst p) with inr addr => addr ++ be_split 2 (u16 (zlen (snd p))) ++ CRLF ++ snd p | inl _ => [] end.
Definition packet_ok (p : Socksaddr * list Z) : Prop := plain (fst p) /\ (exists addr, WriteAddrPort (fst p) = inr addr) /\ zlen (snd p) < 2 ^ 16.

(** Packets until the stream ends. *)
Fixpoint read_packets (fuel : nat) (stream : list Z) : res (list (Socksaddr * list Z)) :=
  match stream, fuel with
  | [], _ => Ok []
  | _, O => OutOfFuel
  | _, S fuel' => let! ' (p, rest) := ReadPacket 65535 stream in let! ps := read_packets fuel' rest in Ok (p :: ps)
  end.

Lemma ReadPacket_frame p rest : packet_ok p -> ReadPacket 65535 (frame p ++ rest) = Ok (p, rest).
Proof.
  destruct p as [d payload]. intros (Hd & (addr & Ha) & Hn). unfold frame, ReadPacket. cbn [fst snd] in *. rewrite Ha, <- !app_assoc.
  pose proof (zlen_nonneg payload) as H0. rewrite wrap_small by (unfold is_u; lia).
  rewrite (rbind_ok _ _ _ d (be_split 2 (zlen payload) ++ CRLF ++ payload ++ rest)) by (apply rcause_ok; by apply ReadAddrPort_law).
  rewrite (rbind_ok _ _ _ (zlen payload) (CRLF ++ payload ++ rest)).
  2: { apply rcause_ok. unfold rmap. rewrite (rbind_ok _ _ _ (be_split 2 (zlen payload)) (CRLF ++ payload ++ rest)) by (apply ReadFull_n; apply zlen_be_split).
       unfold rret. rewrite be_combine_split, Z.mod_small; [done|]. change (256 ^ Z.of_nat 2) with (2 ^ 16). lia. }
  rewrite (rbind_ok _ _ _ CRLF (payload ++ rest)) by (apply rcause_ok; by apply ReadFull_n).
  rewrite (proj2 (Z.ltb_ge _ _)) by lia. by rewrite (rbind_ok _ _ _ payload rest) by (apply ReadFull_n; lia).
Qed.

Lemma frame_nonempty p : packet_ok p -> frame p <> [].
Proof.
  destruct p as [d payload]. intros (_ & (addr & Ha) & _). unfold frame. cbn [fst snd] in *. rewrite Ha. intros E%(f_equal length).
  rewrite !length_app, be_split_length in E. cbn in E. lia.
Qed.
Lemma read_packets_frames ps : Forall packet_ok ps -> forall fuel, (length ps <= fuel)%nat -> read_packets fuel (concat (map frame ps)) = Ok ps.
Proof.
  induction 1 as [|p ps Hp Hps IH]; intros fuel Hf; [by destruct fuel|]. destruct fuel as [|fuel]; [cbn in Hf; lia|].
  cbn [map concat]. pose proof (frame_nonempty p Hp) as Hne. pose proof (ReadPacket_frame p (concat (map frame ps)) Hp) as Hr. destruct (frame p ++ _) as [|x l] eqn:E.
  { by apply app_nil in E as [E _]. }
  cbn [read_packets]. rewrite Hr. cbn [res_bind]. rewrite IH; [done|]. cbn in Hf. lia.
Qed.

(** * Streams *)

Lemma conn_Write_quiet p n : n_outcomes n = [] -> conn_Write p n = (None, n <| n_sent := n_sent n ++ [p] |>).
Proof. intros Hq. unfold conn_Write, next_outcome. by rewrite Hq. Qed.

(** Data is written from a slice or from a buffer. *)
Inductive chunk := FromSlice (p : list Z) | FromBuffer (b : buffer).
Definition chunk_data (x : chunk) : list Z := match x with FromSlice p => p | FromBuffer b => buf_Bytes b end.
Definition write_chunk (x : chunk) (c : ClientConn) : res (option error * ClientConn) :=
  match x with FromSlice p => ClientConn_Write p c | FromBuffer b => ClientConn_WriteBuffer b c end.
Fixpoint write_chunks (l : list chunk) (c : ClientConn) : res (option error * ClientConn) :=
  match l with
  | [] => Ok (None, c)
  | x :: l' => let! ' (err, c) := write_chunk x c in match err with None => write_chunks l' c | Some _ => Ok (err, c) end
  end.

(** There is room for the header if the first data comes from a buffer. *)
Definition room (d : Socksaddr) (x : chunk) : Prop :=
  match x with FromSlice _ => True | FromBuffer b => KeyLength + AddrPortLen d + 5 <= buf_Start b end.

Definition request (key : list Z) (command : Z) (addr : list Z) : list Z := key ++ CRLF ++ [command] ++ addr ++ CRLF.

Lemma request_length key command addr : zlen key = KeyLength -> zlen (request key command addr) = KeyLength + zlen addr + 5.
Proof. intros Hk. unfold request, CRLF, KeyLength in *. zlen_solve. Qed.

Lemma write_first key d addr x n : zlen key = KeyLength -> WriteAddrPort d = inr addr -> room d x -> n_outcomes n = [] ->
  write_chunk x (NewClientConn n key d)
  = Ok (None, mkClientConn (n <| n_sent := n_sent n ++ [request key CommandTCP addr ++ chunk_data x] |>) key d true).
Proof.
  intros Hk Ha Hr Hq. pose proof (AddrPortLen_law _ _ Ha) as Hl. pose proof (request_length key CommandTCP addr Hk) as Hreq.
  destruct x as [p|b]; cbn [write_chunk chunk_data].
  - unfold ClientConn_Write, ClientHandshake. cbn [NewClientConn cc_headerWritten cc_key cc_destination cc_ExtendedConn]. rewrite Ha.
    replace (key ++ CRLF ++ [CommandTCP] ++ addr ++ CRLF ++ p) with (request key CommandTCP addr ++ p) by (unfold request; by rewrite <- !app_assoc).
    unfold NewSize. rewrite (proj2 (Z.ltb_ge _ _)) by (rewrite zlen_app; lia). cbn [res_bind]. by rewrite conn_Write_quiet.
  - unfold ClientConn_WriteBuffer, ClientHandshakeBuffer. cbn [NewClientConn cc_headerWritten cc_key cc_destination cc_ExtendedConn]. rewrite Ha.
    cbn in Hr. rewrite (proj2 (Z.ltb_ge _ _)) by lia. change (key ++ CRLF ++ [CommandTCP] ++ addr ++ CRLF) with (request key CommandTCP addr).
    unfold ExtendHeader. rewrite !(proj2 (Z.ltb_ge _ _)) by lia. cbn [orb res_bind buf_Bytes]. by rewrite conn_Write_quiet.
Qed.

Lemma write_rest l : forall c, cc_headerWritten c = true -> n_outcomes (cc_ExtendedConn c) = [] ->
  exists c', write_chunks l c = Ok (None, c') /\ n_sent (cc_ExtendedConn c') = n_sent (cc_ExtendedConn c) ++ map chunk_data l.
Proof.
  induction l as [|x l IH]; intros c Hh Hq; [exists c; by rewrite app_nil_r|]. cbn [write_chunks].
  set (n := (cc_ExtendedConn c) <| n_sent := n_sent (cc_ExtendedConn c) ++ [chunk_data x] |>).
  assert (Hw : write_chunk x c = Ok (None, c <| cc_ExtendedConn := n |>)).
  { destruct x; cbn [write_chunk]; unfold ClientConn_Write, ClientConn_WriteBuffer; by rewrite Hh, conn_Write_quiet. }
  rewrite Hw. cbn [res_bind]. destruct (IH (c <| cc_ExtendedConn := n |>)) as (c' & -> & Hs); [done|done|]. exists c'. split; [done|]. rewrite Hs.
  change (n_sent (cc_ExtendedConn (c <| cc_ExtendedConn := n |>))) with (n_sent (cc_ExtendedConn c) ++ [chunk_data x]). by rewrite <- app_assoc.
Qed.

(** What a client writes, in terms of the whole stream. *)
Lemma write_chunks_stream key d addr x l : zlen key = KeyLength -> WriteAddrPort d = inr addr -> room d x ->
  exists c', write_chunks (x :: l) (NewClientConn (mkNetConn [] []) key d) = Ok (None, c')
  /\ concat (n_sent (cc_ExtendedConn c')) = request key CommandTCP addr ++ concat (map chunk_data (x :: l)).
Proof.
  intros Hk Ha Hr. cbn [write_chunks]. rewrite (write_first _ _ _ _ _ Hk Ha Hr) by done. cbn [res_bind].
  destruct (write_rest l (mkClientConn (mkNetConn [] [request key CommandTCP addr ++ chunk_data x]) key d true)) as (c' & Hc & Hs); [done|done|].
  exists c'. split; [exact Hc|]. rewrite Hs. cbn [map concat cc_ExtendedConn n_sent app]. by rewrite <- !app_assoc.
Qed.

(** * Concurrent packets *)

Record packet_world := mkPacketWorld { pw_conn : ClientPacketConn; pw_writers : list writer }.

Definition writer_packet (x : writer) : Socksaddr * list Z :=
  match x with
  | Checking b d | Locking b d | Holding b d | Writing b d _ | Finishing b d _ | Direct b d | Written b d _ => (d, buf_Bytes b)
  end.
Definition written_packet (x : writer) : option (Socksaddr * list Z) := match x with Written b d _ => Some (d, buf_Bytes b) | _ => None end.
Definition writer_ok (x : writer) : Prop :=
  packet_ok (writer_packet x)
  /\ match x with
     | Checking b d | Locking b d | Holding b d | Writing b d _ | Finishing b d _ | Direct b d | Written b d _ => AddrPortLen d + 4 <= buf_Start b
     end.

(** A new call, or a step of one. *)
Inductive packet_step : packet_world -> packet_world -> Prop :=
| ps_call c ws b d : writer_ok (Checking b d) -> packet_step (mkPacketWorld c ws) (mkPacketWorld c (ws ++ [Checking b d]))
| ps_go c l1 x l2 x' c' : writer_step x c = Some (x', c') ->
    packet_step (mkPacketWorld c (l1 ++ x :: l2)) (mkPacketWorld c' (l1 ++ x' :: l2)).

Definition critical (x : writer) : bool := match x with Holding _ _ | Writing _ _ _ | Finishing _ _ _ => true | _ => false end.
Definition begun (x : writer) : bool := match x with Writing _ _ _ | Finishing _ _ _ => true | _ => false end.

Definition first_packet (key : list Z) (p : Socksaddr * list Z) : list Z :=
  match WriteAddrPort (fst p) with inr addr => request key CommandUDP addr | inl _ => [] end ++ frame p.

(** Before the header is written, and after. *)
Definition before (key stream : list Z) (x : writer) : Prop :=
  match x with
  | Checking _ _ | Locking _ _ | Holding _ _ => True
  | Writing _ _ l => stream ++ concat (map snd l) = first_packet key (writer_packet x)
  | Finishing _ _ err => err = None /\ stream = first_packet key (writer_packet x)
  | Direct _ _ | Written _ _ _ => False
  end.
Definition after (x : writer) : Prop :=
  match x with Writing _ _ _ | Finishing _ _ _ => False | Written _ _ err => err = None | _ => True end.

Record packets_ok (key : list Z) (w : packet_world) : Prop := {
  po_key : cp_key (pw_conn w) = key;
  po_quiet : n_outcomes (cp_Conn (pw_conn w)) = [];
  po_writers : Forall writer_ok (pw_writers w);
  po_lock : length (List.filter critical (pw_writers w)) = if cp_access (pw_conn w) then 1%nat else 0%nat;
  po_before : cp_headerWritten (pw_conn w) = false ->
    let stream := concat (n_sent (cp_Conn (pw_conn w))) in
    Forall (before key stream) (pw_writers w) /\ (stream = [] \/ Exists (fun x => begun x = true) (pw_writers w));
  po_after : cp_headerWritten (pw_conn w) = true ->
    Forall after (pw_writers w) /\ exists d addr ps, plain d /\ WriteAddrPort d = inr addr
    /\ concat (n_sent (cp_Conn (pw_conn w))) = request key CommandUDP addr ++ concat (map frame ps)
    /\ Permutation ps (omap written_packet (pw_writers w));
}.

(** ** Steps *)

Lemma filter_middle {A} (f : A -> bool) l1 x l2 : length (List.filter f (l1 ++ x :: l2)) = (length (List.filter f (l1 ++ l2)) + if f x then 1 else 0)%nat.
Proof. rewrite !List.filter_app, !length_app. cbn. destruct (f x); cbn; lia. Qed.
Lemma filter_none_inv {A} (f : A -> bool) l : length (List.filter f l) = 0%nat -> Forall (fun x => f x = false) l.
Proof. induction l as [|x l IH]; intros H1; [done|]. cbn in H1. destruct (f x) eqn:E; [done|]. constructor; auto. Qed.
Lemma Forall_middle {A} (P : A -> Prop) l1 x l2 : Forall P (l1 ++ x :: l2) <-> Forall P (l1 ++ l2) /\ P x.
Proof. rewrite !Forall_app, Forall_cons. tauto. Qed.
Lemma omap_middle {A B} (f : A -> option B) l1 x l2 : Permutation (omap f (l1 ++ x :: l2)) (match f x with Some y => y :: omap f (l1 ++ l2) | None => omap f (l1 ++ l2) end).
Proof. rewrite !omap_app. cbn. destruct (f x); [|done]. symmetry. apply Permutation_middle. Qed.

Section Steps.
Variables (key : list Z) (c : ClientPacketConn) (l1 l2 : list writer) (x : writer).
Hypothesis Hok : packets_ok key (mkPacketWorld c (l1 ++ x :: l2)).

(** Who is in the critical section is there alone. *)
Lemma alone : critical x = true -> cp_access c = true /\ Forall (fun y => critical y = false) (l1 ++ l2).
Proof.
  intros Hx. pose proof (po_lock _ _ Hok) as Hl. cbn in Hl. rewrite filter_middle, Hx in Hl. destruct (cp_access c); [|lia]. split; [done|]. apply filter_none_inv. lia.
Qed.

Lemma idle_before stream stream' y : before key stream y -> critical y = false -> before key stream' y /\ after y /\ written_packet y = None.
Proof. by destruct y. Qed.

Lemma idle_others : critical x = true -> cp_headerWritten c = false ->
  (forall stream, Forall (before key stream) (l1 ++ l2)) /\ Forall after (l1 ++ l2) /\ omap written_packet (l1 ++ l2) = [] /\ Forall (fun y => begun y = false) (l1 ++ l2).
Proof.
  intros Hx Hh. destruct (alone Hx) as [_ Ha]. destruct (po_before _ _ Hok Hh) as [Hb _]. cbn in Hb. apply Forall_middle in Hb as [Hb _].
  assert (Hall : Forall (fun y => (forall stream, before key stream y) /\ after y /\ written_packet y = None /\ begun y = false) (l1 ++ l2)).
  { rewrite Forall_forall in *. intros y Hy. specialize (Ha y Hy). specialize (Hb y Hy). by destruct y. }
  split_and!.
  - intros stream. eapply Forall_impl; [exact Hall|]. intros y (Hy & _). apply Hy.
  - eapply Forall_impl; [exact Hall|]. by intros y (_ & Hy & _).
  - clear -Hall. induction Hall as [|y l (_ & _ & Hy & _) _ IH]; [done|]. cbn. by rewrite Hy.
  - eapply Forall_impl; [exact Hall|]. by intros y (_ & _ & _ & Hy).
Qed.

(** A step that writes nothing and does not change [headerWritten]. *)
Lemma move_ok x' c' : writer_ok x' -> begun x = false -> written_packet x = None -> written_packet x' = None ->
  cp_key c' = cp_key c -> cp_Conn c' = cp_Conn c -> cp_headerWritten c' = cp_headerWritten c ->
  match x' with Checking _ _ | Locking _ _ | Holding _ _ => True | Direct _ _ => cp_headerWritten c = true | _ => False end ->
  (length (List.filter critical (l1 ++ l2)) + (if critical x' then 1 else 0) = if cp_access c' then 1 else 0)%nat ->
  packets_ok key (mkPacketWorld c' (l1 ++ x' :: l2)).
Proof.
  destruct Hok as [Hk Hq Hw Hl Hb Ha]. cbn [pw_conn pw_writers] in *. intros Hx' Hbx Hwx Hwx' Ek Ec Eh Hkind Hlock.
  apply Forall_middle in Hw as [Hw _]. constructor; cbn [pw_conn pw_writers]; rewrite ?Ek, ?Ec, ?Eh; [done|done| | | |].
  - by apply Forall_middle.
  - by rewrite filter_middle.
  - intros Hh. destruct (Hb Hh) as [Hf Hs]. cbn [pw_writers] in *. apply Forall_middle in Hf as [Hf _]. split.
    + apply Forall_middle. split; [done|]. destruct x'; try done. congruence.
    + destruct Hs as [Hs|Hs]; [by left|]. right. apply Exists_app in Hs as [Hs|Hs]; [apply Exists_app; by left|].
      apply Exists_cons in Hs as [Hs|Hs]; [congruence|]. apply Exists_app. right. by apply Exists_cons_tl.
  - intros Hh. destruct (Ha Hh) as [Hf (d & addr & ps & Hd & Haddr & Hs & Hp)]. apply Forall_middle in Hf as [Hf _]. split.
    + apply Forall_middle. split; [done|]. by destruct x'.
    + exists d, addr, ps. split; [done|]. split; [done|]. split; [done|]. rewrite Hp, !omap_middle, Hwx, Hwx'. done.
Qed.

Lemma begin_ok b d l : x = Holding b d -> cp_headerWritten c = false -> concat (map snd l) = first_packet key (d, buf_Bytes b) ->
  packets_ok key (mkPacketWorld c (l1 ++ Writing b d l :: l2)).
Proof.
  intros Hx Hh Hc. destruct (idle_others ltac:(by rewrite Hx) Hh) as (Hbef & _ & _ & Hbegun).
  destruct Hok as [Hk Hq Hw Hl Hb Ha]. clear Hok. subst x. cbn [pw_conn pw_writers] in *.
  assert (Hs : concat (n_sent (cp_Conn c)) = []).
  { destruct (Hb Hh) as [_ [Hs|Hs]]; [done|]. exfalso. rewrite Forall_forall in Hbegun. apply Exists_exists in Hs as (y & Hin & Hy).
    apply elem_of_app in Hin as [Hin|Hin]; [rewrite (Hbegun y) in Hy; [done|set_solver]|].
    apply elem_of_cons in Hin as [->|Hin]; [done|]. rewrite (Hbegun y) in Hy; [done|set_solver]. }
  constructor; cbn [pw_conn pw_writers]; [done|done| | | |congruence].
  - apply Forall_middle in Hw as [Hw Hx]. by apply Forall_middle.
  - rewrite filter_middle in *. done.
  - intros _. split; [apply Forall_middle; split; [apply Hbef|]; cbn; by rewrite Hs|]. right. apply Exists_app. right. by apply Exists_cons_hd.
Qed.

Lemma begun_early : begun x = true -> cp_headerWritten c = false.
Proof.
  intros Hx. destruct (cp_headerWritten c) eqn:E; [|done]. destruct (po_after _ _ Hok E) as [Hf _]. cbn in Hf. apply Forall_middle in Hf as [_ Hf]. by destruct x.
Qed.

(** A write of the handshake, and its end. *)
Lemma write_ok b d message p l : x = Writing b d ((message, p) :: l) ->
  packets_ok key (mkPacketWorld (c <| cp_Conn := (cp_Conn c) <| n_sent := n_sent (cp_Conn c) ++ [p] |> |>) (l1 ++ Writing b d l :: l2)).
Proof.
  intros Hx. assert (Hh : cp_headerWritten c = false) by (apply begun_early; by rewrite Hx).
  destruct (idle_others ltac:(by rewrite Hx) Hh) as (Hbef & _ & _ & _). destruct Hok as [Hk Hq Hw Hl Hb Ha]. clear Hok. subst x. cbn [pw_conn pw_writers] in *.
  destruct (Hb Hh) as [Hf _]. apply Forall_middle in Hf as [_ Hf]. cbn [before map snd concat] in Hf.
  constructor; cbn [pw_conn pw_writers]; [done|done| | | |].
  - apply Forall_middle in Hw as [Hw Hx]. by apply Forall_middle.
  - rewrite filter_middle in *. done.
  - intros _. split; [|right; apply Exists_app; right; by apply Exists_cons_hd]. apply Forall_middle. split; [apply Hbef|].
    change (n_sent (cp_Conn _)) with (n_sent (cp_Conn c) ++ [p]). cbn [before]. rewrite concat_app. cbn [concat]. by rewrite app_nil_r, <- app_assoc.
  - change (cp_headerWritten _) with (cp_headerWritten c). congruence.
Qed.
Lemma written_ok b d : x = Writing b d [] -> packets_ok key (mkPacketWorld c (l1 ++ Finishing b d None :: l2)).
Proof.
  intros Hx. assert (Hh : cp_headerWritten c = false) by (apply begun_early; by rewrite Hx).
  destruct (idle_others ltac:(by rewrite Hx) Hh) as (Hbef & _ & _ & _). destruct Hok as [Hk Hq Hw Hl Hb Ha]. clear Hok. subst x. cbn [pw_conn pw_writers] in *.
  destruct (Hb Hh) as [Hf _]. apply Forall_middle in Hf as [_ Hf]. cbn [before map concat] in Hf. rewrite app_nil_r in Hf.
  constructor; cbn [pw_conn pw_writers]; [done|done| | | |congruence].
  - apply Forall_middle in Hw as [Hw Hx]. by apply Forall_middle.
  - rewrite filter_middle in *. done.
  - intros _. split; [|right; apply Exists_app; right; by apply Exists_cons_hd]. apply Forall_middle. split; [apply Hbef|]. done.
Qed.

(** The header is out. *)
Lemma flag_ok b d err : x = Finishing b d err ->
  packets_ok key (mkPacketWorld (c <| cp_headerWritten := true |> <| cp_access := false |>) (l1 ++ Written b d err :: l2)).
Proof.
  intros Hx. assert (Hh : cp_headerWritten c = false) by (apply begun_early; by rewrite Hx).
  destruct (idle_others ltac:(by rewrite Hx) Hh) as (_ & Haft & Hnone & _). destruct (alone ltac:(by rewrite Hx)) as [_ Halone].
  destruct Hok as [Hk Hq Hw Hl Hb Ha]. clear Hok. subst x. cbn [pw_conn pw_writers] in *.
  destruct (Hb Hh) as [Hf _]. apply Forall_middle in Hf as [_ [-> Hf]]. cbn [writer_packet] in Hf. apply Forall_middle in Hw as [Hw Hx].
  constructor; cbn [pw_conn pw_writers]; [done|done| | |done|].
  - by apply Forall_middle.
  - change (cp_access _) with false. rewrite filter_middle. cbn [critical]. clear -Halone.
    induction Halone as [|y l Hy _ IH]; [done|]. cbn [List.filter]. by rewrite Hy.
  - intros _. split; [by apply Forall_middle|]. destruct Hx as [(Hd & (addr & Ha') & _) _]. cbn [writer_packet fst] in *.
    exists d, addr, [(d, buf_Bytes b)]. split; [done|]. split; [done|]. change (n_sent (cp_Conn _)) with (n_sent (cp_Conn c)). split.
    + rewrite Hf. unfold first_packet. cbn [fst map concat]. by rewrite Ha', app_nil_r.
    + rewrite omap_middle. cbn [written_packet]. by rewrite Hnone.
Qed.

(** A packet without the header. *)
Lemma direct_ok b d : x = Direct b d -> packets_ok key (mkPacketWorld
  (c <| cp_Conn := (cp_Conn c) <| n_sent := n_sent (cp_Conn c) ++ [frame (d, buf_Bytes b)] |> |>) (l1 ++ Written b d None :: l2)).
Proof.
  intros Hx. destruct Hok as [Hk Hq Hw Hl Hb Ha]. clear Hok. subst x. cbn [pw_conn pw_writers] in *. apply Forall_middle in Hw as [Hw Hx].
  assert (Hh : cp_headerWritten c = true).
  { destruct (cp_headerWritten c) eqn:E; [done|]. destruct (Hb eq_refl) as [Hf _]. by apply Forall_middle in Hf as [_ Hf]. }
  destruct (Ha Hh) as [Hf (d0 & addr & ps & Hd & Haddr & Hs & Hp)]. apply Forall_middle in Hf as [Hf _].
  constructor; cbn [pw_conn pw_writers]; [done|done| | | |].
  - by apply Forall_middle.
  - rewrite filter_middle in *. done.
  - change (cp_headerWritten _) with (cp_headerWritten c). congruence.
  - intros _. split; [by apply Forall_middle|]. exists d0, addr, (ps ++ [(d, buf_Bytes b)]). split; [done|]. split; [done|]. split.
    + change (n_sent (cp_Conn _)) with (n_sent (cp_Conn c) ++ [frame (d, buf_Bytes b)]). rewrite concat_app, Hs, map_app, concat_app. cbn [map concat]. by rewrite <- app_assoc.
    + rewrite omap_middle. cbn [written_packet]. rewrite omap_middle in Hp. cbn [written_packet] in Hp. by rewrite Hp, <- Permutation_cons_append.
Qed.

End Steps.

Lemma handshake_writes_ok key b d : zlen key = KeyLength -> packet_ok (d, buf_Bytes b) ->
  exists l, handshake_writes key d b = Ok (inr l) /\ concat (map snd l) = first_packet key (d, buf_Bytes b).
Proof.
  intros Hk (_ & (addr & Ha) & _). cbn [fst] in Ha. pose proof (AddrPortLen_law _ _ Ha) as Hl. unfold handshake_writes, first_packet, frame. cbn [fst snd]. rewrite Ha.
  set (header := key ++ _). assert (Hh : zlen header = KeyLength + 2 * AddrPortLen d + 9).
  { unfold header, CRLF. rewrite !zlen_app, zlen_be_split, Hk. unfold KeyLength. zlen_solve. }
  assert (Hcat : header ++ buf_Bytes b = request key CommandUDP addr ++ addr ++ be_split 2 (u16 (zlen (buf_Bytes b))) ++ CRLF ++ buf_Bytes b).
  { unfold header, request, buf_Len. by rewrite <- !app_assoc. }
  destruct (_ <=? _) eqn:E.
  - unfold ExtendHeader. rewrite (proj2 (Z.ltb_ge _ _)), (proj2 (Z.ltb_ge _ _)) by lia. cbn [orb res_bind]. eexists. split; [done|]. cbn [map snd concat buf_Bytes]. by rewrite app_nil_r.
  - unfold NewSize. rewrite (proj2 (Z.ltb_ge _ _)) by lia. cbn [res_bind]. eexists. split; [done|]. cbn [map snd concat]. by rewrite app_nil_r.
Qed.

Lemma WritePacket_ok b d n : writer_ok (Direct b d) -> n_outcomes n = [] ->
  WritePacket b d n = Ok (None, n <| n_sent := n_sent n ++ [frame (d, buf_Bytes b)] |>).
Proof.
  intros [(_ & (addr & Ha) & _) Hr] Hq. cbn [writer_packet fst] in *. pose proof (AddrPortLen_law _ _ Ha) as Hl. unfold WritePacket, frame. cbn [fst snd].
  rewrite (proj2 (Z.ltb_ge _ _)), Ha by lia. unfold ExtendHeader. rewrite !(proj2 (Z.ltb_ge _ _)) by (unfold CRLF; zlen_solve). cbn [orb res_bind buf_Bytes].
  rewrite conn_Write_quiet by done. unfold buf_Len. by rewrite <- !app_assoc.
Qed.

Lemma packet_step_ok key w w' : zlen key = KeyLength -> packets_ok key w -> packet_step w w' -> packets_ok key w'.
Proof.
  intros Hk Hok Hstep. destruct Hstep as [c ws b d Hb|c l1 x l2 x' c' Hs].
  - destruct Hok as [Hk' Hq Hw Hl Hb' Ha]. cbn [pw_conn pw_writers] in *. constructor; cbn [pw_conn pw_writers]; [done|done| | | |].
    + apply Forall_app. split; [done|]. by apply Forall_singleton.
    + rewrite List.filter_app. cbn [List.filter critical]. by rewrite app_nil_r.
    + intros Hh. destruct (Hb' Hh) as [Hf Hs]. split; [apply Forall_app; split; [done|by apply Forall_singleton]|]. destruct Hs as [Hs|Hs]; [by left|]. right. apply Exists_app. by left.
    + intros Hh. destruct (Ha Hh) as [Hf (d0 & addr & ps & Hd & Haddr & Hs & Hp)]. split; [apply Forall_app; split; [done|by apply Forall_singleton]|].
      exists d0, addr, ps. rewrite omap_app. cbn [omap list_omap written_packet]. by rewrite app_nil_r.
  - pose proof (po_writers _ _ Hok) as Hw. pose proof (po_lock _ _ Hok) as Hl. pose proof (po_quiet _ _ Hok) as Hq. pose proof (po_key _ _ Hok) as Hkey. cbn [pw_writers pw_conn] in *.
    apply Forall_middle in Hw as [_ Hx]. rewrite filter_middle in Hl. destruct x as [b d|b d|b d|b d [|[message p] l]|b d err|b d|b d err]; cbn [writer_step critical] in *.
    + injection Hs as <- <-. destruct (cp_headerWritten c) eqn:E; apply (move_ok key c l1 l2 _ Hok); done.
    + destruct (cp_access c); [done|]. injection Hs as <- <-. apply (move_ok key c l1 l2 _ Hok); try done. cbn [critical]. change (cp_access _) with true. cbv iota. lia.
    + destruct (cp_headerWritten c) eqn:E.
      * injection Hs as <- <-. apply (move_ok key c l1 l2 _ Hok); try done. cbn [critical]. change (cp_access _) with false. cbv iota. destruct (cp_access c); lia.
      * destruct (handshake_writes_ok key b d Hk (proj1 Hx)) as (l & Hl' & Hc). rewrite Hkey, Hl' in Hs. injection Hs as <- <-. by apply (begin_ok key c l1 l2 _ Hok b d l).
    + injection Hs as <- <-. by apply (written_ok key c l1 l2 _ Hok).
    + rewrite conn_Write_quiet in Hs by done. injection Hs as <- <-. by apply (write_ok key c l1 l2 _ Hok b d message).
    + injection Hs as <- <-. by apply (flag_ok key c l1 l2 _ Hok).
    + rewrite WritePacket_ok in Hs by done. injection Hs as <- <-. by apply (direct_ok key c l1 l2 _ Hok).
    + done.
Qed.

Definition packet_start (key : list Z) : packet_world := mkPacketWorld (NewClientPacketConn (mkNetConn [] []) key) [].

Lemma packets_reachable key w : zlen key = KeyLength -> rtc packet_step (packet_start key) w -> packets_ok key w.
Proof.
  intros Hk Hrun. refine (rtc_ind_r (R := packet_step) (packets_ok key) (packet_start key) _ _ w Hrun).
  - constructor; try done. intros _. split; [done|]. by left.
  - intros w1 w2 _ Hs Hw. by eapply packet_step_ok.
Qed.

Lemma UpdateUsers_fallback {K} `{Countable K} (userList : list K) passwordList s0 s :
  UpdateUsers userList passwordList s0 = Ok s -> s_fallbackHandler s = s_fallbackHandler s0.
Proof. unfold UpdateUsers. intros Hu. apply res_bind_ok in Hu as ([users keys] & _ & [= <-]). done. Qed.

End Proofs.

(** C20: admission.  After users were updated, a connection whose first segment starts
    with the key that the password of a user makes is given to this user, and to none
    else, with the request read from what follows, or fails if the request is bad.  Any
    other connection, also one whose first segment is too short for a key, is given to
    the fallback with nothing lost, or refused if there is none. *)
Theorem trojan_admission {Pkg : TrojanPkg} {K} `{Countable K} (userList : list K) passwordList s0 s segment segments :
  UpdateUsers userList passwordList s0 = Ok s ->
  let stream := concat (segment :: segments) in
  let header := take (Z.to_nat KeyLength) segment in
  let admitted user := exists j password, userList !! j = Some user /\ passwordList !! j = Some password /\ header = Key password in
  (forall user, admitted user -> (forall user', admitted user' -> user' = user)
     /\ NewConnection s (segment :: segments)
        = let! ' ((command, destination), rest) := read_request (drop (Z.to_nat KeyLength) stream) in
          Ok (if command =? CommandTCP then NewConnectionEx user destination rest
              else if command =? CommandUDP then NewPacketConnectionEx user destination rest
              else HandleMuxConnection user rest))
  /\ ((forall user, ~ admitted user) ->
      if s_fallbackHandler s0 then exists rest, NewConnection s (segment :: segments) = Ok (FallbackEx header rest) /\ header ++ rest = stream
      else exists e, NewConnection s (segment :: segments) = Err e).
Proof.
  intros Hu stream header admitted. unfold NewConnection. cbv zeta. fold header. set (rest := drop _ segment ++ _).
  assert (Hst : header ++ rest = stream) by (unfold header, rest, stream; cbn [concat]; by rewrite app_assoc, take_drop).
  assert (Hiff : forall user, admitted user <-> s_keys s !! header = Some user).
  { intros user. by rewrite (UpdateUsers_keys passwordList userList s0 s). }
  split.
  - intros user Ha. split; [intros user' Ha'; apply Hiff in Ha, Ha'; congruence|].
    assert (Hlen : zlen header = KeyLength) by (destruct Ha as (j & password & _ & _ & ->); apply Key_length).
    rewrite (proj2 (Z.eqb_eq _ _) Hlen). cbn [negb]. rewrite (proj1 (Hiff user) Ha).
    assert (Hdrop : drop (Z.to_nat KeyLength) stream = rest); [|by rewrite Hdrop].
    rewrite <- Hst. unfold zlen in Hlen. rewrite <- Hlen, Nat2Z.id. apply drop_app_length.
  - intros Hno. rewrite <- (UpdateUsers_fallback _ _ _ _ Hu). assert (Hk : s_keys s !! header = None).
    { apply eq_None_not_Some. intros [user E]. by apply Hiff, Hno in E. }
    rewrite Hk. unfold fallback. destruct (s_fallbackHandler s); [exists rest; split; [by destruct (negb _)|done]|].
    destruct (negb _); by eexists.
Qed.

(** C19: streams round trip.  What a client writes to its connection, from slices or
    buffers, reaches the service as a connection of its user to its destination that
    carries exactly this data, however it is cut into segments after the key. *)
Theorem trojan_stream {Pkg : TrojanPkg} {K} `{Countable K} (userList : list K) passwordList s0 s j user password d addr x l :
  UpdateUsers userList passwordList s0 = Ok s -> userList !! j = Some user -> passwordList !! j = Some password ->
  plain d -> WriteAddrPort d = inr addr -> room d x ->
  exists c, write_chunks (x :: l) (NewClientConn (mkNetConn [] []) (Key password) d) = Ok (None, c)
  /\ forall segments, arrives (concat (n_sent (cc_ExtendedConn c))) segments ->
     NewConnection s segments = Ok (NewConnectionEx user d (concat (map chunk_data (x :: l)))).
Proof.
  intros Hu Hj Hp Hd Ha Hr. destruct (write_chunks_stream (Key password) d addr x l (Key_length password) Ha Hr) as (c & Hc & Hs). exists c. split; [done|].
  intros segments Harr. rewrite Hs in Harr. unfold request in Harr. rewrite <- !app_assoc in Harr.
  rewrite (NewConnection_key s (Key password) _ _ (Key_length password) Harr).
  rewrite (proj2 (UpdateUsers_keys passwordList userList s0 s user (Key password) Hu)) by (by exists j, password).
  rewrite (read_request_ok CommandTCP d addr) by (done || by left). done.
Qed.

(** C18: datagrams round trip.  However calls that write packets interleave, also
    while the header is not yet written, the service gets one request for datagrams
    from the user, and reads from it each packet once and nothing else. *)
Theorem trojan_datagrams {Pkg : TrojanPkg} {K} `{Countable K} (userList : list K) passwordList s0 s j user password w segments :
  UpdateUsers userList passwordList s0 = Ok s -> userList !! j = Some user -> passwordList !! j = Some password ->
  rtc packet_step (packet_start (Key password)) w -> pw_writers w <> [] -> Forall (fun x => is_Some (written_packet x)) (pw_writers w) ->
  arrives (concat (n_sent (cp_Conn (pw_conn w)))) segments ->
  exists d rest ps, NewConnection s segments = Ok (NewPacketConnectionEx user d rest) /\ read_packets (length rest) rest = Ok ps
  /\ Permutation ps (map writer_packet (pw_writers w)).
Proof.
  intros Hu Hj Hp Hrun Hne Hdone Harr. destruct (packets_reachable (Key password) w (Key_length password) Hrun) as [_ _ Hw _ Hb Ha].
  assert (Hh : cp_headerWritten (pw_conn w) = true).
  { destruct (cp_headerWritten (pw_conn w)); [done|]. destruct (Hb eq_refl) as [Hf _]. destruct (pw_writers w) as [|y ys]; [done|].
    apply Forall_cons in Hf as [Hf _]. apply Forall_cons in Hdone as [[p Hy] _]. by destruct y. }
  destruct (Ha Hh) as [_ (d & addr & ps & Hd & Haddr & Hs & Hperm)]. rewrite Hs in Harr. unfold request in Harr. rewrite <- !app_assoc in Harr.
  assert (Hps : Permutation ps (map writer_packet (pw_writers w))).
  { rewrite Hperm. clear -Hdone. induction Hdone as [|y ys [p Hy] _ IH]; [done|]. cbn. rewrite Hy. destruct y; try done. injection Hy as <-. by rewrite IH. }
  assert (Hok : Forall packet_ok ps) by (rewrite Hps; apply Forall_map; eapply Forall_impl; [exact Hw|]; by intros y [Hy _]).
  exists d, (concat (map frame ps)), ps. split; [|split; [|done]].
  - rewrite (NewConnection_key s (Key password) _ _ (Key_length password) Harr).
    rewrite (proj2 (UpdateUsers_keys passwordList userList s0 s user (Key password) Hu)) by (by exists j, password).
    rewrite (read_request_ok CommandUDP d addr) by (done || by right; left). done.
  - apply read_packets_frames; [done|]. clear -Hok. induction Hok as [|p ps Hp _ IH]; [done|]. cbn [map concat length]. rewrite length_app.
    pose proof (frame_nonempty p Hp). destruct (frame p); [done|]. cbn. lia.
Qed.

(** * An instance *)

Definition example_Write (d : Socksaddr) : error + list Z :=
  if zlen (bytes_of_string (Fqdn d)) <? 256
  then inr ([3; zlen (bytes_of_string (Fqdn d))] ++ bytes_of_string (Fqdn d) ++ be_split 2 (Port d)) else inl (ENew "domain too long").
Definition example_Read : reader Socksaddr :=
  _ <- ReadByte ;; n <- ReadByte ;; name <- ReadFull (Z.to_nat n) ;; port <- ReadFull 2 ;;
  rret (mkSocksaddr zeroAddr (be_combine port) (string_of_bytes name)).

#[export] Instance trojan_pkg : TrojanPkg.
Proof.
  refine {| AddrPortLen d := zlen (bytes_of_string (Fqdn d)) + 4; WriteAddrPort := example_Write; ReadAddrPort := example_Read;
    plain d := Socksaddr_Addr d = zeroAddr /\ is_u 16 (Port d); Sum224 l := take 28 (l ++ repeat 0 28) |}.
  - intros d l. unfold example_Write. destruct (_ <? 256); [|done]. intros [= <-]. zlen_solve.
  - intros [a p n] l rest [Ha Hp]. cbn in Ha, Hp. subst a. unfold example_Write. cbn [Fqdn Port]. destruct (_ <? 256) eqn:E; [|done]. intros [= <-].
    set (name := bytes_of_string n) in *. unfold example_Read. cbn [app]. rewrite <- !app_assoc.
    rewrite (rbind_ok _ _ _ 3 (zlen name :: name ++ be_split 2 p ++ rest)) by done. rewrite (rbind_ok _ _ _ (zlen name) (name ++ be_split 2 p ++ rest)) by done.
    rewrite (rbind_ok _ _ _ name (be_split 2 p ++ rest)) by (apply ReadFull_n; unfold zlen; lia).
    rewrite (rbind_ok _ _ _ (be_split 2 p) rest) by (apply ReadFull_n; apply zlen_be_split). unfold rret.
    rewrite be_combine_split, Z.mod_small by (unfold is_u in Hp; change (256 ^ Z.of_nat 2) with (2 ^ 16); lia). unfold name. by rewrite string_of_bytes_of_string.
  - intros l. unfold zlen. rewrite length_take, length_app, repeat_length. lia.
Defined.

Definition trojan_users : list string := ["alice"; "bob"].
Definition trojan_passwords : list string := ["first"; "second"].
Definition trojan_service : Service (K := string) := match UpdateUsers trojan_users trojan_passwords (NewService true) with Ok s => s | _ => NewService true end.
Definition example_destination : Socksaddr := mkSocksaddr zeroAddr 443 "example.org".

Lemma trojan_service_ok : UpdateUsers trojan_users trojan_passwords (NewService true) = Ok trojan_service.
Proof. vm_compute. reflexivity. Qed.

Lemma trojan_admission_witness :
  (exists rest, NewConnection trojan_service [Key "third" ++ [13; 10; 1]] = Ok (FallbackEx (Key "third") rest) /\ Key "third" ++ rest = Key "third" ++ [13; 10; 1])
  /\ (exists rest, NewConnection trojan_service [[1; 2]; [3]] = Ok (FallbackEx [1; 2] rest) /\ [1; 2] ++ rest = [1; 2; 3])
  /\ forall user, (exists j password, trojan_users !! j = Some user /\ trojan_passwords !! j = Some password /\ Key "second" = Key password) -> user = "bob".
Proof.
  assert (Hkeys : forall k, (forall j password, trojan_passwords !! j = Some password -> k <> Key password) ->
    forall user, ~ exists j password, trojan_users !! j = Some user /\ trojan_passwords !! j = Some password /\ k = Key password).
  { intros k Hk user (j & password & _ & Hp & E). by apply (Hk j password). }
  split; [|split].
  - refine (proj2 (trojan_admission trojan_users trojan_passwords (NewService true) trojan_service (Key "third" ++ [13; 10; 1]) [] trojan_service_ok) _).
    apply Hkeys. intros [|[|j]] password [= <-]; vm_compute; discriminate.
  - refine (proj2 (trojan_admission trojan_users trojan_passwords (NewService true) trojan_service [1; 2] [[3]] trojan_service_ok) _).
    apply Hkeys. intros [|[|j]] password [= <-]; vm_compute; discriminate.
  - refine (proj1 (proj1 (trojan_admission trojan_users trojan_passwords (NewService true) trojan_service (Key "second") [] trojan_service_ok) "bob" _)).
    exists 1%nat, "second". split; [reflexivity|]. split; reflexivity.
Defined.

Lemma trojan_stream_witness : exists c,
  write_chunks [FromSlice [1; 2]; FromBuffer (mkBuffer 0 [3])] (NewClientConn (mkNetConn [] []) (Key "second") example_destination) = Ok (None, c)
  /\ NewConnection trojan_service [concat (n_sent (cc_ExtendedConn c))] = Ok (NewConnectionEx "bob" example_destination [1; 2; 3]).
Proof.
  destruct (trojan_stream trojan_users trojan_passwords (NewService true) trojan_service 1 "bob" "second" example_destination _ (FromSlice [1; 2]) [FromBuffer (mkBuffer 0 [3])]
    trojan_service_ok eq_refl eq_refl ltac:(split; [reflexivity|vm_compute; split; congruence]) eq_refl I) as (c & Hc & H).
  exists c. split; [exact Hc|]. apply H. split; [apply app_nil_r|].
  assert (E : exists c, write_chunks [FromSlice [1; 2]; FromBuffer (mkBuffer 0 [3])] (NewClientConn (mkNetConn [] []) (Key "second") example_destination) = Ok (None, c)
    /\ KeyLength <= zlen (concat (n_sent (cc_ExtendedConn c)))) by (eexists; split; [vm_compute; reflexivity|vm_compute; congruence]).
  destruct E as (c' & E & Hl). rewrite Hc in E. injection E as ->. exact Hl.
Defined.

(** Calls step in the order of a schedule. *)
Fixpoint run_packets (schedule : list nat) (w : packet_world) : option packet_world :=
  match schedule with
  | [] => Some w
  | i :: schedule' =>
      match pw_writers w !! i with
      | Some x =>
          match writer_step x (pw_conn w) with
          | Some (x', c) => run_packets schedule' (mkPacketWorld c (take i (pw_writers w) ++ x' :: drop (S i) (pw_writers w)))
          | None => None
          end
      | None => None
      end
  end.
Lemma run_packets_rtc schedule : forall w w', run_packets schedule w = Some w' -> rtc packet_step w w'.
Proof.
  induction schedule as [|i schedule IH]; intros w w' H; cbn in H; [injection H as <-; apply rtc_refl|].
  destruct w as [c ws]. cbn in H. destruct (ws !! i) as [x|] eqn:Ei; [|done]. destruct (writer_step x c) as [[x' c']|] eqn:Es; [|done].
  eapply rtc_l; [|by apply IH]. rewrite <- (take_drop_middle ws i x Ei) at 1. by apply ps_go.
Qed.

Definition example_call (payload : Z) : writer := Checking (mkBuffer 64 [payload]) example_destination.
Lemma example_call_ok payload : writer_ok (example_call payload).
Proof.
  split; [|vm_compute; congruence]. split; [split; [reflexivity|vm_compute; split; congruence]|]. split; [eexists; vm_compute; reflexivity|reflexivity].
Qed.
Definition example_calls : packet_world := mkPacketWorld (pw_conn (packet_start (Key "first"))) [example_call 1; example_call 2].
Lemma example_calls_rtc : rtc packet_step (packet_start (Key "first")) example_calls.
Proof.
  eapply rtc_l; [apply (ps_call _ [] _ _ (example_call_ok 1))|]. eapply rtc_l; [apply (ps_call _ [example_call 1] _ _ (example_call_ok 2))|]. apply rtc_refl.
Qed.

(** The second call takes the mutex first. *)
Lemma trojan_datagrams_witness : exists w d rest ps,
  rtc packet_step (packet_start (Key "first")) w
  /\ NewConnection trojan_service [concat (n_sent (cp_Conn (pw_conn w)))] = Ok (NewPacketConnectionEx "alice" d rest)
  /\ read_packets (length rest) rest = Ok ps /\ Permutation ps [(example_destination, [1]); (example_destination, [2])].
Proof.
  assert (Hw : exists w, run_packets [0; 1; 1; 1; 1; 1; 1; 1; 0; 0; 0]%nat example_calls = Some w
    /\ map writer_packet (pw_writers w) = [(example_destination, [1]); (example_destination, [2])]
    /\ Forall (fun x => is_Some (written_packet x)) (pw_writers w) /\ KeyLength <= zlen (concat (n_sent (cp_Conn (pw_conn w))))).
  { eexists. split; [vm_compute; reflexivity|]. split; [vm_compute; reflexivity|]. split; [repeat constructor; eexists; reflexivity|vm_compute; congruence]. }
  destruct Hw as (w & Hrun & Hp & Hd & Hl). assert (Hrtc : rtc packet_step (packet_start (Key "first")) w) by (etrans; [exact example_calls_rtc|by eapply run_packets_rtc]).
  destruct (trojan_datagrams trojan_users trojan_passwords (NewService true) trojan_service 0 "alice" "first" w [concat (n_sent (cp_Conn (pw_conn w)))]
    trojan_service_ok eq_refl eq_refl Hrtc ltac:(by intros E; rewrite E in Hp) Hd (conj (app_nil_r _) Hl)) as (d & rest & ps & H1 & H2 & H3).
  exists w, d, rest, ps. rewrite Hp in H3. split; [exact Hrtc|]. split; [exact H1|]. split; [exact H2|exact H3].
Defined.
