(* ===== verification/Geosite.v ===== *)
(** The geosite database: src/common/geosite, the lists of domains of each code in a
    file, and the rules made of them. *)

From S2P Require Import Prelude Binary.

Record Item := mkItem { it_Type : Z; it_Value : string }.

Definition GeositeDomain : Z := 0.
Definition GeositeDomainSuffix : Z := 1.
Definition GeositeDomainKeyword : Z := 2.
Definition GeositeDomainRegex : Z := 3.

(** * Writing *)

Definition geo_writeString (value : string) : list Z := AppendUvarint (Z.of_nat (String.length value)) ++ bytes_of_string value.
Definition write_geo_item (item : Item) : list Z := it_Type item :: geo_writeString (it_Value item).

(** [sort.Strings] *)
Fixpoint insert_string (s : string) (l : list string) : list string :=
  match l with
  | [] => [s]
  | t :: l' => if String.leb s t then s :: l else t :: insert_string s l'
  end.
Definition sort_Strings (l : list string) : list string := foldr insert_string [] l.

(** The loop that fills [content] and [index]. *)
Fixpoint write_contents (domains : gmap string (list Item)) (keys : list string) (content : list Z) (index : gmap string Z)
    : list Z * gmap string Z :=
  match keys with
  | [] => (content, index)
  | code :: keys' =>
      let items := default [] (domains !! code) in
      write_contents domains keys' (content ++ concat (map write_geo_item items)) (<[code := zlen content]> index)
  end.

Definition geosite_Write (domains : gmap string (list Item)) : list Z :=
  let keys := sort_Strings (map fst (map_to_list domains)) in
  let '(content, index) := write_contents domains keys [] ∅ in
  [0] ++ AppendUvarint (zlen keys)
  ++ concat (map (fun code => geo_writeString code ++ AppendUvarint (default 0 (index !! code)) ++ AppendUvarint (zlen (default [] (domains !! code)))) keys)
  ++ content.

(** * Reading *)

Definition geo_readString : reader string :=
  length <- ReadUvarint ;; result <- read_range length ReadByte ;; rret (string_of_bytes result).

Definition MaxInt32 : Z := 2 ^ 31 - 1.

Definition read_geo_entry : reader (string * Z * Z) :=
  code <- geo_readString ;; codeIndex <- ReadUvarint ;; codeLength <- ReadUvarint ;;
  if (MaxInt32 <? codeIndex) || (MaxInt32 <? codeLength) then rfail (ENew "invalid metadata entry") else rret (code, codeIndex, codeLength).

(** [g_file] is what [Seek] and [Read] work on. *)
Record GeoReader := mkGeoReader {
  g_file : list Z;
  g_metadataIndex : Z;
  g_domainIndex : gmap string Z;
  g_domainLength : gmap string Z;
}.

Definition readMetadata (file : list Z) : res GeoReader :=
  let! ' (version, rest) := ReadByte file in
  if negb (version =? 0) then Err (ENew "unknown version") else
  let! ' (entryLength, rest) := ReadUvarint rest in
  let! ' (entries, rest) := read_range entryLength read_geo_entry rest in
  Ok (mkGeoReader file (zlen file - zlen rest)
        (fold_left (fun m '(code, i, _) => <[code := i]> m) entries ∅)
        (fold_left (fun m '(code, _, n) => <[code := n]> m) entries ∅)).

Definition NewGeoReader (file : list Z) : res (GeoReader * list string) :=
  let! reader := readMetadata file in Ok (reader, map fst (map_to_list (g_domainIndex reader))).

Definition read_geo_item : reader Item := typeByte <- ReadByte ;; value <- geo_readString ;; rret (mkItem typeByte value).

Definition geosite_Read (r : GeoReader) (code : string) : res (list Item) :=
  match g_domainIndex r !! code with
  | None => Err (ENew "code not exists!")
  | Some index =>
      let! ' (items, _) := read_range (default 0 (g_domainLength r !! code)) read_geo_item (drop (Z.to_nat (g_metadataIndex r + index)) (g_file r)) in
      Ok items
  end.

(** * Rules *)

(** The fields of [option.DefaultRule] that are set. *)
Record domain_rule := mkDomainRule {
  dr_Domain : list string;
  dr_DomainSuffix : list string;
  dr_DomainKeyword : list string;
  dr_DomainRegex : list string;
}.

Definition compile_item (rule : domain_rule) (item : Item) : domain_rule :=
  let v := it_Value item in
  if it_Type item =? GeositeDomain then rule <| dr_Domain := dr_Domain rule ++ [v] |>
  else if it_Type item =? GeositeDomainSuffix then rule <| dr_DomainSuffix := dr_DomainSuffix rule ++ [v] |>
  else if it_Type item =? GeositeDomainKeyword then rule <| dr_DomainKeyword := dr_DomainKeyword rule ++ [v] |>
  else if it_Type item =? GeositeDomainRegex then rule <| dr_DomainRegex := dr_DomainRegex rule ++ [v] |>
  else rule.
Definition geosite_Compile (code : list Item) : domain_rule := fold_left compile_item code (mkDomainRule [] [] [] []).

Definition geosite_Merge (rules : list domain_rule) : domain_rule :=
  fold_left (fun rule subRule => mkDomainRule (dr_Domain rule ++ dr_Domain subRule) (dr_DomainSuffix rule ++ dr_DomainSuffix subRule)
    (dr_DomainKeyword rule ++ dr_DomainKeyword subRule) (dr_DomainRegex rule ++ dr_DomainRegex subRule)) rules (mkDomainRule [] [] [] []).
