(* ===== verification/GeositeProofs.v ===== *)
(** A geosite file holds what was written to it, and any file can be read safely. *)

From S2P Require Import Prelude Binary Geosite.

(** * Strings and items *)

Lemma read_geo_string s rest : Z.of_nat (String.length s) < 2 ^ 64 -> geo_readString (geo_writeString s ++ rest) = Ok (s, rest).
Proof.
  intros Hs. unfold geo_readString, geo_writeString. rewrite <- app_assoc.
  rewrite (rbind_ok _ _ _ (Z.of_nat (String.length s)) (bytes_of_string s ++ rest)) by (apply ReadUvarint_Append; lia).
  pose proof (read_range_app ReadByte (fun x => [x]) (bytes_of_string s) id rest) as Hr. unfold zlen in Hr. rewrite bytes_of_string_length in Hr.
  rewrite concat_singletons in Hr.
  rewrite (rbind_ok _ _ _ (map id (bytes_of_string s)) rest) by (apply Hr; [done|intros; cbn; lia]). rewrite map_id. unfold rret. by rewrite string_of_bytes_of_string.
Qed.
Lemma read_item_ok item rest : Z.of_nat (String.length (it_Value item)) < 2 ^ 64 -> read_geo_item (write_geo_item item ++ rest) = Ok (item, rest).
Proof.
  intros Hs. unfold read_geo_item, write_geo_item. cbn [app]. rewrite (rbind_ok _ _ _ (it_Type item) (geo_writeString (it_Value item) ++ rest)) by done.
  rewrite (rbind_ok _ _ _ (it_Value item) rest) by (by apply read_geo_string). by destruct item.
Qed.

(** * Writing *)

Definition seg (domains : gmap string (list Item)) (code : string) : list Z := concat (map write_geo_item (default [] (domains !! code))).

Lemma insert_string_perm s l : Permutation (insert_string s l) (s :: l).
Proof. induction l as [|t l IH]; [done|]. cbn. destruct (String.leb s t); [done|]. rewrite IH. apply Permutation_swap. Qed.
Lemma sort_Strings_perm l : Permutation (sort_Strings l) l.
Proof. induction l as [|s l IH]; [done|]. cbn. rewrite insert_string_perm. by f_equiv. Qed.

Lemma write_contents_ok domains keys : forall content index, NoDup keys ->
  exists index', write_contents domains keys content index = (content ++ concat (map (seg domains) keys), index')
  /\ (forall code, code ∉ keys -> index' !! code = index !! code)
  /\ forall before code after, keys = before ++ code :: after -> index' !! code = Some (zlen content + zlen (concat (map (seg domains) before))).
Proof.
  induction keys as [|code keys IH]; intros content index Hnd; cbn [write_contents].
  - exists index. cbn. rewrite app_nil_r. split; [done|]. split; [done|]. intros before code after E. by destruct before.
  - apply NoDup_cons in Hnd as [Hnin Hnd]. fold (seg domains code).
    destruct (IH (content ++ seg domains code) (<[code := zlen content]> index) Hnd) as (index' & -> & Hout & Hin). exists index'. split; [by cbn; rewrite <- app_assoc|]. split.
    + intros c Hc. apply not_elem_of_cons in Hc as [Hne Hc]. by rewrite Hout, lookup_insert_ne.
    + intros [|b before] c after E; injection E as -> ->.
      * rewrite Hout, lookup_insert_eq by done. f_equal. cbn. zlen_solve.
      * rewrite (Hin before c after eq_refl). f_equal. cbn [map concat]. zlen_solve.
Qed.

(** * Reading *)

(** The last of the entries of a code counts; here each code has one. *)
Lemma fold_entries {B} (f : string -> B) (keys : list string) : forall m : gmap string B, NoDup keys -> (forall code, code ∈ keys -> m !! code = None) ->
  forall code, fold_left (fun m code => <[code := f code]> m) keys m !! code = if bool_decide (code ∈ keys) then Some (f code) else m !! code.
Proof.
  induction keys as [|k keys IH]; intros m Hnd Hm code; cbn [fold_left]; [by rewrite bool_decide_false by apply not_elem_of_nil|].
  apply NoDup_cons in Hnd as [Hnin Hnd]. rewrite IH; [|done|intros c Hc; rewrite lookup_insert_ne by congruence; apply Hm; by right].
  destruct (decide (code = k)) as [->|Hne].
  - rewrite (bool_decide_false _ Hnin), (bool_decide_true (k ∈ k :: keys)) by by left. apply lookup_insert_eq.
  - rewrite lookup_insert_ne by done. case_bool_decide as Hin; [by rewrite bool_decide_true by by right|]. rewrite bool_decide_false; [done|]. set_solver.
Qed.

Lemma fold_left_map {A B C} (f : C -> B -> C) (g : A -> B) l : forall c, fold_left f (map g l) c = fold_left (fun c a => f c (g a)) l c.
Proof. induction l as [|a l IH]; intros c; [done|]. apply IH. Qed.

(** What the file format can hold. *)
Record storable (domains : gmap string (list Item)) : Prop := {
  st_content : zlen (concat (map (seg domains) (map fst (map_to_list domains)))) <= MaxInt32;
  st_keys : Z.of_nat (size domains) < 2 ^ 64;
  st_names : forall code items, domains !! code = Some items -> Z.of_nat (String.length code) < 2 ^ 64;
}.

Lemma zlen_concat_perm {A} (l l' : list (list A)) : Permutation l l' -> zlen (concat l) = zlen (concat l').
Proof. induction 1; cbn [concat]; rewrite ?zlen_app in *; lia. Qed.
Lemma zlen_concat_in {A} (x : list A) l : x ∈ l -> zlen x <= zlen (concat l).
Proof.
  intros (l1 & l2 & ->)%list_elem_of_split. rewrite concat_app. cbn [concat]. rewrite !zlen_app.
  pose proof (zlen_nonneg (concat l1)). pose proof (zlen_nonneg (concat l2)). lia.
Qed.
Lemma write_item_length item : 1 + Z.of_nat (String.length (it_Value item)) <= zlen (write_geo_item item).
Proof.
  unfold write_geo_item, geo_writeString. rewrite zlen_cons, zlen_app. pose proof (zlen_nonneg (AppendUvarint (Z.of_nat (String.length (it_Value item))))).
  unfold zlen. rewrite bytes_of_string_length. lia.
Qed.
Lemma seg_items items : zlen items <= zlen (concat (map write_geo_item items)).
Proof. induction items as [|i l IH]; [done|]. cbn [map concat]. rewrite zlen_app, zlen_cons. pose proof (write_item_length i). lia. Qed.

Lemma AppendUvarint_some x : (1 <= length (AppendUvarint x))%nat.
Proof. unfold AppendUvarint. cbn [AppendUvarint_loop]. destruct (_ <? _); cbn [length]; lia. Qed.

Section Written.
Variable domains : gmap string (list Item).
Hypothesis Hst : storable domains.

Definition geo_keys : list string := sort_Strings (map fst (map_to_list domains)).
Definition geo_content : list Z := concat (map (seg domains) geo_keys).
Definition items_of (code : string) : list Item := default [] (domains !! code).

Lemma geo_keys_perm : Permutation geo_keys (map fst (map_to_list domains)).
Proof. apply sort_Strings_perm. Qed.
Lemma geo_keys_nodup : NoDup geo_keys.
Proof. rewrite geo_keys_perm. apply NoDup_fst_map_to_list. Qed.
Lemma geo_keys_in code : code ∈ geo_keys <-> is_Some (domains !! code).
Proof.
  rewrite geo_keys_perm. split.
  - intros ([c items] & -> & Hin)%list_elem_of_fmap. apply elem_of_map_to_list in Hin. by exists items.
  - intros [items Hc]. apply list_elem_of_fmap. exists (code, items). split; [done|]. by apply elem_of_map_to_list.
Qed.
Lemma geo_content_size : zlen geo_content <= MaxInt32.
Proof. unfold geo_content. rewrite (zlen_concat_perm _ (map (seg domains) (map fst (map_to_list domains)))); [apply Hst|]. by rewrite geo_keys_perm. Qed.
Lemma geo_keys_size : zlen geo_keys < 2 ^ 64.
Proof. unfold zlen. rewrite geo_keys_perm, length_map, length_map_to_list. apply Hst. Qed.

Lemma geo_index : exists index, write_contents domains geo_keys [] ∅ = (geo_content, index)
  /\ forall before code after, geo_keys = before ++ code :: after -> index !! code = Some (zlen (concat (map (seg domains) before))).
Proof. destruct (write_contents_ok domains geo_keys [] ∅ geo_keys_nodup) as (index & Hw & _ & Hi). by exists index. Qed.

Lemma seg_size code : code ∈ geo_keys -> zlen (seg domains code) <= MaxInt32.
Proof. intros Hc. etrans; [|apply geo_content_size]. apply zlen_concat_in, list_elem_of_fmap. by exists code. Qed.

(** The items of a code are read from its place in the content. *)
Lemma read_items before code after : geo_keys = before ++ code :: after ->
  read_range (zlen (items_of code)) read_geo_item (drop (Z.to_nat (zlen (concat (map (seg domains) before)))) geo_content)
  = Ok (items_of code, concat (map (seg domains) after)).
Proof.
  intros Hk. unfold geo_content. rewrite Hk, map_app, concat_app. cbn [map concat]. unfold zlen at 2. rewrite Nat2Z.id, drop_app_length.
  rewrite <- (map_id (items_of code)) at 2. apply read_range_app.
  - intros item r Hin. apply read_item_ok. pose proof (write_item_length item) as Hw. pose proof (seg_size code ltac:(rewrite Hk; set_solver)) as Hs.
    pose proof (zlen_concat_in (write_geo_item item) (map write_geo_item (items_of code)) ltac:(apply list_elem_of_fmap; by exists item)) as Hc.
    unfold seg in Hs. fold (items_of code) in Hs. unfold MaxInt32 in Hs. lia.
  - intros item _. cbn. lia.
Qed.

Definition geo_entry (index : gmap string Z) (code : string) : list Z :=
  geo_writeString code ++ AppendUvarint (default 0 (index !! code)) ++ AppendUvarint (zlen (items_of code)).

Lemma read_entry index before code after rest : geo_keys = before ++ code :: after ->
  index !! code = Some (zlen (concat (map (seg domains) before))) ->
  read_geo_entry (geo_entry index code ++ rest) = Ok ((code, zlen (concat (map (seg domains) before)), zlen (items_of code)), rest).
Proof.
  intros Hk Hi. assert (Hin : code ∈ geo_keys) by (rewrite Hk; set_solver). pose proof (seg_size code Hin) as Hs. pose proof (seg_items (items_of code)) as Hl.
  pose proof geo_content_size as Hc. unfold geo_content in Hc. rewrite Hk, map_app, concat_app, zlen_app in Hc. pose proof (zlen_nonneg (concat (map (seg domains) (code :: after)))) as H0.
  pose proof (zlen_nonneg (concat (map (seg domains) before))) as H1. pose proof (zlen_nonneg (items_of code)) as H2.
  assert (Hn : Z.of_nat (String.length code) < 2 ^ 64) by (apply geo_keys_in in Hin as [items Hitems]; by apply (st_names _ Hst code items)).
  unfold geo_entry, read_geo_entry. rewrite Hi. cbn [default]. rewrite <- !app_assoc. unfold seg in Hs. fold (items_of code) in Hs. unfold MaxInt32 in *.
  rewrite (rbind_ok _ _ _ code _ (read_geo_string code _ Hn)).
  erewrite (rbind_ok ReadUvarint) by (apply ReadUvarint_Append; change (default 0 (Some ?x)) with x; cbn; lia). cbn [from_option id].
  erewrite (rbind_ok ReadUvarint) by (apply ReadUvarint_Append; lia).
  by replace (_ || _) with false by (symmetry; apply orb_false_iff; lia).
Qed.

(** The reader of the file that was written. *)
Lemma read_written : exists r, readMetadata (geosite_Write domains) = Ok r
  /\ (forall code, g_domainIndex r !! code = None <-> code ∉ geo_keys)
  /\ forall before code after, geo_keys = before ++ code :: after ->
     g_domainIndex r !! code = Some (zlen (concat (map (seg domains) before))) /\ g_domainLength r !! code = Some (zlen (items_of code))
     /\ drop (Z.to_nat (g_metadataIndex r + zlen (concat (map (seg domains) before)))) (g_file r)
        = drop (Z.to_nat (zlen (concat (map (seg domains) before)))) geo_content.
Proof.
  destruct geo_index as (index & Hw & Hi). unfold geosite_Write. fold geo_keys. rewrite Hw.
  change (fun code => geo_writeString code ++ _) with (geo_entry index). set (entries := concat (map (geo_entry index) geo_keys)).
  set (at_ := fun code => default 0 (index !! code)).
  assert (Hr : read_range (zlen geo_keys) read_geo_entry (entries ++ geo_content) = Ok (map (fun code => (code, at_ code, zlen (items_of code))) geo_keys, geo_content)).
  { apply read_range_segments. apply Forall2_fmap_r, Forall_Forall2_diag, Forall_forall. intros code Hin. apply list_elem_of_split in Hin as (before & after & Hk).
    split; [unfold geo_entry, geo_writeString; rewrite !length_app; pose proof (AppendUvarint_some (zlen (items_of code))); lia|].
    intros rest. rewrite (read_entry index before code after rest Hk (Hi _ _ _ Hk)). unfold at_. by rewrite (Hi _ _ _ Hk). }
  unfold readMetadata. cbn [app ReadByte res_bind Z.eqb negb]. rewrite ReadUvarint_Append by (split; [apply zlen_nonneg|apply geo_keys_size]). cbn [res_bind].
  rewrite Hr. cbn [res_bind]. eexists. split; [done|]. cbn [g_domainIndex g_domainLength g_metadataIndex g_file].
  rewrite !fold_left_map. split.
  - intros code. rewrite (fold_entries at_ geo_keys ∅ geo_keys_nodup), lookup_empty by (intros; apply lookup_empty). case_bool_decide; split; done || tauto.
  - intros before code after Hk. assert (Hin : code ∈ geo_keys) by (rewrite Hk; set_solver).
    rewrite (fold_entries at_ geo_keys ∅ geo_keys_nodup) by (intros; apply lookup_empty).
    rewrite (fold_entries (fun code => zlen (items_of code)) geo_keys ∅ geo_keys_nodup) by (intros; apply lookup_empty).
    rewrite !bool_decide_true by done. unfold at_. rewrite (Hi _ _ _ Hk). split; [done|]. split; [done|].
    set (header := 0 :: AppendUvarint (zlen geo_keys) ++ entries). replace (0 :: _) with (header ++ geo_content) by (unfold header; cbn; by rewrite <- app_assoc).
    pose proof (zlen_nonneg (concat (map (seg domains) before))) as H0. rewrite zlen_app.
    replace (zlen header + zlen geo_content - zlen geo_content + zlen (concat (map (seg domains) before)))
      with (Z.of_nat (length header) + zlen (concat (map (seg domains) before))) by (unfold zlen; lia).
    rewrite Z2Nat.inj_add, Nat2Z.id by lia. by rewrite drop_app_add.
Qed.

End Written.

(** * Rules *)

Definition append_rules (a b : domain_rule) : domain_rule :=
  mkDomainRule (dr_Domain a ++ dr_Domain b) (dr_DomainSuffix a ++ dr_DomainSuffix b) (dr_DomainKeyword a ++ dr_DomainKeyword b) (dr_DomainRegex a ++ dr_DomainRegex b).

Lemma compile_append items : forall rule, fold_left compile_item items rule = append_rules rule (geosite_Compile items).
Proof.
  unfold geosite_Compile. induction items as [|item items IH]; intros rule; cbn [fold_left].
  - destruct rule. unfold append_rules. cbn. by rewrite !app_nil_r.
  - rewrite IH, (IH (compile_item _ item)). set (c := fold_left _ _ _). unfold append_rules, compile_item.
    destruct rule, (it_Type item =? GeositeDomain), (it_Type item =? GeositeDomainSuffix), (it_Type item =? GeositeDomainKeyword), (it_Type item =? GeositeDomainRegex);
      cbn; by rewrite <- ?app_assoc.
Qed.
Lemma compile_merge codes : geosite_Merge (map geosite_Compile codes) = geosite_Compile (concat codes).
Proof.
  assert (H : forall rule, fold_left append_rules (map geosite_Compile codes) rule = append_rules rule (geosite_Compile (concat codes))).
  { induction codes as [|c codes IH]; intros rule; cbn [map fold_left concat].
    - destruct rule. unfold append_rules. cbn. by rewrite !app_nil_r.
    - rewrite IH. unfold geosite_Compile at 3. rewrite fold_left_app, compile_append. unfold append_rules. cbn. by rewrite !app_assoc. }
  change (geosite_Merge (map geosite_Compile codes)) with (fold_left append_rules (map geosite_Compile codes) (mkDomainRule [] [] [] [])). rewrite H. by destruct (geosite_Compile _).
Qed.

(** * Any file *)

Lemma consumes_string : consumes 1 geo_readString.
Proof. apply consumes_bind_l; [auto with go|]. intros n. apply consumes_bind_0; auto with go. Qed.
Lemma consumes_item : consumes 1 read_geo_item.
Proof. apply consumes_bind_l; [auto with go|]. intros t. apply consumes_bind_0; [apply (consumes_0 1), consumes_string|auto with go]. Qed.
Lemma consumes_entry : consumes 1 read_geo_entry.
Proof.
  apply consumes_bind_l; [apply consumes_string|]. intros code. apply consumes_bind_0; [apply (consumes_0 1), consumes_ReadUvarint|]. intros i.
  apply consumes_bind_0; [apply (consumes_0 1), consumes_ReadUvarint|]. intros n. destruct (_ || _); auto with go.
Qed.
Lemma geosite_Read_safe r code : safe (geosite_Read r code).
Proof.
  unfold geosite_Read. destruct (_ !! code); [|done]. apply safe_bind; [|by intros [items ?] _].
  apply (consumes_safe 0), consumes_read_range, consumes_item.
Qed.
Lemma readMetadata_safe file : safe (readMetadata file).
Proof.
  unfold readMetadata. apply safe_bind; [apply (consumes_safe 1), consumes_ReadByte|]. intros [v b1] _. destruct (negb _); [done|].
  apply safe_bind; [apply (consumes_safe 1), consumes_ReadUvarint|]. intros [n b2] _.
  apply safe_bind; [apply (consumes_safe 0), consumes_read_range, consumes_entry|]. by intros [entries b3] _.
Qed.

(** C35: geosite files.  Reading any file, and any code of it, ends with a result or
    an error.  The file written for lists of domains has their codes, and each code
    is read with its list; the rule of the merged lists of several codes is the
    rule of the lists one after the other. *)
Theorem geosite_roundtrip domains : storable domains ->
  (forall file, safe (NewGeoReader file)) /\ (forall r code, safe (geosite_Read r code))
  /\ exists r codes, NewGeoReader (geosite_Write domains) = Ok (r, codes)
     /\ Permutation codes (map fst (map_to_list domains))
     /\ (forall code items, domains !! code = Some items -> geosite_Read r code = Ok items)
     /\ (forall code, domains !! code = None -> exists e, geosite_Read r code = Err e)
     /\ forall lists, geosite_Merge (map geosite_Compile lists) = geosite_Compile (concat lists).
Proof.
  intros Hst. split; [intros file; apply safe_bind; [apply readMetadata_safe|done]|]. split; [apply geosite_Read_safe|].
  destruct (read_written domains Hst) as (r & Hr & Hnone & Hsome). exists r, (map fst (map_to_list (g_domainIndex r))). unfold NewGeoReader. rewrite Hr. split; [done|].
  assert (Hread : forall code items, domains !! code = Some items -> geosite_Read r code = Ok items).
  { intros code items Hc. assert (Hin : code ∈ geo_keys domains) by (apply geo_keys_in; by exists items). apply list_elem_of_split in Hin as (before & after & Hk).
    destruct (Hsome _ _ _ Hk) as (Hi & Hn & Hd). unfold geosite_Read. rewrite Hi, Hn. cbn [default from_option id]. rewrite Hd, (read_items domains Hst _ _ _ Hk).
    cbn [res_bind]. unfold items_of. by rewrite Hc. }
  split; [|split; [done|]; split].
  - apply NoDup_Permutation; [apply NoDup_fst_map_to_list..|]. intros code. rewrite <- (geo_keys_perm domains). rewrite list_elem_of_fmap. split.
    + intros ([c i] & -> & Hin). apply elem_of_map_to_list in Hin. cbn. destruct (decide (c ∈ geo_keys domains)) as [|Hn]; [done|]. apply Hnone in Hn. congruence.
    + intros Hin. destruct (g_domainIndex r !! code) as [i|] eqn:E; [|by apply Hnone in E]. exists (code, i). split; [done|]. by apply elem_of_map_to_list.
  - intros code Hc. unfold geosite_Read. rewrite (proj2 (Hnone code)); [by eexists|]. rewrite geo_keys_in, Hc. by intros [? ?].
  - apply compile_merge.
Qed.

Definition example_domains : gmap string (list Item) :=
  {["cn" := [mkItem 0 "baidu.com"; mkItem 1 ".cn"]; "test" := []]}.

Lemma geosite_roundtrip_witness : exists r codes, NewGeoReader (geosite_Write example_domains) = Ok (r, codes)
  /\ geosite_Read r "cn" = Ok [mkItem 0 "baidu.com"; mkItem 1 ".cn"] /\ geosite_Read r "test" = Ok [].
Proof.
  assert (Hst : storable example_domains).
  { split; [vm_compute; congruence|vm_compute; reflexivity|].
    intros code items H. unfold example_domains in H. apply lookup_insert_Some in H as [[<- _]|[_ H]]; [vm_compute; reflexivity|].
    apply lookup_singleton_Some in H as [<- _]. vm_compute. reflexivity. }
  destruct (geosite_roundtrip example_domains Hst) as (_ & _ & r & codes & Hr & _ & Hread & _). exists r, codes.
  split; [exact Hr|]. split; apply Hread; reflexivity.
Defined.
