(* ===== verification/AdGuard.v ===== *)
(** AdGuard rule lists: src/common/convertor/adguard, from the lines of a list to the
    options of a rule set, and back. *)

From S2P Require Import Prelude NetAddr GoStrings RuleContext RuleEngine RuleSetOptions.

(** [M.IsDomainName] and [M.ParseAddr] of github.com/sagernet/sing. *)
Class AdGuardPkg := {
  IsDomainName : string -> bool;
  M_ParseAddr : string -> Addr;
}.

Record agdguardRuleLine := mkRuleLine {
  l_ruleLine : string;
  l_isRawDomain : bool;
  l_isExclude : bool;
  l_isSuffix : bool;
  l_hasStart : bool;
  l_hasEnd : bool;
  l_isRegexp : bool;
  l_isImportant : bool;
}.

(** * Strings *)

Definition HasSuffix (s p : string) : bool := HasPrefix (of_chars (rev (chars s))) (of_chars (rev (chars p))).
Definition TrimSuffix (s p : string) : string := if HasSuffix s p then take_str (String.length s - String.length p) s else s.
Definition ReplaceAll_char (s : string) (c d : Ascii.ascii) : string := of_chars (map (fun x => if bool_decide (x = c) then d else x) (chars s)).

(** [common.SubstringBefore] and [common.SubstringAfter]. *)
Definition SubstringBefore (s sub : string) : string := match Index_str s sub with Some i => take_str i s | None => s end.
Definition SubstringAfter (s sub : string) : string := match Index_str s sub with Some i => drop_str (i + String.length sub) s | None => s end.

(** [s[i:j]] *)
Definition slice_str (s : string) (i j : Z) : res string := let! l := slice (chars s) i j in Ok (of_chars l).

(** The lines a [bufio.Scanner] finds: without a carriage return at the end, up to
    the first that does not fit its buffer of 64 KiB. *)
Definition drop_cr (s : string) : string := TrimSuffix s (String (byte_ascii 13) "").
Fixpoint scanned (lines : list string) : list string :=
  match lines with
  | [] => []
  | s :: lines' => if Z.of_nat (String.length s) <? 65536 then drop_cr s :: scanned lines' else []
  end.
Definition Scan_lines (text : string) : list string :=
  let lines := Split text (byte_ascii 10) in
  scanned (match rev lines with EmptyString :: l => rev l | _ => lines end).

(** [netip.Addr.IsUnspecified] *)
Definition IsUnspecified (a : Addr) : bool := bool_decide (a = AddrFrom4 0) || bool_decide (a = AddrFrom16 0).

Section AdGuard.
Context {Env : RuleEnv} {Pkg : AdGuardPkg}.

(** * Lines *)

Definition ignoreIPCIDRRegexp (ruleLine : string) : bool :=
  let ruleLine :=
    if HasPrefix ruleLine "(http?:\/\/)" then drop_str 12 ruleLine
    else if HasPrefix ruleLine "(https?:\/\/)" then drop_str 13 ruleLine
    else if HasPrefix ruleLine "^" then drop_str 1 ruleLine else ruleLine in
  is_ok (ParseUint (SubstringBefore ruleLine "\.") 8) || is_ok (ParseUint (SubstringBefore ruleLine ".") 8).

(** The name of a line of a hosts file; an empty one for an address that does not block. *)
Definition parseAdGuardHostLine (ruleLine : string) : res string :=
  match Index_str ruleLine " " with
  | None => Err ErrInvalid
  | Some i =>
      let! address := netip_ParseAddr (take_str i ruleLine) in
      if negb (IsUnspecified address) then Ok ""
      else
        let domain := drop_str (i + 1) ruleLine in
        if negb (IsDomainName domain) then Err (ENew "invalid domain name") else Ok domain
  end.

Definition parseADGuardIPCIDRLine (ruleLine : string) : res Prefix :=
  let isPrefix := HasSuffix ruleLine "." in
  let ruleLine := if isPrefix then take_str (String.length ruleLine - 1) ruleLine else ruleLine in
  let ruleStringParts := Split ruleLine "."%char in
  if (4 <? zlen ruleStringParts) || ((zlen ruleStringParts <? 4) && negb isPrefix) then Err ErrInvalid
  else
    let! ruleParts := res_map (fun part => ParseUint part 8) ruleStringParts in
    let bitLen := zlen ruleParts * 8 in
    Ok (PrefixFrom (AddrFrom4 (be_combine (ruleParts ++ repeat 0 (4 - length ruleParts)))) bitLen).

(** The modifiers after a dollar sign: whether the rule is important, or nothing if
    one of them is not supported. *)
Fixpoint parse_params (params : list string) (isImportant : bool) : option bool :=
  match params with
  | [] => Some isImportant
  | param :: params' =>
      match Split param "="%char with
      | [name] => if bool_decide (name = "important") then parse_params params' true else None
      | [name; value] =>
          if bool_decide (name = "important") then parse_params params' true
          else if bool_decide (name = "dnsrewrite") && IsUnspecified (M_ParseAddr value) then parse_params params' isImportant
          else None
      | _ => None
      end
  end.

(** Whether a pattern that is no regular expression has to be ignored. *)
Definition unsupported_pattern (ruleLine : string) : bool :=
  existsb (Contains_str ruleLine) ["/"; "?"; "&"; "["; "]"; "("; ")"; "!"; "#"; "~"]
  || bool_decide (ruleLine = "")
  || (let domainCheck := if HasPrefix ruleLine "." || HasPrefix ruleLine "-" then "r" +:+ ruleLine else ruleLine in
      negb (IsDomainName (ReplaceAll_char domainCheck "*"%char "x"%char))).

(** A line without a rule, one that is ignored, or a rule. *)
Inductive line_result := LineSkipped | LineIgnored | LineRule (line : agdguardRuleLine).

(** The pattern, when modifiers are gone. *)
Definition parse_pattern (ruleLine : string) (isImportant : bool) : res line_result :=
  let '(ruleLine, isExclude) := if HasPrefix ruleLine "@@" then (drop_str 2 ruleLine, true) else (ruleLine, false) in
  let ruleLine := TrimSuffix ruleLine "|" in
  let '(ruleLine, isSuffix, hasStart) :=
    if HasPrefix ruleLine "||" then (drop_str 2 ruleLine, true, false)
    else if HasPrefix ruleLine "|" then (drop_str 1 ruleLine, false, true) else (ruleLine, false, false) in
  let '(ruleLine, hasEnd) := if HasSuffix ruleLine "^" then (take_str (String.length ruleLine - 1) ruleLine, true) else (ruleLine, false) in
  if HasPrefix ruleLine "/" && HasSuffix ruleLine "/" then
    let! ruleLine := slice_str ruleLine 1 (Z.of_nat (String.length ruleLine) - 1) in
    Ok (if ignoreIPCIDRRegexp ruleLine then LineIgnored
        else LineRule (mkRuleLine ruleLine false isExclude isSuffix hasStart hasEnd true isImportant))
  else
    let '(ruleLine, isSuffix) := if Contains_str ruleLine "://" then (SubstringAfter ruleLine "://", true) else (ruleLine, isSuffix) in
    Ok (if unsupported_pattern ruleLine then LineIgnored
        else LineRule (mkRuleLine ruleLine false isExclude isSuffix hasStart hasEnd false isImportant)).

Definition parse_line (ruleLine : string) : res line_result :=
  if bool_decide (ruleLine = "") || HasPrefix ruleLine "!" || HasPrefix ruleLine "#" then Ok LineSkipped
  else if IsDomainName ruleLine then Ok (LineRule (mkRuleLine ruleLine true false false false false false false))
  else
    match parseAdGuardHostLine ruleLine with
    | Ok hostLine =>
        Ok (if bool_decide (hostLine = "") then LineSkipped else LineRule (mkRuleLine hostLine true false false true true false false))
    | _ =>
        let ruleLine := TrimSuffix ruleLine "|" in
        if negb (HasPrefix ruleLine "/") && Contains_str ruleLine "$" then
          match parse_params (Split (SubstringAfter ruleLine "$") ","%char) false with
          | None => Ok LineIgnored
          | Some isImportant => parse_pattern (SubstringBefore ruleLine "$") isImportant
          end
        else parse_pattern ruleLine false
    end.

Fixpoint parse_lines (lines : list string) : res (list agdguardRuleLine) :=
  match lines with
  | [] => Ok []
  | line :: lines' =>
      let! r := parse_line line in
      let! rest := parse_lines lines' in
      Ok (match r with LineRule x => x :: rest | _ => rest end)
  end.

(** * Options *)

Definition mapDomain (it : agdguardRuleLine) : string :=
  let ruleLine := if l_isSuffix it then "||" +:+ l_ruleLine it else if l_hasStart it then "|" +:+ l_ruleLine it else l_ruleLine it in
  if l_hasEnd it then ruleLine +:+ "^" else ruleLine.

Definition selected (isImportant isRegexp isExclude : bool) (ruleLines : list agdguardRuleLine) : list string :=
  map mapDomain (List.filter (fun it => Bool.eqb (l_isImportant it) isImportant && Bool.eqb (l_isRegexp it) isRegexp
                                   && Bool.eqb (l_isExclude it) isExclude) ruleLines).

Definition default_options (domain domainRegex : list string) (invert : bool) : OptDefaultHeadlessRule :=
  zeroOptDefaultHeadlessRule <| o_AdGuardDomain := Some domain |> <| o_DomainRegex := Some domainRegex |> <| o_Invert := invert |>.
Definition default_rule (domain domainRegex : list string) (invert : bool) : OptHeadlessRule :=
  mkOptHeadlessRule RuleTypeDefault (default_options domain domainRegex invert) zeroOptLogicalHeadlessRule.

(** A rule for some patterns before the current one, if there are such patterns. *)
Definition with_rule (mode : string) (domain domainRegex : list string) (invert : bool) (currentRule : OptHeadlessRule) : OptHeadlessRule :=
  if nonempty domain || nonempty domainRegex then
    mkOptHeadlessRule RuleTypeLogical zeroOptDefaultHeadlessRule
      (zeroOptLogicalHeadlessRule <| o_Mode := mode |> <| o_Rules := Some [default_rule domain domainRegex invert; currentRule] |>)
  else currentRule.

Definition ToOptions (text : string) : res (list OptHeadlessRule) :=
  let! ruleLines := parse_lines (Scan_lines text) in
  if negb (nonempty ruleLines) then Err (ENew "AdGuard rule-set is empty or all rules are unsupported")
  else if forallb l_isRawDomain ruleLines then
    Ok [mkOptHeadlessRule RuleTypeDefault (zeroOptDefaultHeadlessRule <| o_Domain := Some (map l_ruleLine ruleLines) |>) zeroOptLogicalHeadlessRule]
  else
    let currentRule := default_rule (selected false false false ruleLines) (selected false true false ruleLines) false in
    let currentRule := with_rule LogicalTypeAnd (selected false false true ruleLines) (selected false true true ruleLines) true currentRule in
    let currentRule := with_rule LogicalTypeOr (selected true false false ruleLines) (selected true true false ruleLines) false currentRule in
    let currentRule := with_rule LogicalTypeAnd (selected true false true ruleLines) (selected true true true ruleLines) true currentRule in
    Ok [currentRule].

(** ** Back to lines *)

Record patterns := mkPatterns { p_domain : list string; p_regex : list string }.
Definition no_patterns (p : patterns) : bool := negb (nonempty (p_domain p)) && negb (nonempty (p_regex p)).

Record adguard_sets := mkSets { importantSet : patterns; importantExcludeSet : patterns; plainSet : patterns; excludeSet : patterns }.

Definition default_patterns (o : OptDefaultHeadlessRule) : patterns := mkPatterns (elems (o_AdGuardDomain o)) (elems (o_DomainRegex o)).

Definition ErrInvalidBinary : error := ENew "invalid binary AdGuard rule-set".

(** The loop [parse], which goes on with the second rule of a logical rule; a rule of
    another type is looked at forever. *)
Fixpoint from_rule (rule : OptHeadlessRule) (sets : adguard_sets) : res adguard_sets :=
  match rule with
  | mkOptHeadlessRule ty d l =>
      if bool_decide (ty = RuleTypeLogical) then
        match o_Rules l with
        | Some [mkOptHeadlessRule ty0 first _; second] =>
            if negb (bool_decide (ty0 = RuleTypeDefault)) then Err ErrInvalidBinary
            else if bool_decide (o_Mode l = LogicalTypeAnd) && o_Invert first then
              if no_patterns (default_patterns first) then Err ErrInvalidBinary
              else if no_patterns (importantExcludeSet sets)
              then from_rule second (mkSets (importantSet sets) (default_patterns first) (plainSet sets) (excludeSet sets))
              else from_rule second (mkSets (importantSet sets) (importantExcludeSet sets) (plainSet sets) (default_patterns first))
            else if bool_decide (o_Mode l = LogicalTypeOr) && negb (o_Invert first) then
              if no_patterns (default_patterns first) then Err ErrInvalidBinary
              else from_rule second (mkSets (default_patterns first) (importantExcludeSet sets) (plainSet sets) (excludeSet sets))
            else Err ErrInvalidBinary
        | _ => Err ErrInvalidBinary
        end
      else if bool_decide (ty = RuleTypeDefault) then
        if no_patterns (default_patterns d) then Err ErrInvalidBinary
        else Ok (mkSets (importantSet sets) (importantExcludeSet sets) (default_patterns d) (excludeSet sets))
      else OutOfFuel
  end.

Definition newline : string := String (byte_ascii 10) "".
Definition written_lines (exclude important : string) (p : patterns) : list string :=
  map (fun s => exclude +:+ s +:+ important) (p_domain p) ++ map (fun s => exclude +:+ "/" +:+ s +:+ "/" +:+ important) (p_regex p).

Definition FromOptions (rules : list OptHeadlessRule) : res string :=
  match rules with
  | [rule] =>
      let empty := mkPatterns [] [] in
      let! sets := from_rule rule (mkSets empty empty empty empty) in
      Ok (String.concat "" (map (fun s => s +:+ newline)
            (written_lines "" "$important" (importantSet sets) ++ written_lines "@@" "$important" (importantExcludeSet sets)
             ++ written_lines "" "" (plainSet sets) ++ written_lines "@@" "" (excludeSet sets))))
  | _ => Err ErrInvalidBinary
  end.

End AdGuard.
