(* ===== verification/AdGuardProofs.v ===== *)
(** What a converted AdGuard list matches. *)

From S2P Require Import Prelude NetAddr GoStrings RuleContext RuleItems RuleEngine RuleSpec RuleExamples RuleTheorems RuleSetOptions RuleBuild RuleSetTheorems AdGuard.

Section Meaning.
Context {Env : RuleEnv} {Pkg : AdGuardPkg}.
Variable ctx : BuildContext.

(** Whether the host of a connection is matched by patterns or by regular
    expressions. *)
Definition hits (md : InboundContext) (domain regex : list string) : bool :=
  let strategy := buildStrategy ctx 0 in
  (nonempty regex && match NewDomainRegexItem regex strategy with Ok i => DomainRegexItem_Match i md | _ => false end)
  || (nonempty domain && AdGuardDomainItem_Match (NewAdGuardDomainItem domain strategy) md).

(** A rule that has destination addresses only. *)
Lemma eval_destinations (r : abstractDefaultRule HeadlessRule) md : items r = [] -> sourceAddressItems r = [] -> sourcePortItems r = [] ->
  destinationIPCIDRItems r = [] -> destinationPortItems r = [] -> ruleSetItem r = None -> destinationAddressItems r <> [] -> allItems r <> [] ->
  eval (DefaultHeadlessRule r) md = xorb (invert r) (matchAnyItem (destinationAddressItems r) md).
Proof.
  intros H1 H2 H3 H4 H5 H6 Hd Ha. cbn [eval]. unfold default_holds, items_hold, all_groups, group_holds, group_required, group_satisfied, group_items.
  rewrite H1, H2, H3, H4, H5, H6. replace (if IPCIDRMatchSource md || IgnoreDestinationIPCIDRMatch md then [] else []) with (@nil RuleItem) by (by destruct (_ || _)).
  replace (if IPCIDRMatchSource md then [] else []) with (@nil RuleItem) by (by destruct (IPCIDRMatchSource md)).
  destruct (allItems r); [done|]. destruct (destinationAddressItems r); [done|]. cbn [nonempty forallb app negb orb andb]. by rewrite app_nil_r, andb_true_r.
Qed.

Lemma default_options_valid domain regex inv : OptDefaultHeadlessRule_IsValid (default_options domain regex inv) = true.
Proof. reflexivity. Qed.
Lemma default_options_strategy domain regex inv : o_DomainMatchStrategy (default_options domain regex inv) = 0.
Proof. reflexivity. Qed.
Lemma default_options_invert domain regex inv : o_Invert (default_options domain regex inv) = inv.
Proof. reflexivity. Qed.

Lemma append_absent step steps (r : abstractDefaultRule HeadlessRule) : step = Ok None -> append_items (step :: steps) r = append_items steps r.
Proof. by intros ->. Qed.

Lemma append_present step s i steps (r : abstractDefaultRule HeadlessRule) : step = Ok (Some (s, i)) ->
  append_items (step :: steps) r = append_items steps (append_item s i r).
Proof. by intros ->. Qed.
Lemma append_failed step steps (r r' : abstractDefaultRule HeadlessRule) : append_items (step :: steps) r = Ok r' -> exists o, step = Ok o.
Proof. cbn. destruct step; try done. by exists a. Qed.
Lemma append_none (r : abstractDefaultRule HeadlessRule) : append_items [] r = Ok r.
Proof. done. Qed.

#[local] Opaque append_items.

Lemma default_steps domain regex inv strategy o (r r' : abstractDefaultRule HeadlessRule) :
  append_items (headless_steps ctx strategy o) r = Ok r' -> o = default_options domain regex inv ->
  exists l, (if nonempty regex then exists i, NewDomainRegexItem regex strategy = Ok i /\ l = [I_DomainRegex i] else l = [])
  /\ let l := l ++ (if nonempty domain then [I_AdGuardDomain (NewAdGuardDomainItem domain strategy)] else []) in
     r' = fold_left (fun r i => append_item slotDestinationAddress i r) l r.
Proof.
  intros H ->. revert H. change (default_options domain regex inv) with (mkOptDefaultHeadlessRule None None None None None (Some regex) None None None None None None None None None
    None None None false false None None 0 None None inv None None None (Some domain) None).
  unfold headless_steps. cbn [slice_set elems o_QueryType o_Network o_Domain o_DomainSuffix o_DomainKeyword o_DomainRegex o_SourceIPCIDR o_IPCIDR o_SourcePort o_SourcePortRange
    o_Port o_PortRange o_ProcessName o_ProcessPath o_ProcessPathRegex o_PackageName o_PackageNameRegex o_NetworkType o_NetworkIsExpensive o_NetworkIsConstrained
    o_WIFISSID o_WIFIBSSID o_DomainMatchStrategy o_NetworkInterfaceAddress o_DefaultInterfaceAddress o_DomainMatcher o_SourceIPSet o_IPSet o_AdGuardDomain o_AdGuardDomainMatcher
    nonempty orb compiled]. rewrite !andb_false_r, !append_absent by done. intros H.
  change (slice_set (Some domain)) with (nonempty domain) in H. change (slice_set (Some regex)) with (nonempty regex) in H.
  assert (Hd : forall r : abstractDefaultRule HeadlessRule, append_items [if nonempty domain then when true slotDestinationAddress (Ok (I_AdGuardDomain (NewAdGuardDomainItem domain strategy))) else Ok None] r
    = Ok (fold_left (fun r i => append_item slotDestinationAddress i r) (if nonempty domain then [I_AdGuardDomain (NewAdGuardDomainItem domain strategy)] else []) r)).
  { intros r0. destruct (nonempty domain); [erewrite append_present by done|rewrite append_absent by done]; apply append_none. }
  destruct regex as [|x regex]; cbn [nonempty] in *.
  - exists []. split; [done|]. rewrite !append_absent, Hd in H by done. by injection H.
  - destruct (append_failed _ _ _ _ H) as [o Ho]. destruct (NewDomainRegexItem (x :: regex) strategy) as [i| | |]; try done. exists [I_DomainRegex i]. split; [by exists i|].
    erewrite append_present in H by done. rewrite !append_absent, Hd in H by done. by injection H.
Qed.

#[local] Opaque res_bind headless_steps.

Lemma new_default_rule o h : (let! rule := NewDefaultHeadlessRule ctx o in Ok (DefaultHeadlessRule rule)) = Ok h ->
  exists rule, append_items (headless_steps ctx (buildStrategy ctx (o_DomainMatchStrategy o)) o)
    (mkAbstractDefaultRule [] [] [] [] [] [] [] None (buildStrategy ctx (o_DomainMatchStrategy o)) 0 (o_Invert o)) = Ok rule
  /\ h = DefaultHeadlessRule (mkAbstractDefaultRule (items rule) (sourceAddressItems rule) (sourcePortItems rule)
        (destinationAddressItems rule) (destinationIPCIDRItems rule) (destinationPortItems rule) (allItems rule)
        (ruleSetItem rule) (rule_domainMatchStrategy rule) (headlessRuleCount rule) (invert rule)).
Proof.
  rewrite res_bind_ok. intros (r & Hr & [= <-]). unfold NewDefaultHeadlessRule in Hr. rewrite res_bind_ok in Hr. destruct Hr as (r' & Hr' & [= <-]). by exists r'.
Qed.

Lemma new_default o l h : OptDefaultHeadlessRule_IsValid o = true -> NewHeadlessRule ctx (mkOptHeadlessRule RuleTypeDefault o l) = Ok h ->
  exists rule, append_items (headless_steps ctx (buildStrategy ctx (o_DomainMatchStrategy o)) o)
    (mkAbstractDefaultRule [] [] [] [] [] [] [] None (buildStrategy ctx (o_DomainMatchStrategy o)) 0 (o_Invert o)) = Ok rule
  /\ h = DefaultHeadlessRule (mkAbstractDefaultRule (items rule) (sourceAddressItems rule) (sourcePortItems rule)
        (destinationAddressItems rule) (destinationIPCIDRItems rule) (destinationPortItems rule) (allItems rule)
        (ruleSetItem rule) (rule_domainMatchStrategy rule) (headlessRuleCount rule) (invert rule)).
Proof.
  intros Hv. rewrite NewHeadlessRule_default, Hv. apply new_default_rule.
Qed.

(** A rule to which destination addresses were appended. *)
Lemma fold_append l : forall r : abstractDefaultRule HeadlessRule,
  let r' := fold_left (fun r i => append_item slotDestinationAddress i r) l r in
  items r' = items r /\ sourceAddressItems r' = sourceAddressItems r /\ sourcePortItems r' = sourcePortItems r
  /\ destinationIPCIDRItems r' = destinationIPCIDRItems r /\ destinationPortItems r' = destinationPortItems r /\ ruleSetItem r' = ruleSetItem r
  /\ invert r' = invert r /\ destinationAddressItems r' = destinationAddressItems r ++ l /\ allItems r' = allItems r ++ map AnyRuleItem l.
Proof.
  induction l as [|i l IH]; intros r; cbn [fold_left map]; [by rewrite !app_nil_r|].
  destruct (IH (append_item slotDestinationAddress i r)) as (H1 & H2 & H3 & H4 & H5 & H6 & H7 & H8 & H9). cbv zeta.
  rewrite H1, H2, H3, H4, H5, H6, H7, H8, H9. cbn [append_item items sourceAddressItems sourcePortItems destinationIPCIDRItems destinationPortItems ruleSetItem invert destinationAddressItems allItems].
  by rewrite <- !app_assoc.
Qed.

(** The rule built for patterns. *)
Lemma new_default_hits domain regex inv h : NewHeadlessRule ctx (default_rule domain regex inv) = Ok h ->
  exists r l, h = DefaultHeadlessRule r /\ items r = [] /\ sourceAddressItems r = [] /\ sourcePortItems r = [] /\ destinationIPCIDRItems r = []
  /\ destinationPortItems r = [] /\ ruleSetItem r = None /\ invert r = inv /\ destinationAddressItems r = l /\ allItems r = map AnyRuleItem l
  /\ (l = [] <-> nonempty domain || nonempty regex = false) /\ forall md, matchAnyItem l md = hits md domain regex.
Proof.
  intros Hb. unfold default_rule in Hb. pose proof (default_options_valid domain regex inv) as Hv. pose proof (default_options_strategy domain regex inv) as Hs.
  pose proof (default_options_invert domain regex inv) as Hi. remember (default_options domain regex inv) as o eqn:Ho.
  apply new_default in Hb as (r' & Hr' & ->); [|done]. rewrite Hs, Hi in Hr'.
  unfold hits. set (strategy := buildStrategy ctx 0) in *. apply (default_steps domain regex inv) in Hr' as (l & Hl & ->); [|done].
  set (l' := l ++ _). set (r0 := mkAbstractDefaultRule [] [] [] [] [] [] [] None strategy 0 inv).
  destruct (fold_append l' r0) as (H1 & H2 & H3 & H4 & H5 & H6 & H7 & H8 & H9). set (r' := fold_left _ l' r0) in *. clearbody r'.
  eexists _, l'. split; [reflexivity|]. cbn [items sourceAddressItems sourcePortItems destinationIPCIDRItems destinationPortItems ruleSetItem destinationAddressItems allItems invert].
  do 9 (split; [assumption|]). split.
  - unfold l'. destruct (nonempty regex); [destruct Hl as (i & _ & ->)|subst l]; by destruct (nonempty domain).
  - intros md. unfold l'. rewrite matchAnyItem_app. f_equal.
    + destruct (nonempty regex); [|by subst l]. destruct Hl as (i & -> & ->). cbn [matchAnyItem existsb RuleItem_Match]. by rewrite orb_false_r.
    + destruct (nonempty domain); [|done]. cbn [matchAnyItem existsb RuleItem_Match]. by rewrite orb_false_r.
Qed.

Lemma build_default domain regex inv h md : NewHeadlessRule ctx (default_rule domain regex inv) = Ok h ->
  eval h md = if nonempty domain || nonempty regex then xorb inv (hits md domain regex) else true.
Proof.
  intros Hb. apply new_default_hits in Hb as (r & l & -> & H1 & H2 & H3 & H4 & H5 & H6 & H7 & H8 & H9 & Hl & Hm).
  destruct (nonempty domain || nonempty regex).
  - assert (l <> []) by (intros E%Hl; done). rewrite eval_destinations; [|try done..]; [by rewrite H7, H8, Hm|by rewrite H8|rewrite H9; by destruct l].
  - cbn [eval]. unfold default_holds. rewrite H9, (proj2 Hl) by done. done.
Qed.

Lemma hits_reset md domain regex : hits (ResetRuleCache md) domain regex = hits md domain regex.
Proof. reflexivity. Qed.
Lemma hits_none md : hits md [] [] = false.
Proof. reflexivity. Qed.

(** A rule for exceptions, which takes precedence by conjunction, or for important
    patterns, which does by disjunction. *)
Definition layer (exception : bool) (b rest : bool) : bool := if exception then negb b && rest else b || rest.
Definition layer_mode (exception : bool) : string := if exception then LogicalTypeAnd else LogicalTypeOr.

Lemma build_with exception domain regex cur (f : InboundContext -> bool) h :
  (forall h, NewHeadlessRule ctx cur = Ok h -> forall md, eval h md = f md) -> (forall md, f (ResetRuleCache md) = f md) ->
  NewHeadlessRule ctx (with_rule (layer_mode exception) domain regex exception cur) = Ok h ->
  forall md, eval h md = layer exception (hits md domain regex) (f md).
Proof.
  intros Hcur Hf Hb md. unfold with_rule in Hb. destruct (nonempty domain || nonempty regex) eqn:Hne.
  - rewrite NewHeadlessRule_logical in Hb. apply res_bind_ok in Hb as (v & _ & Hb). destruct (negb v); [done|].
    rewrite NewLogicalHeadlessRule_elems in Hb by (destruct exception; [by left|by right]).
    apply res_bind_ok in Hb as (lr & Hlr & [= <-]). apply res_bind_ok in Hlr as (hs & Hhs & [= <-]). apply sub_rules_Forall2 in Hhs.
    apply Forall2_cons_inv_l in Hhs as (h1 & hs1 & H1 & Hhs & ->). apply Forall2_cons_inv_l in Hhs as (h2 & hs2 & H2 & Hhs & ->).
    apply Forall2_nil_inv_l in Hhs as ->. pose proof (fun m => build_default _ _ _ _ m H1) as E1. pose proof (Hcur _ H2) as E2. rewrite Hne in E1.
    cbn [eval]. unfold logical_holds. cbn [logical_invert logical_mode logical_rules]. cbn [forallb existsb]. rewrite E1, E2, Hf, hits_reset.
    destruct exception; cbn [layer]; [by rewrite andb_true_r|by rewrite orb_false_r].
  - apply orb_false_iff in Hne as [Hd Hr]. destruct domain, regex; try done. rewrite hits_none, (Hcur h Hb). by destruct exception.
Qed.

(** What a connection hits among the plain patterns; without any, the rule left is
    one without conditions. *)
Definition plain_hits (md : InboundContext) (domain regex : list string) : bool :=
  if nonempty domain || nonempty regex then hits md domain regex else true.

(** C34: what a converted list matches.  When a list has been read and has a line that
    is no plain name, the one rule it is converted to matches a connection exactly if no
    important exception hits it, and either an important pattern hits it, or no
    exception does and a pattern does; a list without patterns that are neither
    important nor exceptions counts as one that has a pattern for everything. *)
Theorem adguard_meaning text ruleLines rules h md :
  parse_lines (Scan_lines text) = Ok ruleLines -> forallb l_isRawDomain ruleLines = false ->
  ToOptions text = Ok rules -> res_map (NewHeadlessRule ctx) rules = Ok [h] ->
  IgnoreDestinationIPCIDRMatch md = false -> DeferredIPCIDRMatchGroups md = 0 ->
  let set := fun isImportant isExclude hit => hit md (selected isImportant false isExclude ruleLines) (selected isImportant true isExclude ruleLines) in
  Match h md = (negb (set true true hits) && (set true false hits || negb (set false true hits) && set false false plain_hits), md).
Proof.
  intros Hp Hraw Ho Hb Hi Hd set. rewrite engine_known by done. f_equal. unfold ToOptions in Ho. rewrite Hp in Ho. cbn [res_bind] in Ho.
  destruct (nonempty ruleLines); [|done]. cbn [negb] in Ho. rewrite Hraw in Ho. injection Ho as <-. cbn [res_map] in Hb. apply res_bind_ok in Hb as (h' & Hb & Hh). apply res_bind_ok in Hh as (hs & [= <-] & [= ->]).
  refine (build_with true _ _ _ (fun md => layer false (hits md (selected true false false ruleLines) (selected true true false ruleLines))
    (layer true (hits md (selected false false true ruleLines) (selected false true true ruleLines))
      (plain_hits md (selected false false false ruleLines) (selected false true false ruleLines)))) h _ (fun _ => eq_refl) Hb md).
  clear. intros h Hh md. refine (build_with false _ _ _ (fun md => layer true (hits md (selected false false true ruleLines) (selected false true true ruleLines))
      (plain_hits md (selected false false false ruleLines) (selected false true false ruleLines))) h _ (fun _ => eq_refl) Hh md).
  clear. intros h Hh md. refine (build_with true _ _ _ (fun md => plain_hits md (selected false false false ruleLines) (selected false true false ruleLines)) h _ (fun _ => eq_refl) Hh md).
  clear. intros h Hh md. by rewrite (build_default _ _ _ _ md Hh).
Qed.
End Meaning.

(** * Examples *)

#[local] Existing Instance example_env.
Definition example_adguard : AdGuardPkg := {|
  IsDomainName s := nonempty (chars s) && forallb (fun c => (97 <=? ascii_byte c) && (ascii_byte c <=? 122) || bool_decide (c = "."%char)) (chars s);
  M_ParseAddr _ := zeroAddr;
|}.
#[local] Existing Instance example_adguard.

Definition example_list : string := "||ads^" +:+ newline +:+ "@@||good^" +:+ newline +:+ "bad$important" +:+ newline +:+ "! a comment" +:+ newline +:+ "/track/" +:+ newline.
Definition example_adguard_context : BuildContext := mkBuildContext true None.

Definition example_rules : list OptHeadlessRule := match ToOptions example_list with Ok rules => rules | _ => [] end.
Definition example_headless : HeadlessRule := match res_map (NewHeadlessRule example_adguard_context) example_rules with Ok [h] => h | _ => DefaultHeadlessRule (example_default [] [] [] None false) end.
Definition example_ruleLines : list agdguardRuleLine := match parse_lines (Scan_lines example_list) with Ok l => l | _ => [] end.

Definition example_md : InboundContext := example_query "track".

Lemma adguard_meaning_witness :
  let set := fun isImportant isExclude hit => hit example_md (selected isImportant false isExclude example_ruleLines) (selected isImportant true isExclude example_ruleLines) in
  Match example_headless example_md
  = (negb (set true true (hits example_adguard_context)) && (set true false (hits example_adguard_context)
       || negb (set false true (hits example_adguard_context)) && set false false (plain_hits example_adguard_context)), example_md).
Proof.
  refine (adguard_meaning example_adguard_context example_list example_ruleLines example_rules example_headless example_md _ _ _ _ _ _).
  - vm_cast_no_check (eq_refl (Ok example_ruleLines)).
  - vm_cast_no_check (eq_refl false).
  - vm_cast_no_check (eq_refl (Ok example_rules)).
  - vm_cast_no_check (eq_refl (Ok [example_headless])).
  - reflexivity.
  - reflexivity.
Defined.

(** A line of one slash makes the conversion panic. *)
Example slash_panics : (match ToOptions "/" with Panic _ => true | _ => false end) = true.
Proof. vm_compute. reflexivity. Qed.

(** Exceptions that are not important are written back as important ones when no
    exception is. *)
Example exceptions_become_important :
  (let! rules := ToOptions example_list in FromOptions rules)
  = Ok ("bad$important" +:+ newline +:+ "@@||good^$important" +:+ newline +:+ "||ads^" +:+ newline +:+ "/track/" +:+ newline).
Proof. vm_compute. reflexivity. Qed.

(** A list of exceptions is converted to a rule that matches everything else. *)
Example exceptions_match_everything :
  (match (let! rules := ToOptions ("@@good" +:+ newline) in res_map (NewHeadlessRule example_adguard_context) rules) with
   | Ok [h] => (fst (Match h (example_query "good")), fst (Match h (example_query "other")))
   | _ => (false, false)
   end) = (false, true).
Proof. vm_compute. reflexivity. Qed.
